(* ===== verification/_CoqProject ===== *)
-Q . S2P
Prelude.v
Sha256.v
Crypto.v
Base64.v
AesGcm.v
Wallet.v
Economy.v
Netparams.v
Merkle.v
Types.v
Pow.v
Vm.v
VmProps.v
Shl.v
ShlParse.v
ShlSem.v
ShlGen.v
ShlCorrect.v
State.v
StateStore.v
Strconv.v
StateInv.v
Demo.v
StateBlock.v
StateFrame.v
StateSupply.v
StateTyping.v
StateAtomic.v
StateValidators.v
StateRules.v
Forkchoice.v
Rendezvous.v
Pos.v
Consensus.v
Erasure.v
Mempool.v
Bloom.v
Chain.v
ChainProps.v
ChainReorg.v
ChainShards.v
StoreFiles.v
Peers.v
P2p.v
NetDemo.v
P2pProps.v
P2pAudit.v
P2pGossip.v
Node.v
NodeFrame.v
NodeSupply.v
ChainAccept.v
NodeProps.v
Network.v
NodePool.v
NodeRestart.v
Interleave.v
NodeProof.v
Version.v
Slctl.v
SlctlProps.v
Payment.v
ContractTools.v
Daemon.v
