(* ===== verification/Prelude.v ===== *)
(** * ShadowLedger: a verification library

    ShadowLedger is a small proof-of-storage blockchain written in Go: an account ledger
    with contracts, a chain of signed blocks whose bodies are cut into erasure-coded
    shards and spread over the nodes, an HTTP network layer, and the daemon that ties
    them together, with a command-line wallet beside it.  This library translates the
    packages under [src/internal/] and the two commands under [src/cmd/] into Rocq
    functions, one definition per Go function, and proves what makes them correct, alone
    and together.

    ** How the program is put together

    A node ([node]) owns a ledger ([state]), a disk store ([store]), a chain ([chain]), a
    pool of pending transactions ([mempool]) and a server ([p2p]).  The chain executes
    blocks on the ledger, asks an engine ([consensus]) who may sign them, keeps a tree of
    branches ([forkchoice]), cuts bodies and logs into shards ([erasure]) and stores the
    shards the node is responsible for ([rendezvous], [netparams]).  The ledger runs
    contracts in a stack machine ([vm]), whose code is compiled from SHL ([shl]).  The
    server answers other nodes, fetches shards, audits holders ([pos]) and syncs.  The
    commands are [slnode], the process around a node, and [slctl], which keeps key files,
    compiles contracts and posts transactions to a node.

    ** Files

    Foundations.
    - [Prelude]: bytes and 64-bit integers, results, the state, error and panic monad [M]
      with its triples ([wp], [triple], [preserves], [keeps]) and their hint databases,
      lemmas on lists, maps, orders and big-endian numbers.
    - [Sha256]: FIPS 180-4, executable.  [Crypto] (crypto/crypto.go): addresses and
      signatures; Ed25519 is the class [Ed25519] with the law that signatures verify.
    - [Economy], [Netparams], [Merkle], [Pow] (regpow, faucet), [Rendezvous], [Pos],
      [Bloom], [Mempool], [Forkchoice]: the package of that name, state and operations
      first, then its theorems.
    - [Types] (types/*.go): transactions, headers, blocks, logs, their encoders and
      decoders.  [Erasure]: the Reed-Solomon library is the class [ReedSolomon] with
      its laws [rs_laws].
    - [Strconv]: what the code uses of strconv, encoding/hex and bytes.TrimSpace.
      [Version]: the release check (version/*.go, [checkUpdate]).
    - [Base64] and [AesGcm]: encoding/base64 and AES-256-GCM, executable, with their test
      vectors.  [Wallet] (crypto/wallet.go, crypto/tok.go): key files, plain and sealed;
      scrypt and the JSON text are the class [WalletCodec] with the laws [codec_laws].

    Contracts.
    - [Vm] and [VmProps] (vm/vm.go): the interpreter, and its invariant: words are words,
      stack, gas, steps and logs are bounded, the host's state stays in order.
    - [Shl], [ShlParse], [ShlSem], [ShlGen], [ShlCorrect] (shl/*.go): lexer, parser and
      code generator; every literal is a word and parsing ends; a source semantics with
      gas; the generator with labels and fix-ups equals a one-pass assembler; compiled
      code runs as the source semantics says.

    The ledger (state/state.go).
    - [State]: accounts, validators, every transaction kind, [ApplyBlock] with its
      snapshots and rollback, contracts calling contracts, queries.
    - [StateStore]: contract storage as text and back.  [StateInv]: the frame lemmas every
      later file uses (which operation can change what).  [StateFrame]: execution does not
      read the events of the block before.  [Demo]: concrete inputs.
    - [StateBlock] no replay; [StateSupply] no inflation; [StateTyping] every field keeps
      its Go type through successes, failures and nested calls; [StateAtomic] a failed
      block is undone; [StateValidators] bonds and slashing; [StateRules] what each kind
      of transaction does.

    The chain (chain/chain.go, chain/reorg.go, store/store.go).
    - [Consensus]: the class [Engine] with the promise that an authorized header is
      signed, and its two implementations, fixed authority and proof of storage.
    - [Chain]: the store as maps, genesis, production, both ways blocks come in, reorgs,
      finality, sharded persistence, reconstruction, fast sync.
    - [ChainProps] production and linear ingestion; [ChainReorg] walks, reorganisation
      and sync; [ChainShards] reconstruction; [ChainAccept] blocks on the heaviest tip.
    - [StoreFiles]: the methods of the store over a file system, with its paths, file
      names and directory scans, and the proof that they are the maps of [Chain].

    The network and the node (p2p/*.go, node/*.go, chainparams).
    - [Peers]: the peer table and the ban list.  [P2p]: every handler of the control and
      shard channels and every client operation, as programs of [M Server]; what is
      outside is a [World].  [NetDemo]: concrete networks.
    - [P2pProps] fetching and reconstruction from liars; [P2pAudit] audits; [P2pGossip]
      gossip, bans, heads and sync.
    - [Node]: main-network constants, configuration, construction, genesis, sync,
      production, storage proofs, and the loop as a machine of events.
    - [NodeFrame]: a predicate of chain and pool that their operations keep is kept by
      every program of the node built from them (class [Framed]).
    - [NodeSupply]: the invariant of the books through every event a node can meet.
      [NodeProps]: what an honest producer makes spreads; one peer can stop it.
      [Network]: several nodes, blocks in flight, and the tip they come to share.
      [Interleave]: requests served between the actions of a tick.
      [NodePool]: what a tick takes from the pool and what becomes of it; one transaction
      can stop it too.  [NodeRestart]: stopping and starting again.  [NodeProof]: storage
      proofs from the disk to the election.

    The commands (cmd/slctl/main.go, cmd/slnode/main.go).
    - [Slctl]: every command as a program over the machine, the nodes it asks and what it
      prints.  [SlctlProps]: what a command that ends well has done at the node.
      [Payment]: from [slctl send] to the balances.  [ContractTools]: from an SHL source
      through [compile], [deploy] and [call] to its execution.
    - [Daemon]: the process around a node, with its key file and data directory.

    ** What the theorems show

    Money: balances and bonds never exceed what was minted, nor that the maximum supply,
    for a ledger executing blocks and for a whole node on an open network that serves
    requests while it works ([ledger_no_inflation], [busy_node_no_inflation],
    [emission_bounded]).
    Execution: a failed block is undone but for faucet claims, no transaction applies
    twice, every number stays a 64-bit word, the machine stays within its limits, compiled
    contracts mean what they say ([ApplyBlock_atomic], [ApplyBlock_no_replay],
    [ledger_typed], [ExecuteB_safe], [Compile_correct], [Compile_is_assembler]).
    Agreement: a block one node produces, others with its tip and ledger accept, linearly
    or by gossip, down to the timer tick that made it ([produced_block_accepted],
    [AcceptBlock_extends_tip], [produced_block_spreads]).  Nodes that produce in turn,
    under any delay, order, repetition or loss of the blocks, follow one history: equally
    informed nodes hold the same tip and ledger ([network_agrees]), and a node that is
    behind is brought level by the blocks it misses ([network_catches_up]).  Following the
    heaviest branch executes exactly that branch ([reorgToBest_spec]); a chain installed
    by sync was verified block by block ([SyncInstall_verified]); leaders are elected and
    checked alike ([leader_elected], [authorize_exact]).
    Users: a payment posted by [slctl] is in the pool, then in the next block, then in the
    balances ([commands_reach_pool], [production_tick], [payment_settles]); compiled
    contracts arrive and run as written ([toolchain]); keys survive their files
    ([tok_roundtrip], [LoadTok_checked]); proven storage counts ([storage_proof_counts]).
    Restart: a clean stop is invisible and the daemon comes back as the same node
    ([restart_resumes], [daemon_comes_back]).
    Data: bodies survive the loss of all but K shards, and reconstruct to the committed
    transactions or fail, from any disk and any peers ([erasure_roundtrip],
    [reconstruction_integrity], [network_reconstruction], [FetchShard_verified]); the
    store's files are the maps the chain works on ([store_refines]).
    Network: who is struck, banned and audited, and that bans end ([gossip_block_rules],
    [bans_expire], [audit_round]).
    Weak points, stated as theorems of what the code does: [sync_refuses_honest_chains],
    [future_tip_halts], [one_peer_stalls], [poison_stops_producer], [crash_loses_block],
    [synced_restart_deaf], [late_block_forged], [sync_undoes_blocks], and several in the
    component files.

    ** Modelling choices

    A [uint64] is a [Z] kept below 2^64 with every wrap written out; an [int] is signed
    and wraps through [i64].  A Go map is a [gmap]; where the order of [range] can show,
    the order is a parameter.  An operation that returns an error is a program of [M] or a
    [res]; a run-time panic (index out of range, nil, huge allocation) is the outcome
    PANIC, distinct from an error, and keeps the state of that moment.  Every method that
    locks is one atomic step.  JSON bodies are the values they decode to, None when they
    do not decode.

    Fuel.  Contract nesting uses [maxDepth] levels and the interpreter [maxSteps] turns,
    the bounds of the code itself, and the lemmas in [StateInv] and [VmProps] show that
    the last level is never asked.  The parser uses the length of the input, shown to be
    enough by [Parse_total].  Walks along parents take a bound [fuel]; the height of the
    tip is enough for a chain whose heights grow ([parent_walks_end] in [ChainReorg]);
    theorems that need a walk to finish say so.  Loops over peers, holders and shards are
    structural.  Proof-of-work searches take a bound on the nonces tried.  A [World]
    answers the n-th observation of a node, so no two answers are assumed to agree.

    ** Not modelled

    - Interleavings inside one request, discovery round or audit: each is one step.  The
      code's locks make the chain, ledger, pool and tables atomic each, not together;
      [Interleave] splits the ticks at these locks and at the network, the other files
      run requests between ticks.
    - Sockets, timeouts, TLS, logging, JSON and YAML syntax; a read or write error of the
      disk other than a missing file.  In [StoreFiles] the JSON text is a parameter with the
      law that it reads back; elsewhere a file holds the value written, less what
      encoding/json drops.
    - scrypt (third-party), the usage text and the standard error of [slctl], flag parsing
      of [slnode], GET /version (two constants), the HTTP request of
      [version.LatestRelease] (its answer is an argument).
    - The two floating-point sizes of [bloom.New] are arguments.

    ** Next

    In [Network], blocks made by nodes that do not know the whole history (forks and the
    reorganisations they cause), fast sync and restarts as steps; the stored tip as an
    invariant of every event of a node, which [restart_resumes] takes as a hypothesis;
    two requests served at once. *)

From stdpp Require Export base tactics option list strings gmap fin_maps sorting.
From Stdlib Require Export ZArith Lia.
From Stdlib Require Import Strings.Byte.

#[export] Set Default Goal Selector "!".
Open Scope Z_scope.

(** ** Bytes *)

Abbreviation byte := Byte.byte.
Abbreviation bytes := (list byte).

#[global] Instance byte_eq_dec : EqDecision byte := Byte.byte_eq_dec.

(** [bz] reads a byte as an integer, [zb] truncates an integer to a byte: the
    Go conversions [uint64(b)] and [byte(v)]. *)
Definition bz (b : byte) : Z := Z.of_N (Byte.to_N b).
Definition zb (z : Z) : byte := default Byte.x00 (Byte.of_N (Z.to_N (z mod 256))).

Definition bytes_of (s : string) : bytes := String.list_byte_of_string s.
Definition string_of (b : bytes) : string := String.string_of_list_byte b.

(** ** Machine integers: [uint64] values are [Z] kept below [W64]. *)

Definition W64 : Z := 18446744073709551616.
Definition W32 : Z := 4294967296.
Definition u64 (z : Z) : Z := z mod W64.
Definition u32 (z : Z) : Z := z mod W32.
Definition is_u64 (z : Z) : Prop := 0 <= z < W64.
Definition is_u64b (z : Z) : bool := (0 <=? z) && (z <? W64).

(** Go's conversion [int(x)] of a [uint64] on a 64-bit platform. *)
Definition int_of_u64 (z : Z) : Z := if z <? 9223372036854775808 then z else z - W64.

(** int64 arithmetic: the wrap-around of a signed result. *)
Definition i64 (z : Z) : Z := int_of_u64 (u64 z).

(** Go's conversion [uint64(x)] of a signed 64-bit integer. *)
Definition u64_of_int (z : Z) : Z := z mod W64.

(** ** encoding/binary, big endian *)

Fixpoint be_bytes (n : nat) (v : Z) : bytes :=
  match n with
  | O => []
  | S n' => zb (v / 256 ^ Z.of_nat n') :: be_bytes n' v
  end.

Definition be_val (l : bytes) : Z := foldl (λ v b, v * 256 + bz b) 0 l.

(** The length of a slice or string as the code's [len] returns it. *)
Definition zlen {A} (l : list A) : Z := Z.of_nat (length l).

(** ** Lexicographic order of byte strings (Go's [<] on strings) *)

Fixpoint bytes_cmp (a b : bytes) : comparison :=
  match a, b with
  | [], [] => Eq
  | [], _ :: _ => Lt
  | _ :: _, [] => Gt
  | x :: a', y :: b' => match bz x ?= bz y with Eq => bytes_cmp a' b' | c => c end
  end.

Definition bytes_ltb (a b : bytes) : bool := match bytes_cmp a b with Lt => true | _ => false end.
Definition str_ltb (a b : string) : bool := bytes_ltb (bytes_of a) (bytes_of b).

(** The non-strict orders, as relations for stdpp's [merge_sort]. *)
Definition bytes_le (a b : bytes) : Prop := bytes_cmp a b ≠ Gt.
Definition str_le (a b : string) : Prop := bytes_le (bytes_of a) (bytes_of b).

#[global] Instance bytes_le_dec : RelDecision bytes_le.
Proof. intros a b. unfold bytes_le. destruct (bytes_cmp a b); [left|left|right]; congruence. Defined.
#[global] Instance str_le_dec : RelDecision str_le := λ a b, bytes_le_dec _ _.

(** ** Errors: the sentinel errors of every package the model covers *)

Inductive error :=
  (* io, types *)
  | ErrEOF | ErrBadBody | ErrBadPubKey | ErrPubAddrMismatch | ErrBadSignature
  (* vm *)
  | ErrOutOfGas | ErrStackUnder | ErrStackOver | ErrBadJump | ErrDivZero | ErrBadCode
  | ErrStepLimit | ErrRevert | ErrOverflow
  (* state *)
  | ErrBadNonce | ErrInsufficient | ErrCoinbaseInBody | ErrBadCoinbase | ErrBondTooLow
  | ErrAlreadyValidator | ErrNotValidator | ErrBadEvidence | ErrBadChainID | ErrBadRegPoW
  | ErrFaucetDisabled | ErrBadFaucet | ErrBadFaucetPoW | ErrFaucetCooldown | ErrFaucetDry
  | ErrStorageDisabled | ErrBadStorageProof
  (* consensus *)
  | ErrUnauthorizedValidator | ErrNotLeader
  (* erasure *)
  | ErrBadSpec | ErrShortInput | ErrParity | ErrLenMismatch | ErrThirdParty
  (* mempool *)
  | ErrFull
  (* chain *)
  | ErrNoGenesis | ErrHasGenesis | ErrBadHeight | ErrBadPrev | ErrBadMerkle | ErrBadBodyHash
  | ErrBadLogsRoot | ErrBadRound | ErrReconstruct | ErrUnknownParent | ErrReorgReplay
  | ErrNotExist
  (* p2p: errors of net/http, encoding/json and fmt.Errorf *)
  | ErrNetwork | ErrInvalidShard | ErrNoHolder | ErrBadProof
  (* shl: an error built with fmt.Errorf *)
  | ErrSyntax | ErrCompile
  (* node *)
  | ErrNoValidators
  (* crypto: wallets, and the errors of encoding/json, encoding/base64, crypto/rand and scrypt *)
  | ErrNoPassphrase | ErrBadPass | ErrBadKeyLen | ErrJSON | ErrBase64 | ErrRandom | ErrKDF | ErrAuth
  (* slctl: errors that end the command *)
  | ErrUsage | ErrBadNumber | ErrBadHex | ErrNoCode | ErrShortChain | ErrRejected.

#[global] Instance error_eq_dec : EqDecision error.
Proof. solve_decision. Defined.

(** ** Outcomes

    A pure Go function that can fail returns [Ok v], [Err e], or stops the
    goroutine with a run-time panic. *)
Inductive res (A : Type) : Type :=
  | Ok (a : A)
  | Err (e : error)
  | Panic.
Arguments Ok {A} a.
Arguments Err {A} e.
Arguments Panic {A}.

#[global] Instance res_ret : MRet res := λ A a, Ok a.
#[global] Instance res_bind : MBind res := λ A B f m,
  match m with Ok a => f a | Err e => Err e | Panic => Panic end.
#[global] Instance res_eq_dec `{EqDecision A} : EqDecision (res A).
Proof. solve_decision. Defined.

(** A stateful Go function keeps the state it leaves behind in every case: the
    effects done before an error or a panic are not undone. *)
Inductive outcome (S A : Type) : Type :=
  | OK (s : S) (a : A)
  | ERR (s : S) (e : error)
  | PANIC (s : S).
Arguments OK {S A} s a.
Arguments ERR {S A} s e.
Arguments PANIC {S A} s.

Definition out_state {S A} (o : outcome S A) : S :=
  match o with OK s _ => s | ERR s _ => s | PANIC s => s end.

Definition M (S A : Type) : Type := S → outcome S A.

#[global] Instance M_ret S : MRet (M S) := λ A a s, OK s a.
#[global] Instance M_bind S : MBind (M S) := λ A B f m s,
  match m s with OK s' a => f a s' | ERR s' e => ERR s' e | PANIC s' => PANIC s' end.

Definition get {S} : M S S := λ s, OK s s.
Definition modify {S} (f : S → S) : M S unit := λ s, OK (f s) tt.
Definition throw {S A} (e : error) : M S A := λ s, ERR s e.
Definition panic {S A} : M S A := λ s, PANIC s.
Definition lift {S A} (r : res A) : M S A := λ s,
  match r with Ok a => OK s a | Err e => ERR s e | Panic => PANIC s end.

(** [guard b e] is [if !b { return e }]. *)
Definition require {S} (b : bool) (e : error) : M S unit := if b then mret tt else throw e.

(** ** Hoare logic of [M]

    [wp m Q E C s]: run from [s], [m] ends in [Q] on success, in [E] on an
    error and in [C] on a panic. *)
Definition wp {S A} (m : M S A) (Q : A → S → Prop) (E : error → S → Prop) (C : S → Prop)
    (s : S) : Prop :=
  match m s with OK s' a => Q a s' | ERR s' e => E e s' | PANIC s' => C s' end.

(** [preserves I m]: [I] holds in whatever state [m] leaves, however it ends. *)
Definition preserves {S A} (I : S → Prop) (m : M S A) : Prop :=
  ∀ s, I s → I (out_state (m s)).

(** [triple P m Q E]: from [P], [m] succeeds in [Q] or stops (by an error or a
    panic) in [E]. *)
Definition triple {S A} (P : S → Prop) (m : M S A) (Q : A → S → Prop) (E : S → Prop) : Prop :=
  ∀ s, P s → wp m Q (λ _, E) E s.

(** [hoare P m Q]: partial correctness, nothing is said of failures. *)
Definition hoare {S A} (P : S → Prop) (m : M S A) (Q : A → S → Prop) : Prop :=
  triple P m Q (λ _, True).

(** Sum of a measure over a finite map. *)
Definition msum {K A} `{Countable K} (f : A → Z) (m : gmap K A) : Z :=
  map_fold (λ _ x acc, f x + acc) 0 m.

(** * Lemmas *)

Lemma W64_pow : W64 = 256 ^ 8.
Proof. reflexivity. Qed.

Lemma u64_range z : is_u64 (u64 z).
Proof. unfold is_u64, u64, W64. pose proof (Z.mod_pos_bound z 18446744073709551616). lia. Qed.

Lemma u64_small z : is_u64 z → u64 z = z.
Proof. unfold is_u64, u64. intros. by rewrite Z.mod_small. Qed.

Lemma is_u64b_spec z : is_u64b z = true ↔ is_u64 z.
Proof. unfold is_u64b, is_u64. rewrite andb_true_iff, Z.leb_le, Z.ltb_lt. lia. Qed.

(** Adding two words either does not wrap or gives a result below both. *)
Lemma u64_add_no_wrap a b : is_u64 a → is_u64 b → a <= u64 (a + b) ↔ a + b < W64.
Proof.
  unfold is_u64, u64, W64. intros Ha Hb.
  destruct (Z_lt_ge_dec (a + b) 18446744073709551616).
  - rewrite Z.mod_small; lia.
  - replace (a + b) with ((a + b - 18446744073709551616) + 1 * 18446744073709551616) by lia.
    rewrite Z_mod_plus_full, Z.mod_small; lia.
Qed.

Lemma bz_range b : 0 <= bz b < 256.
Proof. unfold bz. pose proof (Byte.to_N_bounded b). lia. Qed.

Lemma zb_bz b : zb (bz b) = b.
Proof.
  unfold zb. rewrite Z.mod_small by apply bz_range. unfold bz.
  by rewrite N2Z.id, Byte.of_to_N.
Qed.

Lemma bz_zb z : bz (zb z) = z mod 256.
Proof.
  unfold zb, bz. pose proof (Z.mod_pos_bound z 256 ltac:(lia)).
  destruct (Byte.of_N (Z.to_N (z mod 256))) as [b|] eqn:E; simpl.
  - apply Byte.to_of_N in E. rewrite E. lia.
  - apply Byte.of_N_None_iff in E. lia.
Qed.

#[global] Instance bz_inj : Inj (=) (=) bz.
Proof. intros a b E. by rewrite <- (zb_bz a), E, zb_bz. Qed.

#[global] Instance byte_countable : Countable byte.
Proof.
  refine (inj_countable' (A := N) Byte.to_N (λ n, default Byte.x00 (Byte.of_N n)) _).
  intros b. by rewrite Byte.of_to_N.
Defined.

Lemma string_of_bytes_of s : string_of (bytes_of s) = s.
Proof. apply String.string_of_list_byte_of_string. Qed.

Lemma bytes_of_string_of b : bytes_of (string_of b) = b.
Proof. apply String.list_byte_of_string_of_list_byte. Qed.

#[global] Instance bytes_of_inj : Inj (=) (=) bytes_of.
Proof. intros a b E. by rewrite <- (string_of_bytes_of a), E, string_of_bytes_of. Qed.

(** ** Codec lemmas *)

Lemma length_be_bytes n v : length (be_bytes n v) = n.
Proof. induction n; simpl; congruence. Qed.

Lemma foldl_be l : ∀ a, foldl (λ v b, v * 256 + bz b) a l = a * 256 ^ zlen l + be_val l.
Proof.
  unfold be_val, zlen. induction l as [|b l IH]; intros a; cbn [foldl length].
  - simpl. lia.
  - rewrite IH, (IH (0 * 256 + bz b)), Nat2Z.inj_succ, Z.pow_succ_r by lia. lia.
Qed.

Lemma be_val_cons b l : be_val (b :: l) = bz b * 256 ^ zlen l + be_val l.
Proof. unfold be_val at 1. simpl. by rewrite foldl_be. Qed.

Lemma be_val_app a b : be_val (a ++ b) = be_val a * 256 ^ zlen b + be_val b.
Proof. unfold be_val at 1. by rewrite foldl_app, foldl_be. Qed.

Lemma be_val_bound l : 0 <= be_val l < 256 ^ zlen l.
Proof.
  unfold zlen. induction l as [|b l IH]; [cbv; split; congruence|].
  rewrite be_val_cons. unfold zlen. simpl length.
  pose proof (bz_range b). rewrite Nat2Z.inj_succ, Z.pow_succ_r by lia. nia.
Qed.

Lemma be_val_be_bytes n v : be_val (be_bytes n v) = v mod 256 ^ Z.of_nat n.
Proof.
  induction n as [|n IH].
  - simpl. by rewrite Z.mod_1_r.
  - simpl be_bytes. rewrite be_val_cons. unfold zlen.
    rewrite length_be_bytes, IH, bz_zb, Nat2Z.inj_succ, Z.pow_succ_r, Z.mul_comm by lia.
    rewrite (Z.mul_comm 256), Z.rem_mul_r by lia. lia.
Qed.

Lemma be_val_be_bytes_small n v : 0 <= v < 256 ^ Z.of_nat n → be_val (be_bytes n v) = v.
Proof. intros. by rewrite be_val_be_bytes, Z.mod_small. Qed.

Lemma be_val_u64 l : length l = 8%nat → is_u64 (be_val l).
Proof.
  intros Hl. pose proof (be_val_bound l) as H. unfold zlen in H. rewrite Hl in H.
  unfold is_u64. by rewrite W64_pow.
Qed.

Lemma be_val_inj a b : length a = length b → be_val a = be_val b → a = b.
Proof.
  revert b. induction a as [|x a IH]; intros [|y b] Hl; simpl in Hl; try lia; [done|].
  apply Nat.succ_inj in Hl.
  rewrite !be_val_cons. unfold zlen. intros E. rewrite Hl in E.
  pose proof (be_val_bound a) as Ba. pose proof (be_val_bound b) as Bb.
  unfold zlen in *. rewrite Hl in Ba.
  set (p := 256 ^ Z.of_nat (length b)) in *.
  assert (bz x = bz y) as Hxy by nia.
  assert (be_val a = be_val b) by nia.
  f_equal; [by apply (inj bz)|auto].
Qed.

Lemma be_bytes_be_val l n : length l = n → be_bytes n (be_val l) = l.
Proof.
  intros <-. apply be_val_inj; [apply length_be_bytes|].
  apply be_val_be_bytes_small, be_val_bound.
Qed.

Lemma be_bytes_inj n a b :
  0 <= a < 256 ^ Z.of_nat n → 0 <= b < 256 ^ Z.of_nat n → be_bytes n a = be_bytes n b → a = b.
Proof.
  intros Ha Hb E. apply (f_equal be_val) in E.
  by rewrite !be_val_be_bytes_small in E.
Qed.

(** [injection] on lists that does not look inside the elements. *)
Lemma cons_eq {A} (x y : A) l k : x :: l = y :: k → x = y ∧ l = k.
Proof. by intros [= -> ->]. Qed.

Lemma OK_inj {S A} (s s' : S) (a a' : A) : OK s a = OK s' a' → s = s' ∧ a = a'.
Proof. by intros [= -> ->]. Qed.

(** Success as a boolean, for runs evaluated by computation. *)
Definition is_OK {S A} (o : outcome S A) : bool := match o with OK _ _ => true | _ => false end.
Definition is_PANIC {S A} (o : outcome S A) : bool := match o with PANIC _ => true | _ => false end.
Definition error_of {S A} (o : outcome S A) : option error := match o with ERR _ e => Some e | _ => None end.

(** A list of tests, evaluated at once and used one by one. *)
Fixpoint passed (l : list bool) : Prop := match l with [] => True | b :: l => b = true ∧ passed l end.
Lemma tests_pass l : forallb id l = true → passed l.
Proof. induction l as [|b l IH]; [done|]. intros [H1 H2]%andb_prop. split; [exact H1|exact (IH H2)]. Qed.

Definition is_none {A} (o : option A) : bool := match o with None => true | Some _ => false end.
Lemma is_none_true {A} (o : option A) : is_none o = true → o = None.
Proof. by destruct o. Qed.
Lemma is_none_false {A} (o : option A) : negb (is_none o) = true → is_Some o.
Proof. by destruct o. Qed.

Lemma is_OK_unit {S} (o : outcome S unit) : is_OK o = true → o = OK (out_state o) tt.
Proof. by destruct o as [? []| |]. Qed.

(** Induction two elements at a time. *)
Lemma list_ind2 {A} (P : list A → Prop) :
  P [] → (∀ a, P [a]) → (∀ a b l, P l → P (a :: b :: l)) → ∀ l, P l.
Proof.
  intros H0 H1 H2 l. enough (P l ∧ ∀ a, P (a :: l)) as [? _] by done.
  induction l as [|b l [IH1 IH2]]; auto.
Qed.

(** ** Order lemmas *)

Lemma bytes_cmp_refl a : bytes_cmp a a = Eq.
Proof. induction a; simpl; [done|]. by rewrite Z.compare_refl. Qed.

Lemma bytes_cmp_eq a b : bytes_cmp a b = Eq ↔ a = b.
Proof.
  split; [|intros ->; apply bytes_cmp_refl].
  revert b. induction a as [|x a IH]; intros [|y b]; simpl; try done.
  destruct (Z.compare_spec (bz x) (bz y)) as [E| |]; try done.
  intros H. f_equal; [by apply (inj bz)|auto].
Qed.

Lemma bytes_cmp_antisym a b : bytes_cmp b a = CompOpp (bytes_cmp a b).
Proof.
  revert b. induction a as [|x a IH]; intros [|y b]; simpl; try done.
  rewrite (Z.compare_antisym (bz x) (bz y)). destruct (bz x ?= bz y); simpl; auto.
Qed.

Lemma bytes_cmp_lt_trans a b c :
  bytes_cmp a b = Lt → bytes_cmp b c = Lt → bytes_cmp a c = Lt.
Proof.
  revert b c. induction a as [|x a IH]; intros [|y b] [|z c]; simpl; try done.
  destruct (Z.compare_spec (bz x) (bz y)) as [E| |]; try done;
    destruct (Z.compare_spec (bz y) (bz z)) as [E'| |]; try done; intros;
    destruct (Z.compare_spec (bz x) (bz z)); try lia; try done; eauto.
Qed.

Lemma bytes_ltb_irrefl a : bytes_ltb a a = false.
Proof. unfold bytes_ltb. by rewrite bytes_cmp_refl. Qed.

Lemma bytes_ltb_trans a b c : bytes_ltb a b = true → bytes_ltb b c = true → bytes_ltb a c = true.
Proof.
  unfold bytes_ltb. intros H1 H2.
  destruct (bytes_cmp a b) eqn:E1; try done. destruct (bytes_cmp b c) eqn:E2; try done.
  by rewrite (bytes_cmp_lt_trans _ _ _ E1 E2).
Qed.

(** Trichotomy, in the form a case analysis uses. *)
Lemma bytes_ltb_total a b : bytes_ltb a b = false → a = b ∨ bytes_ltb b a = true.
Proof.
  unfold bytes_ltb. rewrite (bytes_cmp_antisym a b).
  destruct (bytes_cmp a b) eqn:E; simpl; try done; auto.
  left. by apply bytes_cmp_eq.
Qed.

Lemma bytes_ltb_asym a b : bytes_ltb a b = true → bytes_ltb b a = false.
Proof. unfold bytes_ltb. rewrite (bytes_cmp_antisym a b). by destruct (bytes_cmp a b). Qed.

Lemma str_ltb_irrefl a : str_ltb a a = false.
Proof. apply bytes_ltb_irrefl. Qed.
Lemma str_ltb_trans a b c : str_ltb a b = true → str_ltb b c = true → str_ltb a c = true.
Proof. apply bytes_ltb_trans. Qed.
Lemma str_ltb_asym a b : str_ltb a b = true → str_ltb b a = false.
Proof. apply bytes_ltb_asym. Qed.
Lemma str_ltb_total a b : str_ltb a b = false → a = b ∨ str_ltb b a = true.
Proof. intros H. destruct (bytes_ltb_total _ _ H) as [E|]; [left; by apply (inj bytes_of)|auto]. Qed.

Lemma str_le_ltb a b : str_le a b ↔ str_ltb b a = false.
Proof.
  unfold str_le, bytes_le, str_ltb, bytes_ltb.
  rewrite (bytes_cmp_antisym (bytes_of a)). destruct (bytes_cmp _ _); simpl; naive_solver.
Qed.

#[global] Instance str_le_trans : Transitive str_le.
Proof.
  intros a b c Hab Hbc. rewrite str_le_ltb in *.
  destruct (str_ltb c a) eqn:E; [|done].
  destruct (str_ltb_total _ _ Hab) as [->|Hba]; [congruence|].
  rewrite (str_ltb_trans _ _ _ E Hba) in Hbc. done.
Qed.

#[global] Instance str_le_antisymm : AntiSymm (=) str_le.
Proof.
  intros a b Hab Hba. rewrite str_le_ltb in *.
  destruct (str_ltb_total _ _ Hab) as [->|]; congruence.
Qed.

#[global] Instance str_le_total : Total str_le.
Proof.
  intros a b. rewrite !str_le_ltb.
  destruct (str_ltb b a) eqn:E; [right; by apply str_ltb_asym|by left].
Qed.

(** ** Sums over maps *)

Section msum.
Context {K A : Type} `{Countable K} (f : A → Z).
Implicit Types m : gmap K A.

Lemma msum_empty : msum f (∅ : gmap K A) = 0.
Proof. apply map_fold_empty. Qed.

Lemma msum_insert_new m i x : m !! i = None → msum f (<[i:=x]> m) = f x + msum f m.
Proof. intros Hi. unfold msum. apply (map_fold_insert_L (λ _ x acc, f x + acc)); auto. intros; lia. Qed.

Lemma msum_delete m i x : m !! i = Some x → msum f m = f x + msum f (delete i m).
Proof.
  intros Hi. rewrite <- (insert_delete_id m i x Hi) at 1. by rewrite msum_insert_new by apply lookup_delete_eq.
Qed.

Lemma msum_insert m i x y : m !! i = Some y → msum f (<[i:=x]> m) = msum f m - f y + f x.
Proof.
  intros Hi. rewrite (msum_delete m i y Hi), <- insert_delete_eq, msum_insert_new by apply lookup_delete_eq. lia.
Qed.

Lemma msum_alter (g : A → A) m i x : m !! i = Some x → msum f (alter g i m) = msum f m - f x + f (g x).
Proof.
  intros Hi. replace (alter g i m) with (<[i:=g x]> m); [by apply msum_insert|].
  apply map_eq. intros j. destruct (decide (i = j)) as [->|].
  - by rewrite lookup_insert_eq, lookup_alter_eq, Hi.
  - by rewrite lookup_insert_ne, lookup_alter_ne.
Qed.

Lemma msum_nonneg m : map_Forall (λ _ x, 0 <= f x) m → 0 <= msum f m.
Proof.
  induction m as [|i x m Hi IH] using map_ind; [by rewrite msum_empty|].
  rewrite map_Forall_insert by done. intros [? Hm]. rewrite msum_insert_new by done.
  specialize (IH Hm). lia.
Qed.

Lemma msum_lookup_le m i x : map_Forall (λ _ x, 0 <= f x) m → m !! i = Some x → f x <= msum f m.
Proof.
  intros Hm Hi. rewrite (msum_delete m i x Hi).
  pose proof (msum_nonneg (delete i m) (map_Forall_delete _ _ i Hm)). lia.
Qed.
End msum.

Lemma bind_OK_inv {S A B} (m : M S A) (f : A → M S B) s s' b :
  (m ≫= f) s = OK s' b → ∃ a s1, m s = OK s1 a ∧ f a s1 = OK s' b.
Proof. unfold mbind, M_bind. destruct (m s) as [s1 a| |]; [|done..]. intros ?. by exists a, s1. Qed.

(** ** Rules of [wp] and [preserves] *)

Section hoare.
Context {S : Type}.
Implicit Types (s : S).

Lemma bind_ok {A B} (m : M S A) (f : A → M S B) s s' a :
  m s = OK s' a → (m ≫= f) s = f a s'.
Proof. intros E. unfold mbind, M_bind. by rewrite E. Qed.

Lemma bind_require {B} b e (f : unit → M S B) s :
  (require b e ≫= f) s = if b then f tt s else ERR s e.
Proof. by destruct b. Qed.

Lemma wp_ret {A} (a : A) Q E C s : Q a s → wp (mret a : M S A) Q E C s.
Proof. done. Qed.

Lemma wp_bind {A B} (m : M S A) (f : A → M S B) Q E C s :
  wp m (λ a, wp (f a) Q E C) E C s → wp (m ≫= f) Q E C s.
Proof. unfold wp, mbind, M_bind. by destruct (m s). Qed.

Lemma wp_mono {A} (m : M S A) (Q Q' : A → S → Prop) (E E' : error → S → Prop) (C C' : S → Prop) s :
  (∀ a s', Q a s' → Q' a s') → (∀ e s', E e s' → E' e s') → (∀ s', C s' → C' s') →
  wp m Q E C s → wp m Q' E' C' s.
Proof. unfold wp. destruct (m s); auto. Qed.

Lemma wp_get Q E C s : Q s s → wp get Q E C s.
Proof. done. Qed.
Lemma wp_modify f Q E C s : Q tt (f s) → wp (modify f) Q E C s.
Proof. done. Qed.
Lemma wp_throw {A} e (Q : A → S → Prop) E C s : E e s → wp (throw e) Q E C s.
Proof. done. Qed.
Lemma wp_panic {A} (Q : A → S → Prop) E (C : S → Prop) s : C s → wp panic Q E C s.
Proof. done. Qed.

Lemma wp_require b e Q E C s :
  (b = true → Q tt s) → (b = false → E e s) → wp (require b e) Q E C s.
Proof. destruct b; unfold wp; simpl; auto. Qed.

Lemma wp_lift {A} (r : res A) Q E (C : S → Prop) s :
  (∀ a, r = Ok a → Q a s) → (∀ e, r = Err e → E e s) → (r = Panic → C s) →
  wp (lift r) Q E C s.
Proof. destruct r; unfold wp, lift; auto. Qed.

Implicit Types P E I : S → Prop.

Lemma triple_ret {A} P (a : A) (Q : A → S → Prop) E : (∀ s, P s → Q a s) → triple P (mret a) Q E.
Proof. intros H s Hs. by apply H. Qed.
Lemma triple_bind {A B} P (m : M S A) (f : A → M S B) Q R E :
  triple P m Q E → (∀ a, triple (Q a) (f a) R E) → triple P (m ≫= f) R E.
Proof.
  intros Hm Hf s Hs. apply wp_bind. 
  refine (wp_mono m _ _ (λ _, E) _ E _ s (λ a s', Hf a s') _ _ (Hm s Hs)); auto.
Qed.
(** The state that was read is known to the continuation. *)
Lemma triple_get {B} P (f : S → M S B) R E :
  (∀ s0, P s0 → triple (λ s, s = s0) (f s0) R E) → triple P (get ≫= f) R E.
Proof. intros H s Hs. apply wp_bind, wp_get. by apply H. Qed.
Lemma triple_modify P f (Q : unit → S → Prop) E : (∀ s, P s → Q tt (f s)) → triple P (modify f) Q E.
Proof. intros H s Hs. by apply H. Qed.
Lemma triple_throw {A} P e (Q : A → S → Prop) E : (∀ s, P s → E s) → triple P (throw e) Q E.
Proof. intros H s Hs. by apply H. Qed.
Lemma triple_panic {A} P (Q : A → S → Prop) E : (∀ s, P s → E s) → triple P panic Q E.
Proof. intros H s Hs. by apply H. Qed.
Lemma triple_require P b e (Q : unit → S → Prop) E :
  (∀ s, P s → b = true → Q tt s) → (∀ s, P s → E s) → triple P (require b e) Q E.
Proof. intros H1 H2 s Hs. apply wp_require; auto. Qed.
Lemma triple_lift {A} P (r : res A) (Q : A → S → Prop) E :
  (∀ s a, P s → r = Ok a → Q a s) → (∀ s, P s → E s) → triple P (lift r) Q E.
Proof. intros H1 H2 s Hs. apply wp_lift; auto. Qed.
Lemma triple_pre {A} P P' (m : M S A) Q E : (∀ s, P s → P' s) → triple P' m Q E → triple P m Q E.
Proof. intros H Hm s Hs. apply Hm. auto. Qed.
Lemma triple_post {A} P (m : M S A) (Q Q' : A → S → Prop) E :
  (∀ a s, Q a s → Q' a s) → triple P m Q E → triple P m Q' E.
Proof. intros H Hm s Hs. specialize (Hm s Hs). revert Hm. by apply wp_mono. Qed.
Lemma triple_pure {A} (φ : Prop) P (m : M S A) Q E :
  (φ → triple P m Q E) → triple (λ s, φ ∧ P s) m Q E.
Proof. intros H s [? ?]. by apply H. Qed.

Lemma preserves_triple {A} I (m : M S A) : preserves I m ↔ triple I m (λ _, I) I.
Proof.
  unfold preserves, triple, wp. split; intros H s Hs; specialize (H s Hs); by destruct (m s).
Qed.
Lemma preserves_hoare {A} I (m : M S A) : preserves I m → hoare I m (λ _, I).
Proof. unfold hoare, triple, preserves, wp. intros H s Hs. specialize (H s Hs). by destruct (m s). Qed.

Lemma preserves_wp {A} (I : S → Prop) (m : M S A) :
  preserves I m ↔ ∀ s, I s → wp m (λ _, I) (λ _, I) I s.
Proof. unfold preserves, wp. split; intros H s Hs; specialize (H s Hs); by destruct (m s). Qed.

Lemma preserves_ret {A} (I : S → Prop) (a : A) : preserves I (mret a).
Proof. by intros s. Qed.
Lemma preserves_bind {A B} (I : S → Prop) (m : M S A) (f : A → M S B) :
  preserves I m → (∀ a, preserves I (f a)) → preserves I (m ≫= f).
Proof.
  intros Hm Hf s Hs. specialize (Hm s Hs). unfold mbind, M_bind.
  destruct (m s) as [s' a| |]; simpl in *; auto. by apply Hf.
Qed.
Lemma preserves_get (I : S → Prop) : preserves I get.
Proof. by intros s. Qed.
Lemma preserves_modify (I : S → Prop) f : (∀ s, I s → I (f s)) → preserves I (modify f).
Proof. intros H s Hs. by apply H. Qed.
Lemma preserves_throw {A} (I : S → Prop) e : preserves I (throw (A:=A) e).
Proof. by intros s. Qed.
Lemma preserves_panic {A} (I : S → Prop) : preserves I (panic (A:=A)).
Proof. by intros s. Qed.
Lemma preserves_require (I : S → Prop) b e : preserves I (require b e).
Proof. by destruct b; intros s. Qed.
Lemma preserves_lift {A} (I : S → Prop) (r : res A) : preserves I (lift r).
Proof. by destruct r; intros s. Qed.
End hoare.

Create HintDb hoare.
#[export] Hint Resolve preserves_ret preserves_get preserves_throw preserves_panic
  preserves_require preserves_lift : hoare.

Create HintDb codec.
Create Rewrite HintDb codec.
#[export] Hint Rewrite @length_app @length_cons @length_be_bytes : codec.
#[export] Hint Resolve u64_range be_val_u64 : codec.

(** Walk through a monadic program with the [preserves] rules. *)
Ltac preserves_step :=
  match goal with
  | |- preserves _ (_ ≫= _) => apply preserves_bind; [|intros ?]
  | |- preserves _ (if ?b then _ else _) => destruct b
  | |- preserves _ (match ?x with _ => _ end) => destruct x
  | |- preserves _ _ => solve [eauto with hoare]
  end.
Ltac preserves_tac := repeat preserves_step.

(** ** Invariants up to panics

    [keeps I m]: [I] holds after [m], on success and on an error. *)
Definition keeps {S A} (I : S → Prop) (m : M S A) : Prop := ∀ s, I s → wp m (λ _, I) (λ _, I) (λ _, True) s.

Section keeps.
Context {S : Type} (I : S → Prop).

Lemma keeps_ret {A} (a : A) : keeps I (mret a).
Proof. by intros s. Qed.
Lemma keeps_throw {A} e : keeps I (throw (A:=A) e).
Proof. by intros s. Qed.
Lemma keeps_panic {A} : keeps I (panic (A:=A)).
Proof. by intros s. Qed.
Lemma keeps_require b e : keeps I (require b e).
Proof. by destruct b; intros s. Qed.
Lemma keeps_lift {A} (r : res A) : keeps I (lift r).
Proof. by destruct r; intros s. Qed.
Lemma keeps_get_ : keeps I get.
Proof. by intros s. Qed.
Lemma keeps_modify f : (∀ s, I s → I (f s)) → keeps I (modify f).
Proof. intros Hf s Hs. by apply Hf. Qed.
Lemma keeps_bind {A B} (m : M S A) (f : A → M S B) : keeps I m → (∀ a, keeps I (f a)) → keeps I (m ≫= f).
Proof.
  intros Hm Hf s Hs. apply wp_bind. eapply wp_mono; [..|by apply Hm]; [|done|done]. intros a s' Hs'. by apply Hf.
Qed.
Lemma keeps_gives {A B} (P : A → Prop) (m : M S A) (f : A → M S B) :
  (∀ s, I s → wp m (λ a s', I s' ∧ P a) (λ _, I) (λ _, True) s) → (∀ a, P a → keeps I (f a)) → keeps I (m ≫= f).
Proof.
  intros Hm Hf s Hs. apply wp_bind. eapply wp_mono; [..|by apply Hm]; [|done|done]. intros a s' [Hs' Ha]. by apply Hf.
Qed.
(** What was read satisfies the invariant. *)
Lemma keeps_read {B} (f : S → M S B) : (∀ s, I s → keeps I (f s)) → keeps I (get ≫= f).
Proof. intros Hf s Hs. by apply (Hf s Hs s). Qed.
End keeps.

Create HintDb keeps.
#[export] Hint Resolve keeps_ret keeps_throw keeps_panic keeps_require keeps_lift keeps_get_ : keeps.

Ltac keeps_tac := repeat match goal with
  | |- keeps _ (get ≫= _) => apply keeps_read; intros ? ?
  | |- keeps _ (_ ≫= _) => apply keeps_bind; [|intros ?]
  | |- keeps _ (if ?b then _ else _) => destruct b eqn:?
  | |- keeps _ (match ?x with _ => _ end) => destruct x eqn:?
  | |- keeps _ (let _ := _ in _) => cbv zeta
  | |- keeps _ _ => solve [eauto with keeps]
  end.
