(* ===== verification/Sha256.v ===== *)
(** * SHA-256 (FIPS 180-4), the standard-library hash every package uses.

    Go's [crypto/sha256] written as a function on byte lists, so that block ids,
    Merkle roots, selectors and puzzles can be evaluated.  The rest of the library
    uses two facts only: it is a function, and its result has 32 bytes. *)

From S2P Require Import Prelude.

Definition add32 (a b : Z) : Z := (a + b) mod W32.
Definition rotr (x n : Z) : Z :=
  Z.lor (Z.shiftr x n) (Z.land (Z.shiftl x (32 - n)) 4294967295).
Definition sigma0 x := Z.lxor (Z.lxor (rotr x 7) (rotr x 18)) (Z.shiftr x 3).
Definition sigma1 x := Z.lxor (Z.lxor (rotr x 17) (rotr x 19)) (Z.shiftr x 10).
Definition Sigma0 x := Z.lxor (Z.lxor (rotr x 2) (rotr x 13)) (rotr x 22).
Definition Sigma1 x := Z.lxor (Z.lxor (rotr x 6) (rotr x 11)) (rotr x 25).
Definition Ch x y z := Z.lxor (Z.land x y) (Z.land (Z.lxor x 4294967295) z).
Definition Maj x y z := Z.lxor (Z.lxor (Z.land x y) (Z.land x z)) (Z.land y z).

Definition K256 : list Z :=
  [1116352408;1899447441;3049323471;3921009573;961987163;1508970993;2453635748;2870763221;
   3624381080;310598401;607225278;1426881987;1925078388;2162078206;2614888103;3248222580;
   3835390401;4022224774;264347078;604807628;770255983;1249150122;1555081692;1996064986;
   2554220882;2821834349;2952996808;3210313671;3336571891;3584528711;113926993;338241895;
   666307205;773529912;1294757372;1396182291;1695183700;1986661051;2177026350;2456956037;
   2730485921;2820302411;3259730800;3345764771;3516065817;3600352804;4094571909;275423344;
   430227734;506948616;659060556;883997877;958139571;1322822218;1537002063;1747873779;
   1955562222;2024104815;2227730452;2361852424;2428436474;2756734187;3204031479;3329325298].

(** The eight working variables. *)
Record regs := Regs { ra : Z; rb : Z; rc : Z; rd : Z; re : Z; rf : Z; rg : Z; rh : Z }.

Definition H0 : regs :=
  Regs 1779033703 3144134277 1013904242 2773480762 1359893119 2600822924 528734635 1541459225.

Definition round (r : regs) (kw : Z * Z) : regs :=
  let t1 := add32 (rh r) (add32 (Sigma1 (re r)) (add32 (Ch (re r) (rf r) (rg r)) (add32 kw.1 kw.2))) in
  let t2 := add32 (Sigma0 (ra r)) (Maj (ra r) (rb r) (rc r)) in
  Regs (add32 t1 t2) (ra r) (rb r) (rc r) (add32 (rd r) t1) (re r) (rf r) (rg r).

Fixpoint chunk_words (n : nat) (l : bytes) : list Z :=
  match n with O => [] | S n' => be_val (take 4 l) :: chunk_words n' (drop 4 l) end.

(** The message schedule, latest word first. *)
Fixpoint extend (n : nat) (w : list Z) : list Z :=
  match n with
  | O => w
  | S n' =>
      let at_ i := nth i w 0 in
      extend n' (add32 (sigma1 (at_ 1%nat)) (add32 (at_ 6%nat) (add32 (sigma0 (at_ 14%nat)) (at_ 15%nat))) :: w)
  end.

Definition schedule (block : bytes) : list Z := reverse (extend 48 (reverse (chunk_words 16 block))).

Definition compress (h : regs) (block : bytes) : regs :=
  let r := foldl round h (zip K256 (schedule block)) in
  Regs (add32 (ra h) (ra r)) (add32 (rb h) (rb r)) (add32 (rc h) (rc r)) (add32 (rd h) (rd r))
       (add32 (re h) (re r)) (add32 (rf h) (rf r)) (add32 (rg h) (rg r)) (add32 (rh h) (rh r)).

Definition pad (m : bytes) : bytes :=
  m ++ [zb 128] ++ replicate (Z.to_nat ((55 - zlen m) mod 64)) (zb 0) ++ be_bytes 8 (8 * zlen m).

Fixpoint blocks (n : nat) (h : regs) (m : bytes) : regs :=
  match n with
  | O => h
  | S n' => match m with [] => h | _ => blocks n' (compress h (take 64 m)) (drop 64 m) end
  end.

Definition digest (r : regs) : bytes :=
  be_bytes 4 (ra r) ++ be_bytes 4 (rb r) ++ be_bytes 4 (rc r) ++ be_bytes 4 (rd r) ++
  be_bytes 4 (re r) ++ be_bytes 4 (rf r) ++ be_bytes 4 (rg r) ++ be_bytes 4 (rh r).

Definition sha256 (m : bytes) : bytes :=
  let p := pad m in digest (blocks (length p) H0 p).

Lemma length_sha256 m : length (sha256 m) = 32%nat.
Proof. unfold sha256, digest. by autorewrite with codec. Qed.

(** The FIPS 180-4 test vectors, as integers. *)
Example sha256_abc : be_val (sha256 (bytes_of "abc")) =
  0xba7816bf8f01cfea414140de5dae2223b00361a396177a9cb410ff61f20015ad.
Proof. vm_compute. reflexivity. Qed.

Example sha256_empty : be_val (sha256 []) =
  0xe3b0c44298fc1c149afbf4c8996fb92427ae41e4649b934ca495991b7852b855.
Proof. vm_compute. reflexivity. Qed.

Example sha256_two_blocks :
  be_val (sha256 (bytes_of "abcdbcdecdefdefgefghfghighijhijkijkljklmklmnlmnomnopnopq")) =
  0x248d6a61d20638b8e5c026930c3e6039a33ce45964ff2167f6ecedd419db06c1.
Proof. vm_compute. reflexivity. Qed.

#[export] Hint Rewrite length_sha256 : codec.
#[global] Opaque sha256.
