(* ===== verification/Crypto.v ===== *)
(** * Identities and signatures ([internal/crypto/crypto.go])

    Addresses are derived from public keys with SHA-256.  Ed25519 itself is the
    parameter [Ed25519]: the code only calls its [Sign] and [Verify]. *)

From S2P Require Import Prelude Sha256.
From Stdlib Require Import Strings.Byte.

(** [crypto/ed25519]: the operations the code calls. *)
Class Ed25519 := {
  ed_sign : bytes → bytes → bytes;          (* private key, message *)
  ed_verify : bytes → bytes → bytes → bool; (* public key, message, signature *)
}.

(** The documented behaviour of a key pair: signatures made with the private key
    verify under the public key. *)
Definition key_ok `{Ed25519} (priv pub : bytes) : Prop :=
  length pub = 32%nat ∧ ∀ m, ed_verify pub m (ed_sign priv m) = true.

(** ** encoding/hex *)

Definition hex_digit (n : Z) : byte := if n <? 10 then zb (48 + n) else zb (87 + n).
Definition hex_byte (b : byte) : bytes := [hex_digit (bz b / 16); hex_digit (bz b mod 16)].
Definition hex_encode (l : bytes) : bytes := l ≫= hex_byte.

Definition is_hex_digit (b : byte) : bool :=
  let n := bz b in
  ((48 <=? n) && (n <=? 57)) || ((97 <=? n) && (n <=? 102)) || ((65 <=? n) && (n <=? 70)).

(** [hex.DecodeString] succeeds on an even number of hexadecimal digits. *)
Definition hex_ok (l : bytes) : bool := Nat.even (length l) && forallb is_hex_digit l.

(** ** Addresses *)

Abbreviation Address := string.

Definition AddressPrefix : string := "sl".
Definition PublicKeySize : Z := 32.

Definition AddressFromPub (pub : bytes) : Address :=
  string_of (bytes_of AddressPrefix ++ hex_encode (take 20 (sha256 pub))).

Definition Valid (a : Address) : bool :=
  let l := bytes_of a in
  if zlen l =? zlen (bytes_of AddressPrefix) + 40 then
    if bool_decide (take 2 l = bytes_of AddressPrefix) then hex_ok (drop 2 l) else false
  else false.

(** ** Keys *)

Record KeyPair := { kp_Priv : bytes; kp_Pub : bytes }.

Definition KeyPair_Address (k : KeyPair) : Address := AddressFromPub (kp_Pub k).

Section signatures.
Context `{Ed25519}.

Definition KeyPair_Sign (k : KeyPair) (msg : bytes) : bytes := ed_sign (kp_Priv k) msg.

Definition Verify (pub msg sig : bytes) : bool :=
  if zlen pub =? PublicKeySize then ed_verify pub msg sig else false.
End signatures.

Definition PubMatchesAddress (pub : bytes) (addr : Address) : bool :=
  bool_decide (AddressFromPub pub = addr).

(** * Lemmas *)

Lemma hex_digit_ok n : 0 <= n < 16 → is_hex_digit (hex_digit n) = true.
Proof.
  intros Hn. unfold hex_digit, is_hex_digit.
  destruct (Z.ltb_spec n 10); rewrite bz_zb, Z.mod_small by lia;
    rewrite ?orb_true_iff, ?andb_true_iff, ?Z.leb_le; lia.
Qed.

Lemma length_hex_encode l : length (hex_encode l) = (2 * length l)%nat.
Proof. induction l as [|b l IH]; [done|]. change (hex_encode (b :: l)) with (hex_byte b ++ hex_encode l).
  rewrite length_app, IH. simpl. lia. Qed.

Lemma hex_encode_digits l : forallb is_hex_digit (hex_encode l) = true.
Proof.
  induction l as [|b l IH]; [done|].
  change (hex_encode (b :: l)) with (hex_byte b ++ hex_encode l).
  rewrite forallb_app, IH, andb_true_r. pose proof (bz_range b).
  cbn [hex_byte forallb]. rewrite !hex_digit_ok; [done| |].
  - apply Z.mod_pos_bound. lia.
  - split; [apply Z.div_pos; lia|apply Z.div_lt_upper_bound; lia].
Qed.

(** Every address derived from a public key is well formed: the prefix [sl]
    followed by the 40 hexadecimal digits of the truncated hash, so [Valid]
    accepts exactly the shape [AddressFromPub] produces. *)
Theorem AddressFromPub_valid pub : Valid (AddressFromPub pub) = true.
Proof.
  unfold Valid, AddressFromPub. rewrite bytes_of_string_of.
  assert (length (hex_encode (take 20 (sha256 pub))) = 40%nat) as Hl.
  { rewrite length_hex_encode, length_take, length_sha256. lia. }
  set (h := hex_encode _) in *. unfold zlen, hex_ok. rewrite length_app, Hl.
  change (bytes_of AddressPrefix) with [x73; x6c]. cbn [app drop length take].
  rewrite !drop_0, Hl, take_0. subst h. by rewrite hex_encode_digits.
Qed.

Lemma KeyPair_matches k : PubMatchesAddress (kp_Pub k) (KeyPair_Address k) = true.
Proof. by apply bool_decide_eq_true_2. Qed.

Lemma Verify_Sign `{Ed25519} k m : key_ok (kp_Priv k) (kp_Pub k) →
  Verify (kp_Pub k) m (KeyPair_Sign k m) = true.
Proof. intros [Hl Hv]. unfold Verify, zlen, PublicKeySize. rewrite Hl. apply Hv. Qed.

(** Two key pairs with one address hash to the same truncated digest; equal
    digests of equal keys are the honest case. *)
Lemma PubMatchesAddress_spec pub a : PubMatchesAddress pub a = true ↔ AddressFromPub pub = a.
Proof. apply bool_decide_eq_true. Qed.

#[export] Hint Resolve KeyPair_matches Verify_Sign : codec.
