(* ===== verification/Base64.v ===== *)
(** * Base64 ([encoding/base64], [StdEncoding])

    Wallet files carry keys, salts and ciphertexts in base64.  The decoder is the one of
    the library: carriage returns and newlines are skipped, padding is required, the bits
    that padding leaves over are not looked at. *)

From S2P Require Import Prelude.

Definition b64_char (n : Z) : byte :=
  if n <? 26 then zb (65 + n) else if n <? 52 then zb (71 + n) else if n <? 62 then zb (n - 4)
  else if n =? 62 then zb 43 else zb 47.

Definition b64_val (b : byte) : option Z :=
  let n := bz b in
  if (65 <=? n) && (n <=? 90) then Some (n - 65)
  else if (97 <=? n) && (n <=? 122) then Some (n - 71)
  else if (48 <=? n) && (n <=? 57) then Some (n + 4)
  else if n =? 43 then Some 62 else if n =? 47 then Some 63 else None.

Definition pad : byte := zb 61.

Fixpoint b64_encode (l : bytes) : bytes :=
  match l with
  | a :: b :: c :: r =>
      let v := bz a * 65536 + bz b * 256 + bz c in
      b64_char (v / 262144) :: b64_char (v / 4096 mod 64) :: b64_char (v / 64 mod 64) :: b64_char (v mod 64) :: b64_encode r
  | [a; b] =>
      let v := bz a * 1024 + bz b * 4 in
      [b64_char (v / 4096); b64_char (v / 64 mod 64); b64_char (v mod 64); pad]
  | [a] => let v := bz a * 16 in [b64_char (v / 64); b64_char (v mod 64); pad; pad]
  | [] => []
  end.

(** One quantum of four characters after the other; padding ends the input. *)
Fixpoint b64_quanta (l : bytes) : option bytes :=
  match l with
  | [] => Some []
  | a :: b :: c :: d :: r =>
      x ← b64_val a; y ← b64_val b;
      if bool_decide (c = pad) then
        if bool_decide (d = pad ∧ r = []) then Some [zb (x * 4 + y / 16)] else None
      else
        z ← b64_val c;
        if bool_decide (d = pad) then
          if bool_decide (r = []) then Some [zb (x * 4 + y / 16); zb (y * 16 + z / 4)] else None
        else
          w ← b64_val d; t ← b64_quanta r;
          Some (zb (x * 4 + y / 16) :: zb (y * 16 + z / 4) :: zb (z * 64 + w) :: t)
  | _ => None
  end.

Definition is_newline (b : byte) : bool := (bz b =? 10) || (bz b =? 13).

Definition b64_decode (l : bytes) : option bytes := b64_quanta (filter (λ b, is_newline b = false) l).

Example b64_examples :
  string_of (b64_encode (bytes_of "light work.")) = "bGlnaHQgd29yay4=" ∧
  b64_decode (bytes_of "bGlnaHQgd28=") = Some (bytes_of "light wo") ∧
  b64_decode (bytes_of "bGlnaHQgd2==") = Some (bytes_of "light w") ∧
  b64_decode (bytes_of "bGlnaHQ") = None ∧ b64_decode (bytes_of "bGl=aHQg") = None.
Proof. split_and!; reflexivity. Qed.

(** * Lemmas *)

Lemma b64_char_byte n : 0 <= n < 64 → b64_val (b64_char n) = Some n ∧ b64_char n ≠ pad ∧ is_newline (b64_char n) = false.
Proof.
  intros Hn. assert (forallb (λ n, bool_decide (b64_val (b64_char n) = Some n ∧ b64_char n ≠ pad ∧ is_newline (b64_char n) = false)) (seqZ 0 64) = true) as Hall
    by (vm_compute; reflexivity).
  rewrite forallb_forall in Hall. eapply bool_decide_eq_true_1, Hall, list_elem_of_In, elem_of_seqZ. lia.
Qed.

(** The three bytes of a quantum, from its four digits. *)
Lemma quantum_bytes a b c :
  let v := bz a * 65536 + bz b * 256 + bz c in
  zb (v / 262144 * 4 + v / 4096 mod 64 / 16) = a ∧
  zb (v / 4096 mod 64 * 16 + v / 64 mod 64 / 4) = b ∧ zb (v / 64 mod 64 * 64 + v mod 64) = c.
Proof.
  pose proof (bz_range a). pose proof (bz_range b). pose proof (bz_range c). cbv zeta.
  assert (∀ z x, z mod 256 = bz x → zb z = x) as Hz.
  { intros z x E. rewrite <- (zb_bz x), <- E. unfold zb. by rewrite Zmod_mod. }
  split_and!; apply Hz; Z.to_euclidean_division_equations; lia.
Qed.

Lemma b64_digits v : 0 <= v < 16777216 → 0 <= v / 262144 < 64 ∧ 0 <= v / 4096 mod 64 < 64 ∧ 0 <= v / 64 mod 64 < 64 ∧ 0 <= v mod 64 < 64.
Proof. intros. split_and!; Z.to_euclidean_division_equations; lia. Qed.

(** What holds of the alphabet and of the padding holds of every character of a text. *)
Lemma b64_encode_forall (P : byte → Prop) l : (∀ n, 0 <= n < 64 → P (b64_char n)) → P pad → Forall P (b64_encode l).
Proof.
  intros Hc Hpad.
  assert (∀ l n, (length l <= n)%nat → Forall P (b64_encode l)) as Hgo; [|by eapply Hgo].
  clear l. intros l n. revert l. induction n as [|n IH]; intros l Hl; [by destruct l; [constructor|simpl in Hl; lia]|].
  destruct l as [|a [|b [|c r]]]; [constructor|..]; cbn [b64_encode]; pose proof (bz_range a);
    [|pose proof (bz_range b)|pose proof (bz_range b); pose proof (bz_range c)].
  - repeat constructor; try done; apply Hc; Z.to_euclidean_division_equations; lia.
  - repeat constructor; try done; apply Hc; Z.to_euclidean_division_equations; lia.
  - destruct (b64_digits (bz a * 65536 + bz b * 256 + bz c)) as (? & ? & ? & ?); [lia|].
    repeat (constructor; [by apply Hc|]). apply IH. simpl in Hl. lia.
Qed.

Lemma b64_encode_plain l : Forall (λ b, is_newline b = false) (b64_encode l).
Proof. apply b64_encode_forall; [|done]. intros n Hn. by apply b64_char_byte. Qed.

Lemma b64_encode_ascii l : Forall (λ b, bz b < 128) (b64_encode l).
Proof.
  apply b64_encode_forall; [|done]. intros n Hn. unfold b64_char.
  destruct (Z.ltb_spec n 26), (Z.ltb_spec n 52), (Z.ltb_spec n 62), (Z.eqb_spec n 62); rewrite bz_zb; Z.to_euclidean_division_equations; lia.
Qed.

Lemma b64_quanta_encode l : b64_quanta (b64_encode l) = Some l.
Proof.
  assert (∀ l n, (length l <= n)%nat → b64_quanta (b64_encode l) = Some l) as Hgo; [|by eapply Hgo].
  clear l. intros l n. revert l. induction n as [|n IH]; intros l Hl; [by destruct l; [|simpl in Hl; lia]|].
  destruct l as [|a [|b [|c r]]]; [done|..]; cbn [b64_encode]; cbv zeta.
  - pose proof (bz_range a). assert (bz (zb 0) = 0) as E0 by done.
    pose proof (quantum_bytes a (zb 0) (zb 0)) as (Ea & _ & _). rewrite E0 in Ea.
    pose proof (b64_digits (bz a * 65536) ltac:(lia)) as (D1 & D2 & _).
    replace (bz a * 65536 + 0 * 256 + 0) with (bz a * 65536) in Ea by lia.
    replace (bz a * 16 / 64) with (bz a * 65536 / 262144) by (Z.to_euclidean_division_equations; lia).
    replace (bz a * 16 mod 64) with (bz a * 65536 / 4096 mod 64) by (Z.to_euclidean_division_equations; lia).
    cbn [b64_quanta]. destruct (b64_char_byte _ D1) as (-> & _ & _), (b64_char_byte _ D2) as (-> & _ & _).
    cbn [mbind option_bind]. rewrite !bool_decide_true by done. by rewrite Ea.
  - pose proof (bz_range a). pose proof (bz_range b). assert (bz (zb 0) = 0) as E0 by done.
    pose proof (quantum_bytes a b (zb 0)) as (Ea & Eb & _). rewrite E0 in Ea, Eb.
    pose proof (b64_digits (bz a * 65536 + bz b * 256 + 0) ltac:(lia)) as (D1 & D2 & D3 & _).
    set (v := bz a * 65536 + bz b * 256 + 0) in *. set (u := bz a * 1024 + bz b * 4).
    assert (v = u * 64) as Ev by (unfold v, u; lia). clearbody v u.
    replace (u / 4096) with (v / 262144) by (Z.to_euclidean_division_equations; lia).
    replace (u / 64 mod 64) with (v / 4096 mod 64) by (Z.to_euclidean_division_equations; lia).
    replace (u mod 64) with (v / 64 mod 64) by (Z.to_euclidean_division_equations; lia).
    cbn [b64_quanta]. destruct (b64_char_byte _ D1) as (-> & _ & _), (b64_char_byte _ D2) as (-> & _ & _), (b64_char_byte _ D3) as (-> & Hp & _).
    cbn [mbind option_bind]. rewrite bool_decide_false by done. rewrite !bool_decide_true by done. by rewrite Ea, Eb.
  - pose proof (bz_range a). pose proof (bz_range b). pose proof (bz_range c).
    pose proof (quantum_bytes a b c) as (Ea & Eb & Ec). cbv zeta in Ea, Eb, Ec.
    destruct (b64_digits (bz a * 65536 + bz b * 256 + bz c)) as (D1 & D2 & D3 & D4); [lia|].
    set (v := bz a * 65536 + bz b * 256 + bz c) in *. clearbody v. cbn [b64_quanta].
    destruct (b64_char_byte _ D1) as (-> & _ & _), (b64_char_byte _ D2) as (-> & _ & _),
      (b64_char_byte _ D3) as (-> & Hp & _), (b64_char_byte _ D4) as (-> & Hq & _).
    cbn [mbind option_bind]. rewrite !bool_decide_false by done. rewrite IH by (simpl in Hl; lia).
    cbn [mbind option_bind]. by rewrite Ea, Eb, Ec.
Qed.

(** What is encoded decodes to itself. *)
Lemma b64_decode_encode l : b64_decode (b64_encode l) = Some l.
Proof.
  unfold b64_decode. replace (filter _ (b64_encode l)) with (b64_encode l); [apply b64_quanta_encode|].
  symmetry. generalize (b64_encode_plain l). induction 1 as [|x r Hx _ IH]; [done|]. by rewrite filter_cons, decide_True, IH.
Qed.
