(* ===== verification/AesGcm.v ===== *)
(** * AES-256 in Galois/counter mode ([crypto/aes], [crypto/cipher])

    Wallets are sealed with AES-256-GCM.  The block cipher follows FIPS 197, the mode
    NIST SP 800-38D for a nonce of twelve bytes, both executable and checked against
    their test vectors.  A block is a list of sixteen bytes held as integers. *)

From S2P Require Import Prelude.

(** ** The field of 256 elements *)

Definition xtime (b : Z) : Z := let c := Z.shiftl b 1 in if c <? 256 then c else Z.lxor c 283.

Fixpoint gmul_loop (n : nat) (a b : Z) : Z :=
  match n with
  | O => 0
  | S n' => Z.lxor (if Z.testbit b 0 then a else 0) (gmul_loop n' (xtime a) (Z.shiftr b 1))
  end.
Definition gmul : Z → Z → Z := gmul_loop 8.

(** [b^254] is the inverse of [b], and 0 for 0. *)
Definition ginv (b : Z) : Z :=
  let sq x := gmul x x in
  let b2 := sq b in let b4 := sq b2 in let b8 := sq b4 in let b16 := sq b8 in
  let b32 := sq b16 in let b64 := sq b32 in let b128 := sq b64 in
  gmul b128 (gmul b64 (gmul b32 (gmul b16 (gmul b8 (gmul b4 b2))))).

Definition rotl8 (b k : Z) : Z := Z.lor (Z.shiftl b k mod 256) (Z.shiftr b (8 - k)).
Definition sub_byte (b : Z) : Z :=
  let i := ginv b in Z.lxor 99 (Z.lxor i (Z.lxor (rotl8 i 1) (Z.lxor (rotl8 i 2) (Z.lxor (rotl8 i 3) (rotl8 i 4))))).

Definition sbox : list Z := Eval vm_compute in sub_byte <$> seqZ 0 256.
Definition sub (b : Z) : Z := nth (Z.to_nat b) sbox 0.

(** ** Rounds *)

Abbreviation block := (list Z).
Definition xor_block : block → block → block := zip_with Z.lxor.

Definition at_ (l : list Z) (i : nat) : Z := nth i l 0.
Definition ShiftRows (s : block) : block := (λ i, at_ s ((i + 4 * (i mod 4)) mod 16)) <$> seq 0 16.
Definition SubBytes (s : block) : block := sub <$> s.

Definition mix_column (c : list Z) : list Z :=
  match c with
  | [a; b; c; d] =>
      let m x y z w := Z.lxor (gmul 2 x) (Z.lxor (gmul 3 y) (Z.lxor z w)) in
      [m a b c d; m b c d a; m c d a b; m d a b c]
  | _ => c
  end.
Definition MixColumns (s : block) : block :=
  mix_column (take 4 s) ++ mix_column (take 4 (drop 4 s)) ++ mix_column (take 4 (drop 8 s)) ++ mix_column (take 4 (drop 12 s)).

(** ** The key schedule: words of four bytes, newest first; [rc] is the next constant. *)
Fixpoint expand (n : nat) (i : nat) (rc : Z) (ws : list (list Z)) : list (list Z) :=
  match n with
  | O => ws
  | S n' =>
      let prev := nth 0 ws [] in
      let temp :=
        if (i mod 8 =? 0)%nat then xor_block (sub <$> (drop 1 prev ++ take 1 prev)) [rc; 0; 0; 0]
        else if (i mod 8 =? 4)%nat then sub <$> prev else prev in
      expand n' (S i) (if (i mod 8 =? 0)%nat then xtime rc else rc) (xor_block (nth 7 ws []) temp :: ws)
  end.

Fixpoint chunk (n : nat) (l : list Z) : list (list Z) :=
  match n with O => [] | S n' => take 4 l :: chunk n' (drop 4 l) end.

(** Fifteen round keys of four words. *)
Definition round_keys (key : bytes) : list block :=
  let ws := reverse (expand 52 8 1 (reverse (chunk 8 (bz <$> key)))) in
  (λ r, mjoin (take 4 (drop (4 * r) ws))) <$> seq 0 15.

Definition aes_round (s : block) (k : block) : block := xor_block (MixColumns (ShiftRows (SubBytes s))) k.

Definition encrypt_block (rk : list block) (s : block) : block :=
  let s := xor_block s (nth 0 rk []) in
  let s := foldl aes_round s (take 13 (drop 1 rk)) in
  xor_block (ShiftRows (SubBytes s)) (nth 14 rk []).

(** The sixteen bytes of a block. *)
Definition block_bytes (s : block) : bytes := (λ i, zb (at_ s i)) <$> seq 0 16.
Definition aes (rk : list block) (l : bytes) : bytes := block_bytes (encrypt_block rk (bz <$> l)).

(** FIPS 197, C.3 *)
Example aes256_vector :
  be_val (aes (round_keys (zb <$> seqZ 0 32)) (be_bytes 16 0x00112233445566778899aabbccddeeff)) = 0x8ea2b7ca516745bfeafc49904b496089.
Proof. vm_compute. reflexivity. Qed.

(** ** Counter mode *)

Definition xor_byte (a b : byte) : byte := zb (Z.lxor (bz a) (bz b)).
Definition xor_bytes : bytes → bytes → bytes := zip_with xor_byte.

(** [n] blocks of key stream, from counter [c] on. *)
Fixpoint keystream (n : nat) (rk : list block) (nonce : bytes) (c : Z) : bytes :=
  match n with
  | O => []
  | S n' => aes rk (nonce ++ be_bytes 4 c) ++ keystream n' rk nonce (u32 (c + 1))
  end.
Definition ctr (rk : list block) (nonce l : bytes) : bytes := xor_bytes l (keystream (S (length l / 16)) rk nonce 2).

(** ** The authenticator *)

Fixpoint ghash_mul (n : nat) (x v z : Z) : Z :=
  match n with
  | O => z
  | S n' =>
      ghash_mul n' x (let h := Z.shiftr v 1 in if Z.testbit v 0 then Z.lxor h (Z.shiftl 225 120) else h)
        (if Z.testbit x (Z.of_nat n') then Z.lxor z v else z)
  end.

(** The input in blocks, the last one filled with zeros. *)
Fixpoint ghash_blocks (n : nat) (h y : Z) (l : bytes) : Z :=
  match n with
  | O => y
  | S n' =>
      match l with
      | [] => y
      | _ =>
          let b := take 16 l in
          ghash_blocks n' h (ghash_mul 128 (Z.lxor y (be_val (b ++ replicate (16 - length b) (zb 0)))) h 0) (drop 16 l)
      end
  end.

Definition gcm_tag (rk : list block) (nonce ad ct : bytes) : bytes :=
  let h := be_val (aes rk (replicate 16 (zb 0))) in
  let y := ghash_blocks (length ad) h 0 ad in
  let y := ghash_blocks (length ct) h y ct in
  let y := ghash_blocks 1 h y (be_bytes 8 (8 * zlen ad) ++ be_bytes 8 (8 * zlen ct)) in
  xor_bytes (be_bytes 16 y) (aes rk (nonce ++ be_bytes 4 1)).

(** ** [cipher.AEAD] *)

Definition NonceSize : Z := 12.

(** [aes.NewCipher]: the only callers derive 32 bytes. *)
Definition NewCipher (key : bytes) : res (list block) := if zlen key =? 32 then Ok (round_keys key) else Err ErrKDF.

(** [Seal] with a nil destination; a nonce of another length panics. *)
Definition Seal (rk : list block) (nonce plain ad : bytes) : res bytes :=
  if zlen nonce =? NonceSize then let ct := ctr rk nonce plain in Ok (ct ++ gcm_tag rk nonce ad ct) else Panic.

Definition Open (rk : list block) (nonce sealed ad : bytes) : res bytes :=
  if zlen nonce =? NonceSize then
    if zlen sealed <? 16 then Err ErrAuth else
    let n := (length sealed - 16)%nat in
    let ct := take n sealed in
    if bool_decide (drop n sealed = gcm_tag rk nonce ad ct) then Ok (ctr rk nonce ct) else Err ErrAuth
  else Panic.

(** Test case 16 of the GCM specification. *)
Example gcm_vector :
  let rk := round_keys (be_bytes 32 0xfeffe9928665731c6d6a8f9467308308feffe9928665731c6d6a8f9467308308) in
  let nonce := be_bytes 12 0xcafebabefacedbaddecaf888 in
  let ad := be_bytes 20 0xfeedfacedeadbeeffeedfacedeadbeefabaddad2 in
  let plain := be_bytes 60 0xd9313225f88406e5a55909c5aff5269a86a7a9531534f7da2e4c303d8a318a721c3c0c95956809532fcf0e2449a6b525b16aedf5aa0de657ba637b39 in
  Seal rk nonce plain ad = Ok (
    be_bytes 60 0x522dc1f099567d07f47f37a32a84427d643a8cdcbfe5c0c97598a2bd2555d1aa8cb08e48590dbb3da7b08b1056828838c5f61e6393ba7a0abcc9f662 ++
    be_bytes 16 0x76fc6ece0f4e1768cddf8853bb2d551b).
Proof. vm_compute. reflexivity. Qed.

(** * Lemmas *)

Lemma length_aes rk l : length (aes rk l) = 16%nat.
Proof. unfold aes, block_bytes. by rewrite length_fmap, length_seq. Qed.

Lemma length_keystream n rk nonce : ∀ c, length (keystream n rk nonce c) = (16 * n)%nat.
Proof. induction n as [|n IH]; intros c; [done|]. cbn [keystream]. rewrite length_app, length_aes, IH. lia. Qed.

Lemma xor_byte_twice a k : xor_byte (xor_byte a k) k = a.
Proof.
  unfold xor_byte. rewrite bz_zb. rewrite <- (zb_bz a) at 2. f_equal. pose proof (bz_range a) as Ha. pose proof (bz_range k) as Hk.
  assert (∀ z i, 0 <= z < 256 → 8 <= i → Z.testbit z i = false) as Hhigh.
  { intros z i Hz Hi. rewrite <- (Z.mod_small z (2 ^ 8)) by lia. apply Z.mod_pow2_bits_high. lia. }
  change 256 with (2 ^ 8). apply Z.bits_inj'. intros i Hi. rewrite Z.lxor_spec. destruct (Z.lt_ge_cases i 8).
  - rewrite Z.mod_pow2_bits_low, Z.lxor_spec by lia. by destruct (Z.testbit (bz a) i), (Z.testbit (bz k) i).
  - rewrite Z.mod_pow2_bits_high, !Hhigh by lia. done.
Qed.

Lemma length_ctr rk nonce l : length (ctr rk nonce l) = length l.
Proof.
  unfold ctr, xor_bytes. rewrite length_zip_with, length_keystream. pose proof (Nat.div_mod (length l) 16 ltac:(lia)).
  pose proof (Nat.mod_upper_bound (length l) 16 ltac:(lia)). lia.
Qed.

Lemma ctr_twice rk nonce l : ctr rk nonce (ctr rk nonce l) = l.
Proof.
  assert (∀ l ks, (length l <= length ks)%nat → xor_bytes (xor_bytes l ks) ks = l) as Hx.
  { clear l. induction l as [|a l IH]; intros [|k ks] Hl; try done; simpl in Hl; [lia|].
    unfold xor_bytes in *. simpl. rewrite xor_byte_twice, IH by lia. done. }
  unfold ctr at 1. rewrite length_ctr. unfold ctr. apply Hx. rewrite length_keystream.
  pose proof (Nat.div_mod (length l) 16 ltac:(lia)). pose proof (Nat.mod_upper_bound (length l) 16 ltac:(lia)). lia.
Qed.

Lemma length_tag rk nonce ad ct : length (gcm_tag rk nonce ad ct) = 16%nat.
Proof. unfold gcm_tag, xor_bytes. by rewrite length_zip_with, length_be_bytes, length_aes. Qed.

(** What is sealed opens, under the same key, nonce and additional data; under others
    exactly when the tags agree. *)
Lemma Open_Seal rk rk' nonce ad ad' plain sealed : Seal rk nonce plain ad = Ok sealed →
  Open rk' nonce sealed ad' =
    if bool_decide (gcm_tag rk nonce ad (ctr rk nonce plain) = gcm_tag rk' nonce ad' (ctr rk nonce plain))
    then Ok (ctr rk' nonce (ctr rk nonce plain)) else Err ErrAuth.
Proof.
  unfold Seal, Open. destruct (zlen nonce =? NonceSize); [|done]. intros [= <-].
  pose proof (length_tag rk nonce ad (ctr rk nonce plain)) as Ht. set (ct := ctr rk nonce plain) in *. set (tag := gcm_tag _ _ _ _) in *.
  unfold zlen. rewrite length_app, Ht. rewrite (proj2 (Z.ltb_ge _ _)) by lia.
  replace (length ct + 16 - 16)%nat with (length ct) by lia. by rewrite take_app_length, drop_app_length.
Qed.
