(* ===== verification/Wallet.v ===== *)
(** * Wallet files ([internal/crypto/wallet.go], [internal/crypto/tok.go])

    Key pairs on disk: a plain JSON file, or a [.tok] file whose private key is sealed
    with AES-256-GCM under a key derived from a passphrase.  The programs run in the
    monad over a [Machine], its files and its random numbers.  Key derivation (scrypt, a
    third-party package) and the JSON text of a file are parameters, the class
    [WalletCodec] with the laws [codec_laws]. *)

From S2P Require Import Prelude Sha256 Crypto Base64 AesGcm.

Local Abbreviation M := Prelude.M.

(** ** File formats *)

Record kdfParams := MkKdf { kdf_N : Z; kdf_R : Z; kdf_P : Z; kdf_Salt : string }.
Record tokFile := MkTok {
  tk_Version : Z; tk_Address : Address; tk_KDF : string; tk_KDFParams : kdfParams;
  tk_Cipher : string; tk_Nonce : string; tk_Ciphertext : string;
}.
Record walletFile := MkWallet { wf_Priv : string; wf_Pub : string; wf_Address : Address }.

Definition TokVersion : Z := 1.
Definition scryptN : Z := 32768.
Definition scryptR : Z := 8.
Definition scryptP : Z := 1.
Definition PrivateKeySize : Z := 64.

(** What the wallets take from outside: [scrypt.Key] (passphrase, salt, N, r, p, length)
    and [encoding/json] on the two formats. *)
Class WalletCodec := {
  scrypt_key : bytes → bytes → Z → Z → Z → Z → res bytes;
  tok_text : tokFile → bytes;
  tok_parse : bytes → option tokFile;
  wallet_text : walletFile → bytes;
  wallet_parse : bytes → option walletFile;
}.

Definition ascii (s : string) : Prop := Forall (λ b, bz b < 128) (bytes_of s).
Definition ascii_tok (t : tokFile) : Prop :=
  ascii (tk_Address t) ∧ ascii (tk_KDF t) ∧ ascii (kdf_Salt (tk_KDFParams t)) ∧
  ascii (tk_Cipher t) ∧ ascii (tk_Nonce t) ∧ ascii (tk_Ciphertext t).
Definition ascii_wallet (w : walletFile) : Prop := ascii (wf_Priv w) ∧ ascii (wf_Pub w) ∧ ascii (wf_Address w).

(** Their documented behaviour: a derived key has the length asked for, and a value with
    plain strings survives marshalling. *)
Record codec_laws `{WalletCodec} : Prop := {
  scrypt_length pass salt N r p n k : scrypt_key pass salt N r p n = Ok k → zlen k = n;
  tok_round t : ascii_tok t → tok_parse (tok_text t) = Some t;
  wallet_round w : ascii_wallet w → wallet_parse (wallet_text w) = Some w;
}.

(** ** The machine *)

Record Machine := MkMachine { mc_files : gmap string bytes; mc_random : nat }.

Definition read_file (path : string) : M Machine bytes :=
  m ← get; match mc_files m !! path with Some b => mret b | None => throw ErrNotExist end.
Definition write_file (path : string) (b : bytes) : M Machine unit :=
  modify (λ m, MkMachine (<[path := b]> (mc_files m)) (mc_random m)).
Definition or_error {S A} (e : error) (o : option A) : M S A := match o with Some a => mret a | None => throw e end.

Definition b64_text (l : bytes) : string := string_of (b64_encode l).
Definition b64_of {S} (s : string) : M S bytes := or_error ErrBase64 (b64_decode (bytes_of s)).

(** ** Paths *)

(** The tails [strings.ToLower] sends to [".tok"]: the Kelvin sign is a capital k. *)
Definition tok_suffixes : list bytes :=
  t ← [zb 116; zb 84]; o ← [zb 111; zb 79]; k ← [[zb 107]; [zb 75]; [zb 226; zb 132; zb 170]]; [[zb 46; t; o] ++ k].
Definition has_suffix (suf l : bytes) : bool := bool_decide (suf = drop (length l - length suf) l).
Definition IsTok (path : string) : bool := existsb (λ suf, has_suffix suf (bytes_of path)) tok_suffixes.

Section wallet.
Context `{WalletCodec}.
(** [rand.Read] of some bytes, and [ed25519.GenerateKey], as the n-th use of randomness
    finds them; [None] is an error. *)
Context (rand : nat → Z → option bytes) (keygen : nat → option KeyPair).

Definition use_random {A} (f : nat → option A) : M Machine A :=
  m ← get;
  modify (λ m, MkMachine (mc_files m) (S (mc_random m))) ≫= λ _, or_error ErrRandom (f (mc_random m)).

Definition rand_Read (n : Z) : M Machine bytes := use_random (λ k, rand k n).
Definition Generate : M Machine KeyPair := use_random keygen.

(** ** Plain wallets *)

Definition SaveWallet (k : KeyPair) (path : string) : M Machine unit :=
  write_file path (wallet_text (MkWallet (b64_text (kp_Priv k)) (b64_text (kp_Pub k)) (KeyPair_Address k))).

Definition LoadWallet (path : string) : M Machine KeyPair :=
  b ← read_file path;
  wf ← or_error ErrJSON (wallet_parse b);
  priv ← b64_of (wf_Priv wf);
  pub ← b64_of (wf_Pub wf);
  if negb (zlen priv =? PrivateKeySize) || negb (zlen pub =? PublicKeySize) then throw ErrBadKeyLen
  else mret {| kp_Priv := priv; kp_Pub := pub |}.

Definition exists_file (path : string) : M Machine bool := m ← get; mret (bool_decide (is_Some (mc_files m !! path))).

Definition LoadOrCreateWallet (path : string) : M Machine KeyPair :=
  found ← exists_file path;
  if found : bool then LoadWallet path else
  k ← Generate;
  SaveWallet k path ≫= λ _, mret k.

(** ** Sealed wallets *)

Definition deriveKey (pass salt : bytes) : res bytes := scrypt_key pass salt scryptN scryptR scryptP 32.

Definition sealed_file (k : KeyPair) (salt nonce ct : bytes) : tokFile :=
  MkTok TokVersion (KeyPair_Address k) "scrypt" (MkKdf scryptN scryptR scryptP (b64_text salt))
    "aes-256-gcm" (b64_text nonce) (b64_text ct).

Definition SaveTok (k : KeyPair) (path passphrase : string) : M Machine unit :=
  if bool_decide (passphrase = "") then throw ErrNoPassphrase else
  salt ← rand_Read 16;
  dk ← lift (deriveKey (bytes_of passphrase) salt);
  gcm ← lift (NewCipher dk);
  nonce ← rand_Read NonceSize;
  ct ← lift (Seal gcm nonce (kp_Priv k) (bytes_of (KeyPair_Address k)));
  write_file path (tok_text (sealed_file k salt nonce ct)).

(** [priv.Public()]: the second half of the private key. *)
Definition public_of (priv : bytes) : bytes := drop 32 priv.

Definition open_tok (tf : tokFile) (passphrase : string) : M Machine KeyPair :=
  salt ← b64_of (kdf_Salt (tk_KDFParams tf));
  let p := tk_KDFParams tf in
  dk ← lift (scrypt_key (bytes_of passphrase) salt (kdf_N p) (kdf_R p) (kdf_P p) 32);
  gcm ← lift (NewCipher dk);
  nonce ← b64_of (tk_Nonce tf);
  ct ← b64_of (tk_Ciphertext tf);
  match Open gcm nonce ct (bytes_of (tk_Address tf)) with
  | Panic => panic
  | Err _ => throw ErrBadPass
  | Ok priv =>
      if negb (zlen priv =? PrivateKeySize) then throw ErrBadPass else
      let kp := {| kp_Priv := priv; kp_Pub := public_of priv |} in
      if bool_decide (KeyPair_Address kp = tk_Address tf) then mret kp else throw ErrBadPass
  end.

Definition LoadTok (path passphrase : string) : M Machine KeyPair :=
  if bool_decide (passphrase = "") then throw ErrNoPassphrase else
  b ← read_file path;
  tf ← or_error ErrJSON (tok_parse b);
  open_tok tf passphrase.

(** ** Either kind, by the extension *)

Definition LoadWalletAuto (path passphrase : string) : M Machine KeyPair :=
  if IsTok path then LoadTok path passphrase else LoadWallet path.
Definition SaveWalletAuto (k : KeyPair) (path passphrase : string) : M Machine unit :=
  if IsTok path then SaveTok k path passphrase else SaveWallet k path.

Definition LoadOrCreateWalletAuto (path passphrase : string) : M Machine KeyPair :=
  found ← exists_file path;
  if found : bool then LoadWalletAuto path passphrase else
  k ← Generate;
  SaveWalletAuto k path passphrase ≫= λ _, mret k.
End wallet.

(** * Lemmas *)

(** A key pair as [ed25519.GenerateKey] makes it. *)
Definition key_pair (k : KeyPair) : Prop := zlen (kp_Priv k) = PrivateKeySize ∧ kp_Pub k = public_of (kp_Priv k).

Lemma key_pair_pub k : key_pair k → zlen (kp_Pub k) = PublicKeySize.
Proof. intros [Hl ->]. unfold public_of, zlen, PrivateKeySize, PublicKeySize in *. rewrite length_drop. lia. Qed.

Lemma b64_of_text {S} (l : bytes) (s : S) : b64_of (b64_text l) s = OK s l.
Proof. unfold b64_of, b64_text. by rewrite bytes_of_string_of, b64_decode_encode. Qed.

Lemma ascii_bytes l : Forall (λ b, bz b < 128) l → ascii (string_of l).
Proof. unfold ascii. by rewrite bytes_of_string_of. Qed.

Lemma ascii_b64 l : ascii (b64_text l).
Proof. apply ascii_bytes, b64_encode_ascii. Qed.

Lemma ascii_address pub : ascii (AddressFromPub pub).
Proof.
  apply ascii_bytes. apply Forall_app. split; [repeat constructor|].
  generalize (hex_encode_digits (take 20 (sha256 pub))). generalize (hex_encode (take 20 (sha256 pub))).
  induction l as [|b l IH]; [done|]. simpl. intros [Hb Hl]%andb_prop. constructor; [|by apply IH].
  unfold is_hex_digit in Hb. rewrite !orb_true_iff, !andb_true_iff, !Z.leb_le in Hb. lia.
Qed.

#[local] Hint Resolve ascii_b64 ascii_address : core.

(** Runs of the small programs, under their continuation. *)
Lemma bind_or_error {S A B} e (o : option A) (f : A → M S B) s :
  (or_error e o ≫= f) s = match o with Some a => f a s | None => ERR s e end.
Proof. by destruct o. Qed.
Lemma bind_lift {S A B} (r : res A) (f : A → M S B) s :
  (lift r ≫= f) s = match r with Ok a => f a s | Err e => ERR s e | Panic => PANIC s end.
Proof. by destruct r. Qed.
Lemma bind_read_file {B} path (f : bytes → M Machine B) m :
  (read_file path ≫= f) m = match mc_files m !! path with Some b => f b m | None => ERR m ErrNotExist end.
Proof. unfold read_file, mbind, M_bind, get. by destruct (mc_files m !! path). Qed.

(** ** Sealed wallets *)

Section sealed.
Context `{WalletCodec} (laws : codec_laws) (rand : nat → Z → option bytes) (keygen : nat → option KeyPair).

Lemma or_error_OK {S A} e (o : option A) (s s' : S) a : or_error e o s = OK s' a → o = Some a ∧ s' = s.
Proof. destruct o; [|done]. by intros [= <- <-]. Qed.

Lemma use_random_OK {A} (f : nat → option A) m m' a : use_random f m = OK m' a →
  f (mc_random m) = Some a ∧ m' = MkMachine (mc_files m) (S (mc_random m)).
Proof. unfold use_random. rewrite (bind_ok get _ _ _ _ eq_refl). by intros [-> ->]%or_error_OK. Qed.

(** What a successful [SaveTok] wrote. *)
Lemma SaveTok_inv k path pass m m' : SaveTok rand k path pass m = OK m' tt →
  pass ≠ "" ∧ ∃ salt dk nonce ct, deriveKey (bytes_of pass) salt = Ok dk ∧ zlen dk = 32 ∧ zlen nonce = NonceSize ∧
    ct = ctr (round_keys dk) nonce (kp_Priv k) ∧
    Seal (round_keys dk) nonce (kp_Priv k) (bytes_of (KeyPair_Address k)) = Ok (ct ++ gcm_tag (round_keys dk) nonce (bytes_of (KeyPair_Address k)) ct) ∧
    mc_files m' = <[path := tok_text (sealed_file k salt nonce (ct ++ gcm_tag (round_keys dk) nonce (bytes_of (KeyPair_Address k)) ct))]> (mc_files m).
Proof.
  unfold SaveTok. case_bool_decide as Hp; [done|]. intros E. split; [done|].
  apply bind_OK_inv in E as (salt & m1 & [_ ->]%use_random_OK & E).
  apply bind_OK_inv in E as (dk & m2 & E2 & E). unfold lift in E2. destruct (deriveKey _ salt) as [dk'| |] eqn:Ed; [|done..].
  apply OK_inj in E2 as [<- <-]. pose proof (scrypt_length laws _ _ _ _ _ _ _ Ed) as Hl.
  unfold NewCipher in E. rewrite Hl in E. cbn [Z.eqb Pos.eqb] in E. change (lift (Ok ?x) ≫= ?f) with (f x) in E.
  apply bind_OK_inv in E as (nonce & m3 & [_ ->]%use_random_OK & E).
  apply bind_OK_inv in E as (ct & m4 & E4 & E). unfold lift in E4.
  destruct (Seal _ _ _ _) as [c| |] eqn:Es; [|done..]. apply OK_inj in E4 as [<- <-].
  apply OK_inj in E as [<- _]. pose proof Es as Es'. unfold Seal in Es. destruct (Z.eqb_spec (zlen nonce) NonceSize); [|done].
  injection Es as <-. exists salt, dk', nonce, (ctr (round_keys dk') nonce (kp_Priv k)). by split_and!.
Qed.

(** Opening a sealed file, with any passphrase. *)
Lemma open_sealed k salt nonce dk ct pass m : let ad := bytes_of (KeyPair_Address k) in
  key_pair k → zlen nonce = NonceSize → zlen dk = 32 → ct = ctr (round_keys dk) nonce (kp_Priv k) →
  open_tok (sealed_file k salt nonce (ct ++ gcm_tag (round_keys dk) nonce ad ct)) pass m =
    match deriveKey (bytes_of pass) salt with
    | Panic => PANIC m
    | Err e => ERR m e
    | Ok dk' =>
        if bool_decide (gcm_tag (round_keys dk) nonce ad ct = gcm_tag (round_keys dk') nonce ad ct) then
          let kp := {| kp_Priv := ctr (round_keys dk') nonce ct; kp_Pub := public_of (ctr (round_keys dk') nonce ct) |} in
          if bool_decide (KeyPair_Address kp = KeyPair_Address k) then OK m kp else ERR m ErrBadPass
        else ERR m ErrBadPass
    end.
Proof.
  intros ad Hk Hn Hd ->. unfold open_tok, sealed_file. cbn [tk_KDFParams kdf_Salt tk_Nonce tk_Ciphertext tk_Address kdf_N kdf_R kdf_P].
  rewrite (bind_ok _ _ _ _ _ (b64_of_text salt m)). cbv zeta. change (scrypt_key ?p ?s scryptN scryptR scryptP 32) with (deriveKey p s).
  unfold mbind, M_bind, lift. destruct (deriveKey (bytes_of pass) salt) as [dk'| |] eqn:E; [|done..].
  unfold NewCipher. rewrite (scrypt_length laws _ _ _ _ _ _ _ E). cbn [Z.eqb Pos.eqb]. rewrite !b64_of_text.
  assert (Seal (round_keys dk) nonce (kp_Priv k) ad = Ok (ctr (round_keys dk) nonce (kp_Priv k) ++ gcm_tag (round_keys dk) nonce ad (ctr (round_keys dk) nonce (kp_Priv k)))) as Es
    by (unfold Seal; by rewrite Hn).
  fold ad. rewrite (Open_Seal _ (round_keys dk') _ _ ad _ _ Es). case_bool_decide as Ht; [|done].
  destruct Hk as [Hl _]. unfold zlen at 1. rewrite !length_ctr. fold (zlen (kp_Priv k)). rewrite Hl. cbn [negb Z.eqb Pos.eqb PrivateKeySize]. by case_bool_decide.
Qed.

Lemma ascii_sealed k salt nonce ct : ascii_tok (sealed_file k salt nonce ct).
Proof. unfold ascii_tok, sealed_file. cbn. split_and!; try apply ascii_b64; try apply ascii_address; repeat constructor. Qed.

Lemma bind_exists_file {B} path (f : bool → M Machine B) m :
  (exists_file path ≫= f) m = f (bool_decide (is_Some (mc_files m !! path))) m.
Proof. done. Qed.

(** Opening what [SaveTok] wrote is opening the sealed file. *)
Lemma LoadTok_saved path tf pass m : ascii_tok tf → mc_files m !! path = Some (tok_text tf) → pass ≠ "" →
  LoadTok path pass m = open_tok tf pass m.
Proof.
  intros Ha Hf Hp. unfold LoadTok. rewrite bool_decide_false by done. rewrite bind_read_file, Hf, bind_or_error.
  by rewrite (tok_round laws).
Qed.

Lemma open_own k salt nonce dk pass m : key_pair k → zlen nonce = NonceSize → zlen dk = 32 → deriveKey (bytes_of pass) salt = Ok dk →
  let ct := ctr (round_keys dk) nonce (kp_Priv k) in
  open_tok (sealed_file k salt nonce (ct ++ gcm_tag (round_keys dk) nonce (bytes_of (KeyPair_Address k)) ct)) pass m = OK m k.
Proof.
  intros Hk Hn Hd Hdk ct. rewrite open_sealed by done. rewrite Hdk, bool_decide_true by done. cbv zeta. unfold ct. rewrite ctr_twice.
  destruct Hk as [_ Hpub]. destruct k as [priv pub]. simpl in Hpub |- *. subst pub. by rewrite bool_decide_true.
Qed.

(** [C20] A [.tok] wallet opens to the key pair that was saved, under its passphrase.  Under
    another one it opens only if the authentication tags of the two derived keys agree
    on this ciphertext, and then still to keys of the same address; otherwise the answer
    is [ErrBadPass], or the failure of the key derivation.  No other file changes, and the
    machine is only read when loading. *)
Theorem tok_roundtrip (k : KeyPair) (path pass : string) (m m' : Machine) (Hk : key_pair k)
  (E : SaveTok rand k path pass m = OK m' tt) :
  (∀ q, q ≠ path → mc_files m' !! q = mc_files m !! q) ∧
  LoadTok path pass m' = OK m' k ∧
  ∃ salt dk nonce ct, deriveKey (bytes_of pass) salt = Ok dk ∧
    ∀ pass', pass' ≠ "" →
      match deriveKey (bytes_of pass') salt with
      | Panic => LoadTok path pass' m' = PANIC m'
      | Err e => LoadTok path pass' m' = ERR m' e
      | Ok dk' =>
          let tag d := gcm_tag (round_keys d) nonce (bytes_of (KeyPair_Address k)) ct in
          LoadTok path pass' m' = ERR m' ErrBadPass ∨
          tag dk' = tag dk ∧ ∃ k', LoadTok path pass' m' = OK m' k' ∧ KeyPair_Address k' = KeyPair_Address k
      end.
Proof.
  apply SaveTok_inv in E as (Hp & salt & dk & nonce & ct & Hdk & Hd & Hn & Hct & _ & Hf).
  assert (∀ pass', pass' ≠ "" → LoadTok path pass' m' = open_tok (sealed_file k salt nonce (ct ++ gcm_tag (round_keys dk) nonce (bytes_of (KeyPair_Address k)) ct)) pass' m') as Hload.
  { intros pass' Hp'. apply LoadTok_saved; [apply ascii_sealed| |done]. rewrite Hf. apply lookup_insert_eq. }
  split_and!.
  - intros q Hq. rewrite Hf. by rewrite lookup_insert_ne.
  - rewrite Hload by done. subst ct. by apply open_own.
  - exists salt, dk, nonce, ct. split; [done|]. intros pass' Hp'. rewrite Hload, open_sealed by done.
    destruct (deriveKey (bytes_of pass') salt) as [dk'| |]; [|done..]. cbv zeta.
    case_bool_decide as Ht; [|by left]. case_bool_decide as Ha; [|by left]. right. split; [done|]. eexists. split; [reflexivity|]. exact Ha.
Qed.

(** Whatever is on disk, a wallet that loads from a [.tok] file is well formed and has the
    address the file declares; loading changes nothing.  It panics only when the nonce
    field does not decode to twelve bytes, or the key derivation does. *)
Theorem LoadTok_checked (path pass : string) (m : Machine) :
  match LoadTok path pass m with
  | OK m' k => m' = m ∧ pass ≠ "" ∧ key_pair k ∧
      ∃ b tf, mc_files m !! path = Some b ∧ tok_parse b = Some tf ∧ KeyPair_Address k = tk_Address tf
  | ERR m' e => m' = m ∧ (pass = "" → e = ErrNoPassphrase)
  | PANIC m' => m' = m ∧ ∃ b tf salt, mc_files m !! path = Some b ∧ tok_parse b = Some tf ∧
      ((∃ nonce, b64_decode (bytes_of (tk_Nonce tf)) = Some nonce ∧ zlen nonce ≠ NonceSize) ∨
       scrypt_key (bytes_of pass) salt (kdf_N (tk_KDFParams tf)) (kdf_R (tk_KDFParams tf)) (kdf_P (tk_KDFParams tf)) 32 = Panic)
  end.
Proof.
  unfold LoadTok. case_bool_decide as Hp; [done|]. rewrite bind_read_file. destruct (mc_files m !! path) as [b|] eqn:Eb; [|done].
  rewrite bind_or_error. destruct (tok_parse b) as [tf|] eqn:Et; [|done].
  unfold open_tok, b64_of. rewrite bind_or_error. destruct (b64_decode _) as [salt|]; [|done]. cbv zeta.
  rewrite bind_lift. destruct (scrypt_key _ _ _ _ _ _) as [dk| |] eqn:Ed; [|done|].
  2: { split; [done|]. exists b, tf, salt. split_and!; [done..|by right]. }
  rewrite bind_lift. unfold NewCipher. rewrite (scrypt_length laws _ _ _ _ _ _ _ Ed). cbn [Z.eqb Pos.eqb].
  rewrite bind_or_error. destruct (b64_decode (bytes_of (tk_Nonce tf))) as [nonce|] eqn:En; [|done].
  rewrite bind_or_error. destruct (b64_decode (bytes_of (tk_Ciphertext tf))) as [ct|]; [|done].
  destruct (Open (round_keys dk) nonce ct _) as [priv| |] eqn:Eo; [|done|].
  - destruct (Z.eqb_spec (zlen priv) PrivateKeySize) as [Hl|]; [|done]. cbn [negb]. case_bool_decide as Ha; [|done].
    split_and!; try done. exists b, tf. done.
  - split; [done|]. exists b, tf, salt. split_and!; [done..|]. left. exists nonce. split; [done|].
    unfold Open in Eo. destruct (Z.eqb_spec (zlen nonce) NonceSize); [|done]. destruct (_ <? 16); [done|]. cbv zeta in Eo. by case_bool_decide.
Qed.
(** ** A node's identity *)

Lemma LoadWallet_saved k path m : key_pair k →
  mc_files m !! path = Some (wallet_text (MkWallet (b64_text (kp_Priv k)) (b64_text (kp_Pub k)) (KeyPair_Address k))) →
  LoadWallet path m = OK m k.
Proof.
  intros Hk Hf. unfold LoadWallet. rewrite bind_read_file, Hf, bind_or_error, (wallet_round laws).
  2: { unfold ascii_wallet. cbn. split_and!; [apply ascii_b64..|apply ascii_address]. }
  cbn [wf_Priv wf_Pub]. rewrite !(bind_ok _ _ _ _ _ (b64_of_text _ m)). pose proof (key_pair_pub k Hk) as Hp. destruct Hk as [Hl _].
  rewrite Hl, Hp. by destruct k.
Qed.

Lemma LoadWallet_same path m m' k : LoadWallet path m = OK m' k → m' = m ∧ zlen (kp_Pub k) = PublicKeySize.
Proof.
  unfold LoadWallet. rewrite bind_read_file. destruct (mc_files m !! path) as [b|]; [|done]. rewrite bind_or_error.
  destruct (wallet_parse b); [|done]. unfold b64_of. rewrite bind_or_error. destruct (b64_decode _); [|done].
  rewrite bind_or_error. destruct (b64_decode _) as [pub|]; [|done].
  destruct (negb _ || negb _) eqn:E; [done|]. intros [<- <-]%OK_inj. split; [done|].
  apply orb_false_iff in E as [_ E]. apply negb_false_iff, Z.eqb_eq in E. exact E.
Qed.

Lemma LoadTok_same path pass m m' k : LoadTok path pass m = OK m' k → m' = m ∧ key_pair k.
Proof.
  unfold LoadTok. case_bool_decide; [done|]. rewrite bind_read_file. destruct (mc_files m !! path) as [b|]; [|done].
  rewrite bind_or_error. destruct (tok_parse b) as [tf|]; [|done]. unfold open_tok, b64_of. rewrite bind_or_error.
  destruct (b64_decode _); [|done]. cbv zeta. rewrite bind_lift. destruct (scrypt_key _ _ _ _ _ _); [|done..].
  rewrite bind_lift. destruct (NewCipher _); [|done..]. do 2 (rewrite bind_or_error; destruct (b64_decode _); [|done]).
  destruct (Open _ _ _ _) as [priv| |]; [|done..]. destruct (Z.eqb_spec (zlen priv) PrivateKeySize); [|done]. cbn [negb].
  case_bool_decide; [|done]. by intros [<- <-]%OK_inj.
Qed.

Lemma LoadWalletAuto_same path pass m m' k : LoadWalletAuto path pass m = OK m' k → m' = m ∧ zlen (kp_Pub k) = PublicKeySize.
Proof.
  unfold LoadWalletAuto. destruct (IsTok path); [|apply LoadWallet_same].
  intros [-> Hk]%LoadTok_same. split; [done|by apply key_pair_pub].
Qed.

(** A node keeps its identity: the key pair of the first start, found or made, is the key
    pair of every later start with the same passphrase. *)
Theorem identity_kept (path pass : string) (m m' : Machine) (k : KeyPair) (Hgen : ∀ n k, keygen n = Some k → key_pair k)
  (E : LoadOrCreateWalletAuto rand keygen path pass m = OK m' k) :
  LoadOrCreateWalletAuto rand keygen path pass m' = OK m' k ∧ LoadWalletAuto path pass m' = OK m' k.
Proof.
  assert (is_Some (mc_files m' !! path) ∧ LoadWalletAuto path pass m' = OK m' k) as [Hs Hl].
  { unfold LoadOrCreateWalletAuto in E. rewrite bind_exists_file in E. case_bool_decide as Hm.
    - pose proof (LoadWalletAuto_same _ _ _ _ _ E) as [-> _]. by split.
    - apply bind_OK_inv in E as (k1 & m1 & [Hk ->]%use_random_OK & E). apply Hgen in Hk.
      apply bind_OK_inv in E as ([] & m2 & E & [<- <-]%OK_inj). unfold SaveWalletAuto in E. unfold LoadWalletAuto.
      destruct (IsTok path).
      + apply SaveTok_inv in E as (Hp & salt & dk & nonce & ct & Hdk & Hd & Hn & Hct & _ & Hf).
        rewrite Hf, lookup_insert_eq. split; [done|]. subst ct.
        rewrite (LoadTok_saved path _ pass m2 (ascii_sealed k1 salt nonce _)) by (done || (rewrite Hf; apply lookup_insert_eq)).
        by apply open_own.
      + apply OK_inj in E as [<- _]. split; [cbn; by rewrite lookup_insert_eq|].
        apply LoadWallet_saved; [done|]. apply lookup_insert_eq. }
  split; [|done]. unfold LoadOrCreateWalletAuto. by rewrite bind_exists_file, bool_decide_true.
Qed.
End sealed.

(** * A concrete codec and concrete wallets *)

(** Bits as bytes: any countable type has a text. *)
Fixpoint pos_bits (p : positive) : bytes :=
  match p with xH => [] | xO p => zb 0 :: pos_bits p | xI p => zb 1 :: pos_bits p end.
Fixpoint bits_pos (l : bytes) : positive :=
  match l with [] => xH | b :: r => if bz b =? 0 then xO (bits_pos r) else xI (bits_pos r) end.

Lemma bits_pos_bits p : bits_pos (pos_bits p) = p.
Proof. induction p as [p IH|p IH|]; simpl; by rewrite ?IH. Qed.

Definition tok_tuple (t : tokFile) : Z * string * string * (Z * Z * Z * string) * string * string * string :=
  let p := tk_KDFParams t in
  (tk_Version t, tk_Address t, tk_KDF t, (kdf_N p, kdf_R p, kdf_P p, kdf_Salt p), tk_Cipher t, tk_Nonce t, tk_Ciphertext t).
Definition tuple_tok (t : Z * string * string * (Z * Z * Z * string) * string * string * string) : tokFile :=
  let '(v, a, k, (n, r, p, s), c, o, x) := t in MkTok v a k (MkKdf n r p s) c o x.

(** A key derivation that hashes passphrase and salt, and texts of bits. *)
#[export] Instance demo_codec : WalletCodec := {|
  scrypt_key pass salt N r p n := if (n =? 32) && (1 <? N) then Ok (sha256 (pass ++ salt)) else Err ErrKDF;
  tok_text t := pos_bits (encode (tok_tuple t));
  tok_parse l := tuple_tok <$> decode (bits_pos l);
  wallet_text w := pos_bits (encode (wf_Priv w, wf_Pub w, wf_Address w));
  wallet_parse l := (λ t, MkWallet t.1.1 t.1.2 t.2) <$> decode (bits_pos l);
|}.

Lemma demo_codec_laws : @codec_laws demo_codec.
Proof.
  split; cbn.
  - intros pass salt N r p n k. destruct (Z.eqb_spec n 32) as [->|]; [|done]. destruct (1 <? N); [|done]. intros [= <-].
    unfold zlen. by rewrite length_sha256.
  - intros t _. rewrite bits_pos_bits, decode_encode. destruct t as [v a k [n r p s] c o x]. done.
  - intros [p q a] _. by rewrite bits_pos_bits, decode_encode.
Qed.

Definition demo_key : KeyPair := {| kp_Priv := zb <$> seqZ 0 64; kp_Pub := zb <$> seqZ 32 32 |}.
Definition demo_rand (k : nat) (n : Z) : option bytes := Some (replicate (Z.to_nat n) (zb (Z.of_nat k + 5))).
Definition empty_machine : Machine := MkMachine ∅ 0.
Definition demo_saved : Machine := out_state (SaveTok demo_rand demo_key "w.tok" "pass" empty_machine).

Lemma demo_saved_run : SaveTok demo_rand demo_key "w.tok" "pass" empty_machine = OK demo_saved tt.
Proof.
  assert (is_OK (SaveTok demo_rand demo_key "w.tok" "pass" empty_machine) = true) as Hok by (vm_compute; reflexivity).
  exact (is_OK_unit (SaveTok demo_rand demo_key "w.tok" "pass" empty_machine) Hok).
Qed.

Lemma tok_roundtrip_witness : LoadTok "w.tok" "pass" demo_saved = OK demo_saved demo_key.
Proof.
  apply (tok_roundtrip demo_codec_laws demo_rand demo_key "w.tok" "pass" empty_machine demo_saved).
  - split; reflexivity.
  - exact demo_saved_run.
Defined.

(** Another passphrase is refused, and so is the same one for a file whose address was changed. *)
Example wrong_passphrase : error_of (LoadTok "w.tok" "Pass" demo_saved) = Some ErrBadPass.
Proof. vm_compute. reflexivity. Qed.
Example extensions : IsTok "w.tok" = true ∧ IsTok "W.TOK" = true ∧ IsTok "tok" = false ∧ IsTok "w.tok.json" = false.
Proof. split_and!; reflexivity. Qed.

(** A file of the right form whose nonce has eleven bytes: loading panics. *)
Definition short_nonce : tokFile := MkTok 1 "sl" "scrypt" (MkKdf 32768 8 1 "AAAA") "aes-256-gcm" (b64_text (replicate 11 (zb 0))) "AAAA".
Definition corrupt_machine : Machine := MkMachine {[ "w.tok" := tok_text short_nonce ]} 0.

Lemma LoadTok_checked_witness : LoadTok "w.tok" "pass" corrupt_machine = PANIC corrupt_machine ∧
  ∃ b tf nonce, mc_files corrupt_machine !! "w.tok" = Some b ∧ tok_parse b = Some tf ∧
    b64_decode (bytes_of (tk_Nonce tf)) = Some nonce ∧ zlen nonce ≠ NonceSize.
Proof.
  assert (LoadTok "w.tok" "pass" corrupt_machine = PANIC corrupt_machine) as E by (vm_compute; reflexivity).
  pose proof (LoadTok_checked demo_codec_laws "w.tok" "pass" corrupt_machine) as Hc. rewrite E in Hc.
  destruct Hc as (_ & b & tf & salt & Hb & Ht & [(nonce & Hn & Hne)|Hs]); [|].
  - split; [exact E|]. exists b, tf, nonce. split; [exact Hb|]. split; [exact Ht|]. split; [exact Hn|exact Hne].
  - cbn in Hs. destruct (1 <? kdf_N (tk_KDFParams tf)); discriminate Hs.
Defined.

Definition demo_keygen (k : nat) : option KeyPair := Some demo_key.

Lemma identity_kept_witness : ∃ m' k,
  LoadOrCreateWalletAuto demo_rand demo_keygen "node.json" "" empty_machine = OK m' k ∧
  LoadOrCreateWalletAuto demo_rand demo_keygen "node.json" "" m' = OK m' k.
Proof.
  assert (is_OK (LoadOrCreateWalletAuto demo_rand demo_keygen "node.json" "" empty_machine) = true) as Hok by (vm_compute; reflexivity).
  destruct (LoadOrCreateWalletAuto demo_rand demo_keygen "node.json" "" empty_machine) as [m' k| |] eqn:E; [|discriminate Hok..].
  exists m', k. split; [reflexivity|].
  apply (identity_kept demo_codec_laws demo_rand demo_keygen "node.json" "" empty_machine m' k).
  - intros n k' [= <-]. split; reflexivity.
  - exact E.
Defined.
