(* ===== verification/Economy.v ===== *)
(** * Monetary policy ([internal/economy/economy.go])

    The 21,000,000 cap and the halving schedule, on [uint64] values. *)

From S2P Require Import Prelude.

Definition Coin : Z := 100000000.
Definition MaxSupply : Z := 21000000 * Coin.
Definition InitialReward : Z := 50 * Coin.
Definition HalvingInterval : Z := 210000.
Definition MinBond : Z := 1000 * Coin.

#[global] Arguments MaxSupply : simpl never.
#[global] Arguments InitialReward : simpl never.
#[global] Arguments MinBond : simpl never.

(** [BlockReward height minted]: the subsidy, clamped to what is left of the cap. *)
Definition BlockReward (height minted : Z) : Z :=
  if MaxSupply <=? minted then 0 else
  let halvings := height / HalvingInterval in
  if 64 <=? halvings then 0 else
  let reward := Z.shiftr InitialReward halvings in
  let remaining := u64 (MaxSupply - minted) in
  if remaining <? reward then remaining else reward.

(** Minting along a list of block heights, as a chain of blocks with a coinbase
    does: each block adds its reward to the minted total. *)
Definition emit (heights : list Z) (minted : Z) : Z :=
  foldl (λ m h, u64 (m + BlockReward h m)) minted heights.

(** * Lemmas *)

Lemma BlockReward_nonneg h m : 0 <= h → 0 <= m → 0 <= BlockReward h m.
Proof.
  intros Hh Hm. unfold BlockReward.
  destruct (Z.leb_spec MaxSupply m); [lia|]. destruct (Z.leb_spec 64 (h / HalvingInterval)); [lia|].
  pose proof (u64_range (MaxSupply - m)) as [? _].
  pose proof (Z.shiftr_nonneg InitialReward (h / HalvingInterval)).
  destruct (Z.ltb_spec (u64 (MaxSupply - m)) (Z.shiftr InitialReward (h / HalvingInterval))); [lia|].
  apply Z.shiftr_nonneg. unfold InitialReward, Coin. lia.
Qed.

Lemma BlockReward_le_remaining h m : 0 <= m <= MaxSupply → m + BlockReward h m <= MaxSupply.
Proof.
  intros Hm. unfold BlockReward.
  destruct (Z.leb_spec MaxSupply m); [lia|].
  assert (is_u64 (MaxSupply - m)) as Hu.
  { unfold is_u64, W64, MaxSupply, Coin in *. lia. }
  rewrite (u64_small _ Hu).
  destruct (64 <=? h / HalvingInterval); [lia|].
  destruct (Z.ltb_spec (MaxSupply - m) (Z.shiftr InitialReward (h / HalvingInterval))); lia.
Qed.

Lemma BlockReward_schedule h m :
  0 <= h < 64 * HalvingInterval → 0 <= m → m + InitialReward <= MaxSupply →
  BlockReward h m = InitialReward / 2 ^ (h / HalvingInterval).
Proof.
  intros Hh Hm Hle. unfold BlockReward.
  assert (0 <= h / HalvingInterval < 64) as Hq.
  { unfold HalvingInterval in *. split; [apply Z.div_pos; lia|apply Z.div_lt_upper_bound; lia]. }
  rewrite (proj2 (Z.leb_gt _ _)) by (unfold InitialReward, Coin in *; lia).
  rewrite (proj2 (Z.leb_gt _ _)) by lia.
  rewrite u64_small by (unfold is_u64, W64, MaxSupply, InitialReward, Coin in *; lia).
  rewrite Z.shiftr_div_pow2 by lia.
  rewrite (proj2 (Z.ltb_ge _ _)); [done|].
  transitivity InitialReward; [|lia].
  apply Z.div_le_upper_bound; [apply Z.pow_pos_nonneg; lia|].
  pose proof (Z.pow_pos_nonneg 2 (h / HalvingInterval)). unfold InitialReward, Coin in *. nia.
Qed.

Lemma BlockReward_bounded h m : 0 <= h → 0 <= m <= MaxSupply →
  0 <= BlockReward h m <= MaxSupply - m.
Proof.
  intros ? ?. pose proof (BlockReward_nonneg h m). pose proof (BlockReward_le_remaining h m). lia.
Qed.

(** [C30] Emission: below the cap, each block's subsidy follows the halving
    schedule exactly; whatever the sequence of heights, the minted total never
    decreases, never wraps and never passes [MaxSupply]; after 64 halvings
    nothing more is minted. *)
Theorem emission_bounded (heights : list Z) (minted : Z) :
  Forall (λ h, 0 <= h) heights → 0 <= minted <= MaxSupply →
  minted <= emit heights minted <= MaxSupply ∧
  (∀ h m, 0 <= h < 64 * HalvingInterval → 0 <= m → m + InitialReward <= MaxSupply →
     BlockReward h m = InitialReward / 2 ^ (h / HalvingInterval)) ∧
  (Forall (λ h, 64 * HalvingInterval <= h) heights → emit heights minted = minted).
Proof.
  intros Hh Hm. split; [|split].
  - revert minted Hm. induction Hh as [|h hs Hh Hhs IH]; intros m Hm; [simpl; lia|].
    pose proof (BlockReward_bounded h m Hh Hm) as Hb. unfold emit in *. simpl.
    rewrite u64_small by (unfold is_u64, W64, MaxSupply, Coin in *; lia).
    specialize (IH (m + BlockReward h m)). lia.
  - apply BlockReward_schedule.
  - clear Hh. intros Hbig. revert minted Hm. induction Hbig as [|h hs Hh' Hhs IH]; intros m Hm; [done|].
    unfold emit in *. simpl. replace (BlockReward h m) with 0.
    + rewrite Z.add_0_r, u64_small by (unfold is_u64, W64, MaxSupply, Coin in *; lia). auto.
    + unfold BlockReward. destruct (MaxSupply <=? m); [done|].
      rewrite (proj2 (Z.leb_le _ _)); [done|].
      unfold HalvingInterval in *. apply Z.div_le_lower_bound; lia.
Qed.

Lemma emission_bounded_witness :
  emit [0; 210000; 13440000] 100000000000000 = 100007500000000.
Proof.
  destruct (emission_bounded [0; 210000; 13440000] 100000000000000) as (_ & Hs & _).
  - repeat constructor; lia.
  - unfold MaxSupply, Coin. lia.
  - pose proof (Hs 210000 0) as H. vm_compute. reflexivity.
Defined.

#[export] Hint Resolve BlockReward_nonneg BlockReward_bounded : core.
