(* ===== verification/Netparams.v ===== *)
(** * Self-tuning parameters ([internal/netparams/netparams.go])

    The erasure shape and the replication factor as functions of the node count. *)

From S2P Require Import Prelude.

(** [types.ShardSpec], the erasure parameters of one block ([uint8] fields). *)
Record ShardSpec := MkSpec { K : Z; M : Z }.

#[global] Instance ShardSpec_eq_dec : EqDecision ShardSpec.
Proof. solve_decision. Defined.

(** [ShardSpec.Total] ([internal/types/block.go]). *)
Definition Total (s : ShardSpec) : Z := K s + M s.

Definition minTotalShards : Z := 3.
Definition maxTotalShards : Z := 24.

Definition uint8 (z : Z) : Z := z mod 256.

(** Go's integer division truncates; the operand is clamped to be positive first. *)
Definition Spec (n : Z) : ShardSpec :=
  let t := if n <? minTotalShards then minTotalShards else n in
  let t := if maxTotalShards <? t then maxTotalShards else t in
  let m := Z.quot t 3 in
  let m := if m <? 1 then 1 else m in
  let k := t - m in
  let k := if k <? 1 then 1 else k in
  MkSpec (uint8 k) (uint8 m).

Definition GenesisSpec : ShardSpec := MkSpec 2 1.

Definition Replication (n : Z) : Z :=
  if n <? 3 then 1 else if n <? 8 then 2 else 3.

(** * Lemmas *)

Lemma Spec_value n :
  let t := Z.min 24 (Z.max 3 n) in Spec n = MkSpec (t - t / 3) (t / 3).
Proof.
  unfold Spec, minTotalShards, maxTotalShards, uint8.
  destruct (Z.ltb_spec n 3).
  { replace (Z.min 24 (Z.max 3 n)) with 3 by lia. reflexivity. }
  destruct (Z.ltb_spec 24 n).
  { replace (Z.min 24 (Z.max 3 n)) with 24 by lia. reflexivity. }
  replace (Z.min 24 (Z.max 3 n)) with n by lia. cbv zeta.
  rewrite Z.quot_div_nonneg by lia.
  pose proof (Z.div_mod n 3). pose proof (Z.mod_pos_bound n 3).
  rewrite (proj2 (Z.ltb_ge (n / 3) 1)) by lia.
  rewrite (proj2 (Z.ltb_ge (n - n / 3) 1)) by lia.
  rewrite !Z.mod_small by lia. done.
Qed.

(** The erasure shape the network picks is usable for every node count:
    at least two data shards and one parity shard, between 3 and 24 in total
    (exactly [n] inside that range, so nothing is truncated by the [uint8]
    fields), a third of them parity; and each shard gets between 1 and 3 holders,
    never more than there are nodes. *)
Theorem Spec_sound n :
  2 <= K (Spec n) ∧ 1 <= M (Spec n) ∧
  Total (Spec n) = Z.min maxTotalShards (Z.max minTotalShards n) ∧
  3 * M (Spec n) <= Total (Spec n) < 3 * (M (Spec n) + 1) ∧
  1 <= Replication n <= 3 ∧ (1 <= n → Replication n <= n).
Proof.
  rewrite Spec_value. unfold Total, minTotalShards, maxTotalShards, Replication. cbv zeta. simpl.
  pose proof (Z.div_mod (Z.min 24 (Z.max 3 n)) 3). pose proof (Z.mod_pos_bound (Z.min 24 (Z.max 3 n)) 3).
  destruct (Z.ltb_spec n 3); [lia|]. destruct (Z.ltb_spec n 8); lia.
Qed.
