(* ===== verification/Merkle.v ===== *)
(** * Merkle trees ([internal/merkle/merkle.go])

    Roots, inclusion proofs and their verification over SHA-256 with domain
    separation between leaves and inner nodes. *)

From S2P Require Import Prelude Sha256.

Abbreviation Hash := bytes.

Definition Zero : Hash := replicate 32 (zb 0).

Definition leaf_msg (data : bytes) : bytes := zb 0 :: data.
Definition inner_msg (l r : Hash) : bytes := zb 1 :: l ++ r.
Definition leafHash (data : bytes) : Hash := sha256 (leaf_msg data).
Definition innerHash (l r : Hash) : Hash := sha256 (inner_msg l r).

(** One pass of the loop body: duplicate the last node of an odd level, then
    hash the nodes two by two. *)
Definition dup_odd (level : list Hash) : list Hash :=
  if Nat.odd (length level) then level ++ [List.last level Zero] else level.

Fixpoint pairs (level : list Hash) : list Hash :=
  match level with
  | a :: b :: rest => innerHash a b :: pairs rest
  | _ => []
  end.

Definition next_level (level : list Hash) : list Hash := pairs (dup_odd level).

(** [for len(level) > 1]: each pass at least halves (rounding up) a level of two
    or more nodes, so the number of leaves is enough fuel ([root_loop_done]). *)
Fixpoint root_loop (fuel : nat) (level : list Hash) : list Hash :=
  match fuel with
  | O => level
  | S f => if (1 <? length level)%nat then root_loop f (next_level level) else level
  end.

Definition Root (items : list bytes) : Hash :=
  match items with
  | [] => Zero
  | _ => hd Zero (root_loop (length items) (leafHash <$> items))
  end.

Record ProofStep := { Sibling : Hash; IsLeft : bool }.

Fixpoint proof_loop (fuel : nat) (level : list Hash) (idx : nat) : list ProofStep :=
  match fuel with
  | O => []
  | S f =>
      if (1 <? length level)%nat then
        let level' := dup_odd level in
        let step :=
          if Nat.even idx then {| Sibling := nth (idx + 1) level' Zero; IsLeft := false |}
          else {| Sibling := nth (idx - 1) level' Zero; IsLeft := true |} in
        step :: proof_loop f (pairs level') (Nat.div2 idx)
      else []
  end.

(** [nil] for an index out of range. *)
Definition Proof (items : list bytes) (index : Z) : list ProofStep :=
  if (index <? 0) || (zlen items <=? index) then []
  else proof_loop (length items) (leafHash <$> items) (Z.to_nat index).

Definition apply_step (cur : Hash) (s : ProofStep) : Hash :=
  if IsLeft s then innerHash (Sibling s) cur else innerHash cur (Sibling s).

Definition Verify (data : bytes) (steps : list ProofStep) (root : Hash) : bool :=
  bool_decide (foldl apply_step (leafHash data) steps = root).

(** ** Collision freedom

    SHA-256 is a concrete function here, so "no collisions" cannot be assumed of
    it in general.  The security statements assume it of the finitely many
    messages the computation in question hashes. *)

Definition collision_free (msgs : list bytes) : Prop :=
  ∀ x y, x ∈ msgs → y ∈ msgs → sha256 x = sha256 y → x = y.

Fixpoint pair_msgs (level : list Hash) : list bytes :=
  match level with
  | a :: b :: rest => inner_msg a b :: pair_msgs rest
  | _ => []
  end.

Fixpoint level_msgs (fuel : nat) (level : list Hash) : list bytes :=
  match fuel with
  | O => []
  | S f => if (1 <? length level)%nat
           then pair_msgs (dup_odd level) ++ level_msgs f (next_level level) else []
  end.

(** All messages hashed by [Root items]. *)
Definition root_msgs (items : list bytes) : list bytes :=
  (leaf_msg <$> items) ++ level_msgs (length items) (leafHash <$> items).

Fixpoint step_msgs (cur : Hash) (steps : list ProofStep) : list bytes :=
  match steps with
  | [] => []
  | s :: rest =>
      (if IsLeft s then inner_msg (Sibling s) cur else inner_msg cur (Sibling s))
      :: step_msgs (apply_step cur s) rest
  end.

(** All messages hashed by [Verify data steps root]. *)
Definition verify_msgs (data : bytes) (steps : list ProofStep) : list bytes :=
  leaf_msg data :: step_msgs (leafHash data) steps.

(** * Lemmas *)

(** ** Collision freedom is decidable on concrete messages *)

Lemma collision_free_nodup msgs : NoDup (sha256 <$> remove_dups msgs) → collision_free msgs.
Proof.
  intros Hnd x y Hx Hy E.
  apply elem_of_remove_dups in Hx, Hy.
  apply list_elem_of_lookup in Hx as [i Hi], Hy as [j Hj].
  assert (i = j) as ->; [|congruence].
  eapply NoDup_lookup; [exact Hnd| |];
    rewrite list_lookup_fmap; [rewrite Hi|rewrite Hj]; simpl; [done|by rewrite E].
Qed.

Lemma collision_free_sub l k : (∀ x, x ∈ l → x ∈ k) → collision_free k → collision_free l.
Proof. intros Hs Hk x y Hx Hy. apply Hk; auto. Qed.

(** ** Shape of a level *)

Lemma length_innerHash a b : length (innerHash a b) = 32%nat.
Proof. apply length_sha256. Qed.

Lemma dup_odd_even level : Nat.even (length (dup_odd level)) = true.
Proof.
  unfold dup_odd. destruct (Nat.odd (length level)) eqn:E.
  - rewrite length_app, Nat.add_1_r, Nat.even_succ. done.
  - rewrite <- Nat.negb_odd, E. done.
Qed.

Lemma length_pairs level : length (pairs level) = Nat.div2 (length level).
Proof.
  induction level as [|a|a b rest IH] using list_ind2; [done|done|]. simpl. by rewrite IH.
Qed.

Lemma length_dup_odd level :
  length (dup_odd level) = (length level + if Nat.odd (length level) then 1 else 0)%nat.
Proof. unfold dup_odd. destruct (Nat.odd (length level)); rewrite ?length_app; simpl; lia. Qed.

Lemma length_next_level level :
  length (next_level level) = Nat.div2 (S (length level)).
Proof.
  unfold next_level. rewrite length_pairs, length_dup_odd.
  destruct (Nat.odd (length level)) eqn:E; [f_equal; apply Nat.add_1_r|].
  rewrite Nat.add_0_r, <- Nat.negb_even in *. apply negb_false_iff, Nat.even_spec in E as [k ->].
  by rewrite Nat.div2_double, Nat.div2_succ_double.
Qed.

Lemma next_level_shrinks level :
  (1 < length level)%nat → (1 <= length (next_level level) < length level)%nat.
Proof.
  rewrite length_next_level. intros Hl.
  pose proof (Nat.div2_odd (S (length level))) as E.
  destruct (Nat.odd (S (length level))); cbn [Nat.b2n] in E; lia.
Qed.

(** Fuel beyond the number of nodes changes nothing. *)
Lemma root_loop_fuel f g level :
  (1 <= length level <= f)%nat → (length level <= g)%nat → root_loop f level = root_loop g level.
Proof.
  revert g level. induction f as [|f IH]; intros g level Hf Hg; [lia|].
  destruct g as [|g]; [lia|]. simpl. destruct (Nat.ltb_spec 1 (length level)); [|done].
  pose proof (next_level_shrinks level). apply IH; lia.
Qed.

Lemma root_loop_S f level :
  (1 < length level)%nat → root_loop (S f) level = root_loop f (next_level level).
Proof. intros Hl. simpl. by rewrite (proj2 (Nat.ltb_lt _ _)). Qed.

Lemma root_loop_done fuel level :
  (1 <= length level <= fuel)%nat → length (root_loop fuel level) = 1%nat.
Proof.
  revert level. induction fuel as [|f IH]; intros level Hl; [lia|]. simpl.
  destruct (Nat.ltb_spec 1 (length level)); [|lia].
  apply IH. pose proof (next_level_shrinks level). lia.
Qed.

(** The node above positions [2j] and [2j+1]. *)
Lemma nth_pairs level j :
  (2 * j + 1 < length level)%nat →
  nth j (pairs level) Zero = innerHash (nth (2 * j) level Zero) (nth (2 * j + 1) level Zero).
Proof.
  revert j. induction level as [|a|a b rest IH] using list_ind2; intros j; simpl length; [lia|lia|].
  intros Hj. destruct j as [|j]; [done|].
  replace (2 * S j)%nat with (S (S (2 * j))) by lia. simpl pairs. simpl nth.
  rewrite IH by lia. by replace (j + (j + 0))%nat with (2 * j)%nat by lia.
Qed.

Lemma nth_dup_odd level i : (i < length level)%nat → nth i (dup_odd level) Zero = nth i level Zero.
Proof. intros Hi. unfold dup_odd. destruct (Nat.odd _); [|done]. by rewrite app_nth1. Qed.

(** ** Completeness *)

(** The node of the next level above position [idx] is the running hash after
    the step the proof records for [idx]. *)
Lemma proof_step_correct level idx :
  (idx < length level)%nat →
  apply_step (nth idx level Zero)
    (if Nat.even idx then {| Sibling := nth (idx + 1) (dup_odd level) Zero; IsLeft := false |}
     else {| Sibling := nth (idx - 1) (dup_odd level) Zero; IsLeft := true |})
  = nth (Nat.div2 idx) (next_level level) Zero.
Proof.
  intros Hi. pose proof (dup_odd_even level) as Hev. apply Nat.even_spec in Hev as [k Hk].
  pose proof (length_dup_odd level) as Hld. pose proof (Nat.div2_odd idx) as E.
  assert (length level <= length (dup_odd level))%nat by (destruct (Nat.odd (length level)); lia).
  unfold next_level. rewrite nth_pairs by (destruct (Nat.odd idx); simpl in *; lia).
  rewrite <- (nth_dup_odd level idx) by done. rewrite <- (Nat.negb_odd idx).
  destruct (Nat.odd idx); unfold apply_step; simpl IsLeft; simpl Sibling; cbv iota; simpl in E;
    f_equal; f_equal; lia.
Qed.

Lemma proof_loop_correct fuel level idx :
  (idx < length level <= fuel)%nat →
  foldl apply_step (nth idx level Zero) (proof_loop fuel level idx) = hd Zero (root_loop fuel level).
Proof.
  revert level idx. induction fuel as [|f IH]; intros level idx Hi; [lia|].
  cbn [proof_loop root_loop]. destruct (Nat.ltb_spec 1 (length level)) as [Hl|Hl].
  - cbn [foldl]. rewrite proof_step_correct by lia. apply IH.
    pose proof (next_level_shrinks level Hl). split; [|lia].
    rewrite length_next_level. pose proof (Nat.div2_odd idx). pose proof (Nat.div2_odd (S (length level))).
    destruct (Nat.odd idx), (Nat.odd (S (length level))); cbn [Nat.b2n] in *; lia.
  - simpl. destruct level as [|a [|??]]; simpl in *; try lia. by replace idx with 0%nat by lia.
Qed.

Lemma nth_leaf items i d :
  items !! i = Some d → nth i (leafHash <$> items) Zero = leafHash d.
Proof. intros Hi. apply nth_lookup_Some. by rewrite list_lookup_fmap, Hi. Qed.

Lemma proof_complete items i d :
  items !! i = Some d → foldl apply_step (leafHash d) (Proof items (Z.of_nat i)) = Root items.
Proof.
  intros Hi. pose proof (lookup_lt_Some _ _ _ Hi) as Hlt.
  unfold Proof, zlen, Root.
  rewrite (proj2 (Z.ltb_ge _ _)), (proj2 (Z.leb_gt _ _)) by lia. simpl.
  rewrite Nat2Z.id. rewrite <- (nth_leaf items i d Hi).
  rewrite proof_loop_correct by (rewrite length_fmap; lia). by destruct items.
Qed.

(** ** Soundness: the nodes of a tree are closed under taking preimages *)

(** [tree_node fuel level h]: [h] is a node of the tree above [level]. *)
Fixpoint tree_nodes (fuel : nat) (level : list Hash) : list Hash :=
  match fuel with
  | O => level
  | S f => if (1 <? length level)%nat then level ++ tree_nodes f (next_level level) else level
  end.

Lemma level_in_tree fuel level x : x ∈ level → x ∈ tree_nodes fuel level.
Proof. destruct fuel; simpl; [done|]. destruct (_ <? _)%nat; [|done]. rewrite elem_of_app. auto. Qed.

Lemma root_in_tree fuel level :
  (1 <= length level <= fuel)%nat → hd Zero (root_loop fuel level) ∈ tree_nodes fuel level.
Proof.
  revert level. induction fuel as [|f IH]; intros level Hl; [lia|]. simpl.
  destruct (Nat.ltb_spec 1 (length level)).
  - apply elem_of_app. right. apply IH. pose proof (next_level_shrinks level). lia.
  - destruct level as [|a l]; simpl in *; [lia|]. apply list_elem_of_here.
Qed.

Lemma elem_of_pairs level x :
  x ∈ pairs level → ∃ l r, l ∈ level ∧ r ∈ level ∧ x = innerHash l r ∧ inner_msg l r ∈ pair_msgs level.
Proof.
  induction level as [|a|a b rest IH] using list_ind2; simpl; [by intros ?%not_elem_of_nil..|].
  rewrite elem_of_cons. intros [->|Hx].
  - exists a, b. rewrite !elem_of_cons. auto.
  - destruct (IH Hx) as (l & r & Hl & Hr & -> & Hm). exists l, r. rewrite !elem_of_cons. auto 10.
Qed.

Lemma elem_of_dup_odd level x : x ∈ dup_odd level → x ∈ level.
Proof.
  unfold dup_odd. destruct (Nat.odd (length level)) eqn:E; [|done].
  rewrite elem_of_app, list_elem_of_singleton. intros [?| ->]; [done|].
  destruct level as [|a l]; [done|].
  apply list_elem_of_In. rewrite (app_removelast_last (l:=a :: l) Zero) at 2 by done.
  apply in_or_app. right. by left.
Qed.

(** Every node is a leaf, or the hash of two other nodes of the same tree. *)
Lemma tree_nodes_inv fuel level x :
  x ∈ tree_nodes fuel level →
  x ∈ level ∨ ∃ l r, l ∈ tree_nodes fuel level ∧ r ∈ tree_nodes fuel level ∧
    x = innerHash l r ∧ inner_msg l r ∈ level_msgs fuel level.
Proof.
  revert level. induction fuel as [|f IH]; intros level; simpl; [auto|].
  destruct (1 <? length level)%nat; [|auto].
  rewrite elem_of_app. intros [Hx|Hx]; [auto|]. right.
  destruct (IH _ Hx) as [Hn|(l & r & Hl & Hr & -> & Hm)].
  - destruct (elem_of_pairs _ _ Hn) as (l & r & Hl & Hr & -> & Hm).
    exists l, r. rewrite !elem_of_app. eauto 10 using elem_of_dup_odd.
  - exists l, r. rewrite !elem_of_app. auto 10.
Qed.

Lemma inner_msg_inj a b c d :
  length a = 32%nat → length c = 32%nat → inner_msg a b = inner_msg c d → a = c ∧ b = d.
Proof.
  intros Ha Hc E. unfold inner_msg in E. apply (f_equal (drop 1)) in E. simpl in E.
  rewrite !drop_0 in E. apply app_inj_1 in E; [done|congruence].
Qed.

Lemma leaf_inner_msg d a b : leaf_msg d ≠ inner_msg a b.
Proof. intros E. apply (f_equal hd_error) in E. discriminate E. Qed.

Lemma leaf_msg_inj a b : leaf_msg a = leaf_msg b → a = b.
Proof. by intros [= ->]. Qed.

Lemma tree_nodes_length fuel level x :
  Forall (λ h, length h = 32%nat) level → x ∈ tree_nodes fuel level → length x = 32%nat.
Proof.
  intros Hl Hx. destruct (tree_nodes_inv _ _ _ Hx) as [Hin|(?&?&_&_&->&_)].
  - rewrite Forall_forall in Hl. auto.
  - apply length_innerHash.
Qed.

Lemma leaves_length items : Forall (λ h : Hash, length h = 32%nat) (leafHash <$> items).
Proof. apply Forall_fmap, Forall_true. intros. apply length_sha256. Qed.

(** Walking the proof down from the root stays inside the tree. *)
Lemma steps_in_tree items steps : ∀ cur,
  length cur = 32%nat →
  collision_free (step_msgs cur steps ++ root_msgs items) →
  foldl apply_step cur steps ∈ tree_nodes (length items) (leafHash <$> items) →
  cur ∈ tree_nodes (length items) (leafHash <$> items).
Proof.
  induction steps as [|s steps IH]; intros cur Hlen Hcf Hin; [done|]. simpl in *.
  assert (apply_step cur s ∈ tree_nodes (length items) (leafHash <$> items)) as Hs.
  { apply IH; [unfold apply_step; destruct (IsLeft s); apply length_innerHash| |done].
    eapply collision_free_sub, Hcf. intros x. rewrite elem_of_cons. auto. }
  destruct (tree_nodes_inv _ _ _ Hs) as [Hleaf|(l & r & Hl & Hr & E & Hm)].
  - (* an inner hash among the leaves would be a collision *)
    apply list_elem_of_fmap in Hleaf as (d & E & Hd). exfalso.
    unfold apply_step in E.
    assert (leaf_msg d ∈ root_msgs items) as Hld.
    { apply elem_of_app. left. by apply list_elem_of_fmap_2. }
    destruct (IsLeft s); eapply (leaf_inner_msg d); (eapply Hcf; [| |symmetry; exact E]);
      rewrite elem_of_cons, ?elem_of_app; auto.
  - assert (length l = 32%nat) by eauto using tree_nodes_length, leaves_length.
    assert (inner_msg l r ∈ root_msgs items) by (apply elem_of_app; by right).
    unfold apply_step in E. destruct (IsLeft s).
    + assert (inner_msg (Sibling s) cur = inner_msg l r) as Em.
      { apply Hcf; [rewrite elem_of_cons; auto|rewrite elem_of_cons, elem_of_app; auto|done]. }
      assert (length (Sibling s) = 32%nat) as Hsl.
      { apply (f_equal length) in Em. unfold inner_msg in Em. simpl in Em. rewrite !length_app in Em.
        pose proof (tree_nodes_length _ _ _ (leaves_length items) Hr). lia. }
      by apply inner_msg_inj in Em as [_ ->].
    + assert (inner_msg cur (Sibling s) = inner_msg l r) as Em.
      { apply Hcf; [rewrite elem_of_cons; auto|rewrite elem_of_cons, elem_of_app; auto|done]. }
      by apply inner_msg_inj in Em as [-> _].
Qed.

Lemma proof_sound data steps items :
  collision_free (verify_msgs data steps ++ root_msgs items) → items ≠ [] →
  foldl apply_step (leafHash data) steps = Root items → data ∈ items.
Proof.
  intros Hcf Hne E.
  assert (Root items ∈ tree_nodes (length items) (leafHash <$> items)) as Hroot.
  { unfold Root. destruct items as [|i items]; [done|].
    apply root_in_tree. rewrite length_fmap. simpl. lia. }
  rewrite <- E in Hroot.
  apply steps_in_tree in Hroot; [|apply length_sha256|].
  2:{ eapply collision_free_sub, Hcf. intros x. simpl. rewrite elem_of_cons. auto. }
  assert (leaf_msg data ∈ verify_msgs data steps ++ root_msgs items) as Hm by apply list_elem_of_here.
  destruct (tree_nodes_inv _ _ _ Hroot) as [Hleaf|(l & r & _ & _ & El & Hi)].
  - apply list_elem_of_fmap in Hleaf as (d & Ed & Hd).
    assert (leaf_msg data = leaf_msg d) as ->%leaf_msg_inj; [|done].
    apply Hcf; [done| |done]. rewrite elem_of_app. right. apply elem_of_app. left.
    by apply list_elem_of_fmap_2.
  - exfalso. eapply leaf_inner_msg, Hcf; [exact Hm| |exact El].
    rewrite elem_of_app. right. apply elem_of_app. by right.
Qed.

(** ** Binding *)

Lemma dup_odd_inj a b : length a = length b → dup_odd a = dup_odd b → a = b.
Proof.
  unfold dup_odd. intros Hl. rewrite Hl. destruct (Nat.odd (length b)); [|done].
  intros E. by apply app_inj_1 in E as [-> _].
Qed.

Lemma pairs_inj : ∀ a b,
  length a = length b → Nat.even (length a) = true →
  Forall (λ h : Hash, length h = 32%nat) a → Forall (λ h : Hash, length h = 32%nat) b →
  collision_free (pair_msgs a ++ pair_msgs b) → pairs a = pairs b → a = b.
Proof.
  induction a as [|x|x y a IH] using list_ind2; intros [|x' [|y' b]]; simpl; try done.
  intros Hl He Ha Hb Hcf [E1 E2]%cons_eq.
  inversion_clear Ha as [|? ? Hx Ha']. inversion_clear Ha' as [|? ? Hy Ha].
  inversion_clear Hb as [|? ? Hx' Hb']. inversion_clear Hb' as [|? ? Hy' Hb].
  assert (inner_msg x y = inner_msg x' y') as Em.
  { apply Hcf; [rewrite elem_of_cons; auto| |done]. rewrite elem_of_cons, elem_of_app, elem_of_cons. auto. }
  apply inner_msg_inj in Em as [-> ->]; [|done..].
  do 2 f_equal. apply IH; try done; [lia|].
  eapply collision_free_sub, Hcf. intros z. rewrite elem_of_cons, !elem_of_app, elem_of_cons. tauto.
Qed.

Lemma pairs_length32 level : Forall (λ h : Hash, length h = 32%nat) (pairs level).
Proof.
  apply Forall_forall. intros x Hx.
  destruct (elem_of_pairs _ _ Hx) as (l & r & _ & _ & -> & _). apply length_innerHash.
Qed.

Lemma dup_odd_length32 level :
  Forall (λ h : Hash, length h = 32%nat) level → Forall (λ h : Hash, length h = 32%nat) (dup_odd level).
Proof. rewrite !Forall_forall. eauto using elem_of_dup_odd. Qed.

Lemma root_loop_inj fuel : ∀ a b,
  (1 <= length a <= fuel)%nat → length a = length b →
  Forall (λ h : Hash, length h = 32%nat) a → Forall (λ h : Hash, length h = 32%nat) b →
  collision_free (level_msgs fuel a ++ level_msgs fuel b) →
  hd Zero (root_loop fuel a) = hd Zero (root_loop fuel b) → a = b.
Proof.
  induction fuel as [|f IH]; intros a b Hf Hl Ha Hb Hcf E; [lia|]. simpl in *.
  rewrite <- Hl in *. destruct (Nat.ltb_spec 1 (length a)).
  - assert (next_level a = next_level b) as En.
    { apply IH; unfold next_level; auto using pairs_length32.
      - pose proof (next_level_shrinks a). unfold next_level in *. lia.
      - fold (next_level a) (next_level b). by rewrite !length_next_level, Hl.
      - eapply collision_free_sub, Hcf. intros z. rewrite !elem_of_app. tauto. }
    apply dup_odd_inj; [done|]. apply pairs_inj; auto using dup_odd_even, dup_odd_length32.
    + by rewrite !length_dup_odd, Hl.
    + eapply collision_free_sub, Hcf. intros z. rewrite !elem_of_app. tauto.
  - destruct a as [|x [|??]], b as [|y [|??]]; simpl in *; try lia. by subst.
Qed.

(** [Root] commits to the list of items, among lists of one length. *)
Lemma Root_binding a b :
  length a = length b → collision_free (root_msgs a ++ root_msgs b) → Root a = Root b → a = b.
Proof.
  intros Hl Hcf E. destruct a as [|x a], b as [|y b]; try done.
  assert (leafHash <$> x :: a = leafHash <$> y :: b) as El.
  { apply (root_loop_inj (length (x :: a))); rewrite ?length_fmap; auto using leaves_length.
    - simpl. lia.
    - unfold root_msgs in Hcf. rewrite <- Hl in Hcf.
      eapply collision_free_sub, Hcf. intros z. rewrite !elem_of_app. tauto.
    - unfold Root in E. by rewrite <- Hl in E. }
  unfold Root, root_msgs in *. clear E. revert Hl El Hcf.
  generalize (x :: a) (y :: b). clear. intros a b Hl El Hcf.
  apply list_eq. intros i. pose proof (f_equal (.!! i) El) as Ei. rewrite !list_lookup_fmap in Ei.
  destruct (a !! i) as [d|] eqn:Da, (b !! i) as [d'|] eqn:Db; simpl in Ei; try done.
  f_equal. apply leaf_msg_inj, Hcf; [| |by apply (inj Some)];
    rewrite !elem_of_app; [left|right]; left; by eapply list_elem_of_fmap_2, list_elem_of_lookup_2.
Qed.

Lemma Root_dup_last a x :
  Nat.even (length a) = true → a ≠ [] → Root (a ++ [x]) = Root (a ++ [x; x]).
Proof.
  intros He Hne. assert (1 <= length a)%nat as Hl by (destruct a; simpl in *; [done|lia]).
  assert (∀ i, i ≠ [] → Root i = hd Zero (root_loop (length i) (leafHash <$> i))) as HR by by intros [].
  rewrite !HR by (by destruct a). f_equal. rewrite !length_app. simpl.
  replace (length a + 2)%nat with (S (length a + 1)) by lia. rewrite (Nat.add_1_r (length a)).
  rewrite (root_loop_S (length a) (_ <$> _ ++ [x])), (root_loop_S (S (length a)))
    by (rewrite length_fmap, length_app; simpl; lia).
  assert (next_level (leafHash <$> a ++ [x]) = next_level (leafHash <$> a ++ [x; x])) as <-.
  { unfold next_level, dup_odd. rewrite !length_fmap, !length_app, !fmap_app. simpl.
    rewrite Nat.add_1_r, Nat.odd_succ, He. replace (length a + 2)%nat with (S (S (length a))) by lia.
    rewrite Nat.odd_succ, Nat.even_succ, <- Nat.negb_even, He. simpl.
    rewrite last_last, <- app_assoc. done. }
  pose proof (next_level_shrinks (leafHash <$> a ++ [x])) as Hs.
  rewrite length_fmap, length_app in Hs. simpl in Hs. apply root_loop_fuel; lia.
Qed.

(** * Properties *)

(** Inclusion proofs are complete and sound: for an index in range, the
    generated proof verifies against the root; an index out of range yields the
    empty proof; and, unless SHA-256 collides on a message these two computations
    hash, any data that verifies against the root of a non-empty list of items,
    by whatever steps, is one of the items. *)
Theorem inclusion_proofs (items : list bytes) (data : bytes) (steps : list ProofStep) :
  collision_free (verify_msgs data steps ++ root_msgs items) → items ≠ [] →
  (∀ i d, items !! i = Some d → Verify d (Proof items (Z.of_nat i)) (Root items) = true) ∧
  (∀ i, i < 0 ∨ zlen items <= i → Proof items i = []) ∧
  (Verify data steps (Root items) = true → data ∈ items).
Proof.
  intros Hcf Hne. split_and!.
  - intros i d Hi. apply bool_decide_eq_true, proof_complete, Hi.
  - intros i Hi. unfold Proof. destruct (Z.ltb_spec i 0), (Z.leb_spec (zlen items) i); simpl; try done. lia.
  - intros Hv. apply bool_decide_eq_true in Hv. by eapply proof_sound.
Qed.

Definition three_items : list bytes := [bytes_of "a"; bytes_of "b"; bytes_of "c"].

Lemma inclusion_proofs_witness :
  Verify (bytes_of "c") (Proof three_items 2) (Root three_items) = true ∧ bytes_of "c" ∈ three_items.
Proof.
  destruct (inclusion_proofs three_items (bytes_of "c") (Proof three_items 2)) as (Hc & _ & Hs).
  - apply collision_free_nodup.
    apply (bool_decide_unpack (NoDup (sha256 <$> remove_dups
      (verify_msgs (bytes_of "c") (Proof three_items 2) ++ root_msgs three_items)))).
    vm_compute. exact I.
  - discriminate.
  - split; [exact (Hc 2%nat _ eq_refl)|exact (Hs (Hc 2%nat _ eq_refl))].
Defined.

(** The root binds the list of items: two lists of the same length with the
    same root are equal, unless SHA-256 collides on a message hashed for them. A
    list of odd length, however, has the root of the same list with its last item
    repeated, so a root binds a list only together with its length. *)
Theorem root_binds_items (a b : list bytes) (x : bytes) :
  collision_free (root_msgs a ++ root_msgs b) →
  (length a = length b → Root a = Root b → a = b) ∧
  (Nat.even (length a) = true → a ≠ [] → Root (a ++ [x]) = Root (a ++ [x; x])).
Proof.
  intros Hcf. split; [intros; by apply Root_binding|]. apply Root_dup_last.
Qed.

Lemma root_binds_items_witness :
  Root (bytes_of <$> ["a"; "b"; "c"]) = Root (bytes_of <$> ["a"; "b"; "c"; "c"]).
Proof.
  destruct (root_binds_items (bytes_of <$> ["a"; "b"]) (bytes_of <$> ["a"; "b"]) (bytes_of "c")) as [_ H].
  - apply collision_free_nodup.
    apply (bool_decide_unpack (NoDup (sha256 <$> remove_dups
      (root_msgs (bytes_of <$> ["a"; "b"]) ++ root_msgs (bytes_of <$> ["a"; "b"]))))).
    vm_compute. exact I.
  - apply H; [reflexivity|discriminate].
Defined.
