(* ===== verification/Types.v ===== *)
(** * Transactions, blocks and their encodings ([internal/types])

    The canonical wire forms of transactions, block bodies, headers and event
    logs; the decoders with Go's [bytes.Reader] semantics (a short read at the
    end of the buffer is not an error, an oversized allocation panics); hashes,
    signatures and the contract address derivation. *)

From S2P Require Import Prelude Sha256 Crypto Merkle Netparams.

(** ** Data *)

Record Transaction := MkTx {
  tx_From : Address; tx_To : Address;
  tx_Amount : Z; tx_Fee : Z; tx_Nonce : Z; tx_ChainID : Z;
  tx_Kind : Z; tx_Gas : Z;
  tx_Data : bytes; tx_PubKey : bytes; tx_Sig : bytes;
}.

#[global] Instance Transaction_eq_dec : EqDecision Transaction.
Proof. solve_decision. Defined.

Definition KindTransfer : Z := 0.
Definition KindDeploy : Z := 1.
Definition KindCall : Z := 2.
Definition KindRegister : Z := 3.
Definition KindUnregister : Z := 4.
Definition KindSlash : Z := 5.
Definition KindFaucet : Z := 6.
Definition KindStorageProof : Z := 7.

Record ShardSet := MkShardSet {
  ss_BlockID : Hash; ss_Spec : ShardSpec; ss_PaddedLen : Z; ss_OrigLen : Z; ss_ShardHash : list Hash;
}.

#[global] Instance ShardSet_eq_dec : EqDecision ShardSet.
Proof. solve_decision. Defined.

Record Header := MkHeader {
  hd_Height : Z; hd_PrevHash : Hash; hd_MerkleRoot : Hash; hd_Timestamp : Z;
  hd_Validator : Address; hd_TxCount : Z; hd_Round : Z; hd_Spec : ShardSpec;
  hd_BodyHash : Hash; hd_LogsRoot : Hash; hd_Sig : bytes; hd_ValPubKey : bytes;
}.

#[global] Instance Header_eq_dec : EqDecision Header.
Proof. solve_decision. Defined.

Record Block := MkBlock { b_Header : Header; b_Txs : list Transaction }.

#[global] Instance Block_eq_dec : EqDecision Block.
Proof. solve_decision. Defined.

Record EquivocationEvidence := { ev_A : Header; ev_B : Header }.

(** A contract event. *)
Record Log := MkLog { lg_Contract : Address; lg_Topics : list Z; lg_TxIndex : Z }.

#[global] Instance Log_eq_dec : EqDecision Log.
Proof. solve_decision. Defined.

(** ** Writers *)

Definition putU64 (v : Z) : bytes := be_bytes 8 v.
Definition putBytes (b : bytes) : bytes := be_bytes 8 (zlen b) ++ b.
Definition putString (s : string) : bytes := putBytes (bytes_of s).

Definition SigningBytes (t : Transaction) : bytes :=
  putString (tx_From t) ++ putString (tx_To t) ++
  putU64 (tx_Amount t) ++ putU64 (tx_Fee t) ++ putU64 (tx_Nonce t) ++ putU64 (tx_ChainID t) ++
  [zb (tx_Kind t)] ++ putU64 (tx_Gas t) ++ putBytes (tx_Data t) ++ putBytes (tx_PubKey t).

Definition canonical (t : Transaction) : bytes := SigningBytes t ++ putBytes (tx_Sig t).

Definition EncodeTxs (txs : list Transaction) : bytes :=
  be_bytes 4 (zlen txs) ++ (txs ≫= λ t, putBytes (canonical t)).

Definition Body (b : Block) : bytes := EncodeTxs (b_Txs b).

Definition Log_canonical (l : Log) : bytes :=
  putString (lg_Contract l) ++ putU64 (u64_of_int (lg_TxIndex l)) ++
  putU64 (zlen (lg_Topics l)) ++ (lg_Topics l ≫= putU64).

Definition EncodeLogs (logs : list Log) : bytes :=
  be_bytes 4 (zlen logs) ++ (logs ≫= λ l, putBytes (Log_canonical l)).

Definition Header_SigningBytes (h : Header) : bytes :=
  putU64 (hd_Height h) ++ hd_PrevHash h ++ hd_MerkleRoot h ++ putU64 (u64_of_int (hd_Timestamp h)) ++
  putString (hd_Validator h) ++ putU64 (hd_TxCount h) ++ putU64 (hd_Round h) ++
  [zb (K (hd_Spec h))] ++ [zb (M (hd_Spec h))] ++ hd_BodyHash h ++ hd_LogsRoot h.

(** ** Readers

    The state of a [bytes.Reader] is the unread rest of its buffer.  [Read] into
    an [n]-byte slice fails only when nothing is left; otherwise it fills what it
    can and the rest of the slice keeps its zeros. *)

Abbreviation reader := (Prelude.M bytes).

(** The largest allocation the runtime accepts on a 64-bit platform; beyond it,
    [make] panics. *)
Definition maxAlloc : Z := 281474976710656.

Definition readN (n : nat) : reader bytes := λ rest,
  match rest with
  | [] => ERR rest ErrEOF
  | _ => let got := take n rest in OK (drop n rest) (got ++ replicate (n - length got) (zb 0))
  end.

Definition readU64 : reader Z := b ← readN 8; mret (be_val b).

Definition readByte : reader byte := λ rest,
  match rest with [] => ERR rest ErrEOF | b :: r => OK r b end.

Definition readBytes : reader bytes :=
  n ← readU64;
  if maxAlloc <? n then panic
  else if n =? 0 then mret [] else readN (Z.to_nat n).

(** Run a reader over a whole buffer, dropping what it leaves unread. *)
Definition run_reader {A} (r : reader A) (data : bytes) : res A :=
  match r data with OK _ a => Ok a | ERR _ e => Err e | PANIC _ => Panic end.

Definition decodeTx_reader : reader Transaction :=
  from ← readBytes; to ← readBytes;
  amount ← readU64; fee ← readU64; nonce ← readU64; chainID ← readU64;
  kind ← readByte; gas ← readU64;
  data ← readBytes; pubKey ← readBytes; sig ← readBytes;
  mret (MkTx (string_of from) (string_of to) amount fee nonce chainID (bz kind) gas data pubKey sig).

Definition decodeTx (data : bytes) : res Transaction := run_reader decodeTx_reader data.

(** The loop of [DecodeTxs]: [n] length-prefixed transactions. *)
Fixpoint decode_txs (n : nat) (rest : bytes) : res (list Transaction) :=
  match n with
  | O => Ok []
  | S n' =>
      if zlen rest <? 8 then Err ErrBadBody else
      let l := be_val (take 8 rest) in
      let rest := drop 8 rest in
      if zlen rest <? l then Err ErrBadBody else
      tx ← decodeTx (take (Z.to_nat l) rest);
      txs ← decode_txs n' (drop (Z.to_nat l) rest);
      mret (tx :: txs)
  end.

Definition DecodeTxs (data : bytes) : res (list Transaction) :=
  if zlen data <? 4 then Err ErrBadBody
  else decode_txs (Z.to_nat (be_val (take 4 data))) (drop 4 data).

Fixpoint read_topics (n : nat) : reader (list Z) :=
  match n with
  | O => mret []
  | S n' => t ← readU64; ts ← read_topics n'; mret (t :: ts)
  end.

Definition decodeLog_reader : reader Log :=
  contract ← readBytes;
  idx ← readU64;
  n ← readU64;
  if maxAlloc <? 8 * n then panic else
  topics ← read_topics (Z.to_nat n);
  mret (MkLog (string_of contract) topics (int_of_u64 idx)).

Definition decodeLog (data : bytes) : res Log := run_reader decodeLog_reader data.

Fixpoint read_logs (n : nat) : reader (list Log) :=
  match n with
  | O => mret []
  | S n' => raw ← readBytes; l ← lift (decodeLog raw); ls ← read_logs n'; mret (l :: ls)
  end.

Definition DecodeLogs (data : bytes) : res (list Log) :=
  if zlen data <? 4 then Err ErrBadBody
  else run_reader (read_logs (Z.to_nat (be_val (take 4 data)))) (drop 4 data).

(** ** Hashes and identifiers *)

Definition tx_Hash (t : Transaction) : Hash := sha256 (canonical t).
Definition BodyHash (body : bytes) : Hash := sha256 body.
Definition ID (h : Header) : Hash := sha256 (Header_SigningBytes h).
Definition IsCoinbase (t : Transaction) : bool := bool_decide (tx_From t = "").

Definition MerkleRootOf (txs : list Transaction) : Hash := Root (tx_Hash <$> txs).

Definition LogsRootOf (logs : list Log) : Hash :=
  match logs with [] => Zero | _ => Root (Log_canonical <$> logs) end.

Definition ContractAddress (deployer : Address) (nonce : Z) : Address :=
  let nb := be_bytes 8 nonce in
  let sum := sha256 (bytes_of "contract:" ++ bytes_of deployer ++ nb) in
  string_of (bytes_of AddressPrefix ++ hex_encode (take 20 sum)).

Definition AddrDigest (a : Address) : Z := be_val (take 8 (sha256 (bytes_of a))).

(** ** Signatures *)

Definition tx_with_sig (t : Transaction) (from : Address) (pub sig : bytes) : Transaction :=
  MkTx from (tx_To t) (tx_Amount t) (tx_Fee t) (tx_Nonce t) (tx_ChainID t) (tx_Kind t) (tx_Gas t)
    (tx_Data t) pub sig.

Definition hd_with_sig (h : Header) (v : Address) (pub sig : bytes) : Header :=
  MkHeader (hd_Height h) (hd_PrevHash h) (hd_MerkleRoot h) (hd_Timestamp h) v (hd_TxCount h)
    (hd_Round h) (hd_Spec h) (hd_BodyHash h) (hd_LogsRoot h) sig pub.

Section signatures.
Context `{Ed25519}.

Definition tx_Sign (t : Transaction) (kp : KeyPair) : Transaction :=
  let t' := tx_with_sig t (KeyPair_Address kp) (kp_Pub kp) (tx_Sig t) in
  tx_with_sig t' (tx_From t') (tx_PubKey t') (KeyPair_Sign kp (SigningBytes t')).

Definition tx_VerifySig (t : Transaction) : res unit :=
  if IsCoinbase t then Ok tt
  else if negb (zlen (tx_PubKey t) =? PublicKeySize) then Err ErrBadPubKey
  else if negb (PubMatchesAddress (tx_PubKey t) (tx_From t)) then Err ErrPubAddrMismatch
  else if negb (Crypto.Verify (tx_PubKey t) (SigningBytes t) (tx_Sig t)) then Err ErrBadSignature
  else Ok tt.

Definition Header_Sign (h : Header) (kp : KeyPair) : Header :=
  let h' := hd_with_sig h (KeyPair_Address kp) (kp_Pub kp) (hd_Sig h) in
  hd_with_sig h' (hd_Validator h') (hd_ValPubKey h') (KeyPair_Sign kp (Header_SigningBytes h')).

Definition Header_VerifySig (h : Header) : res unit :=
  if negb (PubMatchesAddress (hd_ValPubKey h) (hd_Validator h)) then Err ErrPubAddrMismatch
  else if negb (Crypto.Verify (hd_ValPubKey h) (Header_SigningBytes h) (hd_Sig h)) then Err ErrBadSignature
  else Ok tt.
End signatures.

(** ** Well-formed values: what the Go types guarantee, and slice lengths a
    process can hold. *)

Definition len_ok (b : bytes) : Prop := zlen b <= maxAlloc.

Record tx_wf (t : Transaction) : Prop := {
  wf_amount : is_u64 (tx_Amount t); wf_fee : is_u64 (tx_Fee t);
  wf_nonce : is_u64 (tx_Nonce t); wf_chain : is_u64 (tx_ChainID t);
  wf_kind : 0 <= tx_Kind t < 256; wf_gas : is_u64 (tx_Gas t);
  wf_from : len_ok (bytes_of (tx_From t)); wf_to : len_ok (bytes_of (tx_To t));
  wf_data : len_ok (tx_Data t); wf_pub : len_ok (tx_PubKey t); wf_sig : len_ok (tx_Sig t);
}.

Record log_wf (l : Log) : Prop := {
  wf_contract : len_ok (bytes_of (lg_Contract l));
  wf_topics : Forall is_u64 (lg_Topics l); wf_ntopics : 8 * zlen (lg_Topics l) <= maxAlloc;
  wf_index : -9223372036854775808 <= lg_TxIndex l < 9223372036854775808;
  wf_log_len : len_ok (Log_canonical l);
}.

Record header_wf (h : Header) : Prop := {
  wf_height : is_u64 (hd_Height h); wf_prev : length (hd_PrevHash h) = 32%nat;
  wf_merkle : length (hd_MerkleRoot h) = 32%nat;
  wf_time : -9223372036854775808 <= hd_Timestamp h < 9223372036854775808;
  wf_validator : len_ok (bytes_of (hd_Validator h));
  wf_count : 0 <= hd_TxCount h < W32; wf_round : 0 <= hd_Round h < W32;
  wf_K : 0 <= K (hd_Spec h) < 256; wf_M : 0 <= M (hd_Spec h) < 256;
  wf_body : length (hd_BodyHash h) = 32%nat; wf_logs : length (hd_LogsRoot h) = 32%nat;
}.

(** * Lemmas *)

Lemma length_putU64 v : length (putU64 v) = 8%nat.
Proof. apply length_be_bytes. Qed.
#[export] Hint Rewrite length_putU64 : codec.

Lemma length_ID h : length (ID h) = 32%nat.
Proof. apply length_sha256. Qed.

Lemma len_ok_u64 b : len_ok b → is_u64 (zlen b).
Proof. unfold len_ok, maxAlloc, is_u64, W64, zlen. lia. Qed.

Lemma be_val_putU64 v : is_u64 v → be_val (putU64 v) = v.
Proof. intros Hv. unfold putU64. apply be_val_be_bytes_small. unfold is_u64 in Hv. by rewrite W64_pow in Hv. Qed.

Lemma putU64_inj a b : is_u64 a → is_u64 b → putU64 a = putU64 b → a = b.
Proof. intros Ha Hb E. apply (f_equal be_val) in E. by rewrite !be_val_putU64 in E. Qed.

(** ** A reader undoes its writer, whatever follows *)

Lemma readN_app n a rest :
  length a = n → (0 < n)%nat → readN n (a ++ rest) = OK rest a.
Proof.
  intros <- Hn. unfold readN. destruct (a ++ rest) as [|x r] eqn:E.
  - destruct a; simpl in *; [lia|done].
  - rewrite <- E, take_app_length, drop_app_length, Nat.sub_diag. simpl. by rewrite app_nil_r.
Qed.

Lemma readU64_put v rest : is_u64 v → readU64 (putU64 v ++ rest) = OK rest v.
Proof.
  intros Hv. unfold readU64, mbind, M_bind. rewrite readN_app by (rewrite ?length_putU64; lia).
  unfold mret, M_ret. by rewrite be_val_putU64.
Qed.

Lemma readByte_put b rest : readByte ([b] ++ rest) = OK rest b.
Proof. done. Qed.

Lemma readBytes_put b rest : len_ok b → readBytes (putBytes b ++ rest) = OK rest b.
Proof.
  intros Hb. unfold readBytes, putBytes, mbind, M_bind. rewrite <- app_assoc.
  change (be_bytes 8 (zlen b)) with (putU64 (zlen b)).
  rewrite readU64_put by by apply len_ok_u64.
  rewrite (proj2 (Z.ltb_ge _ _)) by done. unfold zlen.
  destruct (Z.eqb_spec (Z.of_nat (length b)) 0).
  - assert (b = []) as -> by (destruct b; simpl in *; [done|lia]). done.
  - rewrite Nat2Z.id. apply readN_app; lia.
Qed.

Lemma decodeTx_canonical t rest :
  tx_wf t → decodeTx_reader (canonical t ++ rest) = OK rest t.
Proof.
  intros []. unfold decodeTx_reader, canonical, SigningBytes, putString. rewrite <- !app_assoc.
  repeat (erewrite bind_ok; [|first [apply readBytes_put | apply readU64_put | apply readByte_put]; done]).
  rewrite !string_of_bytes_of, bz_zb, Z.mod_small by done. by destruct t.
Qed.

Lemma decode_txs_encode txs rest :
  Forall tx_wf txs → Forall (λ t, zlen (canonical t) < W64) txs →
  decode_txs (length txs) ((txs ≫= λ t, putBytes (canonical t)) ++ rest) = Ok txs.
Proof.
  intros Hwf. revert rest. induction Hwf as [|t txs Ht Hts IH]; intros rest Hlen; [done|].
  inversion_clear Hlen as [|?? Hl Hls]. simpl length. cbn [decode_txs].
  rewrite bind_cons, <- app_assoc.
  assert (putBytes (canonical t) = putU64 (zlen (canonical t)) ++ canonical t) as -> by done.
  rewrite <- app_assoc.
  set (R := (txs ≫= λ t, putBytes (canonical t)) ++ rest).
  assert (is_u64 (zlen (canonical t))) as Hu by (unfold is_u64, zlen in *; lia).
  unfold zlen at 1. rewrite length_app, length_putU64.
  rewrite (proj2 (Z.ltb_ge _ _)) by lia.
  rewrite take_app_length', drop_app_length' by by rewrite length_putU64.
  rewrite be_val_putU64 by done. unfold zlen.
  rewrite (proj2 (Z.ltb_ge _ _)) by (rewrite length_app; lia).
  rewrite Nat2Z.id, take_app_length, drop_app_length.
  unfold decodeTx, run_reader. rewrite <- (app_nil_r (canonical t)), decodeTx_canonical by done.
  cbn. subst R. by rewrite IH.
Qed.

Lemma DecodeTxs_EncodeTxs txs :
  Forall tx_wf txs → Forall (λ t, zlen (canonical t) < W64) txs → zlen txs < W32 →
  DecodeTxs (EncodeTxs txs) = Ok txs.
Proof.
  intros Hwf Hlen Hn. unfold DecodeTxs, EncodeTxs.
  unfold zlen at 1. rewrite length_app, length_be_bytes. rewrite (proj2 (Z.ltb_ge _ _)) by lia.
  rewrite take_app_length', drop_app_length' by by rewrite length_be_bytes.
  rewrite be_val_be_bytes_small by (unfold zlen, W32 in *; simpl; lia).
  unfold zlen. rewrite Nat2Z.id. rewrite <- (app_nil_r (txs ≫= λ t, putBytes (canonical t))). by apply decode_txs_encode.
Qed.

(** ** Logs *)

Lemma read_topics_put ts rest :
  Forall is_u64 ts → read_topics (length ts) ((ts ≫= putU64) ++ rest) = OK rest ts.
Proof.
  intros Hts. induction Hts as [|t ts Ht Hts IH]; [done|]. cbn [length read_topics].
  rewrite bind_cons, <- app_assoc. erewrite bind_ok by by apply readU64_put.
  erewrite bind_ok by exact IH. done.
Qed.

Lemma int_of_u64_of_int z :
  -9223372036854775808 <= z < 9223372036854775808 → int_of_u64 (u64_of_int z) = z.
Proof.
  intros Hz. unfold int_of_u64, u64_of_int, W64. destruct (Z_lt_ge_dec z 0).
  - assert (z mod 18446744073709551616 = z + 18446744073709551616) as ->.
    { rewrite <- (Z_mod_plus_full z 1). apply Z.mod_small. lia. }
    rewrite (proj2 (Z.ltb_ge _ _)) by lia. lia.
  - rewrite Z.mod_small by lia. rewrite (proj2 (Z.ltb_lt _ _)) by lia. done.
Qed.

Lemma decodeLog_canonical l rest : log_wf l → decodeLog_reader (Log_canonical l ++ rest) = OK rest l.
Proof.
  intros []. unfold decodeLog_reader, Log_canonical, putString. rewrite <- !app_assoc.
  erewrite bind_ok by by apply readBytes_put.
  erewrite bind_ok by apply readU64_put, u64_range.
  erewrite bind_ok by (apply readU64_put; unfold is_u64, W64, maxAlloc, zlen in *; lia).
  rewrite (proj2 (Z.ltb_ge _ _)) by done. unfold zlen. rewrite Nat2Z.id.
  erewrite bind_ok by by apply read_topics_put.
  unfold mret, M_ret. rewrite string_of_bytes_of, int_of_u64_of_int by done. by destruct l.
Qed.

Lemma read_logs_put ls rest :
  Forall log_wf ls → read_logs (length ls) ((ls ≫= λ l, putBytes (Log_canonical l)) ++ rest) = OK rest ls.
Proof.
  intros Hls. induction Hls as [|l ls Hl Hls IH]; [done|]. cbn [length read_logs].
  rewrite bind_cons, <- app_assoc.
  erewrite bind_ok by apply readBytes_put, Hl.
  unfold decodeLog, run_reader. rewrite <- (app_nil_r (Log_canonical l)), decodeLog_canonical by done.
  erewrite bind_ok by done. erewrite bind_ok by exact IH. done.
Qed.

Lemma DecodeLogs_EncodeLogs logs :
  Forall log_wf logs → zlen logs < W32 → DecodeLogs (EncodeLogs logs) = Ok logs.
Proof.
  intros Hwf Hn. unfold DecodeLogs, EncodeLogs.
  unfold zlen at 1. rewrite length_app, length_be_bytes. rewrite (proj2 (Z.ltb_ge _ _)) by lia.
  rewrite take_app_length', drop_app_length' by by rewrite length_be_bytes.
  rewrite be_val_be_bytes_small by (unfold zlen, W32 in *; simpl; lia).
  unfold run_reader, zlen. rewrite Nat2Z.id.
  rewrite <- (app_nil_r (logs ≫= λ l, putBytes (Log_canonical l))). by rewrite read_logs_put.
Qed.

(** ** Injectivity *)

Lemma putBytes_app_inj a b r s :
  len_ok a → len_ok b → putBytes a ++ r = putBytes b ++ s → a = b ∧ r = s.
Proof.
  intros Ha Hb E. apply (f_equal readBytes) in E.
  rewrite !readBytes_put in E by done. by simplify_eq.
Qed.

Lemma putU64_app_inj a b r s :
  is_u64 a → is_u64 b → putU64 a ++ r = putU64 b ++ s → a = b ∧ r = s.
Proof.
  intros Ha Hb E. apply (f_equal readU64) in E. rewrite !readU64_put in E by done. by simplify_eq.
Qed.

Lemma byte_app_inj a b r s :
  0 <= a < 256 → 0 <= b < 256 → [zb a] ++ r = [zb b] ++ s → a = b ∧ r = s.
Proof.
  intros Ha Hb [E ->]%cons_eq. apply (f_equal bz) in E. by rewrite !bz_zb, !Z.mod_small in E.
Qed.

Lemma hash_app_inj (a b r s : bytes) :
  length a = 32%nat → length b = 32%nat → a ++ r = b ++ s → a = b ∧ r = s.
Proof. intros Ha Hb E. apply app_inj_1 in E; [done|congruence]. Qed.

(** What the signature covers, as a tuple. *)
Definition signed_fields (t : Transaction) :=
  (tx_From t, tx_To t, (tx_Amount t, tx_Fee t, tx_Nonce t, tx_ChainID t, tx_Kind t, tx_Gas t),
   tx_Data t, tx_PubKey t).

Lemma SigningBytes_inj t1 t2 :
  tx_wf t1 → tx_wf t2 → SigningBytes t1 = SigningBytes t2 → signed_fields t1 = signed_fields t2.
Proof.
  intros W1 W2 E.
  set (u t := tx_with_sig t (tx_From t) (tx_PubKey t) []).
  assert (∀ t, tx_wf t → tx_wf (u t)) as Hu.
  { intros t []. split; try done. }
  assert (∀ t, decodeTx_reader (SigningBytes t ++ putBytes []) = decodeTx_reader (canonical (u t) ++ [])) as Hd.
  { intros t. unfold canonical. rewrite app_nil_r. by destruct t. }
  pose proof (decodeTx_canonical (u t1) [] (Hu _ W1)) as D1.
  pose proof (decodeTx_canonical (u t2) [] (Hu _ W2)) as D2.
  rewrite <- Hd in D1, D2. rewrite E, D2 in D1. simplify_eq D1.
  destruct t1, t2. unfold signed_fields. simpl. intros. by simplify_eq.
Qed.

Definition header_fields (h : Header) :=
  ((hd_Height h, hd_PrevHash h, hd_MerkleRoot h, hd_Timestamp h), hd_Validator h,
   (hd_TxCount h, hd_Round h, hd_Spec h), hd_BodyHash h, hd_LogsRoot h).

Lemma is_u64_w32 z : 0 <= z < W32 → is_u64 z.
Proof. unfold is_u64, W32, W64. lia. Qed.

Lemma Header_SigningBytes_inj h1 h2 :
  header_wf h1 → header_wf h2 → Header_SigningBytes h1 = Header_SigningBytes h2 →
  header_fields h1 = header_fields h2.
Proof.
  intros [] [] E. unfold Header_SigningBytes, putString in E.
  apply putU64_app_inj in E as [E1 E]; [|done..].
  apply hash_app_inj in E as [E2 E]; [|done..].
  apply hash_app_inj in E as [E3 E]; [|done..].
  apply putU64_app_inj in E as [E4 E]; [|apply u64_range..].
  apply (f_equal int_of_u64) in E4. rewrite !int_of_u64_of_int in E4 by done.
  apply putBytes_app_inj in E as [E5%(inj bytes_of) E]; [|done..].
  apply putU64_app_inj in E as [E6 E]; [|by apply is_u64_w32..].
  apply putU64_app_inj in E as [E7 E]; [|by apply is_u64_w32..].
  apply byte_app_inj in E as [E8 E]; [|done..].
  apply byte_app_inj in E as [E9 E]; [|done..].
  apply hash_app_inj in E as [E10 E11]; [|done..].
  unfold header_fields. destruct (hd_Spec h1), (hd_Spec h2). simpl in *. congruence.
Qed.

(** ** Signatures *)

Lemma tx_Sign_verifies `{Ed25519} t kp :
  key_ok (kp_Priv kp) (kp_Pub kp) → tx_VerifySig (tx_Sign t kp) = Ok tt.
Proof.
  intros Hk. unfold tx_VerifySig. destruct (IsCoinbase _); [done|].
  assert ((zlen (tx_PubKey (tx_Sign t kp)) =? PublicKeySize) = true) as ->.
  { destruct Hk as [Hl _]. unfold zlen. simpl. by rewrite Hl. }
  simpl. rewrite KeyPair_matches. simpl. by rewrite Verify_Sign.
Qed.

Lemma Header_Sign_verifies `{Ed25519} h kp :
  key_ok (kp_Priv kp) (kp_Pub kp) → Header_VerifySig (Header_Sign h kp) = Ok tt.
Proof.
  intros Hk. unfold Header_VerifySig. simpl. rewrite KeyPair_matches. simpl. by rewrite Verify_Sign.
Qed.

(** * Properties *)

(** [C31] Block bodies round trip: decoding the canonical encoding of any list of
    transactions gives the list back, so the bytes that are erasure coded and
    hashed in the header determine the block's transactions. *)
Theorem body_roundtrip (b : Block) :
  Forall tx_wf (b_Txs b) → Forall (λ t, zlen (canonical t) < W64) (b_Txs b) → zlen (b_Txs b) < W32 →
  DecodeTxs (Body b) = Ok (b_Txs b) ∧
  (∀ txs, Forall tx_wf txs → Forall (λ t, zlen (canonical t) < W64) txs → zlen txs < W32 →
     EncodeTxs txs = Body b → txs = b_Txs b).
Proof.
  intros Hwf Hlen Hn. split; [by apply DecodeTxs_EncodeTxs|].
  intros txs Hwf' Hlen' Hn' E. apply (f_equal DecodeTxs) in E. unfold Body in E.
  rewrite !DecodeTxs_EncodeTxs in E by done. by simplify_eq.
Qed.

Definition sample_tx : Transaction :=
  MkTx "alice" "bob" 5 1 0 1 KindTransfer 0 [] [] (bytes_of "sig").
Definition sample_header : Header :=
  MkHeader 1 Zero Zero 7 "val" 1 0 GenesisSpec Zero Zero [] [].

Lemma sample_tx_wf : tx_wf sample_tx.
Proof. split; cbv; intuition discriminate. Qed.

Lemma body_roundtrip_witness :
  DecodeTxs (Body (MkBlock sample_header [sample_tx; sample_tx])) = Ok [sample_tx; sample_tx].
Proof.
  destruct (body_roundtrip (MkBlock sample_header [sample_tx; sample_tx])) as [H _].
  - repeat constructor; apply sample_tx_wf.
  - repeat constructor; vm_compute; reflexivity.
  - reflexivity.
  - exact H.
Defined.

(** Event logs round trip through the wire form their shards are cut from. *)
Theorem logs_roundtrip (logs : list Log) :
  Forall log_wf logs → zlen logs < W32 → DecodeLogs (EncodeLogs logs) = Ok logs.
Proof. apply DecodeLogs_EncodeLogs. Qed.

Lemma logs_roundtrip_witness :
  DecodeLogs (EncodeLogs [MkLog "c" [1; 2] (-1)]) = Ok [MkLog "c" [1; 2] (-1)].
Proof.
  apply logs_roundtrip.
  - apply Forall_singleton. split; [easy| |easy|easy|easy].
    repeat constructor; easy.
  - reflexivity.
Defined.

(** A signature binds everything: two well-formed transactions with the same
    signing bytes agree in every signed field (addresses, amounts, nonce, network
    id, kind, gas, data and key), and two well-formed headers with the same signing
    bytes agree in every field but the signature, so a block id determines its
    header unless SHA-256 collides on the two encodings. *)
Theorem signing_bytes_bind (t1 t2 : Transaction) (h1 h2 : Header) :
  tx_wf t1 → tx_wf t2 → header_wf h1 → header_wf h2 →
  (SigningBytes t1 = SigningBytes t2 → signed_fields t1 = signed_fields t2) ∧
  (Header_SigningBytes h1 = Header_SigningBytes h2 → header_fields h1 = header_fields h2) ∧
  (collision_free [Header_SigningBytes h1; Header_SigningBytes h2] → ID h1 = ID h2 →
   header_fields h1 = header_fields h2).
Proof.
  intros Wt1 Wt2 Wh1 Wh2. split_and!.
  - by apply SigningBytes_inj.
  - by apply Header_SigningBytes_inj.
  - intros Hcf E. apply Header_SigningBytes_inj; [done..|].
    apply Hcf; [by left|by right; left|done].
Qed.

Lemma signing_bytes_bind_witness :
  signed_fields sample_tx = signed_fields (tx_with_sig sample_tx (tx_From sample_tx) (tx_PubKey sample_tx) []).
Proof.
  destruct (signing_bytes_bind sample_tx (tx_with_sig sample_tx (tx_From sample_tx) (tx_PubKey sample_tx) [])
              sample_header sample_header)
    as (H & _ & _).
  - apply sample_tx_wf.
  - split; cbv; intuition discriminate.
  - split; try reflexivity; cbv; intuition discriminate.
  - split; try reflexivity; cbv; intuition discriminate.
  - exact (H eq_refl).
Defined.

(** A length prefix larger than what is left is padded, not rejected. *)
Lemma readBytes_short n s :
  s ≠ [] → zlen s <= n <= maxAlloc →
  readBytes (putU64 n ++ s) = OK [] (s ++ replicate (Z.to_nat n - length s) (zb 0)).
Proof.
  intros Hs Hn. assert (0 < zlen s) by (unfold zlen; destruct s; simpl; [done|lia]).
  unfold readBytes. erewrite bind_ok by (apply readU64_put; unfold is_u64, W64, maxAlloc in *; lia).
  rewrite (proj2 (Z.ltb_ge _ _)) by lia. rewrite (proj2 (Z.eqb_neq _ _)) by lia.
  unfold readN, zlen in *. destruct s as [|b s]; [done|].
  rewrite take_ge, drop_ge by lia. done.
Qed.

(** What [DecodeTxs] lets through. The decoder reads with [bytes.Reader],
    which reports an error only when nothing at all is left: a transaction cut
    short in its last field decodes without error, the missing bytes read as
    zeros. And a length prefix is trusted before the data is checked: one above the
    allocation limit stops the process instead of returning [ErrBadBody]. *)
Theorem decodeTx_lenient (t : Transaction) (sig rest : bytes) (n : Z) :
  tx_wf t → sig ≠ [] → zlen sig <= n <= maxAlloc →
  decodeTx (SigningBytes t ++ putU64 n ++ sig) =
    Ok (tx_with_sig t (tx_From t) (tx_PubKey t) (sig ++ replicate (Z.to_nat n - length sig) (zb 0))) ∧
  (∀ l, maxAlloc < l < W64 → decodeTx (putU64 l ++ rest) = Panic).
Proof.
  intros [] Hsig Hn. split.
  - unfold decodeTx, run_reader, decodeTx_reader, SigningBytes, putString. rewrite <- !app_assoc.
    do 10 (erewrite bind_ok; [|first [apply readBytes_put | apply readU64_put | apply readByte_put]; done]).
    erewrite bind_ok by by apply readBytes_short.
    by rewrite !string_of_bytes_of, bz_zb, Z.mod_small.
  - intros l Hl. unfold decodeTx, run_reader, decodeTx_reader, readBytes.
    unfold mbind at 1, M_bind at 1. unfold mbind at 1, M_bind at 1.
    rewrite readU64_put by (unfold is_u64, maxAlloc in *; lia).
    by rewrite (proj2 (Z.ltb_lt _ _)) by lia.
Qed.

Lemma decodeTx_lenient_witness :
  decodeTx (SigningBytes sample_tx ++ putU64 4 ++ bytes_of "sig") =
    Ok (tx_with_sig sample_tx "alice" [] (bytes_of "sig" ++ [zb 0])).
Proof.
  destruct (decodeTx_lenient sample_tx (bytes_of "sig") [] 4) as [H _].
  - apply sample_tx_wf.
  - discriminate.
  - split; cbv; discriminate.
  - exact H.
Defined.
