(* ===== verification/Pow.v ===== *)
(** * Proof-of-work puzzles ([internal/regpow], [internal/faucet])

    The registration puzzle and the faucet puzzle: the hashed messages, the
    leading-zero-bit count, verification and the search from nonce 0. *)

From S2P Require Import Prelude Sha256 Crypto Types.

(** The bit loop on one byte: count from bit [i-1] down while the bits are zero. *)
Fixpoint byte_zeros (i : nat) (b : Z) : Z :=
  match i with
  | O => 0
  | S i' => if Z.land b (Z.shiftl 1 (Z.of_nat i')) =? 0 then 1 + byte_zeros i' b else 0
  end.

(** The byte loop: both packages carry the same copy of it. *)
Fixpoint zero_bits (h : bytes) : Z :=
  match h with
  | [] => 0
  | b :: r => if bz b =? 0 then 8 + zero_bits r else byte_zeros 8 (bz b)
  end.

(** [for nonce := 0; ; nonce++]: [fuel] nonces are tried; [None] means the loop
    is still running. *)
Fixpoint search (ok : Z → bool) (fuel : nat) (nonce : Z) : option Z :=
  match fuel with
  | O => None
  | S f => if ok nonce then Some nonce else search ok f (u64 (nonce + 1))
  end.

Module Regpow.
Definition prefix : string := "sl-regpow:".

Definition msg (chainID : Z) (addr : Address) (nonce : Z) : bytes :=
  bytes_of prefix ++ be_bytes 8 chainID ++ bytes_of addr ++ be_bytes 8 nonce.

Definition Hash (chainID : Z) (addr : Address) (nonce : Z) : bytes := sha256 (msg chainID addr nonce).

Definition leadingZeroBits (h : bytes) : Z := zero_bits h.

Definition Verify (chainID : Z) (addr : Address) (nonce : Z) (bits : Z) : bool :=
  if bits <=? 0 then true else bits <=? leadingZeroBits (Hash chainID addr nonce).

Definition Solve (fuel : nat) (chainID : Z) (addr : Address) (bits : Z) : option Z :=
  if bits <=? 0 then Some 0
  else search (λ nonce, bits <=? leadingZeroBits (Hash chainID addr nonce)) fuel 0.

Definition Seed := Hash.
End Regpow.

Module Faucet.
Definition prefix : string := "sl-faucet:".

Definition msg (chainID : Z) (addr : Address) (anchor : bytes) (nonce : Z) : bytes :=
  bytes_of prefix ++ be_bytes 8 chainID ++ bytes_of addr ++ anchor ++ be_bytes 8 nonce.

Definition Hash (chainID : Z) (addr : Address) (anchor : bytes) (nonce : Z) : bytes :=
  sha256 (msg chainID addr anchor nonce).

Definition leadingZeroBits (h : bytes) : Z := zero_bits h.

Definition Verify (chainID : Z) (addr : Address) (anchor : bytes) (nonce : Z) (bits : Z) : bool :=
  if bits <=? 0 then true else bits <=? leadingZeroBits (Hash chainID addr anchor nonce).

Definition Solve (fuel : nat) (chainID : Z) (addr : Address) (anchor : bytes) (bits : Z) : option Z :=
  if bits <=? 0 then Some 0
  else search (λ nonce, bits <=? leadingZeroBits (Hash chainID addr anchor nonce)) fuel 0.
End Faucet.

(** * Lemmas *)

Lemma byte_zeros_spec b :
  0 < bz b → 0 <= byte_zeros 8 (bz b) <= 7 ∧
  2 ^ (7 - byte_zeros 8 (bz b)) <= bz b < 2 ^ (8 - byte_zeros 8 (bz b)).
Proof. destruct b; vm_compute; intuition (discriminate || auto). Qed.

Lemma zero_bits_range h : 0 <= zero_bits h <= 8 * zlen h.
Proof.
  unfold zlen. induction h as [|b h IH]; [cbv; intuition discriminate|].
  cbn [zero_bits length]. pose proof (bz_range b).
  destruct (Z.eqb_spec (bz b) 0); [lia|].
  pose proof (byte_zeros_spec b). lia.
Qed.

(** The count is the position of the highest set bit of the hash as an integer. *)
Lemma zero_bits_val h :
  (be_val h = 0 ∧ zero_bits h = 8 * zlen h) ∨
  2 ^ (8 * zlen h - zero_bits h - 1) <= be_val h < 2 ^ (8 * zlen h - zero_bits h) ∧
    zero_bits h < 8 * zlen h.
Proof.
  induction h as [|b h IH]; [by left|].
  assert (zlen (b :: h) = zlen h + 1) as -> by (unfold zlen; simpl; lia).
  rewrite be_val_cons. cbn [zero_bits]. pose proof (bz_range b) as Hb.
  pose proof (be_val_bound h) as Hh. assert (0 <= zlen h) by (unfold zlen; lia).
  destruct (Z.eqb_spec (bz b) 0) as [E|E].
  - rewrite E. destruct IH as [[-> ->]|[Hr Hlt]]; [left; lia|right].
    replace (8 * (zlen h + 1) - (8 + zero_bits h)) with (8 * zlen h - zero_bits h) by lia. lia.
  - right. destruct (byte_zeros_spec b ltac:(lia)) as [Hz [Hlo Hhi]].
    set (z := byte_zeros 8 (bz b)) in *. split; [|lia].
    assert (256 ^ zlen h = 2 ^ (8 * zlen h)) as Hp by (rewrite Z.pow_mul_r by lia; done).
    rewrite Hp in *.
    replace (8 * (zlen h + 1) - z - 1) with ((7 - z) + 8 * zlen h) by lia.
    replace (8 * (zlen h + 1) - z) with ((8 - z) + 8 * zlen h) by lia.
    rewrite !Z.pow_add_r by lia. nia.
Qed.

Lemma zero_bits_ge h n :
  0 <= n <= 8 * zlen h → (n <= zero_bits h ↔ be_val h < 2 ^ (8 * zlen h - n)).
Proof.
  intros Hn. pose proof (zero_bits_range h).
  destruct (zero_bits_val h) as [[-> ->]|[Hr Hlt]].
  - split; [intros; apply Z.pow_pos_nonneg; lia|lia].
  - split; intros H'.
    + eapply Z.lt_le_trans; [apply Hr|]. apply Z.pow_le_mono_r; lia.
    + destruct (Z_le_gt_dec n (zero_bits h)); [done|exfalso].
      assert (2 ^ (8 * zlen h - n) <= 2 ^ (8 * zlen h - zero_bits h - 1)).
      { apply Z.pow_le_mono_r; lia. } lia.
Qed.

Lemma puzzle_target h bits :
  length h = 32%nat → 0 < bits <= 256 →
  (bits <=? zero_bits h) = (be_val h <? 2 ^ (256 - bits)).
Proof.
  intros Hl Hb. pose proof (zero_bits_ge h bits) as H. unfold zlen in H. rewrite Hl in H.
  replace (8 * Z.of_nat 32) with 256 in H by lia.
  destruct (Z.leb_spec bits (zero_bits h)); destruct (Z.ltb_spec (be_val h) (2 ^ (256 - bits))); lia.
Qed.

(** The search returns the first solution when it returns. *)
Lemma search_first ok fuel start n :
  0 <= start → start <= n < W64 → (∀ m, start <= m < n → ok m = false) → ok n = true →
  (Z.to_nat (n - start) < fuel)%nat → search ok fuel start = Some n.
Proof.
  revert start. induction fuel as [|f IH]; intros start H0 Hn Hmin Hok Hf; [lia|]. simpl.
  destruct (decide (start = n)) as [->|]; [by rewrite Hok|].
  rewrite Hmin by lia. rewrite u64_small by (unfold is_u64; lia).
  apply IH; auto; try lia. intros. apply Hmin. lia.
Qed.

Lemma search_sound ok fuel start n : search ok fuel start = Some n → ok n = true.
Proof.
  revert start. induction fuel as [|f IH]; intros start; simpl; [done|].
  destruct (ok start) eqn:E; [by intros [= ->]|]. eauto.
Qed.

Lemma app_tail_inj {A} (a b c d : list A) : length b = length d → a ++ b = c ++ d → a = c ∧ b = d.
Proof. intros. by apply app_inj_2. Qed.

Lemma Regpow_msg_inj c a n c' a' n' :
  is_u64 c → is_u64 c' → is_u64 n → is_u64 n' →
  Regpow.msg c a n = Regpow.msg c' a' n' → c = c' ∧ a = a' ∧ n = n'.
Proof.
  intros Hc Hc' Hn Hn' E. unfold Regpow.msg in E. apply (inj (app _)) in E.
  apply putU64_app_inj in E as [-> E]; [|done..].
  apply app_tail_inj in E as [->%(inj bytes_of) E]; [|by rewrite !length_be_bytes].
  by apply putU64_inj in E.
Qed.

Lemma Faucet_msg_inj c a h n c' a' h' n' :
  is_u64 c → is_u64 c' → is_u64 n → is_u64 n' → length h = 32%nat → length h' = 32%nat →
  Faucet.msg c a h n = Faucet.msg c' a' h' n' → c = c' ∧ a = a' ∧ h = h' ∧ n = n'.
Proof.
  intros Hc Hc' Hn Hn' Hh Hh' E. unfold Faucet.msg in E. apply (inj (app _)) in E.
  apply putU64_app_inj in E as [-> E]; [|done..].
  rewrite (app_assoc _ h), (app_assoc _ h') in E.
  apply app_tail_inj in E as [E1 E2]; [|by rewrite !length_be_bytes].
  apply app_tail_inj in E1 as [->%(inj bytes_of) ->]; [|congruence].
  by apply putU64_inj in E2.
Qed.

(** * Properties *)

(** Both puzzles are Bitcoin-style targets: for a difficulty of 1 to 256 bits
    a nonce passes exactly when the puzzle hash, read as a 256-bit integer, is below
    [2^(256-bits)]; difficulty 0 (or less) is always passed, and no nonce passes a
    difficulty above 256. *)
Theorem pow_targets (chainID : Z) (addr : Address) (anchor : bytes) (nonce bits : Z) :
  Regpow.Verify chainID addr nonce bits =
    (if bits <=? 0 then true else if 256 <? bits then false
     else be_val (Regpow.Hash chainID addr nonce) <? 2 ^ (256 - bits)) ∧
  Faucet.Verify chainID addr anchor nonce bits =
    (if bits <=? 0 then true else if 256 <? bits then false
     else be_val (Faucet.Hash chainID addr anchor nonce) <? 2 ^ (256 - bits)).
Proof.
  assert (∀ h : bytes, length h = 32%nat → (bits <=? zero_bits h) =
    (if 256 <? bits then false else if bits <=? 0 then bits <=? zero_bits h else be_val h <? 2 ^ (256 - bits))) as H.
  { intros h Hl. destruct (Z.ltb_spec 256 bits).
    - apply Z.leb_gt. pose proof (zero_bits_range h). unfold zlen in *. rewrite Hl in *. lia.
    - destruct (Z.leb_spec bits 0); [done|]. apply puzzle_target; [done|lia]. }
  unfold Regpow.Verify, Faucet.Verify, Regpow.leadingZeroBits, Faucet.leadingZeroBits,
    Regpow.Hash, Faucet.Hash.
  split; (destruct (bits <=? 0) eqn:E; [done|]); rewrite H by apply length_sha256; done.
Qed.

(** Solving: if some [uint64] nonce solves the puzzle, the search from 0 ends
    with the least such nonce, and what it returns verifies; solutions are bound to
    the network, the address and (for the faucet) the anchor block, because the
    hashed messages of different puzzles differ. *)
Theorem pow_solve (chainID : Z) (addr : Address) (anchor : bytes) (bits n : Z) :
  0 < bits → is_u64 n →
  (Regpow.Verify chainID addr n bits = true →
   (∀ m, 0 <= m < n → Regpow.Verify chainID addr m bits = false) →
   ∀ fuel, (Z.to_nat n < fuel)%nat → Regpow.Solve fuel chainID addr bits = Some n) ∧
  (Faucet.Verify chainID addr anchor n bits = true →
   (∀ m, 0 <= m < n → Faucet.Verify chainID addr anchor m bits = false) →
   ∀ fuel, (Z.to_nat n < fuel)%nat → Faucet.Solve fuel chainID addr anchor bits = Some n) ∧
  (∀ fuel m, Faucet.Solve fuel chainID addr anchor bits = Some m →
     Faucet.Verify chainID addr anchor m bits = true) ∧
  (∀ c' a' h' n', is_u64 chainID → is_u64 c' → is_u64 n' → length anchor = 32%nat → length h' = 32%nat →
     Faucet.msg chainID addr anchor n = Faucet.msg c' a' h' n' →
     chainID = c' ∧ addr = a' ∧ anchor = h' ∧ n = n').
Proof.
  intros Hb [Hn0 Hn]. unfold Regpow.Verify, Faucet.Verify, Regpow.Solve, Faucet.Solve.
  rewrite (proj2 (Z.leb_gt _ _)) by lia. split_and!.
  - intros Hok Hmin fuel Hf. apply search_first; auto; lia.
  - intros Hok Hmin fuel Hf. apply search_first; auto; lia.
  - intros fuel m. apply (search_sound (λ nonce, bits <=? Faucet.leadingZeroBits (Faucet.Hash chainID addr anchor nonce))).
  - intros. by apply Faucet_msg_inj.
Qed.

Lemma pow_solve_witness :
  Regpow.Solve 10 1 "b" 1 = Some 2 ∧ Regpow.Verify 1 "b" 2 1 = true.
Proof.
  destruct (pow_solve 1 "b" (replicate 32 (zb 0)) 1 2) as (H & _ & _ & _).
  - reflexivity.
  - split; cbv; [discriminate|reflexivity].
  - assert (Regpow.Verify 1 "b" 2 1 = true) as Hv by (vm_compute; reflexivity).
    split; [|exact Hv]. apply H; [exact Hv| |cbv; lia].
    intros m Hm. assert (m = 0 ∨ m = 1) as [E|E] by lia; rewrite E.
    + vm_compute. reflexivity.
    + vm_compute. reflexivity.
Defined.
