(* ===== verification/Vm.v ===== *)
(** * The contract virtual machine ([internal/vm/vm.go])

    A stack machine over [uint64] words with gas, word storage, byte storage,
    events and calls into other contracts through a host.  The interpreter is a
    program of the monad [M] over the machine state; the host's own state rides
    along in [m_hst], because what a callee commits stays committed when its
    caller fails later. *)

From S2P Require Import Prelude Sha256.

(** ** Opcodes *)

Inductive opcode :=
  | STOP | PUSH | POP | ADD | SUB | MUL | DIV | MOD | ADDC | SUBC | MULC
  | EQ | LT | GT | ISZERO | AND | OR | NOT | DUP | SWAP | JUMP | JUMPI
  | SLOAD | SSTORE | MIX | CALLER | VALUE | BAL | CDLOAD | SELF | CALL
  | RETURN | REVERT | LOG | CDLEN | BSTORE | BEQ | BLEN | BHASH | CALLERB | SELFB | RETURNB.

#[global] Instance opcode_eq_dec : EqDecision opcode.
Proof. solve_decision. Defined.

Definition op_code (o : opcode) : Z :=
  match o with
  | STOP => 0x00 | PUSH => 0x01 | POP => 0x02
  | ADD => 0x10 | SUB => 0x11 | MUL => 0x12 | DIV => 0x13 | MOD => 0x14
  | ADDC => 0x15 | SUBC => 0x16 | MULC => 0x17
  | EQ => 0x20 | LT => 0x21 | GT => 0x22 | ISZERO => 0x23 | AND => 0x24 | OR => 0x25 | NOT => 0x26
  | DUP => 0x30 | SWAP => 0x31 | JUMP => 0x40 | JUMPI => 0x41
  | SLOAD => 0x50 | SSTORE => 0x51 | MIX => 0x57
  | CALLER => 0x60 | VALUE => 0x61 | BAL => 0x62 | CDLOAD => 0x63 | SELF => 0x64
  | CALL => 0x71 | RETURN => 0x70 | REVERT => 0x74 | LOG => 0x72
  | CDLEN => 0x66 | BSTORE => 0x53 | BEQ => 0x54 | BLEN => 0x55 | BHASH => 0x56
  | CALLERB => 0x67 | SELFB => 0x68 | RETURNB => 0x73
  end.

Definition opcodes : list opcode :=
  [STOP; PUSH; POP; ADD; SUB; MUL; DIV; MOD; ADDC; SUBC; MULC; EQ; LT; GT; ISZERO; AND; OR; NOT;
   DUP; SWAP; JUMP; JUMPI; SLOAD; SSTORE; MIX; CALLER; VALUE; BAL; CDLOAD; SELF; CALL; RETURN;
   REVERT; LOG; CDLEN; BSTORE; BEQ; BLEN; BHASH; CALLERB; SELFB; RETURNB].

(** The [switch op] of the interpreter: the opcode a byte stands for. *)
Definition decode_op (b : byte) : option opcode := List.find (λ o, op_code o =? bz b) opcodes.

Definition op_byte (o : opcode) : byte := zb (op_code o).

Definition maxLogTopics : Z := 8.
Definition maxStack : Z := 1024.
Definition maxSteps : Z := 1000000.
Definition maxDepth : Z := 8.

(** Unassigned bytes fall in the [default] case of the gas table too. *)
Definition gasCost (op : option opcode) : Z :=
  match op with
  | Some (SSTORE | BSTORE | CALLERB | SELFB) => 100
  | Some LOG => 50
  | Some (SLOAD | BEQ | BHASH | MIX) => 20
  | Some PUSH => 3
  | _ => 1
  end.

(** ** Environment, machine state, result *)

(** [CallHost.Call self target arg gasLimit depth] returns [(ret, gasUsed, ok)]. *)
Definition host (H : Type) : Type := Z → Z → Z → Z → Z → M H (Z * Z * bool).

Record Context (H : Type) := MkContext {
  c_Caller : Z; c_Self : Z; c_CallerAddr : bytes; c_SelfAddr : bytes;
  c_Value : Z; c_Balance : Z; c_Host : option (host H); c_Depth : Z;
}.
Arguments MkContext {H}.
Arguments c_Caller {H}. Arguments c_Self {H}. Arguments c_CallerAddr {H}. Arguments c_SelfAddr {H}.
Arguments c_Value {H}. Arguments c_Balance {H}. Arguments c_Host {H}. Arguments c_Depth {H}.

(** The stack is kept top first. *)
Record vmst (H : Type) := VmSt {
  m_pc : Z; m_st : list Z; m_work : gmap Z Z; m_bwork : gmap Z bytes;
  m_used : Z; m_ret : Z; m_retBytes : bytes; m_logs : list (list Z); m_hst : H;
}.
Arguments VmSt {H}.
Arguments m_pc {H}. Arguments m_st {H}. Arguments m_work {H}. Arguments m_bwork {H}.
Arguments m_used {H}. Arguments m_ret {H}. Arguments m_retBytes {H}. Arguments m_logs {H}.
Arguments m_hst {H}.

Record Result := MkResult {
  GasUsed : Z; Return : Z; ReturnBytes : bytes; Stack : list Z; Logs : list (list Z);
}.

Definition set_pc {H} v (s : vmst H) :=
  VmSt v (m_st s) (m_work s) (m_bwork s) (m_used s) (m_ret s) (m_retBytes s) (m_logs s) (m_hst s).
Definition set_st {H} v (s : vmst H) :=
  VmSt (m_pc s) v (m_work s) (m_bwork s) (m_used s) (m_ret s) (m_retBytes s) (m_logs s) (m_hst s).
Definition set_work {H} v (s : vmst H) :=
  VmSt (m_pc s) (m_st s) v (m_bwork s) (m_used s) (m_ret s) (m_retBytes s) (m_logs s) (m_hst s).
Definition set_bwork {H} v (s : vmst H) :=
  VmSt (m_pc s) (m_st s) (m_work s) v (m_used s) (m_ret s) (m_retBytes s) (m_logs s) (m_hst s).
Definition set_used {H} v (s : vmst H) :=
  VmSt (m_pc s) (m_st s) (m_work s) (m_bwork s) v (m_ret s) (m_retBytes s) (m_logs s) (m_hst s).
Definition set_ret {H} v (s : vmst H) :=
  VmSt (m_pc s) (m_st s) (m_work s) (m_bwork s) (m_used s) v (m_retBytes s) (m_logs s) (m_hst s).
Definition set_retBytes {H} v (s : vmst H) :=
  VmSt (m_pc s) (m_st s) (m_work s) (m_bwork s) (m_used s) (m_ret s) v (m_logs s) (m_hst s).
Definition set_logs {H} v (s : vmst H) :=
  VmSt (m_pc s) (m_st s) (m_work s) (m_bwork s) (m_used s) (m_ret s) (m_retBytes s) v (m_hst s).
Definition set_hst {H} (v : H) (s : vmst H) :=
  VmSt (m_pc s) (m_st s) (m_work s) (m_bwork s) (m_used s) (m_ret s) (m_retBytes s) (m_logs s) v.

(** ** Pure helpers *)

(** [l[i]] with Go's bounds check. *)
Definition index {A} (l : list A) (i : Z) (d : A) : res A :=
  if (0 <=? i) && (i <? zlen l) then Ok (nth (Z.to_nat i) l d) else Panic.

(** [v = v<<8 | uint64(b)] *)
Definition shift_in (v : Z) (b : byte) : Z := Z.lor (u64 (Z.shiftl v 8)) (bz b).

Definition beU64 (b : bytes) : Z := foldl shift_in 0 (take 8 b).

(** The loop of [word]: read [n] bytes from [off], every index bounds-checked. *)
Fixpoint word_loop (input : bytes) (n : nat) (off v : Z) : res Z :=
  match n with
  | O => Ok v
  | S n' => b ← index input off (zb 0); word_loop input n' (u64 (off + 1)) (shift_in v b)
  end.

Definition word (input : bytes) (idx : Z) : res Z :=
  let off := u64 (idx * 8) in
  if zlen input <? u64 (off + 8) then Ok 0 else word_loop input 8 off 0.

Definition bytesEqual (a b : bytes) : bool := bool_decide (a = b).

Definition b2u (b : bool) : Z := if b then 1 else 0.

Definition not64 (a : Z) : Z := Z.lxor a (W64 - 1).

Definition binop (op : opcode) (a b : Z) : res Z :=
  match op with
  | ADD => Ok (u64 (a + b))
  | SUB => Ok (u64 (a - b))
  | MUL => Ok (u64 (a * b))
  | DIV => if b =? 0 then Err ErrDivZero else Ok (a / b)
  | MOD => if b =? 0 then Err ErrDivZero else Ok (a mod b)
  | EQ => Ok (b2u (a =? b))
  | LT => Ok (b2u (a <? b))
  | GT => Ok (b2u (b <? a))
  | AND => Ok (Z.land a b)
  | OR => Ok (Z.lor a b)
  | _ => Err ErrBadCode
  end.

(** The [ADDC, SUBC, MULC] case. *)
Definition checked (op : opcode) (a b : Z) : res Z :=
  match op with
  | ADDC => let r := u64 (a + b) in if r <? a then Err ErrOverflow else Ok r
  | SUBC => if a <? b then Err ErrOverflow else Ok (u64 (a - b))
  | MULC => let r := u64 (a * b) in
            if negb (a =? 0) && negb (r / a =? b) then Err ErrOverflow else Ok r
  | _ => Ok 0
  end.

(** ** Instructions *)

Section exec.
Context {H : Type}.
Abbreviation MM := (M (vmst H)).

Definition push (v : Z) : MM unit :=
  s ← get; if maxStack <=? zlen (m_st s) then throw ErrStackOver else modify (set_st (v :: m_st s)).

(** [push(v)] with its result ignored. *)
Definition push_ignore (v : Z) : MM unit :=
  s ← get; if maxStack <=? zlen (m_st s) then mret tt else modify (set_st (v :: m_st s)).

(** [st = append(st, v)] *)
Definition append_st (v : Z) : MM unit := modify (λ s, set_st (v :: m_st s) s).

Definition pop : MM Z :=
  s ← get;
  match m_st s with
  | [] => throw ErrStackUnder
  | v :: r => modify (set_st r) ≫= λ _, mret v
  end.

(** [topics] in push order: the first value popped is the last topic. *)
Fixpoint pop_topics (n : nat) (acc : list Z) : MM (list Z) :=
  match n with O => mret acc | S n' => v ← pop; pop_topics n' (v :: acc) end.

Section ops.
Context (code input : bytes) (gas : Z) (ctx : Context H).

Definition exec_push : MM unit :=
  s ← get;
  if zlen code <? m_pc s + 8 then throw ErrBadCode else
  let v := foldl shift_in 0 (take 8 (drop (Z.to_nat (m_pc s)) code)) in
  modify (set_pc (m_pc s + 8)) ≫= λ _, push v.

Definition exec_binop (op : opcode) : MM unit :=
  b ← pop; a ← pop; r ← lift (binop op a b); push r.

Definition exec_checked (op : opcode) : MM unit :=
  b ← pop; a ← pop; r ← lift (checked op a b); push r.

Definition exec_mix : MM unit :=
  k ← pop; base ← pop;
  push (beU64 (take 8 (sha256 (be_bytes 8 base ++ be_bytes 8 k)))).

Definition exec_unop (op : opcode) : MM unit :=
  a ← pop; append_st (if decide (op = ISZERO) then b2u (a =? 0) else not64 a).

Definition exec_dup : MM unit := a ← pop; push_ignore a ≫= λ _, push a.
Definition exec_swap : MM unit := b ← pop; a ← pop; push_ignore b ≫= λ _, push_ignore a.

Definition jump_to (dest : Z) : MM unit :=
  if zlen code <=? int_of_u64 dest then throw ErrBadJump else modify (set_pc (int_of_u64 dest)).

Definition exec_jump : MM unit := dest ← pop; jump_to dest.
Definition exec_jumpi : MM unit :=
  dest ← pop; cond ← pop; if negb (cond =? 0) then jump_to dest else mret tt.

Definition exec_sload : MM unit :=
  k ← pop; s ← get; push (default 0 (m_work s !! k)).
Definition exec_sstore : MM unit :=
  v ← pop; k ← pop; modify (λ s, set_work (<[k:=v]> (m_work s)) s).

Definition exec_cdload : MM unit := idx ← pop; v ← lift (word input idx); push v.

(** Running the host on its own part of the state. *)
Definition call_host (h : host H) (self target arg gl depth : Z) : MM (Z * Z * bool) := λ s,
  match h self target arg gl depth (m_hst s) with
  | OK h' r => OK (set_hst h' s) r
  | ERR h' e => ERR (set_hst h' s) e
  | PANIC h' => PANIC (set_hst h' s)
  end.

Definition exec_call : MM unit :=
  gl ← pop; arg ← pop; target ← pop;
  match c_Host ctx with
  | None => push 0
  | Some h =>
      if maxDepth <=? c_Depth ctx then push 0 else
      s ← get;
      let rem := u64 (gas - m_used s) in
      let forward := if rem <? gl then rem else gl in
      r ← call_host h (c_Self ctx) target arg forward (c_Depth ctx + 1);
      let '(ret2, gu, ok) := r in
      modify (λ s, set_used (u64 (m_used s + gu)) s) ≫= λ _,
      s ← get;
      if gas <? m_used s then throw ErrOutOfGas else
      push (if ok : bool then ret2 else 0)
  end.

Definition exec_log : MM unit :=
  n ← pop;
  if maxLogTopics <? n then throw ErrBadCode else
  s ← get;
  if gas <? u64 (m_used s + u64 (8 * n)) then throw ErrOutOfGas else
  modify (set_used (u64 (m_used s + u64 (8 * n)))) ≫= λ _,
  topics ← pop_topics (Z.to_nat n) [];
  modify (λ s, set_logs (m_logs s ++ [topics]) s).

Definition exec_bstore : MM unit :=
  bkey ← pop; off ← pop; ln ← pop;
  if (zlen input <? u64 (off + ln)) || (u64 (off + ln) <? off) then throw ErrBadCode else
  modify (λ s, set_bwork
    (<[bkey:=take (Z.to_nat (u64 (off + ln)) - Z.to_nat off) (drop (Z.to_nat off) input)]> (m_bwork s)) s).

Definition blob (k : Z) (s : vmst H) : bytes := default [] (m_bwork s !! k).

Definition exec_beq : MM unit :=
  a ← pop; b ← pop; s ← get; push (b2u (bytesEqual (blob a s) (blob b s))).
Definition exec_blen : MM unit := k ← pop; s ← get; push (zlen (blob k s)).
Definition exec_bhash : MM unit := k ← pop; s ← get; push (beU64 (take 8 (sha256 (blob k s)))).
Definition exec_storeaddr (addr : bytes) : MM unit :=
  k ← pop; modify (λ s, set_bwork (<[k:=addr]> (m_bwork s)) s).
Definition exec_returnb : MM unit := k ← pop; modify (λ s, set_retBytes (blob k s) s).
Definition exec_return : MM unit := r ← pop; modify (set_ret r).

(** The [switch]: [true] means the program halted successfully. *)
Definition exec_op (op : option opcode) : MM bool :=
  let go m := m ≫= λ _ : unit, mret false in
  let halt m := m ≫= λ _ : unit, mret true in
  match op with
  | Some STOP => mret true
  | Some PUSH => go exec_push
  | Some POP => go (pop ≫= λ _, mret tt)
  | Some ((ADD | SUB | MUL | DIV | MOD | EQ | LT | GT | AND | OR) as o) => go (exec_binop o)
  | Some ((ADDC | SUBC | MULC) as o) => go (exec_checked o)
  | Some MIX => go exec_mix
  | Some REVERT => throw ErrRevert
  | Some ((ISZERO | NOT) as o) => go (exec_unop o)
  | Some DUP => go exec_dup
  | Some SWAP => go exec_swap
  | Some JUMP => go exec_jump
  | Some JUMPI => go exec_jumpi
  | Some SLOAD => go exec_sload
  | Some SSTORE => go exec_sstore
  | Some CALLER => go (push (c_Caller ctx))
  | Some VALUE => go (push (c_Value ctx))
  | Some BAL => go (push (c_Balance ctx))
  | Some CDLOAD => go exec_cdload
  | Some SELF => go (push (c_Self ctx))
  | Some CALL => go exec_call
  | Some LOG => go exec_log
  | Some CDLEN => go (push (zlen input))
  | Some BSTORE => go exec_bstore
  | Some BEQ => go exec_beq
  | Some BLEN => go exec_blen
  | Some BHASH => go exec_bhash
  | Some CALLERB => go (exec_storeaddr (c_CallerAddr ctx))
  | Some SELFB => go (exec_storeaddr (c_SelfAddr ctx))
  | Some RETURNB => halt exec_returnb
  | Some RETURN => halt exec_return
  | None => throw ErrBadCode
  end.

(** One turn of the loop: fetch (bounds-checked), charge, advance, execute. *)
Definition step : MM bool :=
  s ← get;
  b ← lift (index code (m_pc s) (zb 0));
  let op := decode_op b in
  if gas <? u64 (m_used s + gasCost op) then throw ErrOutOfGas else
  modify (λ s, set_pc (m_pc s + 1) (set_used (u64 (m_used s + gasCost op)) s)) ≫= λ _,
  exec_op op.

(** [for pc < len(code)]: [left] is [maxSteps - steps], the loop's own bound. *)
Fixpoint loop (left : nat) : MM unit :=
  s ← get;
  if m_pc s <? zlen code then
    match left with
    | O => throw ErrStepLimit
    | S left' => halted ← step; if halted : bool then mret tt else loop left'
    end
  else mret tt.
End ops.

(** What a successful run hands back: the storage maps are replaced by the
    working copies ([bstore] may be [nil], then the byte copies are dropped). *)
Definition commitB (bstore : option (gmap Z bytes)) (s : vmst H)
    : Result * gmap Z Z * option (gmap Z bytes) :=
  (MkResult (m_used s) (m_ret s) (m_retBytes s) (reverse (m_st s)) (m_logs s),
   m_work s, (λ _, m_bwork s) <$> bstore).

Definition init (storage : gmap Z Z) (bstore : option (gmap Z bytes)) (h : H) : vmst H :=
  VmSt 0 [] storage (default ∅ bstore) 0 0 [] [] h.

Definition ExecuteB (code input : bytes) (storage : gmap Z Z) (bstore : option (gmap Z bytes))
    (gas : Z) (ctx : Context H) : M H (Result * gmap Z Z * option (gmap Z bytes)) := λ h,
  match loop code input gas ctx (Z.to_nat maxSteps) (init storage bstore h) with
  | OK s _ => OK (m_hst s) (commitB bstore s)
  | ERR s e => ERR (m_hst s) e
  | PANIC s => PANIC (m_hst s)
  end.

Definition Execute (code input : bytes) (storage : gmap Z Z) (gas : Z) (ctx : Context H)
    : M H (Result * gmap Z Z * option (gmap Z bytes)) :=
  ExecuteB code input storage None gas ctx.
End exec.

Arguments vmst : clear implicits.

(** A stand-alone environment, as the unit tests use it. *)
Definition ctx0 : Context unit := MkContext 0 0 [] [] 0 0 None 0.

Definition push_code (v : Z) : bytes := op_byte PUSH :: be_bytes 8 v.

(** The programs of [vm_test.go]. *)
Definition arith_prog : bytes :=
  push_code 2 ++ push_code 3 ++ [op_byte ADD] ++ push_code 4 ++ [op_byte MUL] ++ [op_byte RETURN].
Definition counter_prog : bytes :=
  push_code 0 ++ push_code 0 ++ [op_byte SLOAD] ++ push_code 1 ++ [op_byte ADD; op_byte SSTORE; op_byte STOP].

Example TestArithmeticReturn :
  Execute arith_prog [] ∅ 1000 ctx0 tt = OK tt (MkResult 12 20 [] [] [], ∅, None).
Proof. vm_compute. reflexivity. Qed.

Example TestStorageCounter :
  match Execute counter_prog [] {[ 0 := 2 ]} 1000 ctx0 tt with
  | OK _ (_, st, _) => st !! 0 = Some 3 | _ => False end.
Proof. vm_compute. reflexivity. Qed.

Example TestOutOfGasReverts :
  Execute (push_code 0 ++ push_code 7 ++ [op_byte SSTORE]) [] ∅ 5 ctx0 tt = ERR tt ErrOutOfGas.
Proof. vm_compute. reflexivity. Qed.

Example TestDivByZeroReverts :
  Execute (push_code 0 ++ push_code 5 ++ push_code 0 ++ [op_byte DIV; op_byte SSTORE]) [] ∅ 1000 ctx0 tt
  = ERR tt ErrDivZero.
Proof. vm_compute. reflexivity. Qed.
