(* ===== verification/VmProps.v ===== *)
(** * The virtual machine: lemmas and properties

    The machine invariant (words are words, the stack and the gas meter are
    bounded), what a host may assume, panics, and checked arithmetic. *)

From S2P Require Import Prelude Sha256 Vm.

(** ** Well-formed machine states

    [lo] is a lower bound of the gas meter: the instructions never decrease it. *)

Definition word_map (m : gmap Z Z) : Prop := map_Forall (λ k v, is_u64 k ∧ is_u64 v) m.
Definition short (b : bytes) : Prop := zlen b < W64.
Definition blob_map (m : gmap Z bytes) : Prop := map_Forall (λ k b, is_u64 k ∧ short b) m.
Definition topics_ok (l : list Z) : Prop := zlen l <= maxLogTopics ∧ Forall is_u64 l.

Record vm_wf {H} (J : H → Prop) (gas lo : Z) (s : vmst H) : Prop := {
  wf_stack : zlen (m_st s) <= maxStack;
  wf_words : Forall is_u64 (m_st s);
  wf_work : word_map (m_work s);
  wf_bwork : blob_map (m_bwork s);
  wf_logs : Forall topics_ok (m_logs s);
  wf_used : 0 <= lo <= m_used s ∧ m_used s <= gas;
  wf_ret : is_u64 (m_ret s);
  wf_hst : J (m_hst s);
}.

Lemma vm_wf_lo {H} (J : H → Prop) gas lo lo' (s : vmst H) : 0 <= lo' <= lo → vm_wf J gas lo s → vm_wf J gas lo' s.
Proof. intros Hl []. split; auto. lia. Qed.

(** Largest gas limit for which the meter [used+c > gas] cannot wrap. *)
Definition gas_ok (gas : Z) : Prop := 0 <= gas < W64 - 100.

(** What the interpreter relies on in a host: while its own state is in order ([J]), it
    answers with words, never charges more than was forwarded, reports failure in its
    answer and leaves its state in order. *)
Definition host_ok {H} (J : H → Prop) (h : host H) : Prop := ∀ self target arg gl depth s,
  is_u64 self → is_u64 target → is_u64 arg → gas_ok gl → J s →
  match h self target arg gl depth s with
  | OK s' (ret, gu, _) => (is_u64 ret ∧ 0 <= gu <= gl) ∧ J s'
  | ERR _ _ => False
  | PANIC _ => True
  end.

Record ctx_wf {H} (J : H → Prop) (ctx : Context H) : Prop := {
  wf_caller : is_u64 (c_Caller ctx); wf_self : is_u64 (c_Self ctx);
  wf_value : is_u64 (c_Value ctx); wf_balance : is_u64 (c_Balance ctx);
  wf_callerAddr : short (c_CallerAddr ctx); wf_selfAddr : short (c_SelfAddr ctx);
  wf_host : ∀ h, c_Host ctx = Some h → host_ok J h;
}.

(** [spec J P m Q]: from [P], [m] succeeds in [Q], panics, or fails with an error other
    than the step limit and the host's state in order. *)
Definition spec {H A} (J : H → Prop) (P : vmst H → Prop) (m : M (vmst H) A) (Q : A → vmst H → Prop) : Prop :=
  ∀ s, P s → match m s with OK s' a => Q a s' | ERR s' e => e ≠ ErrStepLimit ∧ J (m_hst s') | PANIC _ => True end.

(** ** Rules *)

Section rules.
Context {H : Type} (J : H → Prop).
Local Abbreviation S := (vmst H).
Implicit Types P : S → Prop.

Lemma spec_ret {A} P (Q : A → S → Prop) a : (∀ s, P s → Q a s) → spec J P (mret a) Q.
Proof. intros Hq s Hs. by apply Hq. Qed.
Lemma spec_bind {A B} P (m : M S A) (f : A → M S B) Q R :
  spec J P m Q → (∀ a, spec J (Q a) (f a) R) → spec J P (m ≫= f) R.
Proof.
  intros Hm Hf s Hs. specialize (Hm s Hs). unfold mbind, M_bind.
  destruct (m s) as [s' a| |]; auto. by apply Hf.
Qed.
Lemma spec_get {B} P (f : S → M S B) R :
  (∀ s0, P s0 → match f s0 s0 with OK s' a => R a s' | ERR s' e => e ≠ ErrStepLimit ∧ J (m_hst s') | PANIC _ => True end) →
  spec J P (get ≫= f) R.
Proof. intros Hf s Hs. by apply Hf. Qed.
Lemma spec_modify P f Q : (∀ s, P s → Q tt (f s)) → spec J P (modify f) Q.
Proof. intros Hf s Hs. by apply Hf. Qed.
Lemma spec_throw {A} P e (Q : A → S → Prop) : e ≠ ErrStepLimit → (∀ s, P s → J (m_hst s)) → spec J P (throw e) Q.
Proof. intros He Hj s Hs. simpl. auto. Qed.
Lemma spec_post {A} P (m : M S A) Q Q' : (∀ a s, Q a s → Q' a s) → spec J P m Q → spec J P m Q'.
Proof. intros Hq Hm s Hs. specialize (Hm s Hs). destruct (m s); auto. Qed.
(** A pure fact about the result is available to the continuation. *)
Lemma spec_bind_pure {A B} P (m : M S A) (φ : A → Prop) (f : A → M S B) Q R :
  spec J P m (λ a s, φ a ∧ Q s) → (∀ a, φ a → spec J Q (f a) R) → spec J P (m ≫= f) R.
Proof. intros Hm Hf. eapply spec_bind; [exact Hm|]. intros a s [Ha Hs]. by apply Hf. Qed.
Lemma spec_lift {A} P (r : res A) (φ : A → Prop) : (∀ s, P s → J (m_hst s)) →
  (∀ a, r = Ok a → φ a) → (∀ e, r = Err e → e ≠ ErrStepLimit) → spec J P (lift r) (λ a s, φ a ∧ P s).
Proof. intros Hj Ho He s Hs. unfold lift. destruct r; auto. Qed.
End rules.

(** ** Words *)

Lemma shift_in_val v b : is_u64 v → is_u64 (shift_in v b) ∧ (v < 256 ^ 7 → shift_in v b = v * 256 + bz b).
Proof.
  intros Hv. unfold shift_in. pose proof (bz_range b).
  assert (∀ x, is_u64 x → x mod 256 = 0 → Z.lor x (bz b) = x + bz b) as Hlor.
  { intros x Hx Hm.
    assert (Z.land x (bz b) = 0) as Hl.
    { apply Z.bits_inj'. intros n Hn. rewrite Z.land_spec, Z.bits_0.
      destruct (Z_lt_ge_dec n 8).
      - assert (Z.testbit x n = false) as ->; [|done].
        rewrite <- (Z.mod_pow2_bits_low x 8 n) by lia. change (2 ^ 8) with 256. rewrite Hm. apply Z.bits_0.
      - rewrite andb_comm. assert (Z.testbit (bz b) n = false) as ->; [|done].
        destruct (decide (bz b = 0)) as [->|]; [apply Z.bits_0|].
        apply Z.bits_above_log2; [lia|]. apply Z.log2_lt_pow2; [lia|].
        apply Z.lt_le_trans with (2 ^ 8); [lia|]. apply Z.pow_le_mono_r; lia. }
    pose proof (Z.add_lor_land x (bz b)). lia. }
  rewrite Z.shiftl_mul_pow2 by lia. change (2 ^ 8) with 256.
  assert (u64 (v * 256) mod 256 = 0) as Hm.
  { unfold u64, W64. change 18446744073709551616 with (256 * 72057594037927936).
    rewrite Z.mul_comm, Z.mul_mod_distr_l by lia. rewrite Z.mul_comm. apply Z_mod_mult. }
  rewrite Hlor by (auto using u64_range).
  assert (u64 (v * 256) + 255 < W64) as Hub.
  { pose proof (u64_range (v * 256)) as [? ?]. unfold W64 in *.
    pose proof (Z.div_mod (u64 (v * 256)) 256). lia. }
  split.
  - pose proof (u64_range (v * 256)) as [? ?]. unfold is_u64. lia.
  - intros Hlt. rewrite u64_small; [done|]. unfold is_u64, W64 in *. lia.
Qed.

Lemma foldl_shift_in l : ∀ v, is_u64 v → v < 256 ^ (8 - zlen l) → zlen l <= 8 →
  foldl shift_in v l = v * 256 ^ zlen l + be_val l ∧ is_u64 (foldl shift_in v l).
Proof.
  unfold zlen. induction l as [|b l IH]; intros v Hv Hlt Hl.
  - simpl. split; [cbn; lia|done].
  - cbn [foldl length] in *. rewrite Nat2Z.inj_succ in *.
    destruct (shift_in_val v b Hv) as [Hu Hs].
    rewrite Hs in * by (eapply Z.lt_le_trans; [exact Hlt|apply Z.pow_le_mono_r; lia]).
    destruct (IH (v * 256 + bz b)) as [-> ?]; auto; try lia.
    + pose proof (bz_range b).
      replace (8 - Z.of_nat (length l)) with (Z.succ (8 - Z.succ (Z.of_nat (length l)))) by lia.
      rewrite Z.pow_succ_r by lia. lia.
    + split; [|done]. rewrite be_val_cons, Z.pow_succ_r by lia. unfold zlen. lia.
Qed.

Lemma foldl_shift_in_take l : is_u64 (foldl shift_in 0 (take 8 l)) ∧ foldl shift_in 0 (take 8 l) = be_val (take 8 l).
Proof.
  assert (zlen (take 8 l) <= 8) as Hl by (unfold zlen; rewrite length_take; lia).
  destruct (foldl_shift_in (take 8 l) 0) as [-> Hu]; auto.
  - unfold is_u64, W64. lia.
  - apply Z.pow_pos_nonneg; unfold zlen in *; lia.
Qed.

Lemma beU64_val b : beU64 b = be_val (take 8 b).
Proof. apply foldl_shift_in_take. Qed.

Lemma beU64_range b : is_u64 (beU64 b).
Proof. apply foldl_shift_in_take. Qed.

Lemma word_loop_in input n off v :
  0 <= off → off + Z.of_nat n <= zlen input → zlen input < W64 →
  word_loop input n off v = Ok (foldl shift_in v (take n (drop (Z.to_nat off) input))).
Proof.
  revert off v. induction n as [|n IH]; intros off v H0 Hb Hl; [done|].
  cbn [word_loop]. unfold index.
  rewrite (proj2 (Z.leb_le _ _)), (proj2 (Z.ltb_lt _ _)) by lia. simpl.
  rewrite u64_small by (unfold is_u64; lia). rewrite IH by lia.
  assert (drop (Z.to_nat off) input = nth (Z.to_nat off) input (zb 0) :: drop (Z.to_nat (off + 1)) input) as ->.
  { replace (Z.to_nat (off + 1)) with (S (Z.to_nat off)) by lia. apply drop_S. rewrite nth_lookup.
    unfold zlen in *. destruct (lookup_lt_is_Some_2 input (Z.to_nat off)) as [x Hx]; [lia|].
    by rewrite Hx. }
  done.
Qed.

(** The exact behaviour of [word]: the big-endian word at the index, 0 out of
    bounds, and a panic for the one residue on which [off+8] wraps to 0. *)
Theorem word_spec input idx :
  is_u64 idx → zlen input < W64 - 8 →
  word input idx =
    let i := idx mod 2305843009213693952 in
    if i =? 2305843009213693951 then Panic
    else if 8 * i + 8 <=? zlen input then Ok (be_val (take 8 (drop (Z.to_nat (8 * i)) input)))
    else Ok 0.
Proof.
  intros Hi Hl. unfold word. cbv zeta.
  assert (u64 (idx * 8) = 8 * (idx mod 2305843009213693952)) as ->.
  { unfold u64, W64. change 18446744073709551616 with (8 * 2305843009213693952).
    by rewrite Z.mul_comm, Z.mul_mod_distr_l by lia. }
  set (i := idx mod 2305843009213693952).
  assert (0 <= i < 2305843009213693952) as Hir by (apply Z.mod_pos_bound; lia).
  destruct (Z.eqb_spec i 2305843009213693951) as [E|E].
  - rewrite E. change (u64 (8 * 2305843009213693951 + 8)) with 0.
    rewrite (proj2 (Z.ltb_ge (zlen input) 0)) by (unfold zlen; lia).
    cbn [word_loop]. unfold index.
    rewrite (proj2 (Z.ltb_ge (8 * 2305843009213693951) (zlen input))) by (unfold W64 in *; lia).
    by rewrite andb_false_r.
  - rewrite u64_small by (unfold is_u64, W64; lia).
    destruct (Z.leb_spec (8 * i + 8) (zlen input)).
    + rewrite (proj2 (Z.ltb_ge _ _)) by lia. rewrite word_loop_in by lia.
      f_equal. apply foldl_shift_in_take.
    + by rewrite (proj2 (Z.ltb_lt _ _)) by lia.
Qed.

Lemma word_range input idx v : word input idx = Ok v → is_u64 v.
Proof.
  unfold word. destruct (_ <? _); [intros [= <-]; unfold is_u64, W64; lia|].
  generalize (u64 (idx * 8)). intros off.
  assert (∀ n off w, is_u64 w → word_loop input n off w = Ok v → is_u64 v) as Hg.
  { induction n as [|n IH]; intros o w Hw; cbn [word_loop]; [by intros [= <-]|].
    unfold index. destruct (_ && _); [|done]. cbn. apply IH. by apply shift_in_val. }
  apply Hg. unfold is_u64, W64. lia.
Qed.

Lemma word_no_error input idx e : word input idx ≠ Err e.
Proof.
  unfold word. destruct (_ <? _); [done|]. generalize (u64 (idx * 8)) as off. intros off. generalize 0 as v.
  revert off. generalize 8%nat as n. intros n. induction n as [|n IH]; intros o w; cbn [word_loop]; [done|].
  unfold index. destruct (_ && _); [apply IH|done].
Qed.

Lemma lor_range a b : is_u64 a → is_u64 b → is_u64 (Z.lor a b).
Proof.
  unfold is_u64, W64. intros. split; [apply Z.lor_nonneg; lia|].
  destruct (decide (Z.lor a b = 0)) as [->|]; [lia|].
  assert (0 <= Z.lor a b) by (apply Z.lor_nonneg; lia).
  apply (Z.log2_lt_pow2 _ 64); [lia|]. rewrite Z.log2_lor by lia.
  assert (∀ x, 0 <= x < 18446744073709551616 → Z.log2 x < 64) as Hx.
  { intros x Hx. destruct (decide (x = 0)) as [->|]; [cbv; done|]. apply Z.log2_lt_pow2; lia. }
  apply Z.max_lub_lt; auto.
Qed.

Lemma land_range a b : is_u64 a → is_u64 b → is_u64 (Z.land a b).
Proof.
  intros Ha Hb. assert (a = Z.land a (Z.ones 64)) as ->.
  { rewrite Z.land_ones by lia. symmetry. by apply u64_small. }
  rewrite <- Z.land_assoc, (Z.land_comm (Z.ones 64)), Z.land_assoc, Z.land_ones by lia.
  apply u64_range.
Qed.

Lemma b2u_range b : is_u64 (b2u b).
Proof. destruct b; unfold is_u64, W64; simpl; lia. Qed.

Lemma not64_range a : is_u64 a → is_u64 (not64 a).
Proof.
  intros Ha. unfold not64. assert (Z.lxor a (W64 - 1) = Z.ldiff (Z.ones 64) a) as ->.
  { assert (a = Z.land a (Z.ones 64)) as Ea.
    { rewrite Z.land_ones by lia. symmetry. by apply u64_small. }
    change (W64 - 1) with (Z.ones 64). apply Z.bits_inj'. intros n Hn.
    rewrite Z.lxor_spec, Z.ldiff_spec. rewrite Ea, Z.land_spec.
    destruct (Z.testbit a n), (Z.testbit (Z.ones 64) n); done. }
  rewrite Z.ldiff_land, Z.land_comm, Z.land_ones by lia. apply u64_range.
Qed.

Lemma binop_range op a b r : is_u64 a → is_u64 b → binop op a b = Ok r → is_u64 r.
Proof.
  intros Ha Hb. destruct op; simpl; try done; try (destruct (b =? 0) eqn:E; [done|]);
    intros [= <-]; auto using u64_range, b2u_range, land_range, lor_range;
    apply Z.eqb_neq in E; unfold is_u64 in *.
  - split; [apply Z.div_pos; lia|]. apply Z.div_lt_upper_bound; [lia|]. nia.
  - pose proof (Z.mod_pos_bound a b). lia.
Qed.

Lemma binop_err op a b e : binop op a b = Err e → e ≠ ErrStepLimit.
Proof. destruct op; simpl; try (destruct (b =? 0)); by intros [= <-]. Qed.

Lemma mul_overflow_test a b : is_u64 a → is_u64 b →
  (negb (a =? 0) && negb (u64 (a * b) / a =? b)) = negb (a * b <? W64).
Proof.
  unfold is_u64. intros Ha Hb. destruct (Z.ltb_spec (a * b) W64).
  - rewrite u64_small by (unfold is_u64; nia). destruct (Z.eqb_spec a 0); [done|].
    rewrite Z.mul_comm, Z.div_mul by done. by rewrite Z.eqb_refl.
  - destruct (Z.eqb_spec a 0); [nia|]. simpl. apply negb_true_iff, Z.eqb_neq. intros E.
    pose proof (u64_range (a * b)) as [H0 H1].
    pose proof (Z.mul_div_le (u64 (a * b)) a ltac:(lia)). rewrite E in *. lia.
Qed.

(** Checked arithmetic is exact integer arithmetic, or an overflow error. *)
Theorem checked_exact op a b : is_u64 a → is_u64 b →
  match op with ADDC | SUBC | MULC =>
    let z := match op with ADDC => a + b | SUBC => a - b | _ => a * b end in
    checked op a b = if is_u64b z then Ok z else Err ErrOverflow
  | _ => True end.
Proof.
  intros Ha Hb. destruct op; try done; cbn [checked]; unfold is_u64b.
  - pose proof (u64_add_no_wrap a b Ha Hb) as E. unfold is_u64 in *.
    rewrite (proj2 (Z.leb_le 0 (a + b))) by lia. simpl.
    destruct (Z.ltb_spec (u64 (a + b)) a), (Z.ltb_spec (a + b) W64); try lia; try done.
    by rewrite u64_small by (unfold is_u64; lia).
  - unfold is_u64 in *. destruct (Z.ltb_spec a b).
    + by rewrite (proj2 (Z.leb_gt _ _)) by lia.
    + rewrite (proj2 (Z.leb_le _ _)), (proj2 (Z.ltb_lt _ _)) by lia. simpl.
      by rewrite u64_small by (unfold is_u64; lia).
  - rewrite mul_overflow_test by done. unfold is_u64 in *.
    rewrite (proj2 (Z.leb_le 0 (a * b))) by nia. simpl.
    destruct (Z.ltb_spec (a * b) W64); [|done]. simpl. by rewrite u64_small by (unfold is_u64; nia).
Qed.

Lemma checked_range op a b r : is_u64 a → is_u64 b → checked op a b = Ok r → is_u64 r.
Proof.
  intros Ha Hb. destruct op; simpl; try (intros [= <-]; unfold is_u64, W64; lia);
    match goal with |- (if ?c then _ else _) = _ → _ => destruct c; [done|] end;
    intros [= <-]; apply u64_range.
Qed.

Lemma checked_err op a b e : checked op a b = Err e → e ≠ ErrStepLimit.
Proof. destruct op; simpl; try done; destruct (_ : bool); by intros [= <-]. Qed.

(** ** The machine invariant, instruction by instruction *)

Create HintDb vmspec.

Section wf.
Context {H : Type} (J : H → Prop) (gas lo : Z) (Hgas : gas_ok gas).
Abbreviation I := (vm_wf J gas lo).

Ltac wf_split := intros ? []; split; simpl; auto.
(** An error in a well-formed state. *)
Ltac erred := first [done | cbn; split; [done|simpl; eapply wf_hst; eassumption]].

Lemma pop_spec : spec J I pop (λ v s, is_u64 v ∧ I s).
Proof.
  apply spec_get. intros s Hs. pose proof (wf_words _ _ _ _ Hs) as Hw. pose proof (wf_stack _ _ _ _ Hs) as Hl.
  destruct (m_st s) as [|v r] eqn:E; [erred|]. inversion_clear Hw. split; [done|].
  destruct Hs. split; simpl; auto. unfold zlen in *. simpl in Hl. lia.
Qed.

Lemma push_spec v : is_u64 v → spec J I (push v) (λ _, I).
Proof.
  intros Hv. apply spec_get. intros s Hs. destruct (Z.leb_spec maxStack (zlen (m_st s))); [erred|].
  simpl. destruct Hs. split; simpl; auto. unfold zlen in *. simpl. lia.
Qed.

Lemma push_ignore_spec v : is_u64 v → spec J I (push_ignore v) (λ _, I).
Proof.
  intros Hv. apply spec_get. intros s Hs. destruct (Z.leb_spec maxStack (zlen (m_st s))); [erred|].
  simpl. destruct Hs. split; simpl; auto. unfold zlen in *. simpl. lia.
Qed.

Hint Resolve push_spec push_ignore_spec : vmspec.

(** Use [pop_spec] for a leading [pop]. *)
Ltac pop1 := eapply spec_bind_pure; [apply pop_spec|intros ? ?].

Lemma read_then_push (f : vmst H → Z) : (∀ s, I s → is_u64 (f s)) → spec J I (s ← get; push (f s)) (λ _, I).
Proof. intros Hf. apply spec_get. intros s Hs. apply (push_spec _ (Hf _ Hs) s Hs). Qed.

Lemma exec_push_spec code : spec J I (exec_push code) (λ _, I).
Proof.
  apply spec_get. intros s Hs. destruct (_ <? _); [erred|].
  eapply (spec_bind J I _ _ (λ _, I)); [|intros _; apply push_spec, foldl_shift_in_take|exact Hs].
  apply spec_modify. wf_split.
Qed.

Lemma exec_binop_spec op : spec J I (exec_binop op) (λ _, I).
Proof.
  pop1. pop1. eapply spec_bind_pure; [apply (spec_lift J _ _ is_u64); [by intros ? []|..]|auto with vmspec].
  - intros r. by apply binop_range.
  - apply binop_err.
Qed.

Lemma exec_checked_spec op : spec J I (exec_checked op) (λ _, I).
Proof.
  pop1. pop1. eapply spec_bind_pure; [apply (spec_lift J _ _ is_u64); [by intros ? []|..]|auto with vmspec].
  - intros r. by apply checked_range.
  - apply checked_err.
Qed.

Lemma exec_mix_spec : spec J I exec_mix (λ _, I).
Proof. pop1. pop1. apply push_spec, beU64_range. Qed.

Lemma exec_unop_spec op : spec J I (exec_unop op) (λ _, I).
Proof.
  intros s Hs. unfold exec_unop, pop, append_st, mbind, M_bind, get, modify, throw, mret, M_ret.
  pose proof (wf_words _ _ _ _ Hs) as Hw. pose proof (wf_stack _ _ _ _ Hs) as Hl.
  destruct (m_st s) as [|v r] eqn:E; [erred|]. inversion_clear Hw.
  destruct Hs. split; simpl; auto.
  constructor; [|done]. case_decide; [apply b2u_range|by apply not64_range].
Qed.

Lemma exec_dup_spec : spec J I exec_dup (λ _, I).
Proof. pop1. eapply spec_bind; [by apply push_ignore_spec|intros ?; by apply push_spec]. Qed.

Lemma exec_swap_spec : spec J I exec_swap (λ _, I).
Proof. pop1. pop1. eapply spec_bind; [by apply push_ignore_spec|intros ?; by apply push_ignore_spec]. Qed.

Lemma jump_to_spec code d : spec J I (jump_to code d) (λ _, I).
Proof. unfold jump_to. destruct (_ <=? _); [by apply spec_throw; [|intros ? []]|]. apply spec_modify. wf_split. Qed.

Lemma exec_jump_spec code : spec J I (exec_jump code) (λ _, I).
Proof. pop1. apply jump_to_spec. Qed.

Lemma exec_jumpi_spec code : spec J I (exec_jumpi code) (λ _, I).
Proof. pop1. pop1. destruct (negb _); [apply jump_to_spec|by apply spec_ret]. Qed.

Lemma exec_sload_spec : spec J I exec_sload (λ _, I).
Proof.
  pop1. apply (read_then_push (λ s, default 0 (m_work s !! _))). intros s Hs.
  destruct (m_work s !! _) eqn:E; simpl; [|unfold is_u64, W64; lia].
  by apply (wf_work _ _ _ _ Hs) in E as [_ ?].
Qed.

Lemma exec_sstore_spec : spec J I exec_sstore (λ _, I).
Proof. pop1. pop1. apply spec_modify. wf_split. by apply map_Forall_insert_2. Qed.

Lemma exec_cdload_spec input : spec J I (exec_cdload input) (λ _, I).
Proof.
  pop1. eapply spec_bind_pure; [apply (spec_lift J _ _ is_u64); [by intros ? []|..]|auto with vmspec].
  - apply word_range.
  - intros e He. by apply word_no_error in He.
Qed.

Lemma call_host_spec (h : host H) self target arg gl d :
  host_ok J h → is_u64 self → is_u64 target → is_u64 arg → gas_ok gl →
  spec J I (call_host h self target arg gl d) (λ r s, (is_u64 r.1.1 ∧ 0 <= r.1.2 <= gl) ∧ I s).
Proof.
  intros Hh H1 H2 H3 H4 s Hs. unfold call_host.
  specialize (Hh self target arg gl d (m_hst s) H1 H2 H3 H4 (wf_hst _ _ _ _ Hs)).
  destruct (h _ _ _ _ _ _) as [h' [[? ?] ?]| |]; simpl; [|done|done].
  destruct Hh as [Hr Hj]. split; [done|]. destruct Hs. by split.
Qed.

Lemma exec_call_spec ctx : ctx_wf J ctx → spec J I (exec_call gas ctx) (λ _, I).
Proof.
  intros [? ? ? ? ? ? Hh]. pop1. pop1. pop1.
  assert (is_u64 0) by (unfold is_u64, W64; lia).
  destruct (c_Host ctx) as [h|]; [|by apply push_spec].
  destruct (_ <=? _); [by apply push_spec|]. specialize (Hh h eq_refl).
  intros s Hs. unfold gas_ok in Hgas. pose proof (wf_used _ _ _ _ Hs) as Hu.
  set (rem := u64 (gas - m_used s)). set (fw := if rem <? a then rem else a).
  assert (rem = gas - m_used s) as Hrem by (apply u64_small; unfold is_u64; lia).
  assert (gas_ok fw ∧ fw <= gas - m_used s) as [? Hfw].
  { subst fw. destruct (Z.ltb_spec rem a); unfold is_u64, gas_ok in *; lia. }
  unfold mbind at 1, M_bind at 1, get at 1. fold rem fw.
  pose proof (call_host_spec h (c_Self ctx) a1 a0 fw (c_Depth ctx + 1) Hh) as Hc.
  unfold mbind at 1, M_bind at 1.
  specialize (Hc ltac:(done) ltac:(done) ltac:(done) ltac:(done) s Hs).
  destruct (call_host _ _ _ _ _ _ s) as [s' [[ret2 gu] ok]|? e|] eqn:Ec; [|done|done].
  simpl in Hc. destruct Hc as [[Hr Hgu] Hs'].
  assert (m_used s' = m_used s) as Eu.
  { unfold call_host in Ec. destruct (h _ _ _ _ _ _); by simplify_eq. }
  assert (u64 (m_used s' + gu) = m_used s' + gu) as Es by (apply u64_small; unfold is_u64; lia).
  unfold mbind, M_bind, modify, get. simpl. rewrite Es.
  rewrite (proj2 (Z.ltb_ge _ _)) by lia.
  refine (push_spec (if ok then ret2 else 0) _ (set_used _ s') _); [by destruct ok|].
  destruct Hs'. split; simpl; auto. lia.
Qed.

Lemma pop_topics_spec n acc :
  Forall is_u64 acc → spec J I (pop_topics n acc) (λ l s, (length l = n + length acc)%nat ∧ Forall is_u64 l ∧ I s).
Proof.
  revert acc. induction n as [|n IH]; intros acc Hacc; [by apply spec_ret|]. cbn [pop_topics].
  pop1. eapply spec_post, IH; [|by constructor]. simpl. intros l s (-> & ? & ?). split; [lia|done].
Qed.

Lemma exec_log_spec : spec J I (exec_log gas) (λ _, I).
Proof.
  pop1. destruct (Z.ltb_spec maxLogTopics a); [by apply spec_throw; [|intros ? []]|].
  assert (u64 (8 * a) = 8 * a) as E8.
  { unfold maxLogTopics, is_u64 in *. apply u64_small. unfold is_u64, W64. lia. }
  rewrite E8. apply spec_get. intros s Hs. unfold gas_ok, is_u64, maxLogTopics in *.
  pose proof (wf_used _ _ _ _ Hs).
  assert (u64 (m_used s + 8 * a) = m_used s + 8 * a) as -> by (apply u64_small; unfold is_u64; lia).
  destruct (Z.ltb_spec gas (m_used s + 8 * a)); [erred|].
  change (match (modify (set_used (m_used s + 8 * a)) ≫= λ _,
    topics ← pop_topics (Z.to_nat a) []; modify (λ s, set_logs (m_logs s ++ [topics]) s)) s
    with OK s' a => I s' | ERR s' e => e ≠ ErrStepLimit ∧ J (m_hst s') | PANIC _ => True end).
  unfold mbind at 1, M_bind at 1, modify at 1.
  refine (spec_bind J I _ _ _ (λ _, I) (pop_topics_spec (Z.to_nat a) [] ltac:(done)) _ _ _).
  - intros l s' (Hl & Hw & []). split; simpl; auto.
    apply Forall_app. split; [done|]. repeat constructor; [|done]. unfold zlen, maxLogTopics. simpl in Hl. lia.
  - destruct Hs. split; simpl; auto. lia.
Qed.

Lemma set_blob_spec k b :
  is_u64 k → short b → spec J I (modify (λ s, set_bwork (<[k:=b]> (m_bwork s)) s)) (λ _, I).
Proof. intros Hk Hb. apply spec_modify. wf_split. by apply map_Forall_insert_2. Qed.

Lemma exec_bstore_spec input : short input → spec J I (exec_bstore input) (λ _, I).
Proof.
  intros Hi. pop1. pop1. pop1. destruct (_ || _); [by apply spec_throw; [|intros ? []]|].
  apply set_blob_spec; [done|]. unfold short, zlen in *. rewrite length_take, length_drop. lia.
Qed.

Lemma exec_storeaddr_spec addr : short addr → spec J I (exec_storeaddr addr) (λ _, I).
Proof. intros Ha. pop1. by apply set_blob_spec. Qed.

Lemma exec_beq_spec : spec J I exec_beq (λ _, I).
Proof. pop1. pop1. apply (read_then_push (λ s, b2u _)). intros. apply b2u_range. Qed.

Lemma exec_blen_spec : spec J I exec_blen (λ _, I).
Proof.
  pop1. apply (read_then_push (λ s, zlen (blob _ s))). intros s Hs. unfold blob.
  destruct (m_bwork s !! _) as [b|] eqn:E; simpl; [|unfold is_u64, W64, zlen; simpl; lia].
  apply (wf_bwork _ _ _ _ Hs) in E as [_ ?]. unfold short, is_u64, zlen in *. lia.
Qed.

Lemma exec_bhash_spec : spec J I exec_bhash (λ _, I).
Proof. pop1. apply (read_then_push (λ s, beU64 _)). intros. apply beU64_range. Qed.

Lemma exec_returnb_spec : spec J I exec_returnb (λ _, I).
Proof. pop1. apply spec_modify. wf_split. Qed.

Lemma exec_return_spec : spec J I exec_return (λ _, I).
Proof. pop1. apply spec_modify. wf_split. Qed.

Hint Resolve exec_push_spec exec_binop_spec exec_checked_spec exec_mix_spec exec_unop_spec
  exec_dup_spec exec_swap_spec exec_jump_spec exec_jumpi_spec exec_sload_spec exec_sstore_spec
  exec_cdload_spec exec_call_spec exec_log_spec exec_bstore_spec exec_storeaddr_spec exec_beq_spec
  exec_blen_spec exec_bhash_spec exec_returnb_spec exec_return_spec : vmspec.

Lemma exec_op_spec code input ctx op :
  ctx_wf J ctx → short input → spec J I (exec_op code input gas ctx op) (λ _, I).
Proof.
  intros Hc Hi. pose proof Hc as [].
  assert (is_u64 (zlen input)) by (unfold short, is_u64, zlen in *; lia).
  assert (∀ m (h : bool), spec J I m (λ _ : unit, I) → spec J I (m ≫= λ _ : unit, mret h) (λ _, I)) as Hgo.
  { intros m h Hm. eapply spec_bind; [exact Hm|]. intros ?. by apply spec_ret. }
  assert (spec J I (pop ≫= λ _ : Z, mret tt) (λ _ : unit, I)) as Hpop by (pop1; by apply spec_ret).
  destruct op as [op|]; [|by apply spec_throw; [|intros ? []]].
  destruct op; cbn [exec_op]; try (apply Hgo; auto with vmspec; fail).
  - by apply spec_ret.
  - by apply spec_throw; [|intros ? []].
Qed.
End wf.

Lemma gasCost_range op : 1 <= gasCost op <= 100.
Proof. destruct op as [[]|]; simpl; lia. Qed.

Section exec.
Context {H : Type} (J : H → Prop) (code input : bytes) (gas : Z) (ctx : Context H).
Context (Hgas : gas_ok gas) (Hctx : ctx_wf J ctx) (Hin : short input).

(** A turn of the loop charges at least one unit of gas. *)
Lemma step_spec lo : spec J (vm_wf J gas lo) (step code input gas ctx) (λ _, vm_wf J gas (lo + 1)).
Proof.
  apply spec_get. intros s Hs. unfold index. destruct (_ && _); [|done].
  set (b := nth _ _ _). unfold mbind at 1, M_bind at 1, lift at 1.
  pose proof (gasCost_range (decode_op b)). unfold gas_ok in Hgas. pose proof (wf_used _ _ _ _ Hs).
  rewrite u64_small by (unfold is_u64; lia).
  destruct (Z.ltb_spec gas (m_used s + gasCost (decode_op b))); [by split; [|apply Hs]|].
  refine (spec_bind J (λ s', s' = s) _ _ (λ _, vm_wf J gas (lo + 1)) _ _ _ s eq_refl).
  - apply spec_modify. intros ? ->. rewrite u64_small by (unfold is_u64; lia).
    destruct Hs. split; simpl; auto. lia.
  - intros ?. by apply exec_op_spec.
Qed.

Lemma loop_spec left lo s :
  vm_wf J gas lo s →
  match loop code input gas ctx left s with
  | OK s' _ => vm_wf J gas lo s'
  | ERR s' e => (e = ErrStepLimit → lo + Z.of_nat left <= gas) ∧ J (m_hst s')
  | PANIC _ => True
  end.
Proof.
  revert lo s. induction left as [|left IH]; intros lo s Hs; cbn [loop];
    unfold mbind at 1, M_bind at 1, get at 1; destruct (_ <? _); try done.
  - split; [|by apply Hs]. intros _. pose proof (wf_used _ _ _ _ Hs). lia.
  - pose proof (step_spec lo s Hs) as Hst. pose proof (wf_used _ _ _ _ Hs). unfold mbind, M_bind.
    destruct (step _ _ _ _ s) as [s' [|]|s' e|]; [| |by destruct Hst as [? ?]|done].
    + eapply vm_wf_lo, Hst. lia.
    + specialize (IH _ _ Hst). destruct (loop _ _ _ _ _ _) as [s'' ?|s'' e|]; [|destruct IH as [IH ?]; split; [|done]; intros He; specialize (IH He); lia|done].
      eapply vm_wf_lo, IH. lia.
Qed.
End exec.

(** ** Host invariants *)

(** [host_preserves J h]: whatever a call does, [J] holds of the host's state
    afterwards. *)
Definition host_preserves {H} (J : H → Prop) (h : host H) : Prop :=
  ∀ self target arg gl depth, preserves J (h self target arg gl depth).

Section host_inv.
Context {H : Type} (J : H → Prop) (code input : bytes) (gas : Z) (ctx : Context H).
Context (Hh : ∀ h, c_Host ctx = Some h → host_preserves J h).
Abbreviation K := (λ s : vmst H, J (m_hst s)).

Ltac quiet := intros s; simpl; auto.

Lemma keep_modify f : (∀ s : vmst H, m_hst (f s) = m_hst s) → preserves K (modify f).
Proof. intros Hf. apply preserves_modify. intros s. by rewrite Hf. Qed.

Lemma keep_get {B} (f : vmst H → M (vmst H) B) : (∀ s, preserves K (f s)) → preserves K (get ≫= f).
Proof. intros Hf. apply preserves_bind; [apply preserves_get|done]. Qed.

Lemma keep_push v : preserves K (push v).
Proof. apply keep_get. intros s. destruct (_ <=? _); auto with hoare. by apply keep_modify. Qed.

Lemma keep_push_ignore v : preserves K (push_ignore v).
Proof. apply keep_get. intros s. destruct (_ <=? _); auto with hoare. by apply keep_modify. Qed.

Lemma keep_pop : preserves K pop.
Proof.
  apply keep_get. intros s. destruct (m_st s); auto with hoare.
  apply preserves_bind; [by apply keep_modify|auto with hoare].
Qed.

Lemma keep_pop_topics n acc : preserves K (pop_topics n acc).
Proof.
  revert acc. induction n as [|n IH]; intros acc; cbn [pop_topics]; [auto with hoare|].
  apply preserves_bind; [apply keep_pop|auto].
Qed.

Lemma keep_call_host h self target arg gl d :
  host_preserves J h → preserves K (call_host h self target arg gl d).
Proof.
  intros Hp s Hs. unfold call_host. specialize (Hp self target arg gl d (m_hst s) Hs).
  by destruct (h _ _ _ _ _ _).
Qed.
End host_inv.

#[export] Hint Resolve keep_push keep_push_ignore keep_pop keep_pop_topics : hoare.
#[export] Hint Extern 1 (preserves _ (modify _)) => (apply keep_modify; intros; reflexivity) : hoare.

Section host_keep.
Context {H : Type} (J : H → Prop) (code input : bytes) (gas : Z) (ctx : Context H).
Context (Hh : ∀ h, c_Host ctx = Some h → host_preserves J h).
Abbreviation K := (λ s : vmst H, J (m_hst s)).

Lemma keep_exec_call : preserves K (exec_call gas ctx).
Proof.
  unfold exec_call. do 3 (apply preserves_bind; [auto with hoare|intros ?]).
  destruct (c_Host ctx) as [h|] eqn:E; [|auto with hoare]. destruct (_ <=? _); [auto with hoare|].
  apply keep_get. intros s. apply preserves_bind; [apply keep_call_host; auto|].
  intros [[? ?] ?]. apply preserves_bind; [auto with hoare|intros _].
  apply keep_get. intros s'. preserves_tac.
Qed.

Lemma keep_exec_op op : preserves K (exec_op code input gas ctx op).
Proof.
  pose proof keep_exec_call. destruct op as [op|]; [|apply preserves_throw].
  destruct op; cbn [exec_op]; unfold exec_push, exec_binop, exec_unop, exec_checked, exec_mix,
    append_st, exec_dup, exec_swap, exec_jump, exec_jumpi, jump_to, exec_sload, exec_sstore,
    exec_cdload, exec_log, exec_bstore, exec_storeaddr, exec_beq, exec_blen, exec_bhash,
    exec_returnb, exec_return; preserves_tac.
Qed.

Lemma keep_step : preserves K (step code input gas ctx).
Proof. pose proof keep_exec_op. unfold step. preserves_tac. Qed.

Lemma keep_loop left : preserves K (loop code input gas ctx left).
Proof.
  pose proof keep_step. induction left as [|left IH]; cbn [loop]; preserves_tac.
Qed.

(** If the host keeps [J], so does a whole execution, however it ends. *)
Lemma ExecuteB_preserves storage bstore : preserves J (ExecuteB code input storage bstore gas ctx).
Proof.
  intros h Hj. pose proof (keep_loop (Z.to_nat maxSteps) (init storage bstore h) Hj) as Hk.
  unfold ExecuteB. by destruct (loop _ _ _ _ _ _).
Qed.
End host_keep.

(** ** Properties *)

(** What every execution guarantees: a success stays within gas and returns
    words, a bounded stack, bounded logs and well-typed storage; the step limit is out
    of reach below a million units of gas; the host's state stays in order. *)
Definition exec_safe {H} (J : H → Prop) (gas : Z) (o : outcome H (Result * gmap Z Z * option (gmap Z bytes))) : Prop :=
  match o with
  | OK h (r, st, bst) =>
      J h ∧ 0 <= GasUsed r <= gas ∧ is_u64 (Return r) ∧ zlen (Stack r) <= maxStack ∧ Forall is_u64 (Stack r) ∧
      Forall topics_ok (Logs r) ∧ word_map st ∧ (∀ b, bst = Some b → blob_map b)
  | ERR h e => (e = ErrStepLimit → maxSteps <= gas) ∧ J h
  | PANIC _ => True
  end.

Lemma init_wf {H} (J : H → Prop) gas storage bstore (h : H) :
  J h → gas_ok gas → word_map storage → (∀ b, bstore = Some b → blob_map b) →
  vm_wf J gas 0 (init storage bstore h).
Proof.
  intros Hj Hg Hs Hb. unfold gas_ok in Hg. split; simpl; auto; try lia.
  - unfold zlen, maxStack. simpl. lia.
  - destruct bstore; simpl; [auto|]. apply map_Forall_empty.
  - unfold is_u64, W64. lia.
Qed.

Lemma ExecuteB_wf {H} (J : H → Prop) code input storage bstore gas (ctx : Context H) (h : H) :
  gas_ok gas → ctx_wf J ctx → short input → word_map storage → (∀ b, bstore = Some b → blob_map b) → J h →
  exec_safe J gas (ExecuteB code input storage bstore gas ctx h).
Proof.
  intros Hgas Hctx Hin Hst Hb Hj.
  pose proof (loop_spec J code input gas ctx Hgas Hctx Hin (Z.to_nat maxSteps) 0 _
    (init_wf J gas storage bstore h Hj Hgas Hst Hb)) as Hl.
  unfold ExecuteB. destruct (loop _ _ _ _ _ _) as [s ?| |]; simpl in *; [|destruct Hl as [Hl ?]; split; [|done]; intros He; specialize (Hl He); unfold maxSteps in *; lia|done].
  destruct Hl as [Hs Hw Hm Hbm Hlg Hu Hr]. split_and!; auto; try lia.
  - unfold zlen. by rewrite length_reverse.
  - by apply Forall_reverse.
  - intros b. destruct bstore; simpl; [|done]. by intros [= <-].
Qed.


Lemma ctx0_wf : ctx_wf (λ _, True) ctx0.
Proof. split; simpl; try done; unfold is_u64, W64; lia. Qed.


(** A jump whose destination lies inside the code continues there; one
    between the code's end and [2^63] is [ErrBadJump]; but a destination from
    [2^63] on becomes a negative [int], passes the check [d >= len(code)], and
    the next fetch is out of range: the node panics. *)
Theorem jump_outcomes {H} code input gas (ctx : Context H) left dest rest s
  (Hd : is_u64 dest) (Hs : m_st s = dest :: rest) (Hc : zlen code < 9223372036854775808) :
  (exec_jump code ≫= λ _, loop code input gas ctx (S left)) s =
    if dest <? zlen code then loop code input gas ctx (S left) (set_pc dest (set_st rest s))
    else if dest <? 9223372036854775808 then ERR (set_st rest s) ErrBadJump
    else PANIC (set_pc (dest - W64) (set_st rest s)).
Proof.
  unfold exec_jump, pop, jump_to, int_of_u64, mbind, M_bind, get. rewrite Hs. unfold is_u64 in *.
  cbn [modify mret M_ret set_st].
  destruct (Z.ltb_spec dest 9223372036854775808).
  - destruct (Z.leb_spec (zlen code) dest), (Z.ltb_spec dest (zlen code)); try lia; done.
  - assert (0 <= zlen code) by (unfold zlen; lia).
    rewrite (proj2 (Z.leb_gt _ _)), (proj2 (Z.ltb_ge _ _)) by lia.
    cbn [loop]. unfold mbind, M_bind, get, modify, step, index, set_pc. simpl.
    rewrite (proj2 (Z.ltb_lt _ _)) by lia. unfold mbind, M_bind, get, modify, lift. simpl.
    by rewrite (proj2 (Z.leb_gt 0 _)) by lia.
Qed.

Lemma jump_outcomes_witness :
  (exec_jump (push_code 9223372036854775808 ++ [op_byte JUMP]) ≫= λ _,
     loop (push_code 9223372036854775808 ++ [op_byte JUMP]) [] 1000 ctx0 7)
    (set_st [9223372036854775808] (init ∅ None tt)) =
    PANIC (set_pc (-9223372036854775808) (init ∅ None tt)) ∧
  Execute (push_code 9223372036854775808 ++ [op_byte JUMP]) [] ∅ 1000 ctx0 tt = PANIC tt.
Proof.
  split; [|vm_compute; reflexivity].
  apply (jump_outcomes (push_code 9223372036854775808 ++ [op_byte JUMP]) [] 1000 ctx0 6
    9223372036854775808 [] (set_st [9223372036854775808] (init ∅ None tt))).
  - vm_compute. split; congruence.
  - reflexivity.
  - vm_compute. reflexivity.
Defined.

Lemma word_spec_witness :
  word (be_bytes 8 5 ++ be_bytes 8 9) 1 = Ok 9 ∧ word (be_bytes 8 5) 2305843009213693951 = Panic.
Proof.
  split.
  - rewrite (word_spec (be_bytes 8 5 ++ be_bytes 8 9) 1); [vm_compute; reflexivity| |]; vm_compute; try split; congruence.
  - rewrite (word_spec (be_bytes 8 5) 2305843009213693951); [vm_compute; reflexivity| |]; vm_compute; try split; congruence.
Defined.

Lemma checked_exact_witness : checked MULC 4294967296 4294967296 = Err ErrOverflow ∧ checked SUBC 5 3 = Ok 2.
Proof.
  split.
  - refine (eq_trans (checked_exact MULC _ _ _ _) _); [vm_compute; split; congruence..|reflexivity].
  - refine (eq_trans (checked_exact SUBC _ _ _ _) _); [vm_compute; split; congruence..|reflexivity].
Defined.
