(* ===== verification/Shl.v ===== *)
(** * The SHL compiler ([internal/shl])

    Lexer, recursive-descent parser, code generator and gas estimate.  The parser is
    a program over the list of tokens still to be read; [p.toks[p.i]] past the end is
    the panic Go raises.  Messages of errors built with [fmt.Errorf] are not kept:
    the lexer and the parser report [ErrSyntax], the generator [ErrCompile]; token
    positions, which nothing reads, are not kept either. *)

From S2P Require Import Prelude Sha256 Vm.
Open Scope string_scope.
Open Scope Z_scope.
Open Scope list_scope.

(** ** Tokens ([lexer.go]) *)

Inductive tokKind := tEOF | tNum | tIdent | tPunct.

#[global] Instance tokKind_eq_dec : EqDecision tokKind.
Proof. solve_decision. Defined.

Record token := MkToken { t_kind : tokKind; t_str : string; t_num : Z; t_line : Z }.

Definition isDigit (c : byte) : bool := (48 <=? bz c) && (bz c <=? 57).
Definition isIdentStart (c : byte) : bool :=
  (bz c =? 95) || ((97 <=? bz c) && (bz c <=? 122)) || ((65 <=? bz c) && (bz c <=? 90)).
Definition isIdentPart (c : byte) : bool := isIdentStart c || isDigit c.

Definition two_chars : list string := ["=="; "&&"; "||"; "!="; "<="; ">="].
Definition one_chars : list string :=
  ["("; ")"; "{"; "}"; "["; "]"; ";"; ","; "."; "="; "+"; "-"; "*"; "/"; "%"; "<"; ">"; "!"].

(** [skip]: white space, line ends and comments; in a comment, up to its line end. *)
Fixpoint skip (comment : bool) (line : Z) (src : bytes) : Z * bytes :=
  match src with
  | [] => (line, [])
  | c :: r =>
      if bz c =? 10 then skip false (line + 1) r
      else if comment then skip true line r
      else if (bz c =? 32) || (bz c =? 9) || (bz c =? 13) then skip false line r
      else if (bz c =? 47) && match r with d :: _ => bz d =? 47 | [] => false end then skip true line r
      else (line, src)
  end.

Fixpoint span (p : byte → bool) (src : bytes) : bytes * bytes :=
  match src with
  | [] => ([], [])
  | c :: r => if p c then let '(a, b) := span p r in (c :: a, b) else ([], src)
  end.

(** [strconv.ParseUint(s, 10, 64)] on a run of digits. *)
Definition parse_number (digits : bytes) : res Z :=
  let v := foldl (λ v c, v * 10 + (bz c - 48)) 0 digits in
  if is_u64b v then Ok v else Err ErrSyntax.

(** [next] after [skip]: one token, and what is left. *)
Definition next_token (line : Z) (src : bytes) : res (token * bytes) :=
  match src with
  | [] => Ok (MkToken tEOF "" 0 line, [])
  | c :: r =>
      if isDigit c then
        let '(ds, rest) := span isDigit src in
        n ← parse_number ds; mret (MkToken tNum "" n line, rest)
      else if isIdentStart c then
        let '(id, rest) := span isIdentPart src in
        mret (MkToken tIdent (string_of id) 0 line, rest)
      else
        let two := string_of (take 2 src) in
        if (2 <=? zlen src) && bool_decide (two ∈ two_chars) then mret (MkToken tPunct two 0 line, drop 2 src)
        else
          let one := string_of [c] in
          if bool_decide (one ∈ one_chars) then mret (MkToken tPunct one 0 line, r) else Err ErrSyntax
  end.

(** [lex]; every turn but the last reads a character ([lex_total]). *)
Fixpoint lex_loop (fuel : nat) (line : Z) (src : bytes) : res (list token) :=
  match fuel with
  | O => Panic
  | S f =>
      let '(line, src) := skip false line src in
      t ← next_token line src;
      if decide (t_kind t.1 = tEOF) then mret [t.1] else
      ts ← lex_loop f line t.2; mret (t.1 :: ts)
  end.

Definition lex (src : bytes) : res (list token) := lex_loop (S (length src)) 1 src.

(** ** Syntax trees ([parser.go]) *)

Inductive expr :=
  | Num (v : Z)
  | Var (name : string)
  | Load (key : expr)
  | Index (name : string) (key : expr)
  | Builtin (name : string) (arg : option expr)
  | Unary (op : string) (x : expr)
  | Binary (op : string) (l r : expr).

Inductive stmt :=
  | LetStmt (name : string) (val : expr)
  | StoreStmt (key val : expr)
  | IfStmt (cond : expr) (then_ else_ : list stmt)
  | WhileStmt (cond : expr) (body : list stmt)
  | EmitStmt (args : list expr)
  | ReturnStmt (val : expr)
  | StopStmt
  | RequireStmt (cond : expr)
  | RevertStmt
  | IndexStore (name : string) (key val : expr).

Inductive node :=
  | StateDecl (name : string)
  | FnDecl (name : string) (params : list string) (body : list stmt)
  | Stmt (s : stmt).

(** ** The parser *)

Abbreviation MP := (M (list token)).

Definition cur : MP token := ts ← get; match ts with t :: _ => mret t | [] => panic end.
Definition adv : MP token := t ← cur; modify (drop 1) ≫= λ _, mret t.
Definition at_ (k : tokKind) : MP bool := t ← cur; mret (bool_decide (t_kind t = k)).
Definition isPunct (s : string) : MP bool :=
  t ← cur; mret (bool_decide (t_kind t = tPunct) && bool_decide (t_str t = s)).
Definition isKw (s : string) : MP bool :=
  t ← cur; mret (bool_decide (t_kind t = tIdent) && bool_decide (t_str t = s)).
Definition expect (s : string) : MP unit :=
  b ← isPunct s; if b : bool then modify (drop 1) else throw ErrSyntax.

(** The first of several tests that holds, if any. *)
Fixpoint first_punct (ops : list string) : MP bool :=
  match ops with
  | [] => mret false
  | o :: r => b ← isPunct o; if b : bool then mret true else first_punct r
  end.

(** [expect] after a node. *)
Definition closing {A} (a : A) (s : string) : MP A := expect s ≫= λ _, mret a.

Definition ident : MP string :=
  t ← adv; if decide (t_kind t = tIdent) then mret (t_str t) else throw ErrSyntax.

Section expressions.
(** The recursive call of [primary] and of the loops below it. *)
Context (expr_ : MP expr).

Definition primary : MP expr :=
  t ← cur;
  if decide (t_kind t = tNum) then t ← adv; mret (Num (t_num t)) else
  b ← isPunct "(";
  if b : bool then adv ≫= λ _, e ← expr_; closing e ")" else
  b ← isKw "store";
  if b : bool then adv ≫= λ _, expect "[" ≫= λ _, k ← expr_; closing (Load k) "]" else
  b ← isKw "caller"; b1 ← isKw "value"; b2 ← isKw "balance"; b3 ← isKw "self";
  if b || b1 || b2 || b3 : bool then t ← adv; expect "(" ≫= λ _, closing (Builtin (t_str t) None) ")" else
  b ← isKw "arg";
  if b : bool then adv ≫= λ _, expect "(" ≫= λ _, e ← expr_; closing (Builtin "arg" (Some e)) ")" else
  b ← isKw "msg";
  if b : bool then
    adv ≫= λ _, expect "." ≫= λ _, f ← adv;
    if decide (t_str f = "sender") then mret (Builtin "caller" None)
    else if decide (t_str f = "value") then mret (Builtin "value" None) else throw ErrSyntax
  else
  b ← at_ tIdent;
  if b : bool then
    t ← adv; b ← isPunct "[";
    if b : bool then adv ≫= λ _, k ← expr_; closing (Index (t_str t) k) "]" else mret (Var (t_str t))
  else throw ErrSyntax.

(** [n]: turns left; [!] is read at each. *)
Fixpoint unary (n : nat) : MP expr :=
  b ← isPunct "!";
  if b : bool then
    adv ≫= λ _, match n with O => panic | S n' => x ← unary n'; mret (Unary "!" x) end
  else primary.

(** The loops of the left-associative operators. *)
Fixpoint binary_loop (ops : list string) (sub : MP expr) (n : nat) (l : expr) : MP expr :=
  b ← first_punct ops;
  if b : bool then
    match n with
    | O => panic
    | S n' => op ← adv; r ← sub; binary_loop ops sub n' (Binary (t_str op) l r)
    end
  else mret l.

Definition left_assoc (ops : list string) (sub : MP expr) : MP expr :=
  l ← sub; ts ← get; binary_loop ops sub (length ts) l.

Definition unary_ : MP expr := ts ← get; unary (length ts).
Definition mulExpr : MP expr := left_assoc ["*"; "/"; "%"] unary_.
Definition addExpr : MP expr := left_assoc ["+"; "-"] mulExpr.
Definition cmp_ops : list string := ["=="; "!="; "<"; ">"; "<="; ">="].
Definition cmpExpr : MP expr :=
  l ← addExpr; b ← first_punct cmp_ops;
  if b : bool then op ← adv; r ← addExpr; mret (Binary (t_str op) l r) else mret l.
Definition andExpr : MP expr := left_assoc ["&&"] cmpExpr.
Definition orExpr : MP expr := left_assoc ["||"] andExpr.
End expressions.

(** [expr]: nesting is bounded by the number of tokens. *)
Fixpoint expr_ (fuel : nat) : MP expr :=
  match fuel with O => panic | S f => orExpr (expr_ f) end.
Definition parse_expr : MP expr := ts ← get; expr_ (length ts).

(** [callArgs] after the opening parenthesis. *)
Fixpoint args_loop (n : nat) (args : list expr) : MP (list expr) :=
  b ← isPunct ")";
  if b : bool then closing args ")" else
  match n with
  | O => panic
  | S n' =>
      e ← parse_expr;
      c ← isPunct ",";
      (if c : bool then adv ≫= λ _, mret tt else mret tt) ≫= λ _, args_loop n' (args ++ [e])
  end.

Definition callArgs : MP (list expr) := expect "(" ≫= λ _, ts ← get; args_loop (length ts) [].

Section statements.
Context (stmt_ : MP stmt).

Fixpoint block_loop (n : nat) (body : list stmt) : MP (list stmt) :=
  b ← isPunct "}"; e ← at_ tEOF;
  if b || e : bool then closing body "}" else
  match n with O => panic | S n' => s ← stmt_; block_loop n' (body ++ [s]) end.

Definition block : MP (list stmt) := expect "{" ≫= λ _, ts ← get; block_loop (length ts) [].

Definition ifStmt : MP stmt :=
  adv ≫= λ _, expect "(" ≫= λ _, cond ← parse_expr; expect ")" ≫= λ _,
  then_ ← block;
  b ← isKw "else";
  if b : bool then adv ≫= λ _, els ← block; mret (IfStmt cond then_ els) else mret (IfStmt cond then_ []).

Definition whileStmt : MP stmt :=
  adv ≫= λ _, expect "(" ≫= λ _, cond ← parse_expr; expect ")" ≫= λ _,
  body ← block; mret (WhileStmt cond body).

(** The rest of an assignment to a name. *)
Definition assignment (name : string) : MP stmt :=
  expect "=" ≫= λ _, v ← parse_expr; closing (LetStmt name v) ";".

Definition stmt_body : MP stmt :=
  b ← isKw "let";
  if b : bool then adv ≫= λ _, name ← ident; assignment name else
  b ← isKw "store";
  if b : bool then
    adv ≫= λ _, expect "[" ≫= λ _, k ← parse_expr; expect "]" ≫= λ _, expect "=" ≫= λ _,
    v ← parse_expr; closing (StoreStmt k v) ";"
  else
  b ← isKw "if";
  if b : bool then ifStmt else
  b ← isKw "while";
  if b : bool then whileStmt else
  b ← isKw "emit";
  if b : bool then adv ≫= λ _, args ← callArgs; closing (EmitStmt args) ";" else
  b ← isKw "return";
  if b : bool then adv ≫= λ _, v ← parse_expr; closing (ReturnStmt v) ";" else
  b ← isKw "stop";
  if b : bool then adv ≫= λ _, closing StopStmt ";" else
  b ← isKw "require";
  if b : bool then
    adv ≫= λ _, expect "(" ≫= λ _, c ← parse_expr; expect ")" ≫= λ _, closing (RequireStmt c) ";"
  else
  b ← isKw "revert";
  if b : bool then adv ≫= λ _, closing RevertStmt ";" else
  b ← at_ tIdent;
  if b : bool then
    t ← adv; b ← isPunct "[";
    if b : bool then
      adv ≫= λ _, k ← parse_expr; expect "]" ≫= λ _, expect "=" ≫= λ _,
      v ← parse_expr; closing (IndexStore (t_str t) k v) ";"
    else assignment (t_str t)
  else throw ErrSyntax.
End statements.

Fixpoint stmt_ (fuel : nat) : MP stmt :=
  match fuel with O => panic | S f => stmt_body (stmt_ f) end.
Definition parse_stmt : MP stmt := ts ← get; stmt_ (length ts).

Fixpoint params_loop (n : nat) (params : list string) : MP (list string) :=
  b ← isPunct ")";
  if b : bool then mret params else
  match n with
  | O => panic
  | S n' =>
      p ← ident; c ← isPunct ",";
      (if c : bool then adv ≫= λ _, mret tt else mret tt) ≫= λ _, params_loop n' (params ++ [p])
  end.

Definition fnDecl : MP node :=
  adv ≫= λ _, name ← ident; expect "(" ≫= λ _, ts ← get; params ← params_loop (length ts) [];
  expect ")" ≫= λ _, body ← block parse_stmt; mret (FnDecl name params body).

Definition topLevel : MP node :=
  b ← isKw "state";
  if b : bool then adv ≫= λ _, name ← ident; closing (StateDecl name) ";" else
  b ← isKw "fn";
  if b : bool then fnDecl else s ← parse_stmt; mret (Stmt s).

Fixpoint top_loop (n : nat) (prog : list node) : MP (list node) :=
  e ← at_ tEOF;
  if e : bool then mret prog else
  match n with O => panic | S n' => s ← topLevel; top_loop n' (prog ++ [s]) end.

Definition Parse (src : bytes) : res (list node) :=
  toks ← lex src;
  match top_loop (length toks) [] toks with OK _ prog => Ok prog | ERR _ e => Err e | PANIC _ => Panic end.

(** ** Code generation ([compile.go]) *)

Definition localBase : Z := 18446744069414584320.
Definition stateBase : Z := 18446744004990074880.

Definition Selector (name : string) : Z := be_val (take 8 (sha256 (bytes_of name))).

Record gen := MkGen {
  g_code : bytes;
  g_vars : gmap string Z; g_next : Z;
  g_state : gmap string Z; g_nextState : Z;
  g_labels : list Z;
  g_fixups : list (Z * nat);
}.

Definition gen0 : gen := MkGen [] ∅ localBase ∅ stateBase [] [].

Abbreviation MG := (M gen).

Definition emit_bytes (b : bytes) : MG unit :=
  modify (λ g, MkGen (g_code g ++ b) (g_vars g) (g_next g) (g_state g) (g_nextState g) (g_labels g) (g_fixups g)).
Definition emit (o : opcode) : MG unit := emit_bytes [op_byte o].
Definition pushU64 (v : Z) : MG unit := emit PUSH ≫= λ _, emit_bytes (be_bytes 8 v).

Definition newLabel : MG nat :=
  g ← get;
  modify (λ g, MkGen (g_code g) (g_vars g) (g_next g) (g_state g) (g_nextState g) (g_labels g ++ [-1]) (g_fixups g)) ≫= λ _,
  mret (length (g_labels g)).

(** [g.labels[id] = len(g.code)] *)
Definition mark (id : nat) : MG unit :=
  modify (λ g, MkGen (g_code g) (g_vars g) (g_next g) (g_state g) (g_nextState g)
    (<[id := zlen (g_code g)]> (g_labels g)) (g_fixups g)).

Definition add_fixup (id : nat) : MG unit :=
  modify (λ g, MkGen (g_code g) (g_vars g) (g_next g) (g_state g) (g_nextState g) (g_labels g)
    (g_fixups g ++ [(zlen (g_code g), id)])).
Definition pushLabel (id : nat) : MG unit :=
  emit PUSH ≫= λ _, add_fixup id ≫= λ _, emit_bytes (replicate 8 (zb 0)).

(** [binary.BigEndian.PutUint64(g.code[f.pos:f.pos+8], uint64(g.labels[f.label]))] *)
Definition patch (labels : list Z) (code : bytes) (f : Z * nat) : bytes :=
  let p := Z.to_nat f.1 in
  take p code ++ be_bytes 8 (u64 (nth f.2 labels (-1))) ++ drop (p + 8) code.
Definition resolve (g : gen) : bytes := foldl (patch (g_labels g)) (g_code g) (g_fixups g).

Definition slot (name : string) : MG Z :=
  g ← get;
  match g_vars g !! name with
  | Some s => mret s
  | None =>
      modify (λ g, MkGen (g_code g) (<[name := g_next g]> (g_vars g)) (u64 (g_next g + 1)) (g_state g) (g_nextState g)
        (g_labels g) (g_fixups g)) ≫= λ _, mret (g_next g)
  end.

Definition declState (name : string) : MG unit :=
  modify (λ g, match g_state g !! name with
    | Some _ => g
    | None => MkGen (g_code g) (g_vars g) (g_next g) (<[name := g_nextState g]> (g_state g)) (u64 (g_nextState g + 1))
                (g_labels g) (g_fixups g)
    end).

(** The opcodes of an operator. *)
Definition op_codes (op : string) : option (list opcode) :=
  if decide (op = "+") then Some [ADDC] else if decide (op = "-") then Some [SUBC]
  else if decide (op = "*") then Some [MULC] else if decide (op = "/") then Some [DIV]
  else if decide (op = "%") then Some [MOD] else if decide (op = "==") then Some [EQ]
  else if decide (op = "<") then Some [LT] else if decide (op = ">") then Some [GT]
  else if decide (op = "&&") then Some [AND] else if decide (op = "||") then Some [OR]
  else if decide (op = "!=") then Some [EQ; ISZERO] else if decide (op = "<=") then Some [GT; ISZERO]
  else if decide (op = ">=") then Some [LT; ISZERO] else None.

Fixpoint emit_all (l : list opcode) : MG unit :=
  match l with [] => mret tt | o :: r => emit o ≫= λ _, emit_all r end.

Definition gen_binop (op : string) : MG unit :=
  match op_codes op with Some l => emit_all l | None => throw ErrCompile end.

(** A named slot, or the error for an undeclared name. *)
Definition state_slot (name : string) : MG Z :=
  g ← get; match g_state g !! name with Some s => mret s | None => throw ErrCompile end.

Definition builtin_op (name : string) : option opcode :=
  if decide (name = "caller") then Some CALLER else if decide (name = "value") then Some VALUE
  else if decide (name = "balance") then Some BAL else if decide (name = "self") then Some SELF else None.

Fixpoint gen_expr (e : expr) : MG unit :=
  match e with
  | Num v => pushU64 v
  | Var name =>
      g ← get;
      match g_vars g !! name with
      | Some s => pushU64 s ≫= λ _, emit SLOAD
      | None => s ← state_slot name; pushU64 s ≫= λ _, emit SLOAD
      end
  | Index name key => s ← state_slot name; pushU64 s ≫= λ _, gen_expr key ≫= λ _, emit MIX ≫= λ _, emit SLOAD
  | Load key => gen_expr key ≫= λ _, emit SLOAD
  | Builtin name arg =>
      match builtin_op name with
      | Some o => emit o
      | None =>
          if decide (name = "arg") then
            match arg with Some e => gen_expr e ≫= λ _, emit CDLOAD | None => throw ErrCompile end
          else throw ErrCompile
      end
  | Unary _ x => gen_expr x ≫= λ _, emit ISZERO
  | Binary op l r => gen_expr l ≫= λ _, gen_expr r ≫= λ _, gen_binop op
  end.

Fixpoint gen_args (l : list expr) : MG unit :=
  match l with [] => mret tt | e :: r => gen_expr e ≫= λ _, gen_args r end.

Fixpoint gen_stmt (s : stmt) : MG unit :=
  let gen_stmts := fix gen_stmts (l : list stmt) : MG unit :=
    match l with [] => mret tt | s :: r => gen_stmt s ≫= λ _, gen_stmts r end in
  match s with
  | LetStmt name val =>
      g ← get;
      sl ← match g_state g !! name with Some s => mret s | None => slot name end;
      pushU64 sl ≫= λ _, gen_expr val ≫= λ _, emit SSTORE
  | IndexStore name key val =>
      sl ← state_slot name;
      pushU64 sl ≫= λ _, gen_expr key ≫= λ _, emit MIX ≫= λ _, gen_expr val ≫= λ _, emit SSTORE
  | StoreStmt key val => gen_expr key ≫= λ _, gen_expr val ≫= λ _, emit SSTORE
  | RequireStmt cond =>
      cont ← newLabel;
      gen_expr cond ≫= λ _, pushLabel cont ≫= λ _, emit JUMPI ≫= λ _, emit REVERT ≫= λ _, mark cont
  | RevertStmt => emit REVERT
  | IfStmt cond then_ else_ =>
      elseL ← newLabel; endL ← newLabel;
      gen_expr cond ≫= λ _, emit ISZERO ≫= λ _, pushLabel elseL ≫= λ _, emit JUMPI ≫= λ _,
      gen_stmts then_ ≫= λ _, pushLabel endL ≫= λ _, emit JUMP ≫= λ _,
      mark elseL ≫= λ _, gen_stmts else_ ≫= λ _, mark endL
  | WhileStmt cond body =>
      startL ← newLabel; endL ← newLabel;
      mark startL ≫= λ _, gen_expr cond ≫= λ _, emit ISZERO ≫= λ _, pushLabel endL ≫= λ _, emit JUMPI ≫= λ _,
      gen_stmts body ≫= λ _, pushLabel startL ≫= λ _, emit JUMP ≫= λ _, mark endL
  | EmitStmt args => gen_args args ≫= λ _, pushU64 (zlen args) ≫= λ _, emit LOG
  | ReturnStmt val => gen_expr val ≫= λ _, emit RETURN
  | StopStmt => emit STOP
  end.

Fixpoint gen_stmts (l : list stmt) : MG unit :=
  match l with [] => mret tt | s :: r => gen_stmt s ≫= λ _, gen_stmts r end.

(** The selector tests of [dispatch], one label per function. *)
Fixpoint gen_router (fns : list (string * list string * list stmt)) : MG (list nat) :=
  match fns with
  | [] => mret []
  | (name, _, _) :: r =>
      l ← newLabel;
      emit DUP ≫= λ _, pushU64 (Selector name) ≫= λ _, emit EQ ≫= λ _, pushLabel l ≫= λ _, emit JUMPI ≫= λ _,
      ls ← gen_router r; mret (l :: ls)
  end.

Definition fresh_scope : MG unit :=
  modify (λ g, MkGen (g_code g) ∅ localBase (g_state g) (g_nextState g) (g_labels g) (g_fixups g)).

(** Parameter [i] is word [i+1] of the call data. *)
Fixpoint gen_params (i : Z) (params : list string) : MG unit :=
  match params with
  | [] => mret tt
  | p :: r =>
      s ← slot p;
      pushU64 s ≫= λ _, pushU64 (i + 1) ≫= λ _, emit CDLOAD ≫= λ _, emit SSTORE ≫= λ _, gen_params (i + 1) r
  end.

Definition gen_body (params : list string) (body : list stmt) : MG unit :=
  emit POP ≫= λ _, fresh_scope ≫= λ _, gen_params 0 params ≫= λ _, gen_stmts body ≫= λ _, emit STOP.

Fixpoint gen_bodies (fns : list (string * list string * list stmt)) (labels : list nat) : MG unit :=
  match fns, labels with
  | (_, params, body) :: r, l :: ls =>
      mark l ≫= λ _, gen_body params body ≫= λ _, gen_bodies r ls
  | _, _ => mret tt
  end.

Definition dispatch (fns : list (string * list string * list stmt)) : MG unit :=
  pushU64 0 ≫= λ _, emit CDLOAD ≫= λ _, labels ← gen_router fns;
  emit POP ≫= λ _, emit REVERT ≫= λ _, gen_bodies fns labels.

Definition state_names (prog : list node) : list string :=
  omap (λ n, match n with StateDecl s => Some s | _ => None end) prog.
Definition functions (prog : list node) : list (string * list string * list stmt) :=
  omap (λ n, match n with FnDecl f ps b => Some (f, ps, b) | _ => None end) prog.
Definition flat (prog : list node) : list stmt :=
  omap (λ n, match n with Stmt s => Some s | _ => None end) prog.

Fixpoint decl_states (l : list string) : MG unit :=
  match l with [] => mret tt | n :: r => declState n ≫= λ _, decl_states r end.

(** The functions of a contract, if it has any, and the last [STOP]. *)
Definition gen_end (fns : list (string * list string * list stmt)) : MG unit :=
  match fns with [] => mret tt | _ :: _ => dispatch fns end ≫= λ _, emit STOP.

Definition gen_program (prog : list node) : MG unit :=
  decl_states (state_names prog) ≫= λ _, gen_stmts (flat prog) ≫= λ _, gen_end (functions prog).

(** [Compile] after parsing. *)
Definition compile_nodes (prog : list node) : res bytes :=
  match gen_program prog gen0 with OK g _ => Ok (resolve g) | ERR _ e => Err e | PANIC _ => Panic end.

Definition Compile (src : bytes) : res bytes := prog ← Parse src; compile_nodes prog.

(** ** Gas estimate ([estimate.go]) *)

(** [fuel] is the number of bytes left; [const] the last pushed constant. *)
Fixpoint estimate_loop (fuel : nat) (code : bytes) (total : Z) (const : option Z) : Z :=
  match fuel with
  | O => total
  | S f =>
      match code with
      | [] => total
      | b :: r =>
          match decode_op b with
          | Some PUSH =>
              estimate_loop f (drop 8 r) (u64 (total + 3))
                (if 9 <=? zlen code then Some (be_val (take 8 r)) else const)
          | Some SSTORE => estimate_loop f r (u64 (total + 100)) None
          | Some (SLOAD | MIX) => estimate_loop f r (u64 (total + 20)) None
          | Some LOG =>
              estimate_loop f r
                (match const with Some c => u64 (u64 (total + 50) + u64 (8 * c)) | None => u64 (total + 50) end) None
          | _ => estimate_loop f r (u64 (total + 1)) None
          end
      end
  end.

Definition Estimate (code : bytes) : Z := estimate_loop (length code) code 0 None.

Definition CompileAndEstimate (src : bytes) : res (bytes * Z) := code ← Compile src; mret (code, Estimate code).
