(* ===== verification/ShlParse.v ===== *)
(** * The SHL front end: lexing and parsing end, and never panic *)

From S2P Require Import Prelude Vm Shl.
Open Scope string_scope.
Open Scope Z_scope.
Open Scope list_scope.

(** ** Well-formed trees: every literal is a 64-bit word *)

Fixpoint expr_ok (e : expr) : Prop :=
  match e with
  | Num v => is_u64 v
  | Var _ => True
  | Load k | Index _ k | Unary _ k => expr_ok k
  | Builtin _ a => match a with Some x => expr_ok x | None => True end
  | Binary _ l r => expr_ok l ∧ expr_ok r
  end.

Fixpoint stmt_ok (s : stmt) : Prop :=
  let all := fix all (l : list stmt) : Prop := match l with [] => True | s :: r => stmt_ok s ∧ all r end in
  match s with
  | LetStmt _ e | ReturnStmt e | RequireStmt e => expr_ok e
  | StoreStmt k v | IndexStore _ k v => expr_ok k ∧ expr_ok v
  | IfStmt c t e => expr_ok c ∧ all t ∧ all e
  | WhileStmt c b => expr_ok c ∧ all b
  | EmitStmt args => Forall expr_ok args
  | StopStmt | RevertStmt => True
  end.

Fixpoint stmts_ok (l : list stmt) : Prop := match l with [] => True | s :: r => stmt_ok s ∧ stmts_ok r end.

Definition node_ok (n : node) : Prop :=
  match n with StateDecl _ => True | FnDecl _ _ b => stmts_ok b | Stmt s => stmt_ok s end.

Lemma stmts_ok_app a b : stmts_ok (a ++ b) ↔ stmts_ok a ∧ stmts_ok b.
Proof. induction a as [|s a IH]; simpl; [tauto|]. rewrite IH. tauto. Qed.

(** ** Token lists

    A list of tokens that ends with the only [tEOF]; a [live] one has something in
    front of it. *)
Inductive ended : list token → Prop :=
  | ended_last t : t_kind t = tEOF → t_str t = "" → is_u64 (t_num t) → ended [t]
  | ended_cons t r : t_kind t ≠ tEOF → is_u64 (t_num t) → ended r → ended (t :: r).

Definition live (ts : list token) : Prop := ∃ t r, ts = t :: r ∧ t_kind t ≠ tEOF ∧ is_u64 (t_num t) ∧ ended r.

Lemma live_ended ts : live ts → ended ts.
Proof. intros (t & r & -> & ? & ? & ?). by constructor. Qed.
Lemma ended_nonempty ts : ended ts → (0 < length ts)%nat.
Proof. destruct 1; simpl; lia. Qed.

(** What every parsing function does from [ts]: it reads at least [k] tokens and
    returns a good node, or reports an error; it never panics. *)
Definition parses {A} (m : MP A) (k : nat) (Q : A → Prop) (ts : list token) : Prop :=
  wp m (λ a ts', ended ts' ∧ (length ts' + k <= length ts)%nat ∧ Q a) (λ _ _, True) (λ _, False) ts.

Abbreviation parsing m Q ts := (wp m Q (λ _ _, True) (λ _, False) ts).

Lemma parses_use {A} (m : MP A) k P ts (Q : A → list token → Prop) :
  parses m k P ts → (∀ a ts', ended ts' → (length ts' + k <= length ts)%nat → P a → Q a ts') → parsing m Q ts.
Proof. intros Hm HQ. eapply wp_mono; [..|exact Hm]; [|done..]. intros a ts' (? & ? & ?). auto. Qed.

(** Tests look at the current token only. *)
Definition tests (m : MP bool) : Prop := ∀ ts, ended ts → ∃ b, m ts = OK ts b ∧ (b = true → live ts).

Lemma token_test (p : token → bool) : (∀ t, p t = true → t_kind t ≠ tEOF) → tests (t ← cur; mret (p t)).
Proof.
  intros Hp ts. destruct 1 as [t Ht Hs Hu|t r Ht Hu Hr]; (exists (p t); split; [done|intros Hpt]).
  - by destruct (Hp t Hpt).
  - by exists t, r.
Qed.

Lemma isPunct_tests s : tests (isPunct s).
Proof. apply token_test. intros t [H _]%andb_prop. apply bool_decide_eq_true in H. congruence. Qed.
Lemma isKw_tests s : tests (isKw s).
Proof. apply token_test. intros t [H _]%andb_prop. apply bool_decide_eq_true in H. congruence. Qed.
Lemma ident_tests : tests (at_ tIdent).
Proof. apply token_test. intros t H. apply bool_decide_eq_true in H. congruence. Qed.
Lemma first_punct_tests ops : tests (first_punct ops).
Proof.
  induction ops as [|o r IH]; intros ts Hts; cbn [first_punct]; [by exists false|].
  destruct (isPunct_tests o ts Hts) as (b & E & Hb). rewrite (bind_ok _ _ _ _ _ E). destruct b; [|by apply IH].
  exists true. auto.
Qed.

Lemma wp_test m Q ts : tests m → ended ts → (∀ b, (b = true → live ts) → Q b ts) → parsing m Q ts.
Proof. intros Hm Hts HQ. destruct (Hm ts Hts) as (b & E & Hb). unfold wp. rewrite E. auto. Qed.

Lemma wp_at_eof Q ts : ended ts → (∀ b, (b = false → live ts) → Q b ts) → parsing (at_ tEOF) Q ts.
Proof.
  destruct 1 as [t Ht|t r Ht Hu Hr]; intros HQ; unfold wp, at_; simpl; apply HQ.
  - by rewrite bool_decide_true.
  - intros _. by exists t, r.
Qed.

Lemma wp_cur (Q : token → list token → Prop) ts : ended ts →
  (∀ t, is_u64 (t_num t) → (t_kind t ≠ tEOF → live ts) → Q t ts) → parsing cur Q ts.
Proof.
  destruct 1 as [t Ht Hs Hu|t r Ht Hu Hr]; intros HQ; unfold wp; simpl; apply HQ; auto; [done|].
  intros _. by exists t, r.
Qed.

Lemma wp_adv (Q : token → list token → Prop) ts : live ts →
  (∀ t r, is_u64 (t_num t) → ended r → (length r + 1 <= length ts)%nat → Q t r) → parsing adv Q ts.
Proof. intros (t & r & -> & Ht & Hu & Hr) HQ. unfold wp; simpl. rewrite drop_0. apply HQ; simpl; [done|done|lia]. Qed.

(** [adv] may also read the end, on the way to an error. *)
Lemma wp_adv_any (Q : token → list token → Prop) ts : ended ts →
  (∀ t r, (t_kind t ≠ tEOF ∨ t_str t ≠ "" → ended r ∧ (length r + 1 <= length ts)%nat) → Q t r) → parsing adv Q ts.
Proof. destruct 1 as [t Ht Hs|t r Ht Hu Hr]; intros HQ; unfold wp; simpl; rewrite ?drop_0; apply HQ; [by intros []|]. simpl. split; [done|lia]. Qed.

Lemma wp_expect s Q ts : ended ts → (∀ r, ended r → (length r + 1 <= length ts)%nat → Q tt r) → parsing (expect s) Q ts.
Proof.
  intros Hts HQ. unfold expect. apply wp_bind, wp_test; [apply isPunct_tests|done|].
  intros [] Hb; [|done]. destruct (Hb eq_refl) as (t & r & -> & _ & _ & Hr). unfold wp. simpl. rewrite drop_0. apply HQ; simpl; [done|lia].
Qed.

Lemma closing_parses {A} (a : A) s Q ts : ended ts → Q a → parses (closing a s) 1 Q ts.
Proof. intros Hts HQ. unfold parses, closing. apply wp_bind, wp_expect; [done|]. intros r Hr Hl. apply wp_ret. auto. Qed.

Lemma parses_weaken {A} (m : MP A) k k' (Q : A → Prop) (ts ts' : list token) : parses m k Q ts' → (length ts' + k' <= length ts + k)%nat →
  parsing m (λ a ts'', ended ts'' ∧ (length ts'' + k' <= length ts)%nat ∧ Q a) ts'.
Proof. intros Hm Hl. eapply parses_use; [exact Hm|]. intros a ts'' ? ? ?. split_and!; [done|lia|done]. Qed.

Lemma ident_parses ts : ended ts → parses ident 1 (λ _, True) ts.
Proof.
  intros Hts. unfold parses, ident. apply wp_bind, wp_adv_any; [done|]. intros t r Hr.
  case_decide as Hk; [|done]. destruct Hr as [? ?]; [left; congruence|]. by apply wp_ret.
Qed.

(** A step of a parsing program. *)
Ltac pstep :=
  match goal with
  | |- parsing (_ ≫= _) _ _ => apply wp_bind
  | |- parsing (isPunct _) _ _ => apply wp_test; [apply isPunct_tests|done|intros [] ?]
  | |- parsing (isKw _) _ _ => apply wp_test; [apply isKw_tests|done|intros [] ?]
  | |- parsing (at_ tIdent) _ _ => apply wp_test; [apply ident_tests|done|intros [] ?]
  | |- parsing (first_punct _) _ _ => apply wp_test; [apply first_punct_tests|done|intros [] ?]
  | |- parsing (expect _) _ _ => apply wp_expect; [done|intros ? ? ?]
  | |- parsing adv _ _ => apply wp_adv; [solve [auto]|intros ? ? ? ? ?]
  | |- parsing ident _ _ => eapply parses_use; [by apply ident_parses|intros ? ? ? ? _]
  | |- parsing (closing _ _) _ _ => eapply parses_weaken; [apply closing_parses; [done|]|lia]
  | |- parsing (throw _) _ _ => exact I
  | |- parsing (mret _) _ _ => apply wp_ret; split_and!; [assumption|lia|]
  | |- parsing get _ _ => apply wp_get
  | |- parsing (if true then _ else _) _ _ => cbv iota
  | |- parsing (if false then _ else _) _ _ => cbv iota
  | |- parsing (if _ || _ then _ else _) _ _ => cbn [orb]
  end.
Ltac psteps := repeat pstep.

(** ** Expressions *)

Section expressions.
Context (rec : MP expr) (n : nat).
Context (Hrec : ∀ ts, ended ts → (length ts <= n)%nat → parses rec 1 expr_ok ts).

Ltac prec := eapply parses_use; [apply Hrec; [done|lia]|intros ? ? ? ? ?].

Lemma primary_parses ts : ended ts → (length ts <= S n)%nat → parses (primary rec) 1 expr_ok ts.
Proof.
  intros Hts Hl. unfold parses, primary. apply wp_bind, wp_cur; [done|]. intros t Ht Hlive. case_decide as Hk.
  { apply wp_bind, wp_adv; [apply Hlive; congruence|]. intros. by psteps. }
  psteps; try done; try (prec; psteps; done).
  apply wp_adv_any; [done|]. intros f r' Hr.
  case_decide as E1; [|case_decide as E2; [|done]]; (destruct Hr as [? ?]; [right; congruence|]); by psteps.
Qed.

Lemma unary_parses k : ∀ ts, ended ts → (length ts <= S n)%nat → (length ts <= S k)%nat →
  parses (unary rec k) 1 expr_ok ts.
Proof.
  induction k as [|k IH]; intros ts Hts Hl Hk; unfold parses; cbn [unary]; psteps;
    try (by apply primary_parses).
  - destruct (ended_nonempty r); [done|lia..].
  - eapply parses_use; [apply IH; [done|lia..]|intros ? ? ? ? ?]. by psteps.
Qed.

(** A level of the grammar: operators between nodes of the level below. *)
Section level.
Context (ops : list string) (sub : MP expr).
Context (Hsub : ∀ ts, ended ts → (length ts <= S n)%nat → parses sub 1 expr_ok ts).

Lemma binary_loop_parses k : ∀ l ts, expr_ok l → ended ts → (length ts <= S n)%nat → (length ts <= S k)%nat →
  parses (binary_loop ops sub k l) 0 expr_ok ts.
Proof.
  induction k as [|k IH]; intros l ts Hl Hts Hn Hk; unfold parses; cbn [binary_loop]; psteps; try done.
  - destruct H as (t & r & -> & ? & ? & Hr); [done|]. apply ended_nonempty in Hr. simpl in Hk. lia.
  - eapply parses_use; [apply Hsub; [done|lia]|intros e ts' ? ? ?].
    eapply parses_weaken; [apply IH; [by split|done|lia..]|lia].
Qed.

Lemma left_assoc_parses ts : ended ts → (length ts <= S n)%nat → parses (left_assoc ops sub) 1 expr_ok ts.
Proof.
  intros Hts Hl. unfold parses, left_assoc. apply wp_bind.
  eapply parses_use; [by apply Hsub|intros e ts' ? ? ?]. psteps.
  eapply parses_weaken; [apply binary_loop_parses; [done..|lia|lia]|lia].
Qed.
End level.

Lemma unary__parses ts : ended ts → (length ts <= S n)%nat → parses (unary_ rec) 1 expr_ok ts.
Proof. intros. unfold parses, unary_. psteps. by apply unary_parses; [..|lia]. Qed.

Lemma addExpr_parses ts : ended ts → (length ts <= S n)%nat → parses (addExpr rec) 1 expr_ok ts.
Proof. revert ts. apply left_assoc_parses, left_assoc_parses, unary__parses. Qed.

Lemma cmpExpr_parses ts : ended ts → (length ts <= S n)%nat → parses (cmpExpr rec) 1 expr_ok ts.
Proof.
  intros. unfold parses, cmpExpr. apply wp_bind.
  eapply parses_use; [by apply addExpr_parses|intros l ts' ? ? ?]. psteps; [|done].
  eapply parses_use; [apply addExpr_parses; [done|lia]|intros ? ? ? ? ?]. by psteps.
Qed.

Lemma orExpr_parses ts : ended ts → (length ts <= S n)%nat → parses (orExpr rec) 1 expr_ok ts.
Proof. revert ts. apply left_assoc_parses, left_assoc_parses, cmpExpr_parses. Qed.
End expressions.

Lemma expr_parses fuel ts : ended ts → (length ts <= fuel)%nat → parses (expr_ fuel) 1 expr_ok ts.
Proof.
  revert ts. induction fuel as [|f IH]; intros ts Hts Hl; [pose proof (ended_nonempty _ Hts); lia|].
  by apply (orExpr_parses _ f IH).
Qed.

Lemma parse_expr_parses ts : ended ts → parses parse_expr 1 expr_ok ts.
Proof. intros. unfold parses, parse_expr. psteps. by apply expr_parses. Qed.

Ltac pexpr := eapply parses_use; [by apply parse_expr_parses|intros ? ? ? ? ?].

Lemma args_loop_parses k : ∀ args ts, Forall expr_ok args → ended ts → (length ts <= k)%nat →
  parses (args_loop k args) 1 (Forall expr_ok) ts.
Proof.
  induction k as [|k IH]; intros args ts Ha Hts Hl; [pose proof (ended_nonempty _ Hts); lia|].
  unfold parses; cbn [args_loop]. psteps; [done|]. pexpr.
  assert (Forall expr_ok (args ++ [a])) by (apply Forall_app; auto).
  psteps; (eapply parses_weaken; [apply IH; [done..|lia]|lia]).
Qed.

Lemma callArgs_parses ts : ended ts → parses callArgs 2 (Forall expr_ok) ts.
Proof.
  intros. unfold parses, callArgs. psteps.
  eapply parses_weaken; [apply args_loop_parses; [done..|lia]|lia].
Qed.

(** ** Statements *)

Section statements.
Context (rec : MP stmt) (n : nat).
Context (Hrec : ∀ ts, ended ts → (length ts <= n)%nat → parses rec 1 stmt_ok ts).

Lemma block_loop_parses k : ∀ body ts, stmts_ok body → ended ts → (length ts <= n)%nat → (length ts <= k)%nat →
  parses (block_loop rec k body) 1 stmts_ok ts.
Proof.
  induction k as [|k IH]; intros body ts Hb Hts Hn Hl; [pose proof (ended_nonempty _ Hts); lia|].
  unfold parses; cbn [block_loop]. psteps;
    (apply wp_at_eof; [done|intros [] ?]; psteps; try done).
  eapply parses_use; [apply Hrec; [done|lia]|intros s ts' ? ? ?].
  eapply parses_weaken; [apply IH; [by apply stmts_ok_app|done|lia..]|lia].
Qed.

Lemma block_parses ts : ended ts → (length ts <= S n)%nat → parses (block rec) 2 stmts_ok ts.
Proof.
  intros. unfold parses, block. psteps.
  eapply parses_weaken; [apply block_loop_parses; [done..|lia|lia]|lia].
Qed.

Ltac pblock := eapply parses_use; [apply block_parses; [done|lia]|intros ? ? ? ? ?].

Lemma ifStmt_parses ts : live ts → (length ts <= S n)%nat → parses (ifStmt rec) 1 stmt_ok ts.
Proof.
  intros Hts Hl. unfold parses, ifStmt. psteps. pexpr. psteps. pblock. psteps.
  - pblock. by psteps.
  - done.
Qed.

Lemma whileStmt_parses ts : live ts → (length ts <= S n)%nat → parses (whileStmt rec) 1 stmt_ok ts.
Proof. intros Hts Hl. unfold parses, whileStmt. psteps. pexpr. psteps. pblock. by psteps. Qed.

Lemma assignment_parses name ts : ended ts → parses (assignment name) 1 stmt_ok ts.
Proof. intros Hts. unfold parses, assignment. psteps. pexpr. by psteps. Qed.

Lemma stmt_body_parses ts : ended ts → (length ts <= S n)%nat → parses (stmt_body rec) 1 stmt_ok ts.
Proof.
  intros Hts Hl. unfold parses, stmt_body. psteps; try done;
    try (by eapply parses_weaken; [by apply assignment_parses|lia]);
    try (apply ifStmt_parses || apply whileStmt_parses; by auto);
    try (eapply parses_use; [by apply callArgs_parses|intros ? ? ? ? ?]; by psteps);
    pexpr; psteps; try done; pexpr; by psteps.
Qed.
End statements.

Lemma stmt_parses fuel ts : ended ts → (length ts <= fuel)%nat → parses (stmt_ fuel) 1 stmt_ok ts.
Proof.
  revert ts. induction fuel as [|f IH]; intros ts Hts Hl; [pose proof (ended_nonempty _ Hts); lia|].
  by apply (stmt_body_parses _ f IH).
Qed.

Lemma parse_stmt_parses ts : ended ts → parses parse_stmt 1 stmt_ok ts.
Proof. intros. unfold parses, parse_stmt. psteps. by apply stmt_parses. Qed.

Lemma params_loop_parses k : ∀ ps ts, ended ts → (length ts <= k)%nat → parses (params_loop k ps) 0 (λ _, True) ts.
Proof.
  induction k as [|k IH]; intros ps ts Hts Hl; [pose proof (ended_nonempty _ Hts); lia|].
  unfold parses; cbn [params_loop]. psteps; try done;
    (eapply parses_weaken; [apply IH; [done|lia]|lia]).
Qed.

Lemma topLevel_parses ts : ended ts → parses topLevel 1 node_ok ts.
Proof.
  intros Hts. unfold parses, topLevel, fnDecl. psteps; try done.
  - eapply parses_use; [by apply params_loop_parses|intros ps us ? ? _]. psteps.
    eapply parses_use; [apply (block_parses parse_stmt (length ts)); [|done|lia]|].
    { intros. by apply parse_stmt_parses. }
    intros. by psteps.
  - eapply parses_use; [by apply parse_stmt_parses|intros ? ? ? ? ?]. by psteps.
Qed.

Lemma top_loop_parses k : ∀ prog ts, Forall node_ok prog → ended ts → (length ts <= k)%nat →
  parses (top_loop k prog) 0 (Forall node_ok) ts.
Proof.
  induction k as [|k IH]; intros prog ts Hp Hts Hl; [pose proof (ended_nonempty _ Hts); lia|].
  unfold parses; cbn [top_loop]. apply wp_bind, wp_at_eof; [done|intros [] Hlive]; [by psteps|].
  apply wp_bind. eapply parses_use; [by apply topLevel_parses|intros nd ts' ? ? ?].
  eapply parses_weaken; [apply IH; [|done|lia]|lia]. apply Forall_app; auto.
Qed.

(** ** The lexer *)

Lemma skip_length c line src : (length (skip c line src).2 <= length src)%nat.
Proof.
  revert c line. induction src as [|b r IH]; intros c line; [simpl; lia|].
  assert (∀ c' l', (length (skip c' l' r).2 <= length (b :: r))%nat) by (intros; simpl; rewrite IH; lia).
  cbn [skip]. repeat case_match; auto.
Qed.

Lemma span_length p src : let '(a, b) := span p src in (length a + length b = length src)%nat.
Proof. induction src as [|c r IH]; simpl; [done|]. destruct (p c); [|done]. destruct (span p r). simpl. lia. Qed.

Lemma parse_number_ok ds n : parse_number ds = Ok n → is_u64 n.
Proof. unfold parse_number. case_match; [|done]. intros [= <-]. unfold is_u64b, is_u64 in *. lia. Qed.

(** One token: the end marker on an empty input, and something shorter otherwise. *)
Definition token_ok (src : bytes) (r : res (token * bytes)) : Prop :=
  match r with
  | Ok (t, rest) =>
      is_u64 (t_num t) ∧
      (t_kind t = tEOF → t_str t = "") ∧ (t_kind t ≠ tEOF → (length rest < length src)%nat)
  | Err _ => True
  | Panic => False
  end.

Lemma next_token_ok line src : token_ok src (next_token line src).
Proof.
  assert (is_u64 0) by (unfold is_u64, W64; lia).
  destruct src as [|c r]; simpl; [by split_and!|]. case_match eqn:Hd.
  { pose proof (span_length isDigit r). destruct (span isDigit r) as [ds rest].
    unfold mbind, res_bind. case_match eqn:E; simpl; [|done|].
    - split_and!; [by eapply parse_number_ok|done|lia].
    - unfold parse_number in E. by case_match. }
  case_match eqn:Hi.
  { unfold isIdentPart at 1. rewrite Hi. simpl. pose proof (span_length isIdentPart r).
    destruct (span isIdentPart r). simpl. split_and!; [done|done|lia]. }
  case_match eqn:H2.
  { simpl. split_and!; [done|done|]. intros _. rewrite length_drop. lia. }
  case_match; simpl; [|done]. split_and!; [done|done|lia].
Qed.

Lemma lex_loop_total fuel : ∀ line src, (length src < fuel)%nat →
  match lex_loop fuel line src with Ok ts => ended ts | Err _ => True | Panic => False end.
Proof.
  induction fuel as [|f IH]; intros line src Hl; [lia|]. cbn [lex_loop].
  pose proof (skip_length false line src) as Hs. destruct (skip false line src) as [line' src']. simpl in Hs.
  pose proof (next_token_ok line' src') as Ht. unfold mbind, res_bind.
  destruct (next_token line' src') as [[t rest]| |]; simpl in *; [|done..]. destruct Ht as (Hu & He & Hlt).
  case_decide as Hk; [constructor; auto|].
  specialize (Hlt Hk). specialize (IH line' rest ltac:(lia)).
  destruct (lex_loop f line' rest); simpl; [|done..]. by constructor.
Qed.

Lemma Parse_ok src : match Parse src with Ok prog => Forall node_ok prog | Err _ => True | Panic => False end.
Proof.
  unfold Parse, lex. pose proof (lex_loop_total (S (length src)) 1 src ltac:(lia)) as Hlex.
  unfold mbind, res_bind. destruct (lex_loop _ _ _) as [ts|e|]; simpl in *; [|done..].
  pose proof (top_loop_parses (length ts) [] ts (List.Forall_nil _) Hlex (le_n _)) as Hp.
  unfold parses, wp in Hp. by destruct (top_loop _ _ _); [destruct Hp as (? & ? & ?)|..].
Qed.

(** [C9] The lexer and the parser end on every source text, whatever its bytes: they return
    a program all of whose literals are 64-bit words, or report a syntax error.  In
    particular the parser never reads past the last token. *)
Theorem Parse_total src :
  match Parse src with Ok prog => Forall node_ok prog | Err _ => True | Panic => False end.
Proof. apply Parse_ok. Qed.
