(* ===== verification/ShlSem.v ===== *)
(** * SHL: source semantics and reference assembler

    Two descriptions of an SHL program that do not mention labels, fix-ups or the
    stack: what running the source means, with the price of every construct in gas
    and in steps, and what its code is when it is loaded at a given address.
    [ShlGen] proves that [Compile] is the assembler; [ShlCorrect], that the virtual
    machine runs the assembled code the way the source says. *)

From S2P Require Import Prelude Sha256 Vm Shl.
Open Scope string_scope.
Open Scope Z_scope.
Open Scope list_scope.

(** ** Scopes: the slots of the local names, a function of the text alone *)

Record scope := Scope { sc_vars : gmap string Z; sc_next : Z }.

Definition scope0 : scope := Scope ∅ localBase.

Definition alloc (x : string) (Γ : scope) : scope :=
  match sc_vars Γ !! x with
  | Some _ => Γ
  | None => Scope (<[x := sc_next Γ]> (sc_vars Γ)) (u64 (sc_next Γ + 1))
  end.

Section program.
(** The slots of the declared state variables. *)
Context (st : gmap string Z).

Definition lookup_var (Γ : scope) (x : string) : option Z :=
  match sc_vars Γ !! x with Some s => Some s | None => st !! x end.

(** The slot an assignment to [x] writes, in the scope it leaves. *)
Definition bind_name (x : string) (Γ : scope) : scope := match st !! x with Some _ => Γ | None => alloc x Γ end.
Definition target (x : string) (Γ : scope) : Z :=
  match st !! x with Some s => s | None => default (sc_next Γ) (sc_vars Γ !! x) end.

Fixpoint bind_stmt (s : stmt) (Γ : scope) : scope :=
  let binds := fix binds (l : list stmt) (Γ : scope) : scope :=
    match l with [] => Γ | s :: r => binds r (bind_stmt s Γ) end in
  match s with
  | LetStmt x _ => bind_name x Γ
  | IfStmt _ t e => binds e (binds t Γ)
  | WhileStmt _ b => binds b Γ
  | _ => Γ
  end.

Fixpoint binds (l : list stmt) (Γ : scope) : scope :=
  match l with [] => Γ | s :: r => binds r (bind_stmt s Γ) end.

Fixpoint bind_params (ps : list string) (Γ : scope) : scope :=
  match ps with [] => Γ | p :: r => bind_params r (alloc p Γ) end.

(** ** The reference assembler: the code of a construct loaded at address [p] *)

Definition push_ (v : Z) : bytes := op_byte PUSH :: be_bytes 8 v.

Fixpoint asm_expr (Γ : scope) (e : expr) : option bytes :=
  match e with
  | Num v => Some (push_ v)
  | Var x => s ← lookup_var Γ x; Some (push_ s ++ [op_byte SLOAD])
  | Load k => K ← asm_expr Γ k; Some (K ++ [op_byte SLOAD])
  | Index x k => s ← st !! x; K ← asm_expr Γ k; Some (push_ s ++ K ++ [op_byte MIX] ++ [op_byte SLOAD])
  | Builtin f a =>
      match builtin_op f with
      | Some o => Some [op_byte o]
      | None =>
          if decide (f = "arg") then
            match a with Some e => A ← asm_expr Γ e; Some (A ++ [op_byte CDLOAD]) | None => None end
          else None
      end
  | Unary _ x => X ← asm_expr Γ x; Some (X ++ [op_byte ISZERO])
  | Binary op l r => L ← asm_expr Γ l; R ← asm_expr Γ r; os ← op_codes op; Some (L ++ R ++ map op_byte os)
  end.

Fixpoint asm_args (Γ : scope) (l : list expr) : option bytes :=
  match l with [] => Some [] | e :: r => E ← asm_expr Γ e; R ← asm_args Γ r; Some (E ++ R) end.

Fixpoint asm_stmt (Γ : scope) (p : Z) (s : stmt) : option bytes :=
  let asms := fix asms (Γ : scope) (p : Z) (l : list stmt) : option bytes :=
    match l with
    | [] => Some []
    | s :: r => S ← asm_stmt Γ p s; R ← asms (bind_stmt s Γ) (p + zlen S) r; Some (S ++ R)
    end in
  match s with
  | LetStmt x v =>
      V ← asm_expr (bind_name x Γ) v; Some (push_ (target x Γ) ++ V ++ [op_byte SSTORE])
  | IndexStore x k v =>
      sl ← st !! x; K ← asm_expr Γ k; V ← asm_expr Γ v;
      Some (push_ sl ++ K ++ [op_byte MIX] ++ V ++ [op_byte SSTORE])
  | StoreStmt k v => K ← asm_expr Γ k; V ← asm_expr Γ v; Some (K ++ V ++ [op_byte SSTORE])
  | RequireStmt c =>
      C ← asm_expr Γ c;
      Some (C ++ push_ (p + zlen C + 11) ++ [op_byte JUMPI] ++ [op_byte REVERT])
  | RevertStmt => Some [op_byte REVERT]
  | IfStmt c t e =>
      C ← asm_expr Γ c;
      let p1 := p + zlen C + 11 in
      T ← asms Γ p1 t;
      let pe := p1 + zlen T + 10 in
      E ← asms (binds t Γ) pe e;
      Some (C ++ [op_byte ISZERO] ++ push_ pe ++ [op_byte JUMPI] ++ T ++
            push_ (pe + zlen E) ++ [op_byte JUMP] ++ E)
  | WhileStmt c b =>
      C ← asm_expr Γ c;
      let p1 := p + zlen C + 11 in
      B ← asms Γ p1 b;
      Some (C ++ [op_byte ISZERO] ++ push_ (p1 + zlen B + 10) ++ [op_byte JUMPI] ++ B ++
            push_ p ++ [op_byte JUMP])
  | EmitStmt args => A ← asm_args Γ args; Some (A ++ push_ (zlen args) ++ [op_byte LOG])
  | ReturnStmt v => V ← asm_expr Γ v; Some (V ++ [op_byte RETURN])
  | StopStmt => Some [op_byte STOP]
  end.

Fixpoint asms (Γ : scope) (p : Z) (l : list stmt) : option bytes :=
  match l with
  | [] => Some []
  | s :: r => S ← asm_stmt Γ p s; R ← asms (bind_stmt s Γ) (p + zlen S) r; Some (S ++ R)
  end.

(** A function of the contract: its name, its parameters, its body. *)
Abbreviation fn := (string * list string * list stmt)%type.

Fixpoint asm_params (i : Z) (ps : list string) (Γ : scope) : bytes :=
  match ps with
  | [] => []
  | p :: r =>
      push_ (default (sc_next Γ) (sc_vars Γ !! p)) ++ push_ (i + 1) ++ [op_byte CDLOAD] ++ [op_byte SSTORE] ++
      asm_params (i + 1) r (alloc p Γ)
  end.

Definition asm_body (p : Z) (ps : list string) (body : list stmt) : option bytes :=
  let P := asm_params 0 ps scope0 in
  B ← asms (bind_params ps scope0) (p + 1 + zlen P) body;
  Some ([op_byte POP] ++ P ++ B ++ [op_byte STOP]).

(** The bodies one after the other, with their addresses. *)
Fixpoint asm_bodies (p : Z) (fns : list fn) : option (list Z * bytes) :=
  match fns with
  | [] => Some ([], [])
  | (_, ps, body) :: r =>
      B ← asm_body p ps body; R ← asm_bodies (p + zlen B) r; Some (p :: R.1, B ++ R.2)
  end.

Fixpoint asm_router (fns : list fn) (addrs : list Z) : bytes :=
  match fns, addrs with
  | (f, _, _) :: r, a :: rs =>
      [op_byte DUP] ++ push_ (Selector f) ++ [op_byte EQ] ++ push_ a ++ [op_byte JUMPI] ++ asm_router r rs
  | _, _ => []
  end.

Definition asm_dispatch (p : Z) (fns : list fn) : option bytes :=
  B ← asm_bodies (p + 10 + 21 * zlen fns + 2) fns;
  Some (push_ 0 ++ [op_byte CDLOAD] ++ asm_router fns B.1 ++ [op_byte POP] ++ [op_byte REVERT] ++ B.2).

Definition asm_end (p : Z) (fns : list fn) : option bytes :=
  D ← match fns with [] => Some [] | _ :: _ => asm_dispatch p fns end; Some (D ++ [op_byte STOP]).
End program.

#[global] Arguments push_ v : simpl never.

(** The slots of the state variables of a program. *)
Definition state_slots (prog : list node) : gmap string Z :=
  sc_vars (foldl (λ Σ x, alloc x Σ) (Scope ∅ stateBase) (state_names prog)).

Definition asm_program (prog : list node) : option bytes :=
  let st := state_slots prog in
  F ← asms st scope0 0 (flat prog); E ← asm_end st (zlen F) (functions prog); Some (F ++ E).

(** ** The source semantics *)

(** The steps left, the gas used, the contract's words, its events, its answer. *)
Record sst := Sst { x_left : nat; x_used : Z; x_store : gmap Z Z; x_logs : list (list Z); x_ret : Z }.

Definition x_write (k v : Z) (s : sst) : sst :=
  Sst (x_left s) (x_used s) (<[k := v]> (x_store s)) (x_logs s) (x_ret s).
Definition x_charge (n : Z) (s : sst) : sst :=
  Sst (x_left s) (u64 (x_used s + n)) (x_store s) (x_logs s) (x_ret s).
Definition x_log (ts : list Z) (s : sst) : sst :=
  Sst (x_left s) (x_used s) (x_store s) (x_logs s ++ [ts]) (x_ret s).
Definition x_return (v : Z) (s : sst) : sst := Sst (x_left s) (x_used s) (x_store s) (x_logs s) v.

(** [MIX], the key of an entry of a mapping. *)
Definition mix (slot key : Z) : Z := beU64 (take 8 (sha256 (be_bytes 8 slot ++ be_bytes 8 key))).

Section semantics.
Context {H : Type} (input : bytes) (gas : Z) (ctx : Context H) (st : gmap string Z).

Abbreviation MS := (M sst).

(** The price of an operation: one step and its gas. *)
Definition tick (o : opcode) : MS unit :=
  s ← get;
  match x_left s with
  | O => throw ErrStepLimit
  | S n =>
      let u := u64 (x_used s + gasCost (Some o)) in
      if gas <? u then throw ErrOutOfGas else modify (λ s, Sst n u (x_store s) (x_logs s) (x_ret s))
  end.

(** Room for one more word on top of [d]: how deep an expression may nest. *)
Definition room (d : Z) : MS unit := require (d <? maxStack) ErrStackOver.

(** An operation that leaves a word on top of [d]. *)
Definition yield (o : opcode) (d : Z) (r : res Z) : MS Z :=
  tick o ≫= λ _, v ← lift r; room d ≫= λ _, mret v.

Definition sload (d k : Z) : MS Z :=
  tick SLOAD ≫= λ _, s ← get; room d ≫= λ _, mret (default 0 (x_store s !! k)).

Definition negate (x : Z) : MS Z := tick ISZERO ≫= λ _, mret (b2u (x =? 0)).

(** What [+ - * / % == < > && || != <= >=] compute on words. *)
Definition eval_binop (op : string) (d a b : Z) : MS Z :=
  if decide (op = "+") then yield ADDC d (checked ADDC a b)
  else if decide (op = "-") then yield SUBC d (checked SUBC a b)
  else if decide (op = "*") then yield MULC d (checked MULC a b)
  else if decide (op = "/") then yield DIV d (if b =? 0 then Err ErrDivZero else Ok (a / b))
  else if decide (op = "%") then yield MOD d (if b =? 0 then Err ErrDivZero else Ok (a mod b))
  else if decide (op = "==") then yield EQ d (Ok (b2u (a =? b)))
  else if decide (op = "<") then yield LT d (Ok (b2u (a <? b)))
  else if decide (op = ">") then yield GT d (Ok (b2u (b <? a)))
  else if decide (op = "&&") then yield AND d (Ok (Z.land a b))
  else if decide (op = "||") then yield OR d (Ok (Z.lor a b))
  else if decide (op = "!=") then v ← yield EQ d (Ok (b2u (a =? b))); negate v
  else if decide (op = "<=") then v ← yield GT d (Ok (b2u (b <? a))); negate v
  else if decide (op = ">=") then v ← yield LT d (Ok (b2u (a <? b))); negate v
  else throw ErrCompile.

Definition builtin_val (f : string) : option Z :=
  if decide (f = "caller") then Some (c_Caller ctx) else if decide (f = "value") then Some (c_Value ctx)
  else if decide (f = "balance") then Some (c_Balance ctx) else if decide (f = "self") then Some (c_Self ctx)
  else None.

(** [eval Γ d e]: the value of [e], evaluated with [d] words pending. *)
Fixpoint eval (Γ : scope) (d : Z) (e : expr) : MS Z :=
  match e with
  | Num v => yield PUSH d (Ok (u64 v))
  | Var x =>
      match lookup_var st Γ x with
      | Some s => k ← yield PUSH d (Ok (u64 s)); sload d k
      | None => throw ErrCompile
      end
  | Load k => k ← eval Γ d k; sload d k
  | Index x k =>
      match st !! x with
      | Some s =>
          sl ← yield PUSH d (Ok (u64 s)); k ← eval Γ (d + 1) k; m ← yield MIX d (Ok (mix sl k)); sload d m
      | None => throw ErrCompile
      end
  | Builtin f a =>
      match builtin_op f, builtin_val f with
      | Some o, Some v => yield o d (Ok v)
      | _, _ =>
          match a with
          | Some e => i ← eval Γ d e; yield CDLOAD d (word input i)
          | None => throw ErrCompile
          end
      end
  | Unary _ x => v ← eval Γ d x; negate v
  | Binary op l r => a ← eval Γ d l; b ← eval Γ (d + 1) r; eval_binop op d a b
  end.

(** The arguments of [emit], left to right; [acc] are the values before them. *)
Fixpoint eval_args (Γ : scope) (acc : list Z) (l : list expr) : MS (list Z) :=
  match l with
  | [] => mret acc
  | e :: r => v ← eval Γ (zlen acc) e; eval_args Γ (acc ++ [v]) r
  end.

Definition log (topics : list Z) : MS unit :=
  yield PUSH (zlen topics) (Ok (u64 (zlen topics))) ≫= λ _, tick LOG ≫= λ _,
  require (u64 (zlen topics) <=? maxLogTopics) ErrBadCode ≫= λ _, s ← get;
  require (u64 (x_used s + u64 (8 * u64 (zlen topics))) <=? gas) ErrOutOfGas ≫= λ _,
  modify (x_charge (u64 (8 * u64 (zlen topics)))) ≫= λ _, modify (x_log topics).

(** The price of a jump. *)
Definition goto : MS unit := tick PUSH ≫= λ _, tick JUMP.
Definition goto_if : MS unit := tick PUSH ≫= λ _, tick JUMPI.

(** A [while] loop: every turn costs a step, so [x_left] turns are enough. *)
Fixpoint while_loop (n : nat) (cond : MS Z) (body : MS bool) : MS bool :=
  match n with
  | O => throw ErrStepLimit
  | S n' =>
      c ← cond; negate c ≫= λ _, goto_if ≫= λ _,
      if c =? 0 then mret false else
      halted ← body;
      if halted : bool then mret true else goto ≫= λ _, while_loop n' cond body
  end.

(** [true]: the program has halted. *)
Fixpoint exec (Γ : scope) (s : stmt) : MS bool :=
  let execs := fix execs (Γ : scope) (l : list stmt) : MS bool :=
    match l with
    | [] => mret false
    | s :: r => halted ← exec Γ s; if halted : bool then mret true else execs (bind_stmt st s Γ) r
    end in
  match s with
  | LetStmt x e =>
      tick PUSH ≫= λ _, v ← eval (bind_name st x Γ) 1 e; tick SSTORE ≫= λ _,
      modify (x_write (u64 (target st x Γ)) v) ≫= λ _, mret false
  | IndexStore x k v =>
      match st !! x with
      | Some sl =>
          tick PUSH ≫= λ _, k ← eval Γ 1 k; m ← yield MIX 0 (Ok (mix (u64 sl) k)); v ← eval Γ 1 v;
          tick SSTORE ≫= λ _, modify (x_write m v) ≫= λ _, mret false
      | None => throw ErrCompile
      end
  | StoreStmt k v =>
      k ← eval Γ 0 k; v ← eval Γ 1 v; tick SSTORE ≫= λ _, modify (x_write k v) ≫= λ _, mret false
  | RequireStmt c =>
      c ← eval Γ 0 c; goto_if ≫= λ _,
      if c =? 0 then tick REVERT ≫= λ _, throw ErrRevert else mret false
  | RevertStmt => tick REVERT ≫= λ _, throw ErrRevert
  | IfStmt c t e =>
      c ← eval Γ 0 c; negate c ≫= λ _, goto_if ≫= λ _,
      if c =? 0 then execs (binds st t Γ) e
      else halted ← execs Γ t; if halted : bool then mret true else goto ≫= λ _, mret false
  | WhileStmt c b => s ← get; while_loop (x_left s) (eval Γ 0 c) (execs Γ b)
  | EmitStmt args => ts ← eval_args Γ [] args; log ts ≫= λ _, mret false
  | ReturnStmt v => v ← eval Γ 0 v; tick RETURN ≫= λ _, modify (x_return v) ≫= λ _, mret true
  | StopStmt => tick STOP ≫= λ _, mret true
  end.

Fixpoint execs (Γ : scope) (l : list stmt) : MS bool :=
  match l with
  | [] => mret false
  | s :: r => halted ← exec Γ s; if halted : bool then mret true else execs (bind_stmt st s Γ) r
  end.

(** Parameter [i] comes from word [i+1] of the call data. *)
Fixpoint load_params (i : Z) (ps : list string) (Γ : scope) : MS unit :=
  match ps with
  | [] => mret tt
  | p :: r =>
      tick PUSH ≫= λ _, tick PUSH ≫= λ _, v ← yield CDLOAD 1 (word input (u64 (i + 1)));
      tick SSTORE ≫= λ _, modify (x_write (u64 (default (sc_next Γ) (sc_vars Γ !! p))) v) ≫= λ _,
      load_params (i + 1) r (alloc p Γ)
  end.

Definition run_fn (ps : list string) (body : list stmt) : MS unit :=
  tick POP ≫= λ _, load_params 0 ps scope0 ≫= λ _,
  halted ← execs (bind_params ps scope0) body;
  if halted : bool then mret tt else tick STOP.

(** The first function with the selector runs; none: the call is reverted. *)
Fixpoint route (sel : Z) (fns : list (string * list string * list stmt)) : MS unit :=
  match fns with
  | [] => tick POP ≫= λ _, tick REVERT ≫= λ _, throw ErrRevert
  | (f, ps, body) :: r =>
      tick DUP ≫= λ _, tick PUSH ≫= λ _, tick EQ ≫= λ _, goto_if ≫= λ _,
      if sel =? u64 (Selector f) then run_fn ps body else route sel r
  end.

Definition call (fns : list (string * list string * list stmt)) : MS unit :=
  tick PUSH ≫= λ _, sel ← yield CDLOAD 0 (word input 0); route sel fns.
End semantics.

Section run.
Context {H : Type} (input : bytes) (gas : Z) (ctx : Context H).

Definition run_program (prog : list node) : M sst unit :=
  let st := state_slots prog in
  halted ← execs input gas ctx st scope0 (flat prog);
  if halted : bool then mret tt else
  match functions prog with [] => tick gas STOP | _ :: _ => call input gas ctx st (functions prog) end.

(** Running a program as a contract: same interface as [ExecuteB]. *)
Definition Interpret (prog : list node) (storage : gmap Z Z) (bstore : option (gmap Z bytes)) :
    M H (Result * gmap Z Z * option (gmap Z bytes)) := λ h,
  match run_program prog (Sst (Z.to_nat maxSteps) 0 storage [] 0) with
  | OK s _ => OK h (MkResult (x_used s) (x_ret s) [] [] (x_logs s), x_store s, (λ _, default ∅ bstore) <$> bstore)
  | ERR _ e => ERR h e
  | PANIC _ => PANIC h
  end.
End run.
