(* ===== verification/ShlGen.v ===== *)
(** * SHL: the code generator is the reference assembler

    [Compile] emits code with empty operands, records where labels are wanted, and
    writes the addresses at the end ([resolve]).  The result is what [ShlSem]'s
    assembler computes in one pass. *)

From S2P Require Import Prelude Vm Shl ShlParse ShlSem.
Open Scope string_scope.
Open Scope Z_scope.
Open Scope list_scope.

Create HintDb labels.
Create Rewrite HintDb labels.

(** ** Induction on expressions and statements *)

Section induction.
Context (P : expr → Prop).
Context (HNum : ∀ v, P (Num v)) (HVar : ∀ x, P (Var x)) (HLoad : ∀ k, P k → P (Load k)).
Context (HIndex : ∀ x k, P k → P (Index x k)).
Context (HBuiltin0 : ∀ f, P (Builtin f None)) (HBuiltin1 : ∀ f e, P e → P (Builtin f (Some e))).
Context (HUnary : ∀ op x, P x → P (Unary op x)) (HBinary : ∀ op l r, P l → P r → P (Binary op l r)).

Fixpoint expr_induction (e : expr) : P e :=
  match e with
  | Num v => HNum v
  | Var x => HVar x
  | Load k => HLoad k (expr_induction k)
  | Index x k => HIndex x k (expr_induction k)
  | Builtin f None => HBuiltin0 f
  | Builtin f (Some a) => HBuiltin1 f a (expr_induction a)
  | Unary op x => HUnary op x (expr_induction x)
  | Binary op l r => HBinary op l r (expr_induction l) (expr_induction r)
  end.
End induction.

Section stmt_induction.
Context (P : stmt → Prop).
Context (HLet : ∀ x e, P (LetStmt x e)) (HStore : ∀ k v, P (StoreStmt k v)).
Context (HIf : ∀ c t e, Forall P t → Forall P e → P (IfStmt c t e)) (HWhile : ∀ c b, Forall P b → P (WhileStmt c b)).
Context (HEmit : ∀ l, P (EmitStmt l)) (HReturn : ∀ v, P (ReturnStmt v)) (HStop : P StopStmt).
Context (HRequire : ∀ c, P (RequireStmt c)) (HRevert : P RevertStmt) (HIndexS : ∀ x k v, P (IndexStore x k v)).

Fixpoint stmt_induction (s : stmt) : P s :=
  let all := fix all (l : list stmt) : Forall P l :=
    match l with [] => Forall_nil_2 P | s :: r => Forall_cons_2 P s r (stmt_induction s) (all r) end in
  match s with
  | LetStmt x e => HLet x e
  | StoreStmt k v => HStore k v
  | IfStmt c t e => HIf c t e (all t) (all e)
  | WhileStmt c b => HWhile c b (all b)
  | EmitStmt l => HEmit l
  | ReturnStmt v => HReturn v
  | StopStmt => HStop
  | RequireStmt c => HRequire c
  | RevertStmt => HRevert
  | IndexStore x k v => HIndexS x k v
  end.
End stmt_induction.

(** ** Generator states *)

Definition scope_of (g : gen) : scope := Scope (g_vars g) (g_next g).

Definition append (X : bytes) (g : gen) : gen :=
  MkGen (g_code g ++ X) (g_vars g) (g_next g) (g_state g) (g_nextState g) (g_labels g) (g_fixups g).
Definition with_label (g : gen) : gen :=
  MkGen (g_code g) (g_vars g) (g_next g) (g_state g) (g_nextState g) (g_labels g ++ [-1]) (g_fixups g).
Definition marked (l : nat) (g : gen) : gen :=
  MkGen (g_code g) (g_vars g) (g_next g) (g_state g) (g_nextState g) (<[l := zlen (g_code g)]> (g_labels g)) (g_fixups g).
Definition ref (l : nat) (g : gen) : gen :=
  MkGen ((g_code g ++ [op_byte PUSH]) ++ replicate 8 (zb 0)) (g_vars g) (g_next g) (g_state g) (g_nextState g) (g_labels g)
    (g_fixups g ++ [(zlen (g_code g ++ [op_byte PUSH]), l)]).
Definition in_scope (Γ : scope) (g : gen) : gen :=
  MkGen (g_code g) (sc_vars Γ) (sc_next Γ) (g_state g) (g_nextState g) (g_labels g) (g_fixups g).

(** Where the code ends. *)
Definition pc (g : gen) : Z := zlen (g_code g).

Lemma pc_append X g : pc (append X g) = pc g + zlen X.
Proof. unfold pc, zlen; simpl. rewrite length_app. lia. Qed.
Lemma pc_ref l g : pc (ref l g) = pc g + 9.
Proof. unfold pc, zlen; simpl. rewrite !length_app. simpl. lia. Qed.
Lemma pc_marked l g : pc (marked l g) = pc g.
Proof. done. Qed.
Lemma pc_with_label g : pc (with_label g) = pc g.
Proof. done. Qed.
Lemma zlen_one {A} (x : A) : zlen [x] = 1.
Proof. done. Qed.

Lemma append_app X Y g : append (X ++ Y) g = append Y (append X g).
Proof. unfold append; simpl. by rewrite app_assoc. Qed.
Lemma append_nil g : append [] g = g.
Proof. destruct g. unfold append; simpl. by rewrite app_nil_r. Qed.

Lemma emit_ok o g : emit o g = OK (append [op_byte o] g) tt.
Proof. done. Qed.
Lemma scope_in X Γ g : scope_of (append X (in_scope Γ g)) = Γ.
Proof. by destruct Γ. Qed.
Lemma pushU64_ok v g : pushU64 v g = OK (append (push_ v) g) tt.
Proof.
  unfold pushU64. rewrite (bind_ok _ _ _ _ _ (emit_ok PUSH g)). unfold emit_bytes, modify, append, push_; simpl.
  by rewrite <- app_assoc.
Qed.
Lemma mark_ok l g : mark l g = OK (marked l g) tt.
Proof. done. Qed.
Lemma pushLabel_ok l g : pushLabel l g = OK (ref l g) tt.
Proof. done. Qed.
Lemma slot_ok x g :
  slot x g = OK (in_scope (alloc x (scope_of g)) g) (default (g_next g) (g_vars g !! x)).
Proof. unfold slot, alloc, in_scope, mbind, M_bind, get; simpl. destruct g as [c v n s ns ls fx]; simpl. by destruct (v !! x). Qed.

(** ** The text of a state when the labels stand at [F] *)

Definition patch_with (F : nat → Z) (code : bytes) (f : Z * nat) : bytes :=
  take (Z.to_nat f.1) code ++ be_bytes 8 (u64 (F f.2)) ++ drop (Z.to_nat f.1 + 8) code.

Definition text (F : nat → Z) (g : gen) : bytes := foldl (patch_with F) (g_code g) (g_fixups g).


Definition inside (code : bytes) (f : Z * nat) : Prop := 0 <= f.1 ∧ f.1 + 8 <= zlen code.
Definition wf (g : gen) : Prop := Forall (inside (g_code g)) (g_fixups g).

Lemma inside_length code code' f : length code = length code' → inside code f → inside code' f.
Proof. unfold inside, zlen. by intros ->. Qed.
Lemma inside_app code b f : inside code f → inside (code ++ b) f.
Proof. unfold inside, zlen. rewrite length_app. lia. Qed.

Lemma length_patch_with F code f : inside code f → length (patch_with F code f) = length code.
Proof.
  unfold inside, zlen, patch_with. intros ?. rewrite !length_app, length_take, length_drop, length_be_bytes. lia.
Qed.

Lemma patch_with_app F code b f : inside code f → patch_with F (code ++ b) f = patch_with F code f ++ b.
Proof.
  unfold inside, zlen, patch_with. intros ?.
  rewrite take_app_le, drop_app_le, <- !app_assoc by lia. done.
Qed.

Lemma patches F fx : ∀ code, Forall (inside code) fx → length (foldl (patch_with F) code fx) = length code ∧
  ∀ b, foldl (patch_with F) (code ++ b) fx = foldl (patch_with F) code fx ++ b.
Proof.
  induction fx as [|f fx IH]; intros code Hfx; [done|]. apply Forall_cons in Hfx as [Hf Hfx]. cbn [foldl].
  destruct (IH (patch_with F code f)) as [IH1 IH2].
  { eapply Forall_impl; [exact Hfx|]. intros x. apply inside_length. by rewrite length_patch_with. }
  rewrite IH1, length_patch_with by done. split; [done|]. intros b. by rewrite patch_with_app, IH2.
Qed.

Lemma be_bytes_u64 v : be_bytes 8 (u64 v) = be_bytes 8 v.
Proof.
  apply be_val_inj; [by rewrite !length_be_bytes|]. rewrite !be_val_be_bytes. unfold u64. rewrite W64_pow.
  by rewrite Z.mod_mod by done.
Qed.

(** [Step F g g' X]: [g'] has the text of [g] followed by [X]. *)
Record Step (F : nat → Z) (g g' : gen) (X : bytes) : Prop := {
  step_wf : wf g → wf g';
  step_len : pc g' = pc g + zlen X;
  step_state : g_state g' = g_state g;
  step_nextState : g_nextState g' = g_nextState g;
  step_text : wf g → text F g' = text F g ++ X;
}.

Lemma zlen_push_ v : zlen (push_ v) = 9.
Proof. done. Qed.

Lemma Step_refl F g : Step F g g [].
Proof. split; [done| |done..|]; rewrite ?app_nil_r; [unfold zlen; simpl; lia|done]. Qed.

Lemma Step_trans F g1 g2 g3 X Y : Step F g1 g2 X → Step F g2 g3 Y → Step F g1 g3 (X ++ Y).
Proof.
  intros [w1 l1 s1 n1 t1] [w2 l2 s2 n2 t2]. split; [auto| |congruence..|].
  - rewrite l2, l1. unfold zlen. rewrite length_app. lia.
  - intros. by rewrite t2, t1, app_assoc by auto.
Qed.

Lemma Step_append F g X : Step F g (append X g) X.
Proof.
  split; [| |done..|].
  - intros Hw. eapply Forall_impl; [exact Hw|]. intros. by apply inside_app.
  - apply pc_append.
  - intros Hw. by apply patches.
Qed.

Lemma Step_with_label F g : Step F g (with_label g) [].
Proof. destruct (Step_refl F g). by split. Qed.
Lemma Step_marked F l g : Step F g (marked l g) [].
Proof. destruct (Step_refl F g). by split. Qed.
Lemma Step_in_scope F Γ g : Step F g (in_scope Γ g) [].
Proof. destruct (Step_refl F g). by split. Qed.

#[export] Hint Rewrite zlen_push_ : labels.

Lemma Step_ref F l g : Step F g (ref l g) (push_ (F l)).
Proof.
  pose proof (zlen_push_ (F l)) as Hl.
  split; [| |done..|].
  - intros Hw. apply Forall_app; split.
    + eapply Forall_impl; [exact Hw|]. intros. by do 2 apply inside_app.
    + apply Forall_singleton. unfold inside, zlen. simpl. rewrite !length_app. simpl. lia.
  - rewrite Hl. apply pc_ref.
  - intros Hw. unfold text; cbn [g_fixups g_code ref]. destruct (patches F (g_fixups g) (g_code g) Hw) as [P1 P2].
    rewrite foldl_app, <- app_assoc, P2. cbn [foldl]. unfold patch_with; cbn [fst snd].
    set (T := foldl _ _ _) in *. assert (Z.to_nat (zlen (g_code g ++ [op_byte PUSH])) = length (T ++ [op_byte PUSH])) as ->.
    { unfold zlen. rewrite !length_app, P1. lia. }
    rewrite be_bytes_u64.
    rewrite (app_assoc T), take_app_length, drop_ge, app_nil_r by (rewrite !length_app, length_replicate; simpl; lia).
    by rewrite <- app_assoc.
Qed.

(** ** Labels: a fragment allocates labels and marks those it allocated *)

(** The address of label [l], how many labels there are. *)
Definition addr (l : nat) (g : gen) : Z := nth l (g_labels g) (-1).
Definition labels (g : gen) : nat := length (g_labels g).

Lemma addr_marked l k g : addr l (marked k g) = if decide (l = k ∧ (k < labels g)%nat) then pc g else addr l g.
Proof.
  unfold addr, labels. simpl. rewrite !nth_lookup. destruct (decide (l = k)) as [->|].
  - destruct (decide (k < length (g_labels g))%nat); [by rewrite decide_True, list_lookup_insert_eq by done|].
    rewrite decide_False by tauto. by rewrite list_insert_ge by lia.
  - rewrite decide_False by tauto. by rewrite list_lookup_insert_ne.
Qed.
Lemma addr_marked_in l k g : (k < labels g)%nat → addr l (marked k g) = if decide (l = k) then pc g else addr l g.
Proof. intros Hk. rewrite addr_marked. destruct (decide (l = k)); [by rewrite decide_True|by rewrite decide_False by tauto]. Qed.
Lemma addr_with_label l g : addr l (with_label g) = addr l g.
Proof.
  unfold addr. simpl. destruct (decide (l < length (g_labels g))%nat); [by rewrite app_nth1|].
  rewrite app_nth2, (nth_overflow (g_labels g)) by lia. destruct (l - length (g_labels g))%nat as [|[]]; done.
Qed.
Lemma addr_append l X g : addr l (append X g) = addr l g.
Proof. done. Qed.
Lemma addr_ref l k g : addr l (ref k g) = addr l g.
Proof. done. Qed.
Lemma labels_marked k g : labels (marked k g) = labels g.
Proof. apply length_insert. Qed.
Lemma labels_with_label g : labels (with_label g) = S (labels g).
Proof. unfold labels. simpl. rewrite length_app. simpl. lia. Qed.
Lemma labels_append X g : labels (append X g) = labels g.
Proof. done. Qed.
Lemma labels_ref k g : labels (ref k g) = labels g.
Proof. done. Qed.

Lemma newLabel_ok g : newLabel g = OK (with_label g) (labels g).
Proof. done. Qed.

Lemma resolve_text g : resolve g = text (λ l, addr l g) g.
Proof. done. Qed.

#[export] Hint Rewrite addr_marked addr_with_label addr_append addr_ref labels_marked labels_with_label
  labels_append labels_ref : labels.


#[export] Hint Rewrite pc_append pc_ref pc_marked pc_with_label @zlen_one : labels.

(** Label arithmetic of the states of one statement. *)
Ltac labels_tac := autorewrite with labels in *; repeat case_decide; try lia; try done.

Record Labels (g g' : gen) : Prop := {
  labels_len : (labels g <= labels g')%nat;
  labels_old : ∀ l, (l < labels g)%nat → addr l g' = addr l g;
}.

(** [F] gives the labels allocated between [g] and [g'] their addresses. *)
Definition agree (F : nat → Z) (g g' : gen) : Prop :=
  ∀ l, (labels g <= l < labels g')%nat → F l = addr l g'.

(** [Ext g g' X]: from [g] to [g'] the generator adds [X]. *)
Record Ext (g g' : gen) (X : bytes) : Prop := {
  ext_labels : Labels g g';
  ext_step : ∀ F, agree F g g' → Step F g g' X;
}.

Lemma Labels_same g g' : g_labels g' = g_labels g → Labels g g'.
Proof. unfold labels, addr. intros E. split; unfold labels, addr; rewrite E; auto. Qed.
Lemma Labels_trans g1 g2 g3 : Labels g1 g2 → Labels g2 g3 → Labels g1 g3.
Proof. intros [l1 o1] [l2 o2]. split; [lia|]. intros l Hl. rewrite o2, o1 by lia. done. Qed.

Lemma Ext_trans g1 g2 g3 X Y : Ext g1 g2 X → Ext g2 g3 Y → Ext g1 g3 (X ++ Y).
Proof.
  intros [L1 S1] [L2 S2]. split; [by eapply Labels_trans|]. intros F HF. apply (Step_trans _ _ g2).
  - apply S1. intros l Hl. destruct L1, L2. rewrite HF by lia. apply labels_old1. lia.
  - apply S2. intros l Hl. destruct L1. apply HF. lia.
Qed.
Lemma Ext_append g X : Ext g (append X g) X.
Proof. split; [by apply Labels_same|]. intros. apply Step_append. Qed.
Lemma Ext_in_scope Γ g : Ext g (in_scope Γ g) [].
Proof. split; [by apply Labels_same|]. intros. apply Step_in_scope. Qed.

Lemma Ext_code g g' X : Ext g g' X → pc g' = pc g + zlen X ∧ g_state g' = g_state g.
Proof. intros [_ S]. destruct (S (λ l, addr l g') (λ l _, eq_refl)). done. Qed.

(** ** Expressions: no labels, the same scope *)

(** [m] adds the bytes [A], and fails where there are none. *)
Definition emits (m : MG unit) (g : gen) (A : option bytes) : Prop :=
  wp m (λ _ g', ∃ X, A = Some X ∧ g' = append X g) (λ e _, e = ErrCompile ∧ A = None) (λ _, False) g.

Lemma emits_eq m g A A' : emits m g A → A = A' → emits m g A'.
Proof. by intros ? <-. Qed.

Lemma emits_bind m k g A B :
  emits m g A → (∀ X, A = Some X → emits k (append X g) B) →
  emits (m ≫= λ _, k) g (X ← A; Y ← B; Some (X ++ Y)).
Proof.
  intros Hm Hk. apply wp_bind. eapply wp_mono; [..|exact Hm]; simpl.
  - intros _ ? (X & HA & ->). eapply wp_mono; [..|exact (Hk X HA)]; subst A; simpl.
    + intros _ ? (Y & -> & ->). eexists. split; [done|by rewrite append_app].
    + by intros e ? [-> ->].
    + done.
  - by intros e ? [-> ->].
  - done.
Qed.

Lemma emits_emit o g : emits (emit o) g (Some [op_byte o]).
Proof. unfold emits, wp. rewrite emit_ok. eauto. Qed.
Lemma emits_push v g : emits (pushU64 v) g (Some (push_ v)).
Proof. unfold emits, wp. rewrite pushU64_ok. eauto. Qed.
Lemma emits_nothing g : emits (mret tt) g (Some []).
Proof. exists []. by rewrite append_nil. Qed.
Lemma emits_all l g : emits (emit_all l) g (Some (map op_byte l)).
Proof.
  revert g. induction l as [|o l IH]; intros g; [apply emits_nothing|].
  eapply emits_eq; [apply emits_bind; [apply emits_emit|intros; apply IH]|done].
Qed.
Lemma emits_binop op g : emits (gen_binop op) g (map op_byte <$> op_codes op).
Proof. unfold gen_binop. destruct (op_codes op); [apply emits_all|done]. Qed.

Lemma emits_state_slot x (k : Z → MG unit) g B :
  (∀ s, g_state g !! x = Some s → emits (k s) g (B s)) →
  emits (state_slot x ≫= k) g (s ← g_state g !! x; B s).
Proof.
  intros Hk. unfold state_slot, emits. apply wp_bind, wp_bind, wp_get.
  destruct (g_state g !! x) as [s|]; [by apply Hk|done].
Qed.

(** The state before the bytes added since. *)
Ltac base g := match g with append _ ?g' => base g' | _ => g end.

Ltac emits_tac :=
  cbv beta; match goal with
  | |- emits (_ ≫= λ _, _) _ _ => apply emits_bind; [emits_tac|intros ? ?; emits_tac]
  | |- emits (emit _) _ _ => apply emits_emit
  | |- emits (pushU64 _) _ _ => apply emits_push
  | |- emits (gen_binop _) _ _ => apply emits_binop
  | H : ∀ g, emits ?m g (@?A g) |- emits ?m ?g' _ =>
      let g0 := base g' in let T := eval cbv beta in (A g0) in exact (H g' : emits m g' T)
  end.

(** The monadic shape of the assembler's equations. *)
Ltac asm_eq :=
  unfold scope_of, mbind, option_bind, fmap, option_fmap, option_map; simpl;
  repeat (let E := fresh in case_match eqn:E; try done; simplify_eq); rewrite <- ?app_assoc; done.

Lemma gen_expr_ok e : ∀ g, emits (gen_expr e) g (asm_expr (g_state g) (scope_of g) e).
Proof.
  induction e as [v|x|k IH|x k IH|f|f e IH|op x IH|op l r IHl IHr] using expr_induction; intros g; cbn [gen_expr asm_expr].
  - apply emits_push.
  - unfold emits. apply wp_bind, wp_get. unfold lookup_var; simpl. destruct (g_vars g !! x) as [s|].
    + eapply emits_eq; [emits_tac|done].
    + eapply emits_eq; [apply emits_state_slot; intros; emits_tac|done].
  - eapply emits_eq; [emits_tac|asm_eq].
  - eapply emits_eq; [apply emits_state_slot; intros; emits_tac|]. asm_eq.
  - destruct (builtin_op f); [apply emits_emit|]. by case_decide.
  - destruct (builtin_op f); [apply emits_emit|]. case_decide; [|done].
    eapply emits_eq; [emits_tac|asm_eq].
  - eapply emits_eq; [emits_tac|asm_eq].
  - eapply emits_eq; [emits_tac|asm_eq].
Qed.

Lemma gen_args_ok l : ∀ g, emits (gen_args l) g (asm_args (g_state g) (scope_of g) l).
Proof.
  induction l as [|e l IH]; intros g; cbn [gen_args asm_args]; [apply emits_nothing|].
  apply emits_bind; [apply gen_expr_ok|]. intros X _. exact (IH (append X g)).
Qed.

(** ** Statements *)

(** [m], run from [g], leaves the scope [Γ'] and a text that extends the text of [g0]
    by [A], or fails where there is none. *)
Definition builds_from (g0 : gen) (m : MG unit) (g : gen) (Γ' : scope) (A : option bytes) : Prop :=
  wp m (λ _ g', scope_of g' = Γ' ∧ ∃ X, A = Some X ∧ Ext g0 g' X) (λ e _, e = ErrCompile ∧ A = None) (λ _, False) g.

Abbreviation builds m g Γ' A := (builds_from g m g Γ' A).

Lemma from_prim {B} g0 (m : MG B) k g g' a Γ A :
  m g = OK g' a → builds_from g0 (k a) g' Γ A → builds_from g0 (m ≫= k) g Γ A.
Proof. intros E. unfold builds_from, wp. by rewrite (bind_ok _ _ _ _ _ E). Qed.

Lemma from_emits g0 m k g Γ A K :
  emits m g A → (∀ C, A = Some C → builds_from g0 k (append C g) Γ (K C)) →
  builds_from g0 (m ≫= λ _, k) g Γ (A ≫= K).
Proof.
  intros Hm Hk. apply wp_bind. eapply wp_mono; [..|exact Hm]; [|by intros e ? [-> ->]|done].
  intros _ ? (C & HA & ->). rewrite HA. by apply Hk.
Qed.

Lemma from_builds g0 m k g Γ1 Γ A K :
  builds m g Γ1 A → (∀ T g', A = Some T → scope_of g' = Γ1 → Ext g g' T → builds_from g0 k g' Γ (K T)) →
  builds_from g0 (m ≫= λ _, k) g Γ (A ≫= K).
Proof.
  intros Hm Hk. apply wp_bind. eapply wp_mono; [..|exact Hm]; [|by intros e ? [-> ->]|done].
  intros _ g' (Hs & T & -> & HT). by apply Hk.
Qed.

(** The last operation. *)
Lemma from_last g0 (m : MG unit) g g' Γ X :
  m g = OK g' tt → scope_of g' = Γ → Ext g0 g' X → builds_from g0 m g Γ (Some X).
Proof. intros E ? ?. unfold builds_from, wp. rewrite E. eauto. Qed.

Lemma emits_builds m g A : emits m g A → builds m g (scope_of g) A.
Proof.
  intros Hm. eapply wp_mono; [..|exact Hm]; [|done..]. intros _ ? (X & -> & ->). split; [done|].
  exists X. split; [done|apply Ext_append].
Qed.

(** The same from a state whose scope has just been changed. *)
Lemma emits_builds_in m g Γ A : emits m (in_scope Γ g) A → builds_from g m (in_scope Γ g) Γ A.
Proof.
  intros Hm. eapply wp_mono; [..|exact Hm]; [|done..]. intros _ ? (X & -> & ->). split; [by destruct Γ|].
  exists X. split; [done|]. apply (Ext_trans _ (in_scope Γ g) _ []); [apply Ext_in_scope|apply Ext_append].
Qed.

Lemma builds_bind m k g Γ1 Γ2 A B :
  builds m g Γ1 A →
  (∀ g' X, A = Some X → scope_of g' = Γ1 → g_state g' = g_state g → pc g' = pc g + zlen X → builds k g' Γ2 (B X)) →
  builds (m ≫= λ _, k) g Γ2 (X ← A; Y ← B X; Some (X ++ Y)).
Proof.
  intros Hm Hk. eapply from_builds; [exact Hm|]. intros X g' HA Hs HX. destruct (Ext_code _ _ _ HX) as [Hl Hst].
  eapply wp_mono; [..|exact (Hk g' X HA Hs Hst Hl)]; simpl; [|by intros e ? [-> ->]|done].
  intros _ g'' (Hs' & Y & -> & HY). split; [done|]. eexists. split; [done|by eapply Ext_trans].
Qed.

Lemma gen_stmt_if c t e : gen_stmt (IfStmt c t e) =
  elseL ← newLabel; endL ← newLabel;
  gen_expr c ≫= λ _, emit ISZERO ≫= λ _, pushLabel elseL ≫= λ _, emit JUMPI ≫= λ _,
  gen_stmts t ≫= λ _, pushLabel endL ≫= λ _, emit JUMP ≫= λ _,
  mark elseL ≫= λ _, gen_stmts e ≫= λ _, mark endL.
Proof. done. Qed.
Lemma gen_stmt_while c b : gen_stmt (WhileStmt c b) =
  startL ← newLabel; endL ← newLabel;
  mark startL ≫= λ _, gen_expr c ≫= λ _, emit ISZERO ≫= λ _, pushLabel endL ≫= λ _, emit JUMPI ≫= λ _,
  gen_stmts b ≫= λ _, pushLabel startL ≫= λ _, emit JUMP ≫= λ _, mark endL.
Proof. done. Qed.
Lemma asm_stmt_if st Γ p c t e : asm_stmt st Γ p (IfStmt c t e) =
  C ← asm_expr st Γ c; T ← asms st Γ (p + zlen C + 11) t;
  let pe := p + zlen C + 11 + zlen T + 10 in
  E ← asms st (binds st t Γ) pe e;
  Some (C ++ [op_byte ISZERO] ++ push_ pe ++ [op_byte JUMPI] ++ T ++ push_ (pe + zlen E) ++ [op_byte JUMP] ++ E).
Proof. done. Qed.
Lemma asm_stmt_while st Γ p c b : asm_stmt st Γ p (WhileStmt c b) =
  C ← asm_expr st Γ c; B ← asms st Γ (p + zlen C + 11) b;
  Some (C ++ [op_byte ISZERO] ++ push_ (p + zlen C + 11 + zlen B + 10) ++ [op_byte JUMPI] ++ B ++
        push_ p ++ [op_byte JUMP]).
Proof. done. Qed.

Definition stmt_spec (s : stmt) : Prop := ∀ g,
  builds (gen_stmt s) g (bind_stmt (g_state g) s (scope_of g)) (asm_stmt (g_state g) (scope_of g) (pc g) s).

Lemma gen_stmts_ok l : Forall stmt_spec l → ∀ g,
  builds (gen_stmts l) g (binds (g_state g) l (scope_of g)) (asms (g_state g) (scope_of g) (pc g) l).
Proof.
  induction 1 as [|s l Hs _ IH]; intros g; cbn [gen_stmts binds asms].
  - split; [done|]. exists []. split; [done|]. rewrite <- (append_nil g) at 2. apply Ext_append.
  - eapply builds_bind; [apply Hs|]. intros g' X _ Hsc Hst Hl.
    specialize (IH g'). by rewrite Hsc, Hst, Hl in IH.
Qed.

Lemma let_slot x g :
  (match g_state g !! x with Some s => mret s | None => slot x end) g =
  OK (in_scope (bind_name (g_state g) x (scope_of g)) g) (target (g_state g) x (scope_of g)).
Proof.
  unfold bind_name, target. destruct (g_state g !! x); [by destruct g|].
  by rewrite slot_ok.
Qed.

(** Run a primitive of the generator. *)
Ltac prim :=
  eapply from_prim; [first [apply newLabel_ok|apply emit_ok|apply pushLabel_ok|apply mark_ok|apply pushU64_ok]|].

Lemma gen_expr_in Γ X v g : emits (gen_expr v) (append X (in_scope Γ g)) (asm_expr (g_state g) Γ v).
Proof. destruct Γ. apply gen_expr_ok. Qed.

(** The scope and the declared names of an earlier state. *)
Lemma gen_expr_at v g g' : g_state g' = g_state g → scope_of g' = scope_of g →
  emits (gen_expr v) g' (asm_expr (g_state g) (scope_of g) v).
Proof. intros <- <-. apply gen_expr_ok. Qed.
Lemma gen_stmts_at l st Γ p g : Forall stmt_spec l → g_state g = st → scope_of g = Γ → pc g = p →
  builds (gen_stmts l) g (binds st l Γ) (asms st Γ p l).
Proof. intros ? <- <- <-. by apply gen_stmts_ok. Qed.

Lemma gen_let_ok x v : stmt_spec (LetStmt x v).
Proof.
  intros g. cbn [gen_stmt bind_stmt asm_stmt]. eapply from_prim; [done|]. eapply from_prim; [apply let_slot|]. apply emits_builds_in.
  eapply emits_eq.
  - apply emits_bind; [apply emits_push|intros ? _]. apply emits_bind; [|intros ? _; apply emits_emit].
    apply gen_expr_in.
  - simpl. asm_eq.
Qed.

(** The next part of the text. *)
Ltac step_by lem := eapply Step_trans; [apply lem|].

Lemma gen_require_ok c : stmt_spec (RequireStmt c).
Proof.
  intros g. cbn [gen_stmt bind_stmt asm_stmt]. prim.
  eapply from_emits; [by apply (gen_expr_at c g)|]. intros C HC. do 3 prim.
  eapply from_last; [apply mark_ok|done|]. split.
  - split; [labels_tac|]. intros l Hl. labels_tac.
  - intros F HF. assert (F (labels g) = pc g + zlen C + 11) as EF by (rewrite HF by labels_tac; labels_tac).
    rewrite <- EF, <- (app_nil_l (C ++ _)). step_by Step_with_label. step_by Step_append. step_by Step_ref.
    step_by Step_append. rewrite <- (app_nil_r [op_byte REVERT]). step_by Step_append. apply Step_marked.
Qed.

Lemma gen_if_ok c t e : Forall stmt_spec t → Forall stmt_spec e → stmt_spec (IfStmt c t e).
Proof.
  intros Ht He g. rewrite gen_stmt_if, asm_stmt_if. do 2 prim. rewrite labels_with_label.
  eapply from_emits; [by apply (gen_expr_at c g)|]. intros C HC. do 3 prim.
  set (n := labels g). set (g1 := append [op_byte JUMPI] _).
  assert (labels g1 = S (S n) ∧ pc g1 = pc g + zlen C + 11) as [N1 P1] by (unfold g1, n; split; labels_tac).
  eapply from_builds; [by apply gen_stmts_at|]. intros T g2 HT Hs2 HX2.
  destruct (Ext_code _ _ _ HX2) as [P2 S2], HX2 as [L2 X2]. do 3 prim. set (g3 := marked n _).
  assert (labels g3 = labels g2 ∧ pc g3 = pc g2 + 10) as [N3 P3] by (unfold g3; split; labels_tac).
  eapply from_builds; [apply gen_stmts_at; [done..|exact Hs2|rewrite P3, P2, P1; reflexivity]|]. intros E g4 HE Hs4 HX4.
  destruct (Ext_code _ _ _ HX4) as [P4 _], HX4 as [L4 X4].
  eapply from_last; [apply mark_ok|exact Hs4|]. destruct L2 as [N2 A2], L4 as [N4 A4].
  assert (∀ l, (l < labels g2)%nat → addr l (marked (S n) g4) =
    if decide (l = S n) then pc g4 else if decide (l = n) then pc g3 else addr l g2) as A5.
  { intros l Hl. rewrite addr_marked_in, A4 by lia. unfold g3. by rewrite addr_marked_in by labels_tac. }
  split.
  - split; [labels_tac|]. intros l Hl. rewrite A5 by lia. repeat case_decide; [lia..|].
    rewrite A2 by lia. unfold g1. labels_tac.
  - intros F HF.
    assert (F n = pc g3) as En by (rewrite HF, A5 by labels_tac; labels_tac).
    assert (F (S n) = pc g4) as Es by (rewrite HF, A5 by labels_tac; labels_tac).
    replace (pc g + zlen C + 11 + zlen T + 10) with (pc g3) by lia. rewrite <- P4, <- En, <- Es.
    rewrite <- (app_nil_l (C ++ _)), <- (app_nil_r E).
    eapply Step_trans; [rewrite <- (app_nil_l []); step_by Step_with_label; apply Step_with_label|].
    do 2 step_by Step_append. step_by Step_ref. step_by Step_append.
    eapply Step_trans; [apply X2|]. 
    { intros l Hl. rewrite HF, A5 by labels_tac. labels_tac. }
    step_by Step_ref. eapply Step_trans; [rewrite <- (app_nil_r [_]); step_by Step_append; apply Step_marked|].
    eapply Step_trans; [apply X4|apply Step_marked].
    intros l Hl. rewrite HF; labels_tac.
Qed.

Lemma gen_while_ok c b : Forall stmt_spec b → stmt_spec (WhileStmt c b).
Proof.
  intros Hb g. rewrite gen_stmt_while, asm_stmt_while. do 3 prim. rewrite labels_with_label. set (n := labels g).
  eapply from_emits; [by apply (gen_expr_at c g)|]. intros C HC. do 3 prim.
  set (g0 := marked n _). set (g1 := append [op_byte JUMPI] _).
  assert (labels g1 = S (S n) ∧ pc g1 = pc g + zlen C + 11) as [N1 P1] by (unfold g1, g0, n; split; labels_tac).
  eapply from_builds; [by apply gen_stmts_at|]. intros B g2 HB Hs2 HX2.
  destruct (Ext_code _ _ _ HX2) as [P2 S2], HX2 as [[N2 A2] X2]. do 2 prim. set (g3 := append _ _).
  assert (labels g3 = labels g2 ∧ pc g3 = pc g2 + 10) as [N3 P3] by (unfold g3; split; labels_tac).
  eapply from_last; [apply mark_ok|exact Hs2|].
  assert (∀ l, addr l (marked (S n) g3) = if decide (l = S n) then pc g3 else addr l g2) as A5.
  { intros l. by rewrite addr_marked_in by lia. }
  assert (∀ l, addr l g1 = if decide (l = n) then pc g else addr l g) as A1.
  { intros l. unfold g1, g0, n. rewrite addr_append, addr_ref, !addr_append, addr_marked_in by labels_tac. by autorewrite with labels. }
  split.
  - split; [labels_tac|]. intros l Hl. rewrite A5, A2, A1 by lia. repeat case_decide; lia.
  - intros F HF.
    assert (F n = pc g) as En by (rewrite HF, A5, A2, A1 by labels_tac; repeat case_decide; lia).
    assert (F (S n) = pc g3) as Es by (rewrite HF, A5 by labels_tac; labels_tac).
    replace (pc g + zlen C + 11 + zlen B + 10) with (pc g3) by lia. rewrite <- En, <- Es.
    rewrite <- (app_nil_l (C ++ _)), <- (app_nil_r [op_byte JUMP]).
    eapply Step_trans; [rewrite <- (app_nil_l []); step_by Step_with_label; rewrite <- (app_nil_l []); step_by Step_with_label; apply Step_marked|].
    do 2 step_by Step_append. step_by Step_ref. step_by Step_append.
    eapply Step_trans; [apply X2|step_by Step_ref; step_by Step_append; apply Step_marked].
    intros l Hl. rewrite HF, A5 by labels_tac. labels_tac.
Qed.

Lemma gen_stmt_ok s : stmt_spec s.
Proof.
  induction s as [x v|k v|c t e Ht He|c b Hb|l|v| |c| |x k v] using stmt_induction.
  - apply gen_let_ok.
  - intros g. apply emits_builds. eapply emits_eq.
    + cbn [gen_stmt]. apply emits_bind; [apply gen_expr_ok|intros ? _]. apply emits_bind; [by apply (gen_expr_at v g)|].
      intros; apply emits_emit.
    + simpl. asm_eq.
  - by apply gen_if_ok.
  - by apply gen_while_ok.
  - intros g. apply emits_builds. eapply emits_eq.
    + cbn [gen_stmt]. apply emits_bind; [apply gen_args_ok|intros ? _]. emits_tac.
    + simpl. asm_eq.
  - intros g. apply emits_builds. eapply emits_eq.
    + cbn [gen_stmt]. apply emits_bind; [apply gen_expr_ok|intros ? _]. emits_tac.
    + simpl. asm_eq.
  - intros g. apply emits_builds, emits_emit.
  - apply gen_require_ok.
  - intros g. apply emits_builds, emits_emit.
  - intros g. apply emits_builds. eapply emits_eq.
    + cbn [gen_stmt]. apply emits_state_slot. intros s _. apply emits_bind; [apply emits_push|intros ? _].
      apply emits_bind; [by apply (gen_expr_at k g)|intros ? _]. apply emits_bind; [apply emits_emit|intros ? _].
      apply emits_bind; [by apply (gen_expr_at v g)|intros ? _]. apply emits_emit.
    + simpl. asm_eq.
Qed.

Lemma gen_block_at l st Γ p g : g_state g = st → scope_of g = Γ → pc g = p →
  builds (gen_stmts l) g (binds st l Γ) (asms st Γ p l).
Proof. apply gen_stmts_at, Forall_forall. intros s _. apply gen_stmt_ok. Qed.

(** ** Programs *)

Lemma decl_states_ok l : ∀ g, decl_states l g =
  let Σ := foldl (λ Σ x, alloc x Σ) (Scope (g_state g) (g_nextState g)) l in
  OK (MkGen (g_code g) (g_vars g) (g_next g) (sc_vars Σ) (sc_next Σ) (g_labels g) (g_fixups g)) tt.
Proof.
  induction l as [|x l IH]; intros [c v n s ns ls fx]; cbn [decl_states]; [done|].
  unfold declState. erewrite bind_ok; [|done]. cbv beta. rewrite IH. cbn [foldl]. unfold alloc. simpl. by destruct (s !! x).
Qed.

Lemma gen_params_ok ps : ∀ i g, gen_params i ps g =
  OK (append (asm_params i ps (scope_of g)) (in_scope (bind_params ps (scope_of g)) g)) tt.
Proof.
  induction ps as [|p ps IH]; intros i g; cbn [gen_params asm_params bind_params].
  - rewrite append_nil. by destruct g.
  - rewrite (bind_ok _ _ _ _ _ (slot_ok p g)), !(bind_ok _ _ _ _ _ (pushU64_ok _ _)), !(bind_ok _ _ _ _ _ (emit_ok _ _)), IH.
    set (s := default _ _). set (Γ := alloc p (scope_of g)).
    replace (scope_of _) with Γ by by destruct Γ.
    unfold append, in_scope. simpl. by rewrite <- !app_assoc.
Qed.

(** The labels of the functions are allocated by the router. *)
Lemma gen_router_ok fns : ∀ g, ∃ g',
  gen_router fns g = OK g' (seq (labels g) (length fns)) ∧
  labels g' = (labels g + length fns)%nat ∧ (∀ l, addr l g' = addr l g) ∧ scope_of g' = scope_of g ∧
  ∀ F, Step F g g' (asm_router fns (map F (seq (labels g) (length fns)))).
Proof.
  induction fns as [|[[f ps] body] fns IH]; intros g; cbn [gen_router].
  - exists g. split_and!; [done|simpl; lia|done..|]. intros F. apply Step_refl.
  - rewrite (bind_ok _ _ _ _ _ (newLabel_ok g)). rewrite !(bind_ok _ _ _ _ _ (emit_ok _ _)).
    rewrite !(bind_ok _ _ _ _ _ (pushU64_ok _ _)). rewrite !(bind_ok _ _ _ _ _ (emit_ok _ _)).
    rewrite !(bind_ok _ _ _ _ _ (pushLabel_ok _ _)), !(bind_ok _ _ _ _ _ (emit_ok _ _)).
    set (g1 := append _ _). destruct (IH g1) as (g2 & E & N & A & Sc & St). rewrite (bind_ok _ _ _ _ _ E).
    assert (labels g1 = S (labels g)) as N1 by (unfold g1; labels_tac). rewrite N1 in *.
    exists g2. split_and!; [done|simpl; lia| |done|].
    + intros l. rewrite A. unfold g1. by autorewrite with labels.
    + intros F. simpl length. cbn [seq map asm_router].
      rewrite <- (app_nil_l ([op_byte DUP] ++ _)). eapply Step_trans; [apply Step_with_label|].
      do 3 (eapply Step_trans; [apply Step_append|]). eapply Step_trans; [apply Step_ref|].
      eapply Step_trans; [apply Step_append|apply St].
Qed.

Lemma asm_router_length fns As : length As = length fns → zlen (asm_router fns As) = 21 * zlen fns.
Proof.
  unfold zlen. revert As. induction fns as [|[[f ps] body] fns IH]; intros [|a As] Hl; simpl in Hl; try lia; [done|].
  cbn [asm_router length]. rewrite !length_app. specialize (IH As). simpl in *. lia.
Qed.
Lemma asm_bodies_length st fns : ∀ p As X, asm_bodies st p fns = Some (As, X) → length As = length fns.
Proof.
  induction fns as [|[[f ps] body] fns IH]; intros p As X HX; cbn [asm_bodies] in HX; [by simplify_eq|].
  destruct (asm_body _ _ _ _); simplify_eq/=. destruct (asm_bodies _ _ fns) as [[]|] eqn:E; simplify_eq/=. f_equal. by eapply IH.
Qed.

(** What the bodies leave: their text, and the addresses of the functions at the labels
    [n, n+1, …] the router allocated. *)
Record Bodies (g g' : gen) (n : nat) (As : list Z) (X : bytes) : Prop := {
  bd_labels : (labels g <= labels g')%nat;
  bd_other : ∀ l, (l < labels g)%nat → (l < n ∨ n + length As <= l)%nat → addr l g' = addr l g;
  bd_addrs : map (λ l, addr l g') (seq n (length As)) = As;
  bd_state : g_state g' = g_state g;
  bd_step : ∀ F, agree F g g' → Step F g g' X;
}.

Lemma Bodies_nil g n : Bodies g g n [] [].
Proof. split; [done..|]. intros. apply Step_refl. Qed.

(** One body, from the state where its label stands to the state after its [STOP]. *)
Lemma gen_body_ok ps body g :
  builds (gen_body ps body) g (binds (g_state g) body (bind_params ps scope0)) (asm_body (g_state g) (pc g) ps body).
Proof.
  prim. eapply from_prim; [done|]. set (g1 := MkGen _ _ _ _ _ _ _). eapply from_prim; [apply gen_params_ok|].
  set (g2 := append _ _). replace (scope_of g1) with scope0 in * by done.
  assert (pc g2 = pc g + 1 + zlen (asm_params 0 ps scope0)) as P2.
  { unfold g2. rewrite pc_append. f_equal. exact (pc_append [op_byte POP] g). }
  unfold asm_body. eapply from_builds; [apply gen_block_at; [done| |done]|].
  { exact (scope_in _ _ _). }
  intros B g3 HB Hs HX. eapply from_last; [apply emit_ok|exact Hs|].
  eapply Ext_trans; [apply Ext_append|]. rewrite <- (app_nil_l (_ ++ _)).
  eapply Ext_trans; [apply (Ext_in_scope scope0)|]. rewrite <- (app_nil_l (_ ++ _)).
  eapply Ext_trans; [apply Ext_in_scope|]. eapply Ext_trans; [apply Ext_append|].
  eapply Ext_trans; [exact HX|apply Ext_append].
Qed.

Lemma gen_bodies_ok st fns : ∀ g n, g_state g = st → (n + length fns <= labels g)%nat →
  wp (gen_bodies fns (seq n (length fns)))
    (λ _ g', ∃ As X, asm_bodies st (pc g) fns = Some (As, X) ∧ length As = length fns ∧ Bodies g g' n As X)
    (λ e _, e = ErrCompile ∧ asm_bodies st (pc g) fns = None) (λ _, False) g.
Proof.
  induction fns as [|[[f ps] body] fns IH]; intros g n Hst Hn; simpl length in *; cbn [gen_bodies seq asm_bodies].
  { exists [], []. split_and!; [done..|apply Bodies_nil]. }
  apply wp_bind. unfold wp at 1. rewrite mark_ok. set (g1 := marked n g).
  apply wp_bind. eapply wp_mono; [..|apply gen_body_ok]; [|intros e ? [-> HB]|done].
  2: { split; [done|]. change (asm_body (g_state g) (pc g) ps body = None) in HB. rewrite Hst in HB. by rewrite HB. }
  intros _ g2 (Hsc & B & HB & HX). destruct (Ext_code _ _ _ HX) as [P2 S2], HX as [[N2 A2] X2].
  assert (pc g1 = pc g) as P1 by apply pc_marked. assert (labels g1 = labels g) as N1 by apply labels_marked.
  change (asm_body (g_state g) (pc g) ps body = Some B) in HB. change (g_state g1) with (g_state g) in S2.
  rewrite P1 in P2. rewrite Hst in HB.
  eapply wp_mono; [..|apply (IH g2 (S n)); [congruence|lia]]; [|intros e ? [-> HR]|done].
  2: { split; [done|]. rewrite P2 in HR. rewrite HB; simpl. by rewrite HR. }
  intros _ g3 (As & X & HR & HAs & [Nb Ob Ab Sb Xb]). rewrite P2 in HR. rewrite HB. simpl. rewrite HR. simpl.
  exists (pc g :: As), (B ++ X). split_and!; [done|simpl; lia|].
  assert (∀ l, (l < labels g)%nat → (l < S n ∨ S n + length As <= l)%nat → addr l g3 = addr l g1) as A3.
  { intros l ? ?. rewrite Ob, A2 by lia. done. }
  split; simpl length; [lia| | |congruence|].
  - intros l ? ?. rewrite A3 by lia. unfold g1. rewrite addr_marked_in by lia. by rewrite decide_False by lia.
  - cbn [seq map]. f_equal; [|done]. rewrite A3 by lia. unfold g1. rewrite addr_marked_in by lia. by rewrite decide_True.
  - intros F HF. rewrite <- (app_nil_l (B ++ X)). eapply Step_trans; [apply Step_marked|].
    eapply Step_trans; [apply X2|apply Xb]; intros l Hl; rewrite HF by lia; [apply Ob; lia|done].
Qed.

Lemma dispatch_ok fns g :
  wp (dispatch fns) (λ _ g', ∃ X, asm_dispatch (g_state g) (pc g) fns = Some X ∧ Ext g g' X)
    (λ e _, e = ErrCompile ∧ asm_dispatch (g_state g) (pc g) fns = None) (λ _, False) g.
Proof.
  unfold dispatch. apply wp_bind. unfold wp at 1. rewrite pushU64_ok. apply wp_bind. unfold wp at 1. rewrite emit_ok.
  set (g1 := append _ _). assert (labels g1 = labels g) as N1 by done.
  assert (pc g1 = pc g + 10) as P1 by (unfold g1; labels_tac).
  destruct (gen_router_ok fns g1) as (g2 & E & N2 & A2 & Sc2 & St2). rewrite N1 in *.
  apply wp_bind. unfold wp at 1. rewrite E. apply wp_bind. unfold wp at 1. rewrite emit_ok.
  apply wp_bind. unfold wp at 1. rewrite emit_ok. set (g3 := append _ _).
  assert (labels g3 = (labels g + length fns)%nat) as N3 by (unfold g3; labels_tac).
  assert (g_state g2 = g_state g ∧ pc g2 = pc g + 10 + 21 * zlen fns) as [S2 P2].
  { destruct (St2 (λ _, 0)) as [_ l s _ _]. rewrite l, asm_router_length, P1 by by rewrite length_map, length_seq. done. }
  assert (pc g3 = pc g + 10 + 21 * zlen fns + 2) as P3 by (unfold g3; labels_tac).
  unfold asm_dispatch. rewrite <- P3.
  eapply wp_mono; [..|apply (gen_bodies_ok (g_state g) fns g3 (labels g)); [done|lia]]; [|by intros e ? [-> ->]|done].
  intros _ g4 (As & X & HX & HAs & [N4 O4 A4 S4 X4]). rewrite HX. eexists. split; [reflexivity|]. cbn [fst snd]. split.
  - split; [lia|]. intros l Hl. rewrite O4 by lia. unfold g3. by rewrite !addr_append, A2.
  - intros F HF. replace As with (map F (seq (labels g) (length fns))).
    + do 2 (eapply Step_trans; [apply Step_append|]). eapply Step_trans; [apply St2|].
      do 2 (eapply Step_trans; [apply Step_append|]). apply X4. intros l Hl. apply HF. lia.
    + rewrite HAs in A4. rewrite <- A4. apply map_ext_in. intros l Hl%in_seq. apply HF. lia.
Qed.

(** ** [Compile] is the reference assembler *)

Lemma gen_end_ok fns g :
  wp (gen_end fns) (λ _ g', ∃ X, asm_end (g_state g) (pc g) fns = Some X ∧ Ext g g' X)
    (λ e _, e = ErrCompile ∧ asm_end (g_state g) (pc g) fns = None) (λ _, False) g.
Proof.
  unfold gen_end, asm_end. destruct fns as [|fn fns].
  - exists [op_byte STOP]. split; [done|apply Ext_append].
  - apply wp_bind. eapply wp_mono; [..|apply dispatch_ok]; [|by intros e ? [-> ->]|done].
    intros _ g1 (X & -> & HE). unfold wp. rewrite emit_ok. eexists. split; [done|].
    eapply Ext_trans; [exact HE|apply Ext_append].
Qed.

(** The states the declarations of a program leave. *)
Definition declared (prog : list node) : gen :=
  let Σ := foldl (λ Σ x, alloc x Σ) (Scope ∅ stateBase) (state_names prog) in
  MkGen [] ∅ localBase (sc_vars Σ) (sc_next Σ) [] [].

Lemma gen_program_ok prog :
  wp (gen_program prog) (λ _ g, ∃ X, asm_program prog = Some X ∧ Ext (declared prog) g X)
    (λ e _, e = ErrCompile ∧ asm_program prog = None) (λ _, False) gen0.
Proof.
  unfold gen_program. apply wp_bind. unfold wp at 1. rewrite decl_states_ok. fold (declared prog). cbv zeta.
  apply (wp_bind (gen_stmts (flat prog)) (λ _, gen_end (functions prog)) _ _ _ (declared prog)).
  unfold asm_program. cbv zeta.
  eapply wp_mono; [..|by apply (gen_block_at (flat prog) (state_slots prog) scope0 0 (declared prog))];
    [|by intros e ? [-> ->]|done].
  intros _ g1 (Hs & X & -> & HX). destruct (Ext_code _ _ _ HX) as [P1 S1].
  assert (g_state g1 = state_slots prog ∧ pc g1 = zlen X) as [E1 E2] by (by rewrite S1, P1).
  pose proof (gen_end_ok (functions prog) g1) as He. rewrite E1, E2 in He.
  eapply wp_mono; [..|exact He]; [|by intros e ? [-> HY]; simpl; rewrite HY|done].
  intros _ g2 (Y & HY & HE). simpl. rewrite HY. eexists. split; [done|by eapply Ext_trans].
Qed.

Lemma compile_nodes_asm prog :
  compile_nodes prog = match asm_program prog with Some X => Ok X | None => Err ErrCompile end.
Proof.
  pose proof (gen_program_ok prog) as H. unfold compile_nodes, wp in *.
  destruct (gen_program prog gen0) as [g []|g e|g]; [|by destruct H as [-> ->]|done].
  destruct H as (X & -> & _ & HX). f_equal. rewrite resolve_text.
  destruct (HX (λ l, addr l g)) as [_ _ _ _ t]; [by intros l|]. by rewrite t by apply Forall_nil_2.
Qed.

(** [C8] Compilation is total and is the reference assembler: whatever the source, [Compile]
    returns exactly the code the one-pass assembler computes for the parsed program
    (every label patched with the address its construct has there), the parser's
    error, or a compile error when, and only when, a name is not in scope. *)
Theorem Compile_is_assembler src :
  Compile src = (prog ← Parse src; match asm_program prog with Some X => Ok X | None => Err ErrCompile end) ∧
  Compile src ≠ Panic.
Proof.
  unfold Compile. pose proof (Parse_ok src) as HP. destruct (Parse src) as [prog| |]; simpl; [|done..].
  rewrite compile_nodes_asm. split; [done|]. by destruct (asm_program prog).
Qed.
