(* ===== verification/ShlCorrect.v ===== *)
(** * SHL: the machine runs the code the way the source says

    A simulation: from a state at the start of the code of a construct, the machine
    reaches what the source semantics reaches, with the same gas and the same steps
    left, or stops with the same error or panic. *)

From S2P Require Import Prelude Sha256 Vm VmProps Shl ShlParse ShlSem ShlGen.
Open Scope string_scope.
Open Scope Z_scope.
Open Scope list_scope.

(** ** Code in place *)

Definition code_at (code : bytes) (p : Z) (X : bytes) : Prop := ∃ A B, code = A ++ X ++ B ∧ zlen A = p.

Lemma zlen_app {A} (a b : list A) : zlen (a ++ b) = zlen a + zlen b.
Proof. unfold zlen. rewrite length_app. lia. Qed.
Lemma zlen_nonneg {A} (a : list A) : 0 <= zlen a.
Proof. unfold zlen. lia. Qed.

Lemma code_at_app code p X Y : code_at code p (X ++ Y) → code_at code p X ∧ code_at code (p + zlen X) Y.
Proof.
  intros (A & B & -> & <-). split.
  - exists A, (Y ++ B). by rewrite !app_assoc.
  - exists (A ++ X), B. by rewrite !app_assoc, zlen_app.
Qed.

Lemma code_at_bound code p X : code_at code p X → 0 <= p ∧ p + zlen X <= zlen code.
Proof. intros (A & B & -> & <-). rewrite !zlen_app. pose proof (zlen_nonneg A). pose proof (zlen_nonneg B). lia. Qed.

Lemma code_at_fetch code p b : code_at code p [b] → index code p (zb 0) = Ok b.
Proof.
  intros HX. pose proof (code_at_bound _ _ _ HX) as Hb. destruct HX as (A & B & -> & <-).
  unfold index. change (zlen [b]) with 1 in Hb.
  rewrite (proj2 (andb_true_iff _ _)) by (split; lia). unfold zlen. rewrite Nat2Z.id.
  by rewrite app_nth2, Nat.sub_diag by lia.
Qed.

Lemma code_at_operand code p v : code_at code p (be_bytes 8 v) →
  foldl shift_in 0 (take 8 (drop (Z.to_nat p) code)) = u64 v.
Proof.
  intros (A & B & -> & <-). rewrite (proj2 (foldl_shift_in_take _)). unfold zlen.
  rewrite Nat2Z.id, drop_app_length, take_app_le, take_ge by (rewrite length_be_bytes; lia).
  rewrite be_val_be_bytes. unfold u64. by rewrite W64_pow.
Qed.

Lemma decode_op_byte o : decode_op (op_byte o) = Some o.
Proof. by destruct o. Qed.

Section machine.
Context {H : Type} (code input : bytes) (gas : Z) (ctx : Context H).
Context (bs : option (gmap Z bytes)) (h : H).
Context (Hsmall : zlen code < 9223372036854775808).

Local Abbreviation result := (outcome H (Result * gmap Z Z * option (gmap Z bytes))).

(** The machine state of a source state: where it is, what is pending. *)
Definition cfg (p : Z) (K : list Z) (s : sst) : vmst H :=
  VmSt p K (x_store s) (default ∅ bs) (x_used s) (x_ret s) [] (x_logs s) h.

(** What [ExecuteB] reports. *)
Definition obs (o : outcome (vmst H) unit) : result :=
  match o with OK s _ => OK (m_hst s) (commitB bs s) | ERR s e => ERR (m_hst s) e | PANIC s => PANIC (m_hst s) end.

(** Running the machine from there. *)
Definition vm (p : Z) (K : list Z) (s : sst) : result := obs (loop code input gas ctx (x_left s) (cfg p K s)).

(** A source computation, then [k]. *)
Definition after {A} (o : outcome sst A) (k : A → sst → result) : result :=
  match o with OK s a => k a s | ERR _ e => ERR h e | PANIC _ => PANIC h end.

Lemma after_bind {A B} (m : M sst A) (f : A → M sst B) s k :
  after ((m ≫= f) s) k = after (m s) (λ a s', after (f a s') k).
Proof. unfold mbind, M_bind. by destruct (m s). Qed.
Lemma after_modify {A} f (a : A) s k : after ((modify f ≫= λ _, mret a) s) k = k a (f s).
Proof. done. Qed.
Lemma after_ext {A} (o : outcome sst A) k k' : (∀ a s, k a s = k' a s) → after o k = after o k'.
Proof. intros E. destruct o; simpl; auto. Qed.

(** The outcome of one instruction. *)
Definition view (o : outcome (vmst H) bool) (n : nat) : result :=
  match o with
  | OK s true => OK (m_hst s) (commitB bs s)
  | OK s false => obs (loop code input gas ctx n s)
  | ERR s e => ERR (m_hst s) e
  | PANIC s => PANIC (m_hst s)
  end.

Lemma vm_step o p K s : code_at code p [op_byte o] →
  vm p K s = after (tick gas o s) (λ _ s', view (exec_op code input gas ctx (Some o) (cfg (p + 1) K s')) (x_left s')).
Proof.
  intros HX. pose proof (code_at_bound _ _ _ HX) as Hb. change (zlen [_]) with 1 in Hb.
  unfold vm, tick. rewrite (bind_ok get _ s s s eq_refl). destruct s as [[|n] u w l r]; cbn [x_left x_used loop].
  - rewrite (bind_ok get _ (cfg p K _) _ _ eq_refl). cbn [m_pc cfg]. by rewrite (proj2 (Z.ltb_lt _ _)) by lia.
  - rewrite (bind_ok get _ (cfg p K _) _ _ eq_refl). cbn [m_pc cfg]. rewrite (proj2 (Z.ltb_lt _ _)) by lia.
    assert (step code input gas ctx (cfg p K (Sst (S n) u w l r)) =
      (if gas <? u64 (u + gasCost (Some o)) then throw ErrOutOfGas else
       modify (λ s, set_pc (m_pc s + 1) (set_used (u64 (m_used s + gasCost (Some o))) s)) ≫= λ _,
       exec_op code input gas ctx (Some o)) (cfg p K (Sst (S n) u w l r))) as E.
    { unfold step. rewrite (bind_ok get _ (cfg p K _) _ _ eq_refl).
      unfold lift. cbn [m_pc cfg]. rewrite (code_at_fetch _ _ _ HX).
      rewrite (bind_ok (lift (Ok (op_byte o))) _ (cfg p K _) (cfg p K _) (op_byte o) eq_refl). by rewrite decode_op_byte. }
    unfold mbind, M_bind at 1. rewrite E.
    destruct (gas <? u64 (u + gasCost (Some o))); [done|].
    unfold mbind, M_bind, modify. cbn [after x_left view].
    unfold set_pc, set_used. cbn [m_pc m_st m_work m_bwork m_used m_ret m_retBytes m_logs m_hst cfg].
    unfold cfg; cbn [x_store x_used x_ret x_logs].
    by destruct (exec_op _ _ _ _ _ _) as [s' []| |].
Qed.

(** ** Instructions that leave a word *)

Abbreviation op_run o c := (exec_op code input gas ctx (Some o) c).

Lemma vm_yield o p q K K' r s : code_at code p [op_byte o] →
  (∀ s, op_run o (cfg (p + 1) K s) = (lift r ≫= λ v, push v ≫= λ _, mret false) (cfg q K' s)) →
  vm p K s = after (yield gas o (zlen K') r s) (λ v s', vm q (v :: K') s').
Proof.
  intros HX HE. rewrite (vm_step _ _ _ _ HX). unfold yield. rewrite after_bind. apply after_ext. intros _ s'.
  rewrite HE. unfold lift, room, require. destruct r as [v|e|]; [|done..]. cbn.
  unfold push, mbind, M_bind, get, modify. cbn [m_st cfg].
  destruct (Z.leb_spec maxStack (zlen K')); [rewrite (proj2 (Z.ltb_ge _ _)) by lia; done|].
  by rewrite (proj2 (Z.ltb_lt _ _)) by lia.
Qed.

Lemma zlen_cons {A} (x : A) l : zlen (x :: l) = zlen l + 1.
Proof. unfold zlen. simpl. lia. Qed.

Lemma vm_push v p K s : code_at code p (push_ v) →
  vm p K s = after (yield gas PUSH (zlen K) (Ok (u64 v)) s) (λ v s', vm (p + 9) (v :: K) s').
Proof.
  intros [H1 H2]%(code_at_app _ _ [op_byte PUSH]). change (zlen [_]) with 1 in H2.
  apply vm_yield; [done|]. intros s'. pose proof (code_at_bound _ _ _ H2) as Hb.
  unfold exec_op, exec_push. cbn [m_pc cfg].
  rewrite (bind_ok (lift (Ok (u64 v))) _ _ _ (u64 v) eq_refl).
  change (zlen (be_bytes 8 v)) with 8 in Hb.
  unfold mbind, M_bind, get, modify. cbn [m_pc cfg]. rewrite (proj2 (Z.ltb_ge _ _)), (code_at_operand _ _ _ H2) by lia.
  unfold set_pc, cfg. cbn. by replace (p + 1 + 8) with (p + 9) by lia.
Qed.

(** The plain operators. *)
Lemma vm_op o r p a b K s : code_at code p [op_byte o] →
  (∀ s, op_run o (cfg (p + 1) (b :: a :: K) s) = (lift r ≫= λ v, push v ≫= λ _, mret false) (cfg (p + 1) K s)) →
  vm p (b :: a :: K) s = after (yield gas o (zlen K) r s) (λ v s', vm (p + 1) (v :: K) s').
Proof. apply vm_yield. Qed.

Lemma vm_negate a p K s : code_at code p [op_byte ISZERO] →
  vm p (a :: K) s = after (negate gas a s) (λ v s', vm (p + 1) (v :: K) s').
Proof.
  intros HX. rewrite (vm_step _ _ _ _ HX). unfold negate. rewrite after_bind. by apply after_ext.
Qed.

Lemma vm_sload k p K s : code_at code p [op_byte SLOAD] →
  vm p (k :: K) s = after (sload gas (zlen K) k s) (λ v s', vm (p + 1) (v :: K) s').
Proof.
  intros HX. rewrite (vm_step _ _ _ _ HX). unfold sload. rewrite after_bind. apply after_ext. intros _ s'.
  unfold exec_op, exec_sload, room, require, pop, push, mbind, M_bind, get, modify. cbn.
  destruct (Z.leb_spec maxStack (zlen K)); [rewrite (proj2 (Z.ltb_ge _ _)) by lia; done|].
  by rewrite (proj2 (Z.ltb_lt _ _)) by lia.
Qed.

Lemma vm_mix k sl p K s : code_at code p [op_byte MIX] →
  vm p (k :: sl :: K) s = after (yield gas MIX (zlen K) (Ok (mix sl k)) s) (λ v s', vm (p + 1) (v :: K) s').
Proof. intros HX. by apply vm_yield. Qed.

Lemma vm_cdload i p K s : code_at code p [op_byte CDLOAD] →
  vm p (i :: K) s = after (yield gas CDLOAD (zlen K) (word input i) s) (λ v s', vm (p + 1) (v :: K) s').
Proof.
  intros HX. apply vm_yield; [done|]. intros s'. unfold exec_op, exec_cdload, pop, lift, mbind, M_bind, get, modify. cbn.
  by destruct (word input i).
Qed.

Lemma vm_builtin f o v p K s : builtin_op f = Some o → builtin_val ctx f = Some v → code_at code p [op_byte o] →
  vm p K s = after (yield gas o (zlen K) (Ok v) s) (λ v s', vm (p + 1) (v :: K) s').
Proof.
  unfold builtin_op, builtin_val. intros Ho Hv HX. apply vm_yield; [done|]. intros s'.
  repeat case_decide; simplify_eq; done.
Qed.

Lemma builtin_some f o : builtin_op f = Some o → is_Some (builtin_val ctx f).
Proof. unfold builtin_op, builtin_val. intros. repeat case_decide; simplify_eq; eauto. Qed.

(** A comparison and its negation. *)
Lemma vm_negated o r p a b K s : code_at code p (map op_byte [o; ISZERO]) →
  (∀ s, op_run o (cfg (p + 1) (b :: a :: K) s) = (lift r ≫= λ v, push v ≫= λ _, mret false) (cfg (p + 1) K s)) →
  vm p (b :: a :: K) s =
  after ((v ← yield gas o (zlen K) r; negate gas v) s) (λ v s', vm (p + zlen [o; ISZERO]) (v :: K) s').
Proof.
  intros [H1 H2]%(code_at_app _ _ [op_byte o]) HE. rewrite after_bind, (vm_op o r) by done.
  apply after_ext. intros v s'. rewrite vm_negate by done. apply after_ext. intros.
  by replace (p + zlen [o; ISZERO]) with (p + 1 + 1) by (change (zlen [o; ISZERO]) with 2; lia).
Qed.

Lemma run_binop o p q a b K s : p = q → (exec_binop o ≫= λ _, mret false) (cfg p (b :: a :: K) s) =
  (lift (binop o a b) ≫= λ v, push v ≫= λ _, mret false) (cfg q K s).
Proof. intros <-. unfold exec_binop, lift, pop, get, modify, mbind, M_bind. cbn. by destruct (binop o a b). Qed.
Lemma run_checked o p q a b K s : p = q → (exec_checked o ≫= λ _, mret false) (cfg p (b :: a :: K) s) =
  (lift (checked o a b) ≫= λ v, push v ≫= λ _, mret false) (cfg q K s).
Proof. intros <-. unfold exec_checked, lift, pop, get, modify, mbind, M_bind. cbn. by destruct (checked o a b). Qed.

Lemma vm_binop op os p a b K s : op_codes op = Some os → code_at code p (map op_byte os) →
  vm p (b :: a :: K) s = after (eval_binop gas op (zlen K) a b s) (λ v s', vm (p + zlen os) (v :: K) s').
Proof.
  unfold op_codes, eval_binop. intros Hop HX.
  repeat (case_decide; [simplify_eq; (apply vm_yield || apply vm_negated); [done|intros s';
    by (apply run_binop || apply run_checked)]|]); try done.
Qed.

(** ** Expressions *)

#[local] Opaque push_.

Context (st : gmap string Z).

Lemma eval_ok e : ∀ Γ X p K s, asm_expr st Γ e = Some X → code_at code p X →
  vm p K s = after (eval input gas ctx st Γ (zlen K) e s) (λ v s', vm (p + zlen X) (v :: K) s').
Proof.
  induction e as [v|x|k IH|x k IH|f|f e IH|op x IH|op l r IHl IHr] using expr_induction; intros Γ X p K s HX HC;
    cbn [asm_expr eval] in *.
  - simplify_eq. by apply vm_push.
  - destruct (lookup_var st Γ x) as [sl|]; simplify_eq/=. apply code_at_app in HC as [H1 H2].
    rewrite (vm_push _ _ _ _ H1), after_bind. apply after_ext. intros k s1. rewrite vm_sload by done.
    apply after_ext. intros. by rewrite zlen_app, Z.add_assoc.
  - destruct (asm_expr st Γ k) as [K1|] eqn:EK; simplify_eq/=. apply code_at_app in HC as [H1 H2].
    rewrite (IH _ _ _ _ _ EK H1), after_bind. apply after_ext. intros k' s1. rewrite vm_sload by done.
    apply after_ext. intros. by rewrite zlen_app, Z.add_assoc.
  - destruct (st !! x) as [sl|]; simplify_eq/=. destruct (asm_expr st Γ k) as [K1|] eqn:EK; simplify_eq/=.
    apply code_at_app in HC as [H1 [H2 [H3 H4]%(code_at_app _ _ [op_byte MIX])]%code_at_app].
    rewrite (vm_push _ _ _ _ H1), after_bind. apply after_ext. intros sl' s1.
    rewrite (IH _ _ _ _ _ EK H2), after_bind, zlen_cons. apply after_ext. intros k' s2.
    rewrite vm_mix, after_bind by done. apply after_ext. intros m s3. rewrite vm_sload by done.
    apply after_ext. intros. rewrite !zlen_app. f_equal. change (zlen [op_byte MIX; op_byte SLOAD]) with 2. lia.
  - destruct (builtin_op f) as [o|] eqn:Eo; [|by case_decide]. simplify_eq.
    destruct (builtin_some _ _ Eo) as [v Ev]. rewrite Ev. by apply (vm_builtin f).
  - destruct (builtin_op f) as [o|] eqn:Eo.
    { simplify_eq. destruct (builtin_some _ _ Eo) as [v Ev]. rewrite Ev. by apply (vm_builtin f). }
    case_decide; [|done]. destruct (asm_expr st Γ e) as [A|] eqn:EA; simplify_eq/=. apply code_at_app in HC as [H1 H2].
    rewrite (IH _ _ _ _ _ EA H1), after_bind. apply after_ext. intros i s1. rewrite vm_cdload by done.
    apply after_ext. intros. by rewrite zlen_app, Z.add_assoc.
  - destruct (asm_expr st Γ x) as [X1|] eqn:EX; simplify_eq/=. apply code_at_app in HC as [H1 H2].
    rewrite (IH _ _ _ _ _ EX H1), after_bind. apply after_ext. intros a s1. rewrite vm_negate by done.
    apply after_ext. intros. by rewrite zlen_app, Z.add_assoc.
  - destruct (asm_expr st Γ l) as [L|] eqn:EL; simplify_eq/=. destruct (asm_expr st Γ r) as [R|] eqn:ER; simplify_eq/=.
    destruct (op_codes op) as [os|] eqn:Eop; simplify_eq/=.
    apply code_at_app in HC as [H1 [H2 H3]%code_at_app].
    rewrite (IHl _ _ _ _ _ EL H1), after_bind. apply after_ext. intros a s1.
    rewrite (IHr _ _ _ _ _ ER H2), after_bind, zlen_cons. apply after_ext. intros b s2.
    rewrite (vm_binop op os) by done. apply after_ext. intros.
    rewrite !zlen_app, !Z.add_assoc. by replace (zlen (map op_byte os)) with (zlen os) by (unfold zlen; by rewrite length_map).
Qed.

(** ** Instructions of statements *)

(** An instruction that only moves the machine. *)
Lemma vm_plain o p q K K' u s : code_at code p [op_byte o] → (∀ s, x_left (u s) = x_left s) →
  (∀ s, op_run o (cfg (p + 1) K s) = OK (cfg q K' (u s)) false) →
  vm p K s = after (tick gas o s) (λ _ s', vm q K' (u s')).
Proof.
  intros HX Hu HE. rewrite (vm_step _ _ _ _ HX). apply after_ext. intros _ s'. rewrite HE. cbn [view].
  unfold vm. by rewrite Hu.
Qed.

(** [PUSH] where there is room. *)
Lemma vm_push_low v p K s : code_at code p (push_ v) → zlen K < maxStack →
  vm p K s = after (tick gas PUSH s) (λ _ s', vm (p + 9) (u64 v :: K) s').
Proof.
  intros HX HK. rewrite (vm_push v) by done. unfold yield, room. rewrite after_bind. apply after_ext. intros _ s'.
  unfold require. rewrite (proj2 (Z.ltb_lt _ _)) by done. done.
Qed.

Lemma vm_sstore v k p K s : code_at code p [op_byte SSTORE] →
  vm p (v :: k :: K) s = after (tick gas SSTORE s) (λ _ s', vm (p + 1) K (x_write k v s')).
Proof. intros HX. by apply (vm_plain SSTORE p (p + 1) _ _ (x_write k v)). Qed.

(** The end of a successful run. *)
Definition finish (s : sst) : result := obs (OK (cfg 0 [] s) tt).

Lemma vm_stop p s : code_at code p [op_byte STOP] → vm p [] s = after (tick gas STOP s) (λ _ s', finish s').
Proof. intros HX. rewrite (vm_step _ _ _ _ HX). by apply after_ext. Qed.
Lemma vm_return v p s : code_at code p [op_byte RETURN] →
  vm p [v] s = after (tick gas RETURN s) (λ _ s', finish (x_return v s')).
Proof. intros HX. rewrite (vm_step _ _ _ _ HX). by apply after_ext. Qed.
Lemma vm_revert p K s k : code_at code p [op_byte REVERT] →
  vm p K s = after ((tick gas REVERT ≫= λ _, throw (A:=bool) ErrRevert) s) k.
Proof. intros HX. rewrite (vm_step _ _ _ _ HX), after_bind. by apply after_ext. Qed.
Lemma vm_pop v p K s : code_at code p [op_byte POP] →
  vm p (v :: K) s = after (tick gas POP s) (λ _ s', vm (p + 1) K s').
Proof. intros HX. by apply (vm_plain POP p (p + 1) _ _ id). Qed.

Lemma jump_ok q s K p : 0 <= q < zlen code → jump_to code (u64 q) (cfg p K s) = OK (cfg q K s) tt.
Proof.
  intros Hq. unfold jump_to, int_of_u64, u64. rewrite Z.mod_small by (unfold W64; lia).
  rewrite (proj2 (Z.ltb_lt _ _)) by lia. by rewrite (proj2 (Z.leb_gt _ _)) by lia.
Qed.

Lemma vm_goto q p s : code_at code p (push_ q) → code_at code (p + 9) [op_byte JUMP] → 0 <= q < zlen code →
  vm p [] s = after (goto gas s) (λ _ s', vm q [] s').
Proof.
  intros H1 H2 Hq. unfold goto. rewrite after_bind, (vm_push_low q) by done.
  apply after_ext. intros _ s1. apply (vm_plain JUMP _ q [u64 q] [] id); [done..|]. intros s2.
  unfold exec_op. rewrite (bind_ok _ _ _ (cfg q [] s2) tt); [done|]. unfold exec_jump.
  rewrite (bind_ok pop _ (cfg (p + 9 + 1) [u64 q] s2) (cfg (p + 9 + 1) [] s2) (u64 q) eq_refl). by apply jump_ok.
Qed.

Lemma vm_goto_if c q p K s : code_at code p (push_ q) → code_at code (p + 9) [op_byte JUMPI] → 0 <= q < zlen code →
  zlen (c :: K) < maxStack →
  vm p (c :: K) s = after (goto_if gas s) (λ _ s', if c =? 0 then vm (p + 10) K s' else vm q K s').
Proof.
  intros H1 H2 Hq HK. unfold goto_if. rewrite after_bind, (vm_push_low q) by done.
  apply after_ext. intros _ s1. destruct (c =? 0) eqn:Ec.
  - apply (vm_plain JUMPI _ (p + 10) (u64 q :: c :: K) K id); [done..|]. intros s2.
    unfold exec_op. rewrite (bind_ok _ _ _ (cfg (p + 10) K s2) tt); [done|]. unfold exec_jumpi.
    rewrite (bind_ok pop _ (cfg (p + 9 + 1) (u64 q :: c :: K) s2) (cfg (p + 9 + 1) (c :: K) s2) (u64 q) eq_refl).
    rewrite (bind_ok pop _ (cfg (p + 9 + 1) (c :: K) s2) (cfg (p + 9 + 1) K s2) c eq_refl), Ec. simpl.
    by replace (p + 10) with (p + 9 + 1) by lia.
  - apply (vm_plain JUMPI _ q (u64 q :: c :: K) K id); [done..|]. intros s2.
    unfold exec_op. rewrite (bind_ok _ _ _ (cfg q K s2) tt); [done|]. unfold exec_jumpi.
    rewrite (bind_ok pop _ (cfg (p + 9 + 1) (u64 q :: c :: K) s2) (cfg (p + 9 + 1) (c :: K) s2) (u64 q) eq_refl).
    rewrite (bind_ok pop _ (cfg (p + 9 + 1) (c :: K) s2) (cfg (p + 9 + 1) K s2) c eq_refl), Ec. by apply jump_ok.
Qed.

(** ** Events *)

Lemma eval_args_length Γ l : ∀ acc s,
  wp (eval_args input gas ctx st Γ acc l) (λ ts _, length ts = (length acc + length l)%nat) (λ _ _, True) (λ _, True) s.
Proof.
  induction l as [|e l IH]; intros acc s; cbn [eval_args]; [apply wp_ret; simpl; lia|].
  apply wp_bind. unfold wp at 1. destruct (eval _ _ _ _ _ _ _ s) as [s1 v| |]; [|done..].
  eapply wp_mono; [..|apply IH]; [|done..]. intros ts _ ->. rewrite length_app. simpl. lia.
Qed.

(** Two continuations that agree where the computation ends. *)
Lemma after_wp {A} (m : M sst A) s k k' :
  wp m (λ a s', k a s' = k' a s') (λ _ _, True) (λ _, True) s → after (m s) k = after (m s) k'.
Proof. unfold wp. by destruct (m s). Qed.

Lemma zlen_reverse {A} (l : list A) : zlen (reverse l) = zlen l.
Proof. unfold zlen. by rewrite length_reverse. Qed.

Lemma eval_args_ok Γ l : ∀ acc X p s, asm_args st Γ l = Some X → code_at code p X →
  vm p (reverse acc) s =
  after (eval_args input gas ctx st Γ acc l s) (λ ts s', vm (p + zlen X) (reverse ts) s').
Proof.
  induction l as [|e l IH]; intros acc X p s HX HC; cbn [asm_args eval_args] in *.
  - simplify_eq. simpl. by replace (p + zlen []) with p by (change (zlen []) with 0; lia).
  - destruct (asm_expr st Γ e) as [E|] eqn:EE; simplify_eq/=. destruct (asm_args st Γ l) as [R|] eqn:ER; simplify_eq/=.
    apply code_at_app in HC as [H1 H2]. rewrite (eval_ok _ _ _ _ _ _ EE H1), after_bind, zlen_reverse.
    apply after_ext. intros v s1. rewrite <- reverse_snoc, (IH _ _ _ _ eq_refl H2). apply after_ext. intros.
    by rewrite zlen_app, Z.add_assoc.
Qed.

Lemma pop_topics_reverse ts : ∀ acc p s,
  pop_topics (length ts) acc (cfg p (reverse ts) s) = OK (cfg p [] s) (ts ++ acc).
Proof.
  induction ts as [|t ts IH] using rev_ind; intros acc p s; [done|].
  rewrite length_app, Nat.add_comm, reverse_snoc. cbn [pop_topics length Nat.add].
  rewrite (bind_ok pop _ (cfg p (t :: reverse ts) s) (cfg p (reverse ts) s) t eq_refl), IH. by rewrite <- app_assoc.
Qed.

(** [LOG] itself. *)
Lemma view_log ts p s : let n := zlen ts in
  view (op_run LOG (cfg p (n :: reverse ts) s)) (x_left s) =
  after ((require (n <=? maxLogTopics) ErrBadCode ≫= λ _, s ← get;
    require (u64 (x_used s + u64 (8 * n)) <=? gas) ErrOutOfGas ≫= λ _,
    modify (x_charge (u64 (8 * n))) ≫= λ _, modify (x_log ts)) s) (λ _ s', vm p [] s').
Proof.
  intros n. rewrite bind_require, Z.leb_antisym.
  assert (op_run LOG (cfg p (n :: reverse ts) s) = (if maxLogTopics <? n then throw ErrBadCode else
    if gas <? u64 (x_used s + u64 (8 * n)) then throw ErrOutOfGas else λ _,
    OK (cfg p [] (x_log ts (x_charge (u64 (8 * n)) s))) false) (cfg p (reverse ts) s)) as ->.
  { unfold exec_op, exec_log. destruct (maxLogTopics <? n) eqn:E1.
    { unfold pop, get, modify, mbind, M_bind. cbn -[maxLogTopics]. by rewrite E1. }
    unfold mbind at 1, M_bind at 1.
    rewrite (bind_ok pop _ (cfg p (n :: reverse ts) s) (cfg p (reverse ts) s) n eq_refl), E1.
    rewrite (bind_ok get _ (cfg p (reverse ts) s) _ _ eq_refl). cbn [m_used cfg].
    destruct (gas <? u64 (x_used s + u64 (8 * n))); [done|].
    rewrite (bind_ok (modify (set_used (u64 (x_used s + u64 (8 * n))))) _ (cfg p (reverse ts) s)
      (cfg p (reverse ts) (x_charge (u64 (8 * n)) s)) tt eq_refl).
    unfold n, zlen. rewrite Nat2Z.id, (bind_ok _ _ _ _ _ (pop_topics_reverse ts [] p _)). by rewrite app_nil_r. }
  destruct (maxLogTopics <? n); [done|]. rewrite (bind_ok get _ s _ _ eq_refl), bind_require, Z.leb_antisym.
  by destruct (gas <? u64 (x_used s + u64 (8 * n))).
Qed.

Lemma log_ok n p s ts : code_at code p (push_ n ++ [op_byte LOG]) → n = zlen ts →
  vm p (reverse ts) s = after (log gas ts s) (λ _ s', vm (p + 10) [] s').
Proof.
  intros [H1 H2]%code_at_app ->. rewrite zlen_push_ in H2. unfold log.
  rewrite (vm_push _ _ _ _ H1), zlen_reverse, after_bind. apply after_wp.
  unfold yield at 1. apply wp_bind. unfold wp at 1. destruct (tick gas PUSH s) as [s0 []| |]; [|done..].
  apply wp_bind, wp_lift; [intros v [= <-]|done..]. apply wp_bind, wp_require; [intros Hroom%Z.ltb_lt|done].
  apply wp_ret. assert (u64 (zlen ts) = zlen ts) as -> by (unfold u64; rewrite Z.mod_small; [done|unfold maxStack, W64 in *; pose proof (zlen_nonneg ts); lia]).
  rewrite (vm_step _ _ _ _ H2), after_bind. apply after_ext. intros _ s1.
  replace (p + 10) with (p + 9 + 1) by lia. apply (view_log ts).
Qed.

(** ** Steps left *)

(** No more than [n] steps are left: source computations preserve it. *)
Definition below (n : nat) (s : sst) : Prop := (x_left s <= n)%nat.

Lemma below_tick n o : preserves (below n) (tick gas o).
Proof. intros s Hs. unfold tick, mbind, M_bind, get. destruct s as [[|m] u w l r]; [done|]. cbn in *. case_match; unfold below in *; simpl in *; lia. Qed.
Lemma below_modify n f : (∀ s, x_left (f s) = x_left s) → preserves (below n) (modify f).
Proof. intros Hf s Hs. unfold below in *. simpl. by rewrite Hf. Qed.
Hint Resolve below_tick : hoare.

Ltac below_tac := repeat first [progress preserves_tac | apply below_tick | by apply below_modify | case_decide].

Lemma below_yield n o d r : preserves (below n) (yield gas o d r).
Proof. unfold yield, room. below_tac. Qed.
Lemma below_negate n v : preserves (below n) (negate gas v).
Proof. unfold negate. below_tac. Qed.
Lemma below_sload n d k : preserves (below n) (sload gas d k).
Proof. unfold sload, room. below_tac. Qed.
Hint Resolve below_yield below_negate below_sload : hoare.
Lemma below_binop n op d a b : preserves (below n) (eval_binop gas op d a b).
Proof. unfold eval_binop. repeat (case_decide; [by below_tac|]). apply preserves_throw. Qed.
Hint Resolve below_binop : hoare.
Lemma below_eval n Γ e : ∀ d, preserves (below n) (eval input gas ctx st Γ d e).
Proof.
  induction e using expr_induction; intros d; cbn [eval]; below_tac.
Qed.
Hint Resolve below_eval : hoare.
Lemma below_eval_args n Γ l : ∀ acc, preserves (below n) (eval_args input gas ctx st Γ acc l).
Proof. induction l as [|e l IH]; intros acc; cbn [eval_args]; below_tac. Qed.
Lemma below_log n ts : preserves (below n) (log gas ts).
Proof. unfold log. below_tac. Qed.
Lemma below_goto n : preserves (below n) (goto gas).
Proof. unfold goto. below_tac. Qed.
Lemma below_goto_if n : preserves (below n) (goto_if gas).
Proof. unfold goto_if. below_tac. Qed.
Hint Resolve below_eval_args below_log below_goto below_goto_if : hoare.

Lemma below_while n (cond : M sst Z) (body : M sst bool) k :
  preserves (below n) cond → preserves (below n) body → preserves (below n) (while_loop gas k cond body).
Proof. intros Hc Hb. induction k as [|k IH]; cbn [while_loop]; below_tac. Qed.

Lemma exec_if Γ c t e : exec input gas ctx st Γ (IfStmt c t e) =
  c ← eval input gas ctx st Γ 0 c; negate gas c ≫= λ _, goto_if gas ≫= λ _,
  if c =? 0 then execs input gas ctx st (binds st t Γ) e
  else halted ← execs input gas ctx st Γ t; if halted : bool then mret true else goto gas ≫= λ _, mret false.
Proof. done. Qed.
Lemma exec_while Γ c b : exec input gas ctx st Γ (WhileStmt c b) =
  s ← get; while_loop gas (x_left s) (eval input gas ctx st Γ 0 c) (execs input gas ctx st Γ b).
Proof. done. Qed.

Lemma below_execs n l : Forall (λ s, ∀ Γ, preserves (below n) (exec input gas ctx st Γ s)) l →
  ∀ Γ, preserves (below n) (execs input gas ctx st Γ l).
Proof.
  induction 1 as [|s l Hs _ IH]; intros Γ; cbn [execs]; below_tac.
Qed.

Lemma below_exec n s : ∀ Γ, preserves (below n) (exec input gas ctx st Γ s).
Proof.
  induction s as [x v|k v|c t e Ht He|c b Hb|l|v| |c| |x k v] using stmt_induction; intros Γ;
    rewrite ?exec_if, ?exec_while; cbn [exec]; try by below_tac.
  - pose proof (below_execs n t Ht). pose proof (below_execs n e He). below_tac.
  - apply preserves_bind; [auto with hoare|]. intros s. apply below_while; [auto with hoare|by apply below_execs].
Qed.

Lemma below_execs' n l Γ : preserves (below n) (execs input gas ctx st Γ l).
Proof. apply below_execs, Forall_forall. intros s _. apply below_exec. Qed.

(** A computation that leaves no more steps than it finds, then two continuations that
    agree where no more are left. *)
Lemma after_below {A} n (m : M sst A) s k k' : preserves (below n) m → below n s →
  (∀ a s', below n s' → k a s' = k' a s') → after (m s) k = after (m s) k'.
Proof. intros Hm Hs HE. apply after_wp. specialize (Hm s Hs). unfold wp. destruct (m s); [by apply HE|done..]. Qed.

Lemma tick_strict n o s k k' : below (S n) s →
  (∀ s', below n s' → k tt s' = k' tt s') → after (tick gas o s) k = after (tick gas o s) k'.
Proof.
  intros Hs HE. apply after_wp. unfold tick, wp, mbind, M_bind, get. destruct s as [[|m] u w l r]; [done|].
  cbn -[gasCost]. destruct (gas <? _); [done|]. apply HE. unfold below in *. simpl in *. lia.
Qed.

(** ** Statements *)

(** [l] starts at [p]; something follows it. *)
Definition exec_spec (s : stmt) : Prop := ∀ Γ X p σ,
  asm_stmt st Γ p s = Some X → code_at code p X → p + zlen X < zlen code →
  vm p [] σ = after (exec input gas ctx st Γ s σ) (λ halted σ', if halted : bool then finish σ' else vm (p + zlen X) [] σ').

Lemma execs_ok l : Forall exec_spec l → ∀ Γ X p σ,
  asms st Γ p l = Some X → code_at code p X → p + zlen X < zlen code →
  vm p [] σ = after (execs input gas ctx st Γ l σ) (λ halted σ', if halted : bool then finish σ' else vm (p + zlen X) [] σ').
Proof.
  induction 1 as [|s l Hs _ IH]; intros Γ X p σ HX HC Hlt; cbn [asms execs] in *.
  - simplify_eq. simpl. by replace (p + zlen []) with p by (change (zlen []) with 0; lia).
  - destruct (asm_stmt st Γ p s) as [S1|] eqn:ES; simplify_eq/=.
    destruct (asms st (bind_stmt st s Γ) (p + zlen S1) l) as [R|] eqn:ER; simplify_eq/=.
    apply code_at_app in HC as [H1 H2]. rewrite zlen_app in *. pose proof (zlen_nonneg R).
    rewrite (Hs _ _ _ _ ES H1), after_bind by lia. apply after_ext. intros [] σ'; [done|].
    rewrite (IH _ _ _ _ ER H2) by lia. by rewrite Z.add_assoc.
Qed.

Lemma exec_let_ok x v : exec_spec (LetStmt x v).
Proof.
  intros Γ X p σ HX HC Hlt. cbn [asm_stmt exec] in *.
  destruct (asm_expr st (bind_name st x Γ) v) as [V|] eqn:EV; simplify_eq/=.
  apply code_at_app in HC as [H1 [H2 H3]%code_at_app]. rewrite zlen_push_ in *.
  rewrite (vm_push_low _ _ _ _ H1), after_bind by done. apply after_ext. intros _ s1.
  rewrite (eval_ok _ _ _ _ _ _ EV H2), after_bind. apply after_ext. intros w s2.
  rewrite vm_sstore, after_bind by done. apply after_ext. intros _ s3. rewrite after_modify.
  rewrite !zlen_app, zlen_push_. change (zlen [_]) with 1. f_equal. lia.
Qed.

Lemma exec_store_ok k v : exec_spec (StoreStmt k v).
Proof.
  intros Γ X p σ HX HC Hlt. cbn [asm_stmt exec] in *.
  destruct (asm_expr st Γ k) as [K|] eqn:EK; simplify_eq/=. destruct (asm_expr st Γ v) as [V|] eqn:EV; simplify_eq/=.
  apply code_at_app in HC as [H1 [H2 H3]%code_at_app].
  rewrite (eval_ok _ _ _ _ _ _ EK H1), after_bind. apply after_ext. intros k' s1.
  rewrite (eval_ok _ _ _ _ _ _ EV H2), after_bind. apply after_ext. intros w s2.
  rewrite vm_sstore, after_bind by done. apply after_ext. intros _ s3. rewrite after_modify.
  rewrite !zlen_app. change (zlen [_]) with 1. f_equal. lia.
Qed.

Lemma exec_index_ok x k v : exec_spec (IndexStore x k v).
Proof.
  intros Γ X p σ HX HC Hlt. cbn [asm_stmt exec] in *. destruct (st !! x) as [sl|]; simplify_eq/=.
  destruct (asm_expr st Γ k) as [K|] eqn:EK; simplify_eq/=. destruct (asm_expr st Γ v) as [V|] eqn:EV; simplify_eq/=.
  apply code_at_app in HC as [H1 [H2 [H3 [H4 H5]%code_at_app]%(code_at_app _ _ [op_byte MIX])]%code_at_app].
  rewrite zlen_push_ in *. change (zlen [_]) with 1 in *.
  rewrite (vm_push_low _ _ _ _ H1), after_bind by done. apply after_ext. intros _ s1.
  rewrite (eval_ok _ _ _ _ _ _ EK H2), after_bind. apply after_ext. intros k' s2.
  rewrite vm_mix, after_bind by done. apply after_ext. intros m s3.
  rewrite (eval_ok _ _ _ _ _ _ EV H4), after_bind. apply after_ext. intros w s4.
  rewrite vm_sstore, after_bind by done. apply after_ext. intros _ s5. rewrite after_modify.
  rewrite !zlen_app, zlen_cons, !zlen_app, zlen_push_. change (zlen [_]) with 1. f_equal. lia.
Qed.

(** Two positions that are the same number. *)
Ltac pos := f_equal; rewrite ?zlen_app, ?zlen_cons, ?zlen_app, ?zlen_push_; change (zlen []) with 0; lia.

Lemma after_negate c s k : after (negate gas c s) k = after (tick gas ISZERO s) (λ _ s', k (b2u (c =? 0)) s').
Proof. unfold negate. by rewrite after_bind. Qed.
Lemma b2u_zero c : (b2u (c =? 0) =? 0) = negb (c =? 0).
Proof. by destruct (c =? 0). Qed.

Lemma exec_require_ok c : exec_spec (RequireStmt c).
Proof.
  intros Γ X p σ HX HC Hlt. cbn [asm_stmt exec] in *. destruct (asm_expr st Γ c) as [C|] eqn:EC; simplify_eq/=.
  apply code_at_app in HC as [H1 [H2 [H3 H4]%(code_at_app _ _ [op_byte JUMPI])]%code_at_app].
  rewrite !zlen_app, zlen_push_ in *. change (zlen [op_byte JUMPI; op_byte REVERT]) with 2 in *. change (zlen [_]) with 1 in *.
  rewrite (eval_ok _ _ _ _ _ _ EC H1), after_bind. apply after_ext. intros c' s1.
  pose proof (code_at_bound _ _ _ H1). pose proof (zlen_nonneg C).
  rewrite (vm_goto_if _ _ _ _ _ H2 H3), after_bind by (done || lia). apply after_ext. intros _ s2.
  destruct (c' =? 0); [|simpl; pos].
  apply vm_revert. by replace (p + zlen C + 10) with (p + zlen C + 9 + 1) by lia.
Qed.

Lemma exec_if_ok c t e : Forall exec_spec t → Forall exec_spec e → exec_spec (IfStmt c t e).
Proof.
  intros Ht He Γ X p σ HX HC Hlt. rewrite asm_stmt_if in HX. rewrite exec_if.
  destruct (asm_expr st Γ c) as [C|] eqn:EC; simplify_eq/=.
  destruct (asms st Γ (p + zlen C + 11) t) as [T|] eqn:ET; simplify_eq/=. set (pe := p + zlen C + 11 + zlen T + 10) in *.
  destruct (asms st (binds st t Γ) pe e) as [E|] eqn:EE; simplify_eq/=.
  apply code_at_app in HC as [H1 [H2 [H3 [H4 [H5 [H6 [H7 H8]%(code_at_app _ _ [op_byte JUMP])]%code_at_app]%code_at_app]
    %(code_at_app _ _ [op_byte JUMPI])]%code_at_app]%(code_at_app _ _ [op_byte ISZERO])].
  assert (zlen (C ++ op_byte ISZERO :: push_ pe ++ op_byte JUMPI :: T ++ push_ (pe + zlen E) ++ op_byte JUMP :: E) =
    zlen C + 11 + zlen T + 10 + zlen E) as EX.
  { rewrite !zlen_app, zlen_cons, !zlen_app, zlen_cons, !zlen_app, !zlen_push_, zlen_cons. lia. }
  rewrite EX in *. rewrite !zlen_push_ in *. change (zlen [_]) with 1 in *.
  replace (p + zlen C + 1 + 9 + 1) with (p + zlen C + 11) in * by lia.
  replace (p + zlen C + 11 + zlen T + 9 + 1) with pe in * by (unfold pe; lia).
  pose proof (zlen_nonneg C). pose proof (zlen_nonneg T). pose proof (zlen_nonneg E).
  pose proof (code_at_bound _ _ _ H1).
  rewrite (eval_ok _ _ _ _ _ _ EC H1), after_bind. apply after_ext. intros c' s1.
  rewrite vm_negate, after_bind, !after_negate by done. apply after_ext. intros _ s2.
  rewrite (vm_goto_if _ _ _ _ _ H3 H4), after_bind by (done || unfold pe; lia). apply after_ext. intros _ s3.
  rewrite b2u_zero. destruct (c' =? 0); cbn [negb].
  - rewrite (execs_ok e He (binds st t Γ) E pe) by (done || unfold pe; try lia). apply after_ext. intros [] s4; [done|].
    unfold pe. pos.
  - replace (p + zlen C + 1 + 10) with (p + zlen C + 11) by lia.
    rewrite (execs_ok t Ht Γ T (p + zlen C + 11)), after_bind by (done || lia). apply after_ext. intros [] s4; [done|].
    rewrite (vm_goto (pe + zlen E)), after_bind by (done || unfold pe; lia). apply after_ext. intros _ s5.
    simpl. unfold pe. pos.
Qed.

(** Out of steps. *)
Lemma vm_exhausted p K s : (x_left s = 0)%nat → 0 <= p < zlen code → vm p K s = ERR h ErrStepLimit.
Proof.
  intros Hs Hp. unfold vm. rewrite Hs. cbn [loop]. rewrite (bind_ok get _ (cfg p K s) _ _ eq_refl). cbn [m_pc cfg].
  by rewrite (proj2 (Z.ltb_lt _ _)) by lia.
Qed.

Lemma exec_while_ok c b : Forall exec_spec b → exec_spec (WhileStmt c b).
Proof.
  intros Hb Γ X p σ HX HC Hlt. rewrite asm_stmt_while in HX. rewrite exec_while.
  destruct (asm_expr st Γ c) as [C|] eqn:EC; simplify_eq/=.
  destruct (asms st Γ (p + zlen C + 11) b) as [B|] eqn:EB; simplify_eq/=. set (q := p + zlen C + 11 + zlen B + 10) in *.
  apply code_at_app in HC as [H1 [H2 [H3 [H4 [H5 [H6 H7]%code_at_app]%code_at_app]
    %(code_at_app _ _ [op_byte JUMPI])]%code_at_app]%(code_at_app _ _ [op_byte ISZERO])].
  assert (p + zlen (C ++ op_byte ISZERO :: push_ q ++ op_byte JUMPI :: B ++ push_ p ++ [op_byte JUMP]) = q) as EX.
  { rewrite !zlen_app, zlen_cons, !zlen_app, zlen_cons, !zlen_app, !zlen_push_. change (zlen [_]) with 1. unfold q. lia. }
  rewrite EX in *. rewrite !zlen_push_ in *. change (zlen [_]) with 1 in *.
  replace (p + zlen C + 1 + 9 + 1) with (p + zlen C + 11) in * by lia.
  pose proof (zlen_nonneg C). pose proof (zlen_nonneg B). pose proof (code_at_bound _ _ _ H1).
  rewrite (bind_ok get _ σ σ σ eq_refl).
  enough (∀ n σ, below n σ → vm p [] σ = after (while_loop gas n (eval input gas ctx st Γ 0 c) (execs input gas ctx st Γ b) σ)
    (λ halted σ', if halted : bool then finish σ' else vm q [] σ')) as HW by (apply HW; unfold below; lia).
  clear σ. induction n as [|n IH]; intros σ Hn; cbn [while_loop].
  { unfold below in Hn. apply vm_exhausted; [lia|unfold q in *; lia]. }
  rewrite (eval_ok _ _ _ _ _ _ EC H1), after_bind.
  apply (after_below (S n)); [apply below_eval|done|intros c' s1 Hs1].
  rewrite vm_negate, after_bind, !after_negate by done. apply (tick_strict n); [done|intros s2 Hs2].
  rewrite (vm_goto_if _ _ _ _ _ H3 H4), after_bind by (done || unfold q in *; lia).
  apply (after_below n); [auto with hoare|done|intros _ s3 Hs3].
  rewrite b2u_zero. destruct (c' =? 0); cbn [negb]; [done|].
  replace (p + zlen C + 1 + 10) with (p + zlen C + 11) by lia.
  rewrite (execs_ok b Hb Γ B (p + zlen C + 11)), after_bind by (done || unfold q in *; lia).
  apply (after_below n); [apply below_execs'|done|intros [] s4 Hs4]; [done|].
  rewrite (vm_goto p), after_bind by (done || unfold q in *; lia).
  apply (after_below n); [auto with hoare|done|intros _ s5 Hs5]. by apply IH.
Qed.

Lemma exec_emit_ok l : exec_spec (EmitStmt l).
Proof.
  intros Γ X p σ HX HC Hlt. cbn [asm_stmt exec] in *.
  destruct (asm_args st Γ l) as [A|] eqn:EA; simplify_eq/=. apply code_at_app in HC as [H1 H2].
  rewrite (eval_args_ok _ _ [] _ _ _ EA H1 : vm p [] σ = _), after_bind. apply after_wp.
  eapply wp_mono; [..|apply eval_args_length]; [|done..]. intros ts s1 Hts.
  rewrite (log_ok _ _ _ _ H2), after_bind by (unfold zlen; rewrite Hts; simpl; lia).
  apply after_ext. intros _ s2. simpl. rewrite !zlen_app, zlen_push_. change (zlen [_]) with 1. pos.
Qed.

Lemma exec_ok s : exec_spec s.
Proof.
  induction s as [x v|k v|c t e Ht He|c b Hb|l|v| |c| |x k v] using stmt_induction.
  - apply exec_let_ok.
  - apply exec_store_ok.
  - by apply exec_if_ok.
  - by apply exec_while_ok.
  - apply exec_emit_ok.
  - intros Γ X p σ HX HC Hlt. cbn [asm_stmt exec] in *. destruct (asm_expr st Γ v) as [V|] eqn:EV; simplify_eq/=.
    apply code_at_app in HC as [H1 H2].
    rewrite (eval_ok _ _ _ _ _ _ EV H1), after_bind. apply after_ext. intros w s1.
    rewrite vm_return, after_bind by done. by apply after_ext.
  - intros Γ X p σ [= <-] HC Hlt. cbn [exec]. rewrite vm_stop, after_bind by done. by apply after_ext.
  - apply exec_require_ok.
  - intros Γ X p σ [= <-] HC Hlt. by apply vm_revert.
  - apply exec_index_ok.
Qed.

Lemma block_ok l Γ X p σ : asms st Γ p l = Some X → code_at code p X → p + zlen X < zlen code →
  vm p [] σ = after (execs input gas ctx st Γ l σ) (λ halted σ', if halted : bool then finish σ' else vm (p + zlen X) [] σ').
Proof. apply execs_ok, Forall_forall. intros s _. apply exec_ok. Qed.

(** ** Functions *)

Lemma load_params_ok ps : ∀ i Γ p σ, code_at code p (asm_params i ps Γ) →
  vm p [] σ = after (load_params input gas i ps Γ σ) (λ _ σ', vm (p + zlen (asm_params i ps Γ)) [] σ').
Proof.
  induction ps as [|x ps IH]; intros i Γ p σ HC; cbn [asm_params load_params] in *.
  { simpl. pos. }
  apply code_at_app in HC as [H1 [H2 [H3 [H4 H5]%code_at_app]%code_at_app]%code_at_app]. rewrite !zlen_push_ in *.
  change (zlen [_]) with 1 in *.
  rewrite (vm_push_low _ _ _ _ H1), after_bind by done. apply after_ext. intros _ s1.
  rewrite (vm_push_low _ _ _ _ H2), after_bind by done. apply after_ext. intros _ s2.
  rewrite vm_cdload, after_bind by done. apply after_ext. intros v s3.
  rewrite vm_sstore, after_bind by done. apply after_ext. intros _ s4. rewrite after_bind.
  change (after (modify ?f ?s) ?k) with (k tt (f s)). cbv beta.
  rewrite (IH _ _ _ _ H5). apply after_ext. intros _ s5. pos.
Qed.

Lemma run_fn_ok ps body X p v σ : asm_body st p ps body = Some X → code_at code p X →
  vm p [v] σ = after (run_fn input gas ctx st ps body σ) (λ _ σ', finish σ').
Proof.
  unfold asm_body, run_fn. intros HX HC. destruct (asms _ _ _ body) as [B|] eqn:EB; simplify_eq/=.
  apply (code_at_app _ _ [op_byte POP]) in HC as [H1 [H2 [H3 H4]%code_at_app]%code_at_app]. change (zlen [_]) with 1 in *.
  rewrite vm_pop, after_bind by done. apply after_ext. intros _ s1.
  rewrite (load_params_ok _ _ _ _ _ H2), after_bind. apply after_ext. intros _ s2.
  pose proof (code_at_bound _ _ _ H4) as Hb. change (zlen [_]) with 1 in Hb.
  rewrite (block_ok _ _ _ _ _ EB H3), after_bind by lia. apply after_ext. intros [] s3; [done|]. by apply vm_stop.
Qed.

Lemma b2u_eqb a c : (b2u (a =? c) =? 0) = negb (a =? c).
Proof. by destruct (a =? c). Qed.

Lemma route_ok sel fns : ∀ As X pb p σ, asm_bodies st pb fns = Some (As, X) → code_at code pb X →
  code_at code p (asm_router fns As ++ [op_byte POP] ++ [op_byte REVERT]) →
  vm p [sel] σ = after (route input gas ctx st sel fns σ) (λ _ σ', finish σ').
Proof.
  induction fns as [|[[f ps] body] fns IH]; intros As X pb p σ HX HB HR; cbn [asm_bodies asm_router route] in *.
  { simplify_eq. apply (code_at_app _ _ [op_byte POP]) in HR as [H1 H2]. change (zlen [_]) with 1 in *.
    rewrite vm_pop, after_bind by done. apply after_ext. intros _ s1. rewrite (vm_revert _ _ _ (λ _ _, ERR h ErrRevert)) by done.
    rewrite !after_bind. by apply after_ext. }
  destruct (asm_body st pb ps body) as [B|] eqn:EB; simpl in HX; [|done].
  destruct (asm_bodies st (pb + zlen B) fns) as [[As' R]|] eqn:ER; simpl in HX; [|done]. injection HX as <- <-.
  apply code_at_app in HB as [HB1 HB2]. cbn [asm_router] in HR. rewrite <- !app_assoc in HR.
  apply (code_at_app _ _ [op_byte DUP]) in HR as [H1 [H2 [H3 [H4 [H5 H6]%(code_at_app _ _ [op_byte JUMPI])]%code_at_app]
    %(code_at_app _ _ [op_byte EQ])]%code_at_app]. rewrite !zlen_push_ in *. change (zlen [_]) with 1 in *.
  rewrite (vm_plain DUP p (p + 1) [sel] [sel; sel] id), after_bind by done. apply after_ext. intros _ s1.
  rewrite (vm_push_low (Selector f)), after_bind by done. apply after_ext. intros _ s2.
  rewrite (vm_plain EQ _ (p + 1 + 9 + 1) _ [b2u (sel =? u64 (Selector f)); sel] id), after_bind by done.
  apply after_ext. intros _ s3. pose proof (code_at_bound _ _ _ HB1) as Hb.
  assert (0 < zlen B) as HBpos.
  { unfold asm_body in EB. destruct (asms _ _ _ body); simplify_eq/=. rewrite zlen_cons. pose proof (zlen_nonneg (asm_params 0 ps scope0 ++ l ++ [op_byte STOP])). lia. }
  rewrite (vm_goto_if _ pb), after_bind by (done || lia). apply after_ext. intros _ s4.
  rewrite b2u_eqb. destruct (sel =? u64 (Selector f)); cbn [negb].
  - by apply (run_fn_ok _ _ B).
  - eapply IH; [exact ER|done|]. by replace (p + 1 + 9 + 1 + 10) with (p + 1 + 9 + 1 + 9 + 1) by lia.
Qed.

Lemma dispatch_runs p fns X σ : asm_dispatch st p fns = Some X → code_at code p X →
  vm p [] σ = after (call input gas ctx st fns σ) (λ _ σ', finish σ').
Proof.
  unfold asm_dispatch, call. intros HX HC. destruct (asm_bodies _ _ _) as [[As B]|] eqn:EB; simplify_eq/=.
  pose proof (asm_bodies_length _ _ _ _ _ EB) as HAs.
  apply code_at_app in HC as [H1 [H2 H3]%(code_at_app _ _ [op_byte CDLOAD])]. rewrite zlen_push_ in *. change (zlen [_]) with 1 in *.
  rewrite (vm_push_low _ _ _ _ H1), after_bind by done. apply after_ext. intros _ s1.
  rewrite vm_cdload, after_bind by done. apply after_ext. intros sel s2.
  change (asm_router fns As ++ op_byte POP :: op_byte REVERT :: B) with (asm_router fns As ++ [op_byte POP; op_byte REVERT] ++ B) in H3.
  rewrite app_assoc in H3. apply code_at_app in H3 as [H3 H4].
  eapply route_ok; [exact EB| |exact H3].
  rewrite zlen_app, asm_router_length in H4 by done. change (zlen [_; _]) with 2 in H4.
  by replace (p + 10 + 21 * zlen fns + 2) with (p + 9 + 1 + (21 * zlen fns + 2)) by lia.
Qed.
End machine.

(** ** A contract *)

Definition counter_src : bytes := bytes_of
  "state total; fn add(n) { require(n > 0); total = total + n; emit(n, total); return total; } fn get() { return total; }".
Definition counter_code : bytes := match Compile counter_src with Ok c => c | _ => [] end.
Definition call_data (f : string) (args : list Z) : bytes := concat (map (be_bytes 8) (Selector f :: args)).

(** An assignment to a parameter that has the name of a state variable writes the state
    variable; reading the name gives the parameter. *)
Definition shadow_src : bytes := bytes_of "state x; fn f(x) { x = 5; return x; }".

Example assigned_parameter_unchanged :
  match Compile shadow_src with
  | Ok c => match ExecuteB c (call_data "f" [7]) ∅ None 1000 ctx0 tt with
            | OK _ (r, st, _) => Return r = 7 ∧ st !! stateBase = Some 5 | _ => False end
  | _ => False end.
Proof. vm_compute. auto. Qed.

(** [&&] is bitwise. *)
Example logic_is_bitwise :
  match Compile (bytes_of "return 2 && 1;") with
  | Ok c => match ExecuteB c [] ∅ None 1000 ctx0 tt with OK _ (r, _, _) => Return r = 0 | _ => False end
  | _ => False end.
Proof. vm_compute. auto. Qed.

(** The estimate of a program with two branches is above what it costs. *)
Example estimate_above_cost :
  match CompileAndEstimate (bytes_of "if (arg(0)) { store[1] = 100; } else { store[1] = 200; }") with
  | Ok (c, e) => match ExecuteB c [] ∅ None 1000 ctx0 tt with OK _ (r, _, _) => GasUsed r < e | _ => False end
  | _ => False end.
Proof. vm_compute. auto. Qed.

(** ** Programs *)

Lemma program_ok {H} prog code input gas (ctx : Context H) bs h σ :
  asm_program prog = Some code → zlen code < 9223372036854775808 →
  vm code input gas ctx bs h 0 [] σ = after h (run_program input gas ctx prog σ) (λ _ σ', finish bs h σ').
Proof.
  intros HX Hsmall. unfold asm_program in HX. cbv zeta in HX.
  destruct (asms (state_slots prog) scope0 0 (flat prog)) as [F|] eqn:EF; simpl in HX; [|done].
  unfold asm_end in HX. set (D := match functions prog with [] => _ | _ => _ end) in HX.
  destruct D as [D0|] eqn:ED; simpl in HX; [|done]. injection HX as <-.
  assert (code_at (F ++ D0 ++ [op_byte STOP]) 0 (F ++ D0 ++ [op_byte STOP])) as HC.
  { exists [], []. by rewrite app_nil_r. }
  apply code_at_app in HC as [H1 [H2 H3]%code_at_app].
  pose proof (code_at_bound _ _ _ H3) as Hb. change (zlen [op_byte STOP]) with 1 in Hb. pose proof (zlen_nonneg D0).
  unfold run_program. cbv zeta.
  rewrite (block_ok _ input gas ctx bs h Hsmall (state_slots prog) _ _ _ _ _ EF H1), after_bind by lia.
  apply after_ext. intros [] σ1; [done|]. unfold D in ED. destruct (functions prog) as [|fn fns].
  - injection ED as <-. apply vm_stop. by replace (0 + zlen F) with (0 + zlen F + zlen (@nil byte)) by (change (zlen (@nil byte)) with 0; lia).
  - by eapply dispatch_runs.
Qed.

(** What is compiled runs as the source does. *)
Lemma compiled_runs src code : Compile src = Ok code → zlen code < 9223372036854775808 →
  ∃ prog, Parse src = Ok prog ∧ Forall node_ok prog ∧
    ∀ (H : Type) (input : bytes) (storage : gmap Z Z) (bstore : option (gmap Z bytes)) (gas : Z) (ctx : Context H) (h : H),
      ExecuteB code input storage bstore gas ctx h = Interpret input gas ctx prog storage bstore h.
Proof.
  unfold Compile. intros HC Hsmall. pose proof (Parse_ok src) as HP.
  destruct (Parse src) as [prog| |]; simpl in HC; [|done..]. exists prog. split_and!; [done..|].
  intros H input storage bstore gas ctx h. rewrite compile_nodes_asm in HC.
  destruct (asm_program prog) as [X|] eqn:EX; [|done]. injection HC as ->.
  pose proof (program_ok prog code input gas ctx bstore h (Sst (Z.to_nat maxSteps) 0 storage [] 0) EX Hsmall) as HV.
  unfold Interpret. unfold vm in HV. cbn [x_left] in HV.
  transitivity (obs bstore (loop code input gas ctx (Z.to_nat maxSteps) (init storage bstore h))); [done|].
  unfold init. unfold cfg in HV. cbn [x_store x_used x_ret x_logs] in HV. rewrite HV.
  by destruct (run_program _ _ _ _ _).
Qed.

(** [C7] What [Compile] produces runs the way the source says: for every source text that
    compiles (to less than 2^63 bytes), every call data, storage, gas limit and caller,
    the machine and the source semantics end alike: the same answer, storage, events
    and gas used, or the same error, or the same panic.  No jump of compiled code is
    ever bad, and nothing it executes is outside what the source wrote. *)
Theorem Compile_correct src code : Compile src = Ok code → zlen code < 9223372036854775808 →
  ∃ prog, Parse src = Ok prog ∧ Forall node_ok prog ∧
    ∀ (H : Type) (input : bytes) (storage : gmap Z Z) (bstore : option (gmap Z bytes)) (gas : Z) (ctx : Context H) (h : H),
      ExecuteB code input storage bstore gas ctx h = Interpret input gas ctx prog storage bstore h.
Proof. apply compiled_runs. Qed.

Lemma Compile_correct_witness : ∃ prog, Parse counter_src = Ok prog ∧
  ExecuteB counter_code (call_data "add" [5]) ∅ None 1000 ctx0 tt =
    Interpret (call_data "add" [5]) 1000 ctx0 prog ∅ None tt ∧
  ExecuteB counter_code (call_data "add" [5]) ∅ None 1000 ctx0 tt =
    OK tt (MkResult 441 5 [] [] [[5; 5]], {[ localBase := 5; stateBase := 5 ]}, None).
Proof.
  destruct (Compile_correct counter_src counter_code) as (prog & HP & _ & HE); [vm_compute; reflexivity|vm_compute; reflexivity|].
  exists prog. split; [exact HP|]. split; [apply HE|vm_compute; reflexivity].
Defined.
