(* ===== verification/State.v ===== *)
(** * The account ledger ([internal/state/state.go])

    Accounts, the validator registry and the block transition.  A block runs in
    the monad [M] over [xst]: the ledger, the rollback snapshot [saved] that
    [ApplyBlock] keeps in a local map, and the block's event log.  Account
    pointers never leave the map while a block runs, so a write through a pointer
    is a write to the map at that address.  The fields that configure the ledger
    and are not part of its persisted contents form the record [Config]; nil maps
    read as empty ones.  Locks are not modelled: every operation here runs under
    the state's mutex. *)

From S2P Require Import Prelude Sha256 Crypto Economy Merkle Netparams Types Pow Vm.

(** ** What the ledger takes from outside this repository's own code

    Ed25519, [encoding/json] on equivocation evidence, and the order in which
    [range] visits the account map: some permutation of its entries. *)

Record Account := MkAccount {
  ac_Balance : Z; ac_Nonce : Z; ac_Code : bytes;
  ac_Storage : gmap string Z; ac_BStorage : gmap string bytes;
}.

Class Platform := {
  pf_ed :: Ed25519;
  json_evidence : bytes → option EquivocationEvidence;
  range_accounts : gmap Address Account → list (Address * Account);
  range_accounts_perm m : range_accounts m ≡ₚ map_to_list m;
}.

(** ** Data *)

Definition emptyAccount : Account := MkAccount 0 0 [] ∅ ∅.

Record Validator := MkValidator {
  v_Bond : Z; v_Active : bool; v_Since : Z; v_Slashed : bool; v_StorageScore : Z; v_LastProofAt : Z;
}.

Record Config := MkConfig {
  ChainID : Z; RegPoWBits : Z;
  FaucetBits : Z; FaucetAmount : Z; FaucetCooldown : Z; FaucetDepth : Z; FaucetSource : Address;
  AnchorBodyHash : option (Z → option Hash);
  StorageWindow : Z; StorageMinDepth : Z; StorageCap : Z;
  ShardAt : option (Z → option (Hash * Z));
  ShardProofOK : option (Z → Z → bytes → bool);
}.

Record State := MkState {
  Accounts : gmap Address Account; Validators : gmap Address Validator;
  Height : Z; Minted : Z; FaucetClaims : gmap Address Z; lastLogs : list Log; cfg : Config;
}.

Definition set_Accounts m s :=
  MkState m (Validators s) (Height s) (Minted s) (FaucetClaims s) (lastLogs s) (cfg s).
Definition set_Validators v s :=
  MkState (Accounts s) v (Height s) (Minted s) (FaucetClaims s) (lastLogs s) (cfg s).
Definition set_Minted m s :=
  MkState (Accounts s) (Validators s) (Height s) m (FaucetClaims s) (lastLogs s) (cfg s).
Definition set_FaucetClaims c s :=
  MkState (Accounts s) (Validators s) (Height s) (Minted s) c (lastLogs s) (cfg s).
Definition set_head h l s :=
  MkState (Accounts s) (Validators s) h (Minted s) (FaucetClaims s) l (cfg s).
Definition set_cfg c s :=
  MkState (Accounts s) (Validators s) (Height s) (Minted s) (FaucetClaims s) (lastLogs s) c.

Definition set_Balance b c := MkAccount b (ac_Nonce c) (ac_Code c) (ac_Storage c) (ac_BStorage c).
Definition set_Nonce n c := MkAccount (ac_Balance c) n (ac_Code c) (ac_Storage c) (ac_BStorage c).
Definition set_Code d c := MkAccount (ac_Balance c) (ac_Nonce c) d (ac_Storage c) (ac_BStorage c).
Definition set_Storage st bst c := MkAccount (ac_Balance c) (ac_Nonce c) (ac_Code c) st bst.

Definition cfg0 : Config := MkConfig 0 0 0 0 0 0 "" None 0 0 0 None None.

Definition New : State := MkState ∅ ∅ 0 0 ∅ [] cfg0.

(** ** Configuration setters *)

Definition SetChainID (id : Z) (s : State) : State :=
  let c := cfg s in
  set_cfg (MkConfig id (RegPoWBits c) (FaucetBits c) (FaucetAmount c) (FaucetCooldown c) (FaucetDepth c)
    (FaucetSource c) (AnchorBodyHash c) (StorageWindow c) (StorageMinDepth c) (StorageCap c)
    (ShardAt c) (ShardProofOK c)) s.

Definition SetRegPoWBits (bits : Z) (s : State) : State :=
  let c := cfg s in
  set_cfg (MkConfig (ChainID c) bits (FaucetBits c) (FaucetAmount c) (FaucetCooldown c) (FaucetDepth c)
    (FaucetSource c) (AnchorBodyHash c) (StorageWindow c) (StorageMinDepth c) (StorageCap c)
    (ShardAt c) (ShardProofOK c)) s.

Definition SetFaucet (bits amount cooldown depth : Z) (source : Address)
    (anchor : option (Z → option Hash)) (s : State) : State :=
  let c := cfg s in
  set_cfg (MkConfig (ChainID c) (RegPoWBits c) bits amount cooldown depth source anchor
    (StorageWindow c) (StorageMinDepth c) (StorageCap c) (ShardAt c) (ShardProofOK c)) s.

Definition SetStorageProof (window minDepth cap : Z) (shardAt : option (Z → option (Hash * Z)))
    (proofOK : option (Z → Z → bytes → bool)) (s : State) : State :=
  let c := cfg s in
  set_cfg (MkConfig (ChainID c) (RegPoWBits c) (FaucetBits c) (FaucetAmount c) (FaucetCooldown c)
    (FaucetDepth c) (FaucetSource c) (AnchorBodyHash c) window minDepth cap shardAt proofOK) s.

Definition InheritConfig (src s : State) : State := set_cfg (cfg src) s.

(** [Clone] copies everything but the storage-proof settings and the transient logs. *)
Definition Clone (s : State) : State :=
  let c := cfg s in
  MkState (Accounts s) (Validators s) (Height s) (Minted s) (FaucetClaims s) []
    (MkConfig (ChainID c) (RegPoWBits c) (FaucetBits c) (FaucetAmount c) (FaucetCooldown c)
      (FaucetDepth c) (FaucetSource c) (AnchorBodyHash c) 0 0 0 None None).

Definition ReplaceWith (other s : State) : State :=
  MkState (Accounts other) (Validators other) (Height other) (Minted other) (FaucetClaims other)
    (lastLogs s) (cfg s).

(** ** Queries *)

Definition acct_of (m : gmap Address Account) (a : Address) : Account := default emptyAccount (m !! a).

Definition Get (s : State) (a : Address) : Account := acct_of (Accounts s) a.

Definition IsContract (s : State) (a : Address) : bool :=
  match Accounts s !! a with Some c => 0 <? zlen (ac_Code c) | None => false end.

Definition ValidatorInfo (s : State) (a : Address) : option Validator := Validators s !! a.
Definition Supply (s : State) : Z := Minted s.
Definition NextReward (s : State) (height : Z) : Z := BlockReward height (Minted s).
Definition SetMinted (v : Z) (s : State) : State := set_Minted v s.

Definition RegisterGenesisValidator (a : Address) (s : State) : State :=
  set_Validators (<[a:=MkValidator 0 true 0 false 0 0]> (Validators s)) s.

Definition ActiveValidators (s : State) : list Address :=
  merge_sort str_le (fst <$> filter (λ p, v_Active p.2 = true) (map_to_list (Validators s))).

Definition weight (s : State) (v : Validator) : Z :=
  if (StorageWindow (cfg s) =? 0) || (Height s <? u64 (v_LastProofAt v + StorageWindow (cfg s)))
  then u64 (1 + v_StorageScore v) else 1.

Definition StorageWeights (s : State) : gmap Address Z :=
  omap (λ v, if v_Active v then Some (weight s v) else None) (Validators s).

Definition Credit (a : Address) (amount : Z) (s : State) : State :=
  set_Accounts (<[a:=set_Balance (u64 (ac_Balance (Get s a) + amount)) (Get s a)]> (Accounts s)) s.

(** ** strconv and the storage maps *)

Fixpoint digits (fuel : nat) (n : Z) (acc : bytes) : bytes :=
  match fuel with
  | O => acc
  | S f => let acc := zb (48 + n mod 10) :: acc in
           if n / 10 =? 0 then acc else digits f (n / 10) acc
  end.

(** [strconv.FormatUint(n, 10)]: 20 digits are enough for 64 bits. *)
Definition FormatUint (n : Z) : string := string_of (digits 20 n []).

Fixpoint parse_digits (l : bytes) (acc : Z) : option Z :=
  match l with
  | [] => Some acc
  | b :: r =>
      if (48 <=? bz b) && (bz b <=? 57) then
        let n := acc * 10 + (bz b - 48) in if n <? W64 then parse_digits r n else None
      else None
  end.

(** [strconv.ParseUint(s, 10, 64)] *)
Definition ParseUint (s : string) : option Z :=
  match bytes_of s with [] => None | l => parse_digits l 0 end.

Definition decode_map {A} (m : gmap string A) : gmap Z A :=
  list_to_map (omap (λ p, (λ n, (n, p.2)) <$> ParseUint p.1) (map_to_list m)).
Definition encode_map {A} (m : gmap Z A) : gmap string A :=
  list_to_map ((λ p, (FormatUint p.1, p.2)) <$> map_to_list m).

Definition storageDecode : gmap string Z → gmap Z Z := decode_map.
Definition storageEncode : gmap Z Z → gmap string Z := encode_map.
Definition bstoreDecode : gmap string bytes → gmap Z bytes := decode_map.
Definition bstoreEncode : gmap Z bytes → gmap string bytes := encode_map.

(** [u64word] writes the eight bytes out by hand. *)
Definition u64word (v : Z) : bytes :=
  [zb (Z.shiftr v 56); zb (Z.shiftr v 48); zb (Z.shiftr v 40); zb (Z.shiftr v 32);
   zb (Z.shiftr v 24); zb (Z.shiftr v 16); zb (Z.shiftr v 8); zb v].

(** ** Execution state of a block *)

Record xst := Xst { x_s : State; x_saved : gmap Address (option Account); x_logs : list Log }.

Abbreviation MX := (Prelude.M xst).

Definition on_state (f : State → State) (x : xst) : xst := Xst (f (x_s x)) (x_saved x) (x_logs x).

(** [snap(a)]: remember the account before its first change in this block. *)
Definition snap (a : Address) : MX unit := modify (λ x,
  match x_saved x !! a with
  | Some _ => x
  | None => Xst (x_s x) (<[a:=Accounts (x_s x) !! a]> (x_saved x)) (x_logs x)
  end).

(** [s.acct(a)]: the account, created empty when absent. *)
Definition acct (a : Address) : MX Account :=
  x ← get;
  match Accounts (x_s x) !! a with
  | Some c => mret c
  | None => modify (on_state (λ s, set_Accounts (<[a:=emptyAccount]> (Accounts s)) s)) ≫= λ _,
            mret emptyAccount
  end.

(** A write through the pointer to the account at [a]. *)
Definition write (a : Address) (f : Account → Account) : MX unit :=
  modify (on_state (λ s, set_Accounts (alter f a (Accounts s)) s)).

Definition add_balance (v : Z) (c : Account) : Account := set_Balance (u64 (ac_Balance c + v)) c.
Definition sub_balance (v : Z) (c : Account) : Account := set_Balance (u64 (ac_Balance c - v)) c.

(** [s.acct(a).Balance += v] *)
Definition credit (a : Address) (v : Z) : MX unit := acct a ≫= λ _, write a (add_balance v).

Definition set_validator (a : Address) (v : Validator) : MX unit :=
  modify (on_state (λ s, set_Validators (<[a:=v]> (Validators s)) s)).

(** The deferred [rollback] of a failing block. *)
Definition restore (m : gmap Address Account) (saved : gmap Address (option Account)) : gmap Address Account :=
  merge (λ cur sv, match sv with Some o => o | None => cur end) m saved.

Definition rollback (s0 : State) (x : xst) : State :=
  set_Validators (Validators s0) (set_Accounts (restore (Accounts (x_s x)) (x_saved x)) (x_s x)).

Definition try_ {S A} (m : Prelude.M S A) : Prelude.M S (error + A) := λ s,
  match m s with OK s' a => OK s' (inr a) | ERR s' e => OK s' (inl e) | PANIC s' => PANIC s' end.

Section ledger.
Context `{Platform}.

(** ** Contracts *)

Definition contractByDigest (d : Z) (s : State) : option Address :=
  fst <$> List.find (λ p, (0 <? zlen (ac_Code p.2)) && (AddrDigest p.1 =? d)) (range_accounts (Accounts s)).

(** [(ret, used, ok)] *)
Definition exec_fn : Type := Address → Z → Address → bytes → Z → Z → Z → Z → MX (Z * Z * bool).

Definition vmHost_Call (exec : exec_fn) (txIndex : Z) : host xst := λ self target arg gasLimit depth,
  x ← get;
  match contractByDigest target (x_s x) with
  | None => mret (0, 0, false)
  | Some addr =>
      r ← exec addr self "" (u64word arg) 0 gasLimit depth txIndex;
      let '(ret, used, ok) := r in
      mret (if ok : bool then (ret, used, true) else (0, gasLimit, false))
  end.

(** The body of [execContract], given the host it hands to the machine. *)
Definition runContract (h : host xst) (addr : Address) (caller : Z) (callerAddr : Address)
    (input : bytes) (value gas depth txIndex : Z) : MX (Z * Z * bool) :=
  c ← acct addr;
  snap addr ≫= λ _,
  let ctx := MkContext caller (AddrDigest addr) (bytes_of callerAddr) (bytes_of addr) value
               (ac_Balance c) (Some h) depth in
  r ← try_ (ExecuteB (ac_Code c) input (storageDecode (ac_Storage c))
              (Some (bstoreDecode (ac_BStorage c))) gas ctx);
  match r with
  | inl _ => mret (0, gas, false)
  | inr (res, st, bst) =>
      write addr (set_Storage (storageEncode st) (bstoreEncode (default ∅ bst))) ≫= λ _,
      modify (λ x, Xst (x_s x) (x_saved x)
        (x_logs x ++ ((λ ev, MkLog addr ev txIndex) <$> Logs res))) ≫= λ _,
      mret (Return res, GasUsed res, true)
  end.

(** [fuel] is the number of nested levels left, [maxDepth - depth]; at the last
    level the machine never asks the host ([execContract_fuel] in [StateInv]). *)
Fixpoint execContract (fuel : nat) (addr : Address) (caller : Z) (callerAddr : Address)
    (input : bytes) (value gas depth txIndex : Z) : MX (Z * Z * bool) :=
  runContract
    (match fuel with
     | O => λ _ _ _ _ _, panic
     | S f => vmHost_Call (execContract f) txIndex
     end) addr caller callerAddr input value gas depth txIndex.

(** [QueryContractRaw]: [Ok None] is [ok = false]. *)
Definition QueryContractRaw (s : State) (addr : Address) (caller : Z) (input : bytes) (gas : Z)
    : res (option (Z * bytes)) :=
  match Accounts s !! addr with
  | None => Ok None
  | Some c =>
      if zlen (ac_Code c) =? 0 then Ok None else
      let gas := if gas =? 0 then 1000000 else gas in
      let ctx := MkContext caller (AddrDigest addr) [] (bytes_of addr) 0 (ac_Balance c) None 0 in
      match ExecuteB (ac_Code c) input (storageDecode (ac_Storage c))
              (Some (bstoreDecode (ac_BStorage c))) gas ctx tt with
      | OK _ (res, _, _) => Ok (Some (Return res, ReturnBytes res))
      | ERR _ _ => Ok None
      | PANIC _ => Panic
      end
  end.

Definition QueryContract (s : State) (addr : Address) (caller : Z) (input : bytes) (gas : Z)
    : res (option Z) :=
  match QueryContractRaw s addr caller input gas with
  | Ok r => Ok (option_map fst r) | Err e => Err e | Panic => Panic
  end.

(** ** Admission check *)

Definition CheckTx (s : State) (t : Transaction) : res unit :=
  _ ← tx_VerifySig t;
  if IsCoinbase t then Err ErrCoinbaseInBody
  else if negb (tx_ChainID t =? ChainID (cfg s)) then Err ErrBadChainID
  else if negb (tx_Nonce t =? ac_Nonce (Get s (tx_From t))) then Err ErrBadNonce
  else
    let total := u64 (tx_Amount t + tx_Fee t) in
    if total <? tx_Amount t then Err ErrInsufficient
    else if ac_Balance (Get s (tx_From t)) <? total then Err ErrInsufficient
    else Ok tt.

(** ** Transaction kinds *)

Definition state_of : MX State := x ← get; mret (x_s x).

Definition applySlash (t : Transaction) : MX unit :=
  match json_evidence (tx_Data t) with
  | None => throw ErrBadEvidence
  | Some ev =>
      match Header_VerifySig (ev_A ev), Header_VerifySig (ev_B ev) with
      | Ok _, Ok _ =>
          if negb (bool_decide (hd_Validator (ev_A ev) = hd_Validator (ev_B ev)))
             || negb (hd_Height (ev_A ev) =? hd_Height (ev_B ev))
             || bool_decide (ID (ev_A ev) = ID (ev_B ev))
          then throw ErrBadEvidence else
          s ← state_of;
          match Validators s !! hd_Validator (ev_A ev) with
          | None => throw ErrNotValidator
          | Some v =>
              if negb (v_Active v) then throw ErrNotValidator else
              snap (tx_From t) ≫= λ _,
              credit (tx_From t) (v_Bond v / 10) ≫= λ _,
              set_validator (hd_Validator (ev_A ev)) (MkValidator 0 false (v_Since v) true 0 0)
          end
      | _, _ => throw ErrBadEvidence
      end
  end.

Definition applyDeploy (t : Transaction) : MX unit :=
  let caddr := ContractAddress (tx_From t) (tx_Nonce t) in
  snap caddr ≫= λ _,
  acct caddr ≫= λ _,
  write caddr (set_Code (tx_Data t)) ≫= λ _,
  write caddr (add_balance (tx_Amount t)).

Definition applyCall (i : Z) (t : Transaction) : MX unit :=
  snap (tx_To t) ≫= λ _,
  to ← acct (tx_To t);
  write (tx_To t) (add_balance (tx_Amount t)) ≫= λ _,
  if zlen (ac_Code to) =? 0 then mret tt else
  r ← execContract (Z.to_nat maxDepth) (tx_To t) (AddrDigest (tx_From t)) (tx_From t) (tx_Data t)
        (tx_Amount t) (tx_Gas t) 0 i;
  if r.2 : bool then mret tt else
  write (tx_To t) (sub_balance (tx_Amount t)) ≫= λ _,
  credit (tx_From t) (tx_Amount t).

Definition uint64_at (d : bytes) : Z := be_val (take 8 d).

Definition applyRegister (hd : Header) (t : Transaction) : MX unit :=
  let nonce := if 8 <=? zlen (tx_Data t) then uint64_at (tx_Data t) else 0 in
  s ← state_of;
  require (Regpow.Verify (ChainID (cfg s)) (tx_From t) nonce (RegPoWBits (cfg s))) ErrBadRegPoW ≫= λ _,
  if tx_Amount t <? MinBond then throw ErrBondTooLow else
  match Validators s !! tx_From t with
  | Some v => if v_Active v || v_Slashed v then throw ErrAlreadyValidator
              else set_validator (tx_From t) (MkValidator (tx_Amount t) true (hd_Height hd) false 0 0)
  | None => set_validator (tx_From t) (MkValidator (tx_Amount t) true (hd_Height hd) false 0 0)
  end.

Definition applyUnregister (t : Transaction) : MX unit :=
  s ← state_of;
  match Validators s !! tx_From t with
  | None => throw ErrNotValidator
  | Some v =>
      if negb (v_Active v) then throw ErrNotValidator else
      credit (tx_From t) (u64 (v_Bond v + tx_Amount t)) ≫= λ _,
      modify (on_state (λ s, set_Validators (delete (tx_From t) (Validators s)) s))
  end.

Definition applyFaucet (hd : Header) (t : Transaction) : MX unit :=
  s ← state_of;
  let c := cfg s in
  match AnchorBodyHash c with
  | None => throw ErrFaucetDisabled
  | Some anchor_of =>
      if FaucetAmount c =? 0 then throw ErrFaucetDisabled else
      if zlen (tx_Data t) <? 16 then throw ErrBadFaucet else
      let anchorHeight := uint64_at (tx_Data t) in
      let nonce := uint64_at (drop 8 (tx_Data t)) in
      let H := hd_Height hd in
      if (H <? u64 (anchorHeight + FaucetDepth c)) || (u64 (anchorHeight + 256) <? H)
      then throw ErrBadFaucet else
      match anchor_of anchorHeight with
      | None => throw ErrBadFaucet
      | Some anchor =>
          require (Faucet.Verify (ChainID c) (tx_From t) anchor nonce (FaucetBits c)) ErrBadFaucetPoW ≫= λ _,
          require (match FaucetClaims s !! tx_From t with
                   | Some last => negb (H <? u64 (last + FaucetCooldown c)) | None => true end)
            ErrFaucetCooldown ≫= λ _,
          src ← acct (FaucetSource c);
          require (negb (ac_Balance src <? FaucetAmount c)) ErrFaucetDry ≫= λ _,
          snap (FaucetSource c) ≫= λ _,
          write (FaucetSource c) (sub_balance (FaucetAmount c)) ≫= λ _,
          credit (tx_From t) (FaucetAmount c) ≫= λ _,
          modify (on_state (λ s, set_FaucetClaims (<[tx_From t:=H]> (FaucetClaims s)) s))
      end
  end.

(** The shard a validator must hold for a block of [total] shards. *)
Definition assigned_index (from : Address) (blockID : Hash) (total : Z) : Z :=
  uint64_at (sha256 (bytes_of from ++ blockID)) mod total.

Definition prove_storage (cap H : Z) (v : Validator) : Validator :=
  MkValidator (v_Bond v) (v_Active v) (v_Since v) (v_Slashed v)
    (if v_StorageScore v <? cap then u64 (v_StorageScore v + 1) else v_StorageScore v) H.

Definition applyStorageProof (hd : Header) (t : Transaction) : MX unit :=
  s ← state_of;
  let c := cfg s in
  match ShardAt c, ShardProofOK c with
  | Some shardAt, Some proofOK =>
      match Validators s !! tx_From t with
      | None => throw ErrNotValidator
      | Some v =>
          if negb (v_Active v) then throw ErrNotValidator else
          if zlen (tx_Data t) <? 8 then throw ErrBadStorageProof else
          let target := uint64_at (tx_Data t) in
          let shard := drop 8 (tx_Data t) in
          let H := hd_Height hd in
          if (H <=? target) || (u64 (target + StorageWindow c) <? H) || (H - target <? StorageMinDepth c)
          then throw ErrBadStorageProof else
          match shardAt target with
          | None => throw ErrBadStorageProof
          | Some (blockID, total) =>
              if total <=? 0 then throw ErrBadStorageProof else
              require (proofOK target (assigned_index (tx_From t) blockID total) shard) ErrBadStorageProof ≫= λ _,
              set_validator (tx_From t) (prove_storage (StorageCap c) H v)
          end
      end
  | _, _ => throw ErrStorageDisabled
  end.

Definition applyTransfer (t : Transaction) : MX unit :=
  snap (tx_To t) ≫= λ _, credit (tx_To t) (tx_Amount t).

(** [switch t.Kind] *)
Definition applyKind (hd : Header) (i : Z) (t : Transaction) : MX unit :=
  let k := tx_Kind t in
  if k =? KindDeploy then applyDeploy t
  else if k =? KindCall then applyCall i t
  else if k =? KindRegister then applyRegister hd t
  else if k =? KindSlash then applySlash t
  else if k =? KindUnregister then applyUnregister t
  else if k =? KindFaucet then applyFaucet hd t
  else if k =? KindStorageProof then applyStorageProof hd t
  else applyTransfer t.

(** The checks of the transaction loop, and the debit of value and fee. *)
Definition debit (t : Transaction) : MX unit :=
  require (negb (IsCoinbase t)) ErrCoinbaseInBody ≫= λ _,
  lift (tx_VerifySig t) ≫= λ _,
  s ← state_of;
  require (tx_ChainID t =? ChainID (cfg s)) ErrBadChainID ≫= λ _,
  from ← acct (tx_From t);
  snap (tx_From t) ≫= λ _,
  require (tx_Nonce t =? ac_Nonce from) ErrBadNonce ≫= λ _,
  let total := u64 (tx_Amount t + tx_Fee t) in
  require (negb ((total <? tx_Amount t) || (ac_Balance from <? total))) ErrInsufficient ≫= λ _,
  write (tx_From t) (sub_balance total) ≫= λ _,
  write (tx_From t) (λ c, set_Nonce (u64 (ac_Nonce c + 1)) c).

Definition applyTx (hd : Header) (i : Z) (t : Transaction) : MX unit :=
  debit t ≫= λ _, applyKind hd i t.

(** The loop over the payload; the result is [fees]. *)
Fixpoint applyTxs (hd : Header) (i fees : Z) (txs : list Transaction) : MX Z :=
  match txs with
  | [] => mret fees
  | t :: r => applyTx hd i t ≫= λ _, applyTxs hd (i + 1) (u64 (fees + tx_Fee t)) r
  end.

(** ** Blocks *)

Definition coinbase_of (txs : list Transaction) : option Transaction * list Transaction :=
  match txs with
  | t :: r => if IsCoinbase t then (Some t, r) else (None, txs)
  | [] => (None, [])
  end.

Definition applyCoinbase (hd : Header) (coinbase : option Transaction) (fees : Z) : MX unit :=
  s ← state_of;
  let reward := BlockReward (hd_Height hd) (Minted s) in
  match coinbase with
  | Some cb =>
      require (bool_decide (tx_To cb = hd_Validator hd)) ErrBadCoinbase ≫= λ _,
      require (tx_Amount cb =? u64 (reward + fees)) ErrBadCoinbase ≫= λ _,
      snap (tx_To cb) ≫= λ _,
      credit (tx_To cb) (tx_Amount cb) ≫= λ _,
      modify (on_state (λ s, set_Minted (u64 (Minted s + reward)) s))
  | None =>
      if (0 <? u64 (reward + fees)) && negb (bool_decide (hd_Validator hd = "")) then
        snap (hd_Validator hd) ≫= λ _, credit (hd_Validator hd) fees
      else mret tt
  end.

Definition applyBody (b : Block) : MX unit :=
  let '(coinbase, payload) := coinbase_of (b_Txs b) in
  fees ← applyTxs (b_Header b) 0 0 payload;
  applyCoinbase (b_Header b) coinbase fees.

Definition ApplyBlock (b : Block) : Prelude.M State unit := λ s,
  match applyBody b (Xst s ∅ []) with
  | OK x _ => OK (set_head (hd_Height (b_Header b)) (x_logs x) (x_s x)) tt
  | ERR x e => ERR (rollback s x) e
  | PANIC x => PANIC (x_s x)
  end.
End ledger.
