(* ===== verification/StateStore.v ===== *)
(** * The contract storage maps: a round trip

    Contracts store words under word keys; accounts persist them under decimal
    strings.  What execution writes back is what the next execution reads. *)

From S2P Require Import Prelude State.

(** ** Decimal digits *)

Lemma digit_byte d : 0 <= d < 10 → bz (zb (48 + d)) = 48 + d.
Proof. intros. rewrite bz_zb. apply Z.mod_small. lia. Qed.

(** The accumulator form as a prefix. *)
Lemma digits_app fuel : ∀ n acc, digits fuel n acc = digits fuel n [] ++ acc.
Proof.
  induction fuel as [|f IH]; intros n acc; cbn [digits]; [done|].
  destruct (n / 10 =? 0); [done|]. rewrite (IH _ (_ :: acc)), (IH _ [_]), <- app_assoc. done.
Qed.

Lemma parse_digits_app l r : ∀ acc,
  parse_digits (l ++ r) acc = parse_digits l acc ≫= λ v, parse_digits r v.
Proof.
  induction l as [|b l IH]; intros acc; cbn [parse_digits app]; [done|].
  destruct (_ && _); [|done]. cbv zeta. destruct (_ <? W64); [apply IH|done].
Qed.

Lemma parse_digits_format fuel : ∀ n,
  0 <= n < W64 → n < 10 ^ Z.of_nat fuel → parse_digits (digits fuel n []) 0 = Some n.
Proof.
  induction fuel as [|f IH]; intros n Hn Hf; [simpl in *; f_equal; lia|].
  rewrite Nat2Z.inj_succ, Z.pow_succ_r in Hf by lia. cbn [digits].
  pose proof (Z.mod_pos_bound n 10 ltac:(lia)) as Hm. pose proof (Z.div_mod n 10 ltac:(lia)) as Hdm.
  assert (∀ acc, acc * 10 + n mod 10 = n → parse_digits [zb (48 + n mod 10)] acc = Some n) as Hlast.
  { intros acc E. cbn [parse_digits]. rewrite digit_byte by done.
    rewrite (proj2 (Z.leb_le _ _)), (proj2 (Z.leb_le _ _)) by lia. simpl.
    replace (acc * 10 + (48 + n mod 10 - 48)) with n by lia. by rewrite (proj2 (Z.ltb_lt _ _)) by lia. }
  destruct (Z.eqb_spec (n / 10) 0) as [E|E]; [apply Hlast; lia|].
  rewrite digits_app, parse_digits_app, IH; [apply Hlast; lia| |].
  - split; [apply Z.div_pos; lia|]. apply Z.div_lt_upper_bound; lia.
  - apply Z.div_lt_upper_bound; lia.
Qed.

Lemma digits_nonempty f n acc : digits (S f) n acc ≠ [].
Proof. cbn [digits]. destruct (_ =? 0); [done|]. rewrite digits_app. by destruct (digits f _ []). Qed.

Lemma Parse_Format n : is_u64 n → ParseUint (FormatUint n) = Some n.
Proof.
  intros Hn. unfold ParseUint, FormatUint. rewrite bytes_of_string_of.
  pose proof (digits_nonempty 19 n []) as Hne.
  rewrite <- (parse_digits_format 20 n Hn) by (unfold is_u64, W64 in *; simpl; lia).
  by destruct (digits 20 n []).
Qed.

(** ** The maps *)

Section maps.
Context {A : Type}.
Implicit Types m : gmap Z A.

Definition u64_keys m : Prop := map_Forall (λ k _, is_u64 k) m.

Lemma encode_NoDup m : u64_keys m →
  NoDup ((λ p : Z * A, (FormatUint p.1, p.2)) <$> map_to_list m).*1.
Proof.
  intros Hm. rewrite <- list_fmap_compose.
  apply (NoDup_fmap_2_strong (λ p : Z * A, FormatUint p.1)); [|apply NoDup_map_to_list].
  intros [k v] [k' v'] Hk Hk' E. simpl in E.
  apply elem_of_map_to_list in Hk, Hk'. pose proof (Hm _ _ Hk). pose proof (Hm _ _ Hk').
  apply (f_equal ParseUint) in E. rewrite !Parse_Format in E by done. congruence.
Qed.

Lemma decode_encode m : u64_keys m → decode_map (encode_map m) = m.
Proof.
  intros Hm. unfold decode_map, encode_map.
  set (l := (λ p : Z * A, (FormatUint p.1, p.2)) <$> map_to_list m).
  assert (omap (λ p : string * A, (λ n, (n, p.2)) <$> ParseUint p.1) l = map_to_list m) as Hl.
  { subst l. assert (Forall (λ p : Z * A, is_u64 p.1) (map_to_list m)) as Hall.
    { apply Forall_forall. intros [k v] Hk. apply elem_of_map_to_list in Hk. by apply Hm in Hk. }
    induction Hall as [|[k v] r Hk Hr IH]; [done|]. simpl in Hk |- *. rewrite Parse_Format by done.
    simpl. by f_equal. }
  transitivity (list_to_map (M:=gmap Z A) (map_to_list m)); [|apply list_to_map_to_list].
  symmetry. apply list_to_map_proper; [apply NoDup_fst_map_to_list|].
  rewrite <- Hl. apply omap_Permutation. symmetry. apply map_to_list_to_map. by apply encode_NoDup.
Qed.
End maps.

(** ** Property *)

(** What a contract stores is what it reads back: decoding the encoded word
    store and byte store returns them unchanged, keys at [2^64-1] included, and
    every decimal key [FormatUint] writes is accepted by [ParseUint]. *)
Theorem storage_roundtrip (st : gmap Z Z) (bst : gmap Z bytes) (n : Z) :
  u64_keys st → u64_keys bst → is_u64 n →
  storageDecode (storageEncode st) = st ∧ bstoreDecode (bstoreEncode bst) = bst ∧
  ParseUint (FormatUint n) = Some n.
Proof. intros. split_and!; [by apply decode_encode..|by apply Parse_Format]. Qed.

Lemma storage_roundtrip_witness :
  storageDecode (storageEncode {[ 18446744073709551615 := 7 ]}) = {[ 18446744073709551615 := 7 ]} ∧
  ParseUint (FormatUint 0) = Some 0.
Proof.
  destruct (storage_roundtrip {[ 18446744073709551615 := 7 ]} ∅ 0) as (H1 & _ & H3).
  - apply map_Forall_singleton. unfold is_u64, W64. lia.
  - apply map_Forall_empty.
  - unfold is_u64, W64. lia.
  - split; [exact H1|exact H3].
Defined.
