(* ===== verification/Strconv.v ===== *)
(** * Text forms of numbers and bytes

    What the code uses of [strconv], [encoding/hex] and [bytes.TrimSpace]: shard
    requests carry block ids, indices and nonces as text, releases carry numbers. *)

From S2P Require Import Prelude Sha256 Crypto Merkle Types State StateStore.

(** ** Decimal numbers *)

Inductive num := NumOk (n : Z) | NumSyntax | NumRange.

(** The loop of [ParseUint], from left to right. *)
Fixpoint scan_digits (l : bytes) (n : Z) : num :=
  match l with
  | [] => NumOk n
  | b :: r =>
      if (48 <=? bz b) && (bz b <=? 57) then
        let n := n * 10 + (bz b - 48) in if n <? W64 then scan_digits r n else NumRange
      else NumSyntax
  end.

(** The value of [strconv.ParseUint(s, 10, 64)] when its error is ignored. *)
Definition ParseUint_value (s : string) : Z :=
  match bytes_of s with
  | [] => 0
  | l => match scan_digits l 0 with NumOk n => n | NumSyntax => 0 | NumRange => W64 - 1 end
  end.

Definition maxInt : Z := 9223372036854775807.

(** [strconv.Atoi], the value and whether the error is nil: zero on a syntax error, the
    nearest bound on overflow. *)
Definition Atoi (s : string) : Z * bool :=
  let l := bytes_of s in
  let neg := match l with b :: _ => bz b =? 45 | [] => false end in
  let sign := match l with b :: _ => (bz b =? 45) || (bz b =? 43) | [] => false end in
  let digits := if sign then drop 1 l else l in
  match digits with
  | [] => (0, false)
  | _ =>
      match scan_digits digits 0 with
      | NumSyntax => (0, false)
      | NumRange => (if neg then - maxInt - 1 else maxInt, false)
      | NumOk n =>
          if neg then (if maxInt + 1 <? n then (- maxInt - 1, false) else (- n, true))
          else if maxInt <? n then (maxInt, false) else (n, true)
      end
  end.

(** [%d] of an [int]. *)
Definition Itoa (z : Z) : string :=
  if z <? 0 then string_of (zb 45 :: bytes_of (FormatUint (- z))) else FormatUint z.

(** ** Hexadecimal *)

Definition hex_val (b : byte) : option Z :=
  let n := bz b in
  if (48 <=? n) && (n <=? 57) then Some (n - 48)
  else if (97 <=? n) && (n <=? 102) then Some (n - 87)
  else if (65 <=? n) && (n <=? 70) then Some (n - 55) else None.

(** [hex.DecodeString], [None] on an odd length or another character. *)
Fixpoint hex_decode (l : bytes) : option bytes :=
  match l with
  | [] => Some []
  | [_] => None
  | a :: b :: r =>
      h ← hex_val a; o ← hex_val b; t ← hex_decode r; Some (zb (h * 16 + o) :: t)
  end.

(** ** [bytes.TrimSpace]: the UTF-8 forms of the runes [unicode.IsSpace] accepts *)

Definition spaces : list bytes :=
  ((λ n, [zb n]) <$> [9; 10; 11; 12; 13; 32]) ++ ((λ n, [zb 194; zb n]) <$> [133; 160]) ++
  [[zb 225; zb 154; zb 128]] ++ ((λ n, [zb 226; zb 128; zb n]) <$> (seqZ 128 11 ++ [168; 169; 175])) ++
  [[zb 226; zb 129; zb 159]; [zb 227; zb 128; zb 128]].

Definition strip_one (sp : list bytes) (l : bytes) : option bytes :=
  p ← List.find (λ p, bool_decide (p = take (length p) l)) sp; Some (drop (length p) l).

Fixpoint trim (n : nat) (sp : list bytes) (l : bytes) : bytes :=
  match n with
  | O => l
  | S n => match strip_one sp l with Some r => trim n sp r | None => l end
  end.

Definition TrimSpace (l : bytes) : bytes :=
  let l := trim (length l) spaces l in reverse (trim (length l) (reverse <$> spaces) (reverse l)).

(** ** [strings.Split] on one byte (never empty) and [strings.TrimPrefix] *)

Fixpoint split_on (c : byte) (l : bytes) : list bytes :=
  match l with
  | [] => [[]]
  | b :: r =>
      if bool_decide (b = c) then [] :: split_on c r
      else match split_on c r with p :: ps => (b :: p) :: ps | [] => [[b]] end
  end.

Definition trim_prefix (p l : bytes) : bytes :=
  if bool_decide (take (length p) l = p) then drop (length p) l else l.

(** ** [fmt.Sscanf(s, "%d", &v)] for an unsigned [v]

    Spaces are skipped, a newline is an error; then the longest run of digits is the
    number, and what follows it is not looked at. *)
Fixpoint take_digits (l : bytes) : bytes :=
  match l with
  | b :: r => if (48 <=? bz b) && (bz b <=? 57) then b :: take_digits r else []
  | [] => []
  end.

Definition Sscanf_d (s : string) : option Z :=
  let l := bytes_of s in
  let l := trim (length l) (filter (λ p, p ≠ [zb 10]) spaces) l in
  ParseUint (string_of (take_digits l)).

Example scan_examples :
  Sscanf_d "17" = Some 17 ∧ Sscanf_d " 17" = Some 17 ∧ Sscanf_d "1.5" = Some 1 ∧ Sscanf_d "10abc" = Some 10 ∧
  Sscanf_d "-3" = None ∧ Sscanf_d "" = None ∧ Sscanf_d "18446744073709551616" = None.
Proof. split_and!; reflexivity. Qed.

Example trim_example : string_of (TrimSpace (bytes_of " v1.2 ")) = "v1.2".
Proof. reflexivity. Qed.
Example atoi_example : Atoi "-17" = (-17, true) ∧ Atoi "+4" = (4, true) ∧ Atoi "3-rc" = (0, false) ∧ Atoi "" = (0, false).
Proof. split_and!; reflexivity. Qed.

(** * Lemmas *)

(** ** Round trips *)

Lemma hex_val_digit n : 0 <= n < 16 → hex_val (hex_digit n) = Some n.
Proof.
  intros Hn. unfold hex_digit, hex_val. destruct (Z.ltb_spec n 10); rewrite bz_zb, Z.mod_small by lia.
  - rewrite (proj2 (Z.leb_le _ _)), (proj2 (Z.leb_le _ _)) by lia. simpl. f_equal. lia.
  - rewrite (proj2 (Z.leb_gt (87 + n) 57)), andb_false_r by lia.
    rewrite (proj2 (Z.leb_le _ _)), (proj2 (Z.leb_le _ _)) by lia. simpl. f_equal. lia.
Qed.

Lemma hex_decode_encode l : hex_decode (hex_encode l) = Some l.
Proof.
  induction l as [|b l IH]; [done|]. change (hex_encode (b :: l)) with (hex_byte b ++ hex_encode l).
  unfold hex_byte. pose proof (bz_range b) as Hb. cbn [app hex_decode].
  rewrite !hex_val_digit by (first [apply Z.mod_pos_bound; lia|split; [apply Z.div_pos; lia|apply Z.div_lt_upper_bound; lia]]).
  rewrite IH. simpl. do 2 f_equal.
  rewrite (Z.mul_comm (bz b / 16)), <- Z.div_mod by lia. apply zb_bz.
Qed.

Lemma scan_parse l : ∀ n v, parse_digits l n = Some v → scan_digits l n = NumOk v.
Proof.
  induction l as [|b l IH]; intros n v; simpl; [by intros [= ->]|].
  destruct (_ && _); [|done]. destruct (_ <? W64); [apply IH|done].
Qed.

Lemma FormatUint_digits n : is_u64 n → ∃ b r, bytes_of (FormatUint n) = b :: r ∧ 48 <= bz b <= 57 ∧ scan_digits (b :: r) 0 = NumOk n.
Proof.
  intros Hn. pose proof (Parse_Format n Hn) as E. unfold ParseUint in E.
  destruct (bytes_of (FormatUint n)) as [|b r] eqn:Eb; [done|]. exists b, r. split; [done|].
  split; [|by apply scan_parse]. simpl in E. destruct ((48 <=? bz b) && _) eqn:Hd; [|done].
  apply andb_prop in Hd as [?%Z.leb_le ?%Z.leb_le]. lia.
Qed.

Lemma Atoi_Itoa z : - maxInt - 1 <= z <= maxInt → Atoi (Itoa z) = (z, true).
Proof.
  unfold maxInt. intros Hz. unfold Itoa. destruct (Z.ltb_spec z 0) as [Hn|Hn].
  - destruct (FormatUint_digits (- z)) as (b & r & E & Hb & Es); [unfold is_u64, W64; lia|].
    unfold Atoi. rewrite bytes_of_string_of, E. change (bz (zb 45)) with 45. cbn [Z.eqb Pos.eqb orb drop]. rewrite Es.
    unfold maxInt. rewrite (proj2 (Z.ltb_ge _ _)) by lia. f_equal. lia.
  - destruct (FormatUint_digits z) as (b & r & E & Hb & Es); [unfold is_u64, W64; lia|].
    unfold Atoi. rewrite E. rewrite (proj2 (Z.eqb_neq (bz b) 45)), (proj2 (Z.eqb_neq (bz b) 43)) by lia. cbn [orb]. rewrite Es.
    unfold maxInt. by rewrite (proj2 (Z.ltb_ge _ _)) by lia.
Qed.

(** ** Hexadecimal text has no space around it *)

Lemma strip_none sp b r : is_hex_digit b = true →
  forallb (λ p, match p with c :: _ => negb (is_hex_digit c) | [] => false end) sp = true → strip_one sp (b :: r) = None.
Proof.
  intros Hb. unfold strip_one. induction sp as [|p sp IH]; [done|]. simpl. intros [Hp Hs]%andb_prop.
  rewrite bool_decide_false; [by apply IH|]. destruct p as [|c p]; [done|]. simpl. intros [= -> _]. by rewrite Hb in Hp.
Qed.

Lemma trim_none n sp b r : is_hex_digit b = true →
  forallb (λ p, match p with c :: _ => negb (is_hex_digit c) | [] => false end) sp = true → trim n sp (b :: r) = b :: r.
Proof. intros Hb Hs. destruct n; [done|]. cbn [trim]. by rewrite strip_none. Qed.

Lemma TrimSpace_hex l : forallb is_hex_digit l = true → TrimSpace l = l.
Proof.
  intros Hl. unfold TrimSpace. assert (∀ n, trim n spaces l = l) as E.
  { intros n. destruct l as [|b r]; [by destruct n|]. simpl in Hl. apply andb_prop in Hl as [Hb _]. by apply trim_none. }
  cbv zeta. rewrite E. destruct (reverse l) as [|b r] eqn:Er.
  - apply (f_equal reverse) in Er. rewrite reverse_involutive in Er. by subst.
  - rewrite trim_none; [by rewrite <- Er, reverse_involutive| |reflexivity].
    rewrite forallb_forall in Hl. apply Hl, list_elem_of_In, elem_of_reverse. rewrite Er. apply list_elem_of_here.
Qed.

Lemma TrimSpace_hex_encode l : TrimSpace (hex_encode l) = hex_encode l.
Proof. apply TrimSpace_hex, hex_encode_digits. Qed.

Lemma Itoa_0 z : Itoa z = "0" → z = 0.
Proof.
  unfold Itoa. destruct (Z.ltb_spec z 0) as [Hn|Hn]; intros E; apply (f_equal bytes_of) in E; revert E.
  - rewrite bytes_of_string_of. by intros [=].
  - unfold FormatUint. rewrite bytes_of_string_of. change (digits 20 z []) with (if z / 10 =? 0 then [zb (48 + z mod 10)] else digits 19 (z / 10) [zb (48 + z mod 10)]).
    destruct (Z.eqb_spec (z / 10) 0) as [E0|E0].
    + intros [= E]. apply (f_equal bz) in E. rewrite digit_byte in E by (apply Z.mod_pos_bound; lia).
      change (bz _) with 48 in E. rewrite (Z.div_mod z 10) by lia. lia.
    + intros E. apply (f_equal length) in E. rewrite digits_app, length_app in E.
      destruct (digits 19 (z / 10) []) eqn:Ed; [by apply digits_nonempty in Ed|]. simpl in E. lia.
Qed.
