(* ===== verification/StateInv.v ===== *)
(** * The ledger: invariants of the block transition

    Rules for the primitive effects of a block (touching, snapshotting and writing
    accounts), and two closure conditions under which an invariant passes through
    contract execution and through every transaction kind. *)

From S2P Require Import Prelude Sha256 Crypto Economy Merkle Netparams Types Pow Vm VmProps State.

(** ** Primitive effects as functions *)

Definition put (a : Address) (c : Account) : xst → xst :=
  on_state (λ s, set_Accounts (<[a:=c]> (Accounts s)) s).

Definition acc (x : xst) (a : Address) : Account := acct_of (Accounts (x_s x)) a.

Definition touch (a : Address) (x : xst) : xst :=
  match Accounts (x_s x) !! a with Some _ => x | None => put a emptyAccount x end.

Definition snapped (a : Address) (x : xst) : xst :=
  match x_saved x !! a with
  | Some _ => x
  | None => Xst (x_s x) (<[a:=Accounts (x_s x) !! a]> (x_saved x)) (x_logs x)
  end.

Definition log_more (l : list Log) (x : xst) : xst := Xst (x_s x) (x_saved x) (x_logs x ++ l).

Definition is_saved (a : Address) (x : xst) : Prop := is_Some (x_saved x !! a).
Definition has (a : Address) (c : Account) (x : xst) : Prop := Accounts (x_s x) !! a = Some c.

Lemma acct_run a x : acct a x = OK (touch a x) (acc x a).
Proof.
  unfold acct, touch, acc, acct_of, mbind, M_bind, get. by destruct (Accounts (x_s x) !! a).
Qed.

Lemma has_touch a x : has a (acc x a) (touch a x).
Proof.
  unfold has, touch, acc, acct_of. destruct (Accounts (x_s x) !! a) eqn:E; simpl; [done|].
  by rewrite lookup_insert_eq.
Qed.

Lemma write_present a f c x : has a c x → write a f x = OK (put a (f c) x) tt.
Proof.
  intros Hc. unfold write, modify, put, on_state, set_Accounts. do 3 f_equal.
  apply map_eq. intros b. destruct (decide (a = b)) as [<-|].
  - rewrite lookup_alter_eq, lookup_insert_eq. unfold has in Hc. by rewrite Hc.
  - by rewrite lookup_alter_ne, lookup_insert_ne.
Qed.

Lemma write_absent a f x : Accounts (x_s x) !! a = None → write a f x = OK x tt.
Proof.
  intros Hc. unfold write, modify, on_state, set_Accounts. rewrite alter_id.
  - by destruct x as [[] ? ?].
  - intros y. by rewrite Hc.
Qed.

Lemma put_put a c c' x : put a c' (put a c x) = put a c' x.
Proof. unfold put, on_state, set_Accounts. simpl. by rewrite insert_insert_eq. Qed.

Lemma credit_run a v x : credit a v x = OK (put a (add_balance v (acc x a)) x) tt.
Proof.
  unfold credit, mbind, M_bind. rewrite acct_run, (write_present _ _ _ _ (has_touch a x)).
  unfold touch. destruct (Accounts (x_s x) !! a); [done|]. by rewrite put_put.
Qed.

Lemma acc_put a c x b : acc (put a c x) b = if decide (a = b) then c else acc x b.
Proof.
  unfold acc, acct_of, put. simpl. case_decide; subst.
  - by rewrite lookup_insert_eq.
  - by rewrite lookup_insert_ne.
Qed.

Lemma acc_touch a x b : acc (touch a x) b = acc x b.
Proof.
  unfold touch. destruct (Accounts (x_s x) !! a) eqn:E; [done|].
  rewrite acc_put. case_decide; subst; [|done]. unfold acc, acct_of. by rewrite E.
Qed.

Lemma acc_has a c x : has a c x → acc x a = c.
Proof. unfold has, acc, acct_of. by intros ->. Qed.

Lemma snapped_state a x : x_s (snapped a x) = x_s x.
Proof. unfold snapped. by destruct (x_saved x !! a). Qed.

Lemma snapped_acc a x b : acc (snapped a x) b = acc x b.
Proof. unfold acc. by rewrite snapped_state. Qed.

Lemma is_saved_snapped a x : is_saved a (snapped a x).
Proof.
  unfold is_saved, snapped. destruct (x_saved x !! a) eqn:E; simpl; [by rewrite E|].
  rewrite lookup_insert_eq. by eexists.
Qed.

Lemma is_saved_mono a b x : is_saved b x → is_saved b (snapped a x).
Proof.
  unfold is_saved, snapped. destruct (x_saved x !! a) eqn:E; simpl; [done|].
  intros Hb. destruct (decide (a = b)) as [->|]; [by rewrite E in Hb; destruct Hb|].
  by rewrite lookup_insert_ne.
Qed.

Lemma touch_saved a x : x_saved (touch a x) = x_saved x.
Proof. unfold touch. by destruct (Accounts (x_s x) !! a). Qed.

(** ** Triples of the primitives *)

Section triples.
Implicit Types (P E : xst → Prop).

Lemma t_acct P a (Q : Account → xst → Prop) E :
  (∀ x, P x → Q (acc x a) (touch a x)) → triple P (acct a) Q E.
Proof. intros H x Hx. unfold wp. rewrite acct_run. auto. Qed.

Lemma t_snap P a (Q : unit → xst → Prop) E :
  (∀ x, P x → Q tt (snapped a x)) → triple P (snap a) Q E.
Proof. intros H x Hx. apply H, Hx. Qed.

Lemma t_credit P a v (Q : unit → xst → Prop) E :
  (∀ x, P x → Q tt (put a (add_balance v (acc x a)) x)) → triple P (credit a v) Q E.
Proof. intros H x Hx. unfold wp. rewrite credit_run. auto. Qed.

Lemma t_write P a f (Q : unit → xst → Prop) E :
  (∀ x, P x → ∃ c, has a c x ∧ Q tt (put a (f c) x)) → triple P (write a f) Q E.
Proof. intros H x Hx. destruct (H x Hx) as (c & Hc & HQ). unfold wp. by rewrite (write_present _ _ _ _ Hc). Qed.

Lemma t_state {B} P (f : State → MX B) R E :
  (∀ x0, P x0 → triple (λ x, x = x0) (f (x_s x0)) R E) → triple P (state_of ≫= f) R E.
Proof. intros H x Hx. exact (H x Hx x eq_refl). Qed.
End triples.

(** ** Contract execution *)

(** What an invariant must be stable under to pass through contract execution. *)
Record exec_closed (I : xst → Prop) : Prop := {
  ec_touch : ∀ a x, I x → I (touch a x);
  ec_snap : ∀ a x, I x → I (snapped a x);
  ec_store : ∀ a c st bst x, I x → is_saved a x → has a c x → I (put a (set_Storage st bst c) x);
  ec_logs : ∀ l x, I x → I (log_more l x);
}.

Lemma exec_closed_saved I a : exec_closed I → exec_closed (λ x, I x ∧ is_saved a x).
Proof.
  intros []. split.
  - intros b x [? Hs]. split; [auto|]. unfold is_saved. by rewrite touch_saved.
  - intros b x [? Hs]. split; [auto|]. by apply is_saved_mono.
  - intros b c st bst x [? Hs] ? ?. split; [auto|done].
  - intros l x [? Hs]. split; [auto|done].
Qed.

Lemma try_preserves {S A} (I : S → Prop) (m : Prelude.M S A) : preserves I m → preserves I (try_ m).
Proof. intros H s Hs. specialize (H s Hs). unfold try_. by destruct (m s). Qed.

Lemma keeps_try {S A} (I : S → Prop) (m : Prelude.M S A) : keeps I m → keeps I (try_ m).
Proof. intros Hm s Hs. specialize (Hm s Hs). unfold wp, try_ in *. by destruct (m s). Qed.
#[export] Hint Resolve keeps_try : keeps.

Section exec.
Context `{Platform}.

(** A host fit for contract execution keeps every closed invariant. *)
Definition host_closed (h : host xst) : Prop := ∀ I, exec_closed I → host_preserves I h.

Lemma runContract_closed I h addr caller ca input value gas depth i :
  host_closed h → exec_closed I → preserves I (runContract h addr caller ca input value gas depth i).
Proof.
  intros Hh HI x Hx. unfold runContract, mbind, M_bind. rewrite acct_run.
  change (snap addr (touch addr x)) with (@OK xst unit (snapped addr (touch addr x)) tt). cbv beta match.
  pose proof (exec_closed_saved I addr HI) as HI1.
  match goal with |- context [try_ (ExecuteB ?c ?i ?s ?b ?g ?ctx) _] =>
    pose proof (try_preserves _ _ (ExecuteB_preserves (λ x, I x ∧ is_saved addr x) c i g ctx
      ltac:(simpl; intros ? [= <-]; by apply Hh) s b) (snapped addr (touch addr x))) as Hp;
    destruct (try_ (ExecuteB c i s b g ctx) _) as [x' [e|[[r st] bst]]|? ?|] end;
    cbv beta iota; cbn [out_state] in Hp |- *;
    (destruct Hp as [Hi Hs]; [split; [by apply HI, HI|apply is_saved_snapped]|]); [done| |done|done].
  destruct (Accounts (x_s x') !! addr) as [c|] eqn:E.
  - rewrite (write_present _ _ c) by done. refine (ec_logs _ HI _ (put addr _ x') _). by apply HI.
  - rewrite write_absent by done. exact (ec_logs _ HI _ x' Hi).
Qed.

Lemma vmHost_Call_closed exec i :
  (∀ I a b c d e f g h, exec_closed I → preserves I (exec a b c d e f g h)) → host_closed (vmHost_Call exec i).
Proof. intros He I HI self target arg gl depth. unfold vmHost_Call. pose proof (λ a b c d e f g h, He I a b c d e f g h HI). preserves_tac. Qed.

Lemma execContract_closed fuel : ∀ I addr caller ca input value gas depth i,
  exec_closed I → preserves I (execContract fuel addr caller ca input value gas depth i).
Proof.
  induction fuel as [|f IH]; intros; cbn [execContract]; apply runContract_closed; auto.
  - intros I' _ ? ? ? ? ?. apply preserves_panic.
  - by apply vmHost_Call_closed.
Qed.
End exec.

(** ** Nesting depth *)

(** Contexts that differ in the host only, and not where it can be asked. *)
Record same_calls {H} (ctx ctx' : Context H) : Prop := {
  sc_self : ctx' = MkContext (c_Caller ctx) (c_Self ctx) (c_CallerAddr ctx) (c_SelfAddr ctx)
                     (c_Value ctx) (c_Balance ctx) (c_Host ctx') (c_Depth ctx);
  sc_host : match c_Host ctx, c_Host ctx' with
            | None, None => True
            | Some h, Some h' => c_Depth ctx < maxDepth →
                ∀ self target arg gl s, h self target arg gl (c_Depth ctx + 1) s = h' self target arg gl (c_Depth ctx + 1) s
            | _, _ => False
            end;
}.

Section depth.
Context {H : Type} (code input : bytes) (gas : Z) (ctx ctx' : Context H) (Hsc : same_calls ctx ctx').

Lemma exec_call_same s : exec_call gas ctx s = exec_call gas ctx' s.
Proof.
  destruct Hsc as [E Hh]. unfold exec_call, mbind, M_bind.
  destruct (pop s) as [s1 gl| |]; [|done..]. destruct (pop s1) as [s2 arg| |]; [|done..].
  destruct (pop s2) as [s3 target| |]; [|done..].
  assert (c_Depth ctx' = c_Depth ctx ∧ c_Self ctx' = c_Self ctx) as [-> Es] by by rewrite E.
  destruct (c_Host ctx) as [h|], (c_Host ctx') as [h'|]; try done.
  destruct (Z.leb_spec maxDepth (c_Depth ctx)); [done|]. cbn [get]. unfold call_host.
  by rewrite Hh, Es by lia.
Qed.

Lemma exec_op_same op s : exec_op code input gas ctx op s = exec_op code input gas ctx' op s.
Proof.
  pose proof exec_call_same as Hc. destruct Hsc as [E _].
  destruct op as [[]|]; try done; try (rewrite E; reflexivity).
  cbn [exec_op]. unfold mbind at 1, M_bind at 1. by rewrite Hc.
Qed.

Lemma step_same s : step code input gas ctx s = step code input gas ctx' s.
Proof.
  unfold step, mbind, M_bind, get. destruct (lift _ s) as [s1 b| |]; [|done..].
  destruct (_ <? _); [done|]. cbn [modify]. apply exec_op_same.
Qed.

Lemma loop_same left : ∀ s, loop code input gas ctx left s = loop code input gas ctx' left s.
Proof.
  induction left as [|left IH]; intros s; [done|]. cbn [loop]. unfold mbind, M_bind, get.
  destruct (_ <? _); [|done]. rewrite step_same.
  destruct (step _ _ _ _ s) as [s' [|]| |]; [done|apply IH|done..].
Qed.

Lemma ExecuteB_same st bst h : ExecuteB code input st bst gas ctx h = ExecuteB code input st bst gas ctx' h.
Proof. unfold ExecuteB. by rewrite loop_same. Qed.
End depth.

Section fuel.
Context `{Platform}.

Lemma runContract_same h h' addr caller ca input value gas depth i x :
  (depth < maxDepth → ∀ self target arg gl s, h self target arg gl (depth + 1) s = h' self target arg gl (depth + 1) s) →
  runContract h addr caller ca input value gas depth i x = runContract h' addr caller ca input value gas depth i x.
Proof.
  intros Hh. unfold runContract. unfold mbind at 1 6, M_bind at 1 6. rewrite acct_run.
  set (x1 := touch addr x). unfold mbind at 1 5, M_bind at 1 5.
  change (snap addr x1) with (@OK xst unit (snapped addr x1) tt). cbv beta iota zeta.
  unfold mbind at 1 4, M_bind at 1 4, try_ at 1 2.
  erewrite ExecuteB_same; [reflexivity|]. by split.
Qed.

Lemma vmHost_Call_same (e e' : exec_fn) i self target arg gl depth s :
  (∀ a x, e a self "" (u64word arg) 0 gl depth i x = e' a self "" (u64word arg) 0 gl depth i x) →
  vmHost_Call e i self target arg gl depth s = vmHost_Call e' i self target arg gl depth s.
Proof.
  intros He. unfold vmHost_Call, mbind, M_bind, get.
  destruct (contractByDigest target (x_s s)) as [a|]; [|done]. by rewrite He.
Qed.

(** Fuel beyond [maxDepth - depth] is never used. *)
Lemma execContract_more_fuel f : ∀ addr caller ca input value gas depth i x,
  maxDepth - depth <= Z.of_nat f →
  execContract (S f) addr caller ca input value gas depth i x =
  execContract f addr caller ca input value gas depth i x.
Proof.
  induction f as [|f IH]; intros addr caller ca input value gas depth i x Hd.
  - cbn [execContract]. apply runContract_same. lia.
  - cbn [execContract]. apply runContract_same. intros Hlt self target arg gl s.
    apply vmHost_Call_same. intros a y. apply (IH a). lia.
Qed.
End fuel.

(** ** What contract execution cannot touch *)

Definition core (c : Account) : Z * Z * bytes := (ac_Balance c, ac_Nonce c, ac_Code c).

(** Same balances, nonces and code everywhere, and the same rest of the ledger. *)
Definition framed (x0 x : xst) : Prop :=
  (∀ a, core (acc x a) = core (acc x0 a)) ∧ set_Accounts ∅ (x_s x) = set_Accounts ∅ (x_s x0).

Lemma framed_closed x0 : exec_closed (framed x0).
Proof.
  split.
  - intros a x [Hc Hs]. split; [intros b; by rewrite acc_touch|].
    unfold touch. by destruct (Accounts (x_s x) !! a).
  - intros a x [Hc Hs]. split; [intros b; by rewrite snapped_acc|by rewrite snapped_state].
  - intros a c st bst x [Hc Hs] _ Ha. split; [|done]. intros b. rewrite acc_put.
    case_decide; [subst|done]. rewrite <- Hc, (acc_has _ _ _ Ha). done.
  - intros l x [Hc Hs]. by split.
Qed.

(** A known balance survives contract execution as well. *)
Lemma balance_exec_closed a (b : Z → Prop) : exec_closed (λ x, ∃ c, has a c x ∧ b (ac_Balance c)).
Proof.
  split.
  - intros a' x (c & Hc & E). exists c. split; [|done]. unfold has, touch in *.
    destruct (Accounts (x_s x) !! a') eqn:E'; [done|]. simpl.
    rewrite lookup_insert_ne; [done|congruence].
  - intros a' x (c & Hc & E). exists c. unfold has in *. by rewrite snapped_state.
  - intros a' c' st bst x (c & Hc & E) _ Ha'. unfold has, put in *. simpl. destruct (decide (a' = a)) as [->|].
    + rewrite lookup_insert_eq. eexists. split; [done|]. simpl. congruence.
    + exists c. by rewrite lookup_insert_ne.
  - done.
Qed.

Lemma exec_closed_and I J : exec_closed I → exec_closed J → exec_closed (λ x, I x ∧ J x).
Proof. intros [] []. split; intros * [? ?]; intros; split; eauto. Qed.

(** ** Invariants of accounts and nonces through every transaction kind *)

(** Stable under anything the payload of a transaction does to accounts: every
    write outside the sender's debit keeps the nonce. *)
Record acct_closed (I : xst → Prop) : Prop := {
  cl_touch : ∀ a x, I x → I (touch a x);
  cl_snap : ∀ a x, I x → I (snapped a x);
  cl_put : ∀ a c x, I x → ac_Nonce c = ac_Nonce (acc x a) → I (put a c x);
  cl_logs : ∀ l x, I x → I (log_more l x);
  cl_claims : ∀ a h x, I x → I (on_state (λ s, set_FaucetClaims (<[a:=h]> (FaucetClaims s)) s) x);
}.

(** Stable under any change of the validator registry. *)
Definition val_closed (I : xst → Prop) : Prop :=
  ∀ f x, I x → I (on_state (λ s, set_Validators (f (Validators s)) s) x).

Lemma acct_exec_closed I : acct_closed I → exec_closed I.
Proof.
  intros []. split; auto. intros a c st bst x Hx _ Ha. apply cl_put0; [done|].
  by rewrite (acc_has _ _ _ Ha).
Qed.

Section kinds.
Context `{Platform} (I : xst → Prop) (HI : acct_closed I).

Lemma keep_acct a : preserves I (acct a).
Proof. intros x Hx. rewrite acct_run. by apply HI. Qed.
Lemma keep_snap a : preserves I (snap a).
Proof. intros x Hx. by apply (cl_snap _ HI a x). Qed.
Lemma keep_write a f : (∀ c, ac_Nonce (f c) = ac_Nonce c) → preserves I (write a f).
Proof.
  intros Hf x Hx. destruct (Accounts (x_s x) !! a) as [c|] eqn:E.
  - rewrite (write_present _ _ c) by done. apply HI; [done|]. by rewrite Hf, (acc_has _ _ _ E).
  - by rewrite write_absent.
Qed.
Lemma keep_credit a v : preserves I (credit a v).
Proof. intros x Hx. rewrite credit_run. by apply HI. Qed.
Lemma keep_state {B} (f : State → MX B) : (∀ s, preserves I (f s)) → preserves I (state_of ≫= f).
Proof. intros Hf x Hx. by apply (Hf (x_s x)). Qed.
Lemma keep_claims a h : preserves I (modify (on_state (λ s, set_FaucetClaims (<[a:=h]> (FaucetClaims s)) s))).
Proof. apply preserves_modify. intros x. apply HI. Qed.
Lemma keep_exec fuel a c ca i v g d k : preserves I (execContract fuel a c ca i v g d k).
Proof. by apply execContract_closed, acct_exec_closed. Qed.

Hint Resolve keep_acct keep_snap keep_credit keep_claims keep_exec : hoare.
Hint Extern 1 (preserves _ (write _ _)) => (apply keep_write; intros; reflexivity) : hoare.

Lemma keep_deploy t : preserves I (applyDeploy t).
Proof. unfold applyDeploy. preserves_tac. Qed.
Lemma keep_call i t : preserves I (applyCall i t).
Proof. unfold applyCall. preserves_tac. Qed.
Lemma keep_faucet hd t : preserves I (applyFaucet hd t).
Proof. apply keep_state. intros s. cbv zeta. preserves_tac. Qed.
Lemma keep_transfer t : preserves I (applyTransfer t).
Proof. unfold applyTransfer. preserves_tac. Qed.

Context (HV : val_closed I).

Lemma keep_validators f : preserves I (modify (on_state (λ s, set_Validators (f (Validators s)) s))).
Proof. apply preserves_modify. intros x. apply HV. Qed.

Lemma keep_set_validator a v : preserves I (set_validator a v).
Proof. apply (keep_validators (λ m, <[a:=v]> m)). Qed.

Hint Resolve keep_set_validator : hoare.

Lemma keep_slash t : preserves I (applySlash t).
Proof.
  unfold applySlash. destruct (json_evidence _) as [ev|]; [|apply preserves_throw].
  preserves_step; [|apply preserves_throw..]. preserves_step; [|apply preserves_throw..].
  preserves_step; [apply preserves_throw|]. apply keep_state. intros s. preserves_tac.
Qed.
Lemma keep_register hd t : preserves I (applyRegister hd t).
Proof. apply keep_state. intros s. preserves_tac. Qed.
Lemma keep_unregister t : preserves I (applyUnregister t).
Proof.
  apply keep_state. intros s. preserves_tac.
  apply (keep_validators (delete (tx_From t))).
Qed.
Lemma keep_storage hd t : preserves I (applyStorageProof hd t).
Proof. apply keep_state. intros s. cbv zeta. preserves_tac. Qed.

(** Every transaction kind keeps an invariant that is closed in both senses. *)
Lemma keep_kind hd i t : preserves I (applyKind hd i t).
Proof.
  pose proof keep_deploy. pose proof keep_call. pose proof keep_faucet. pose proof keep_transfer.
  pose proof keep_slash. pose proof keep_register. pose proof keep_unregister. pose proof keep_storage.
  unfold applyKind. cbv zeta. preserves_tac.
Qed.
End kinds.

(** ** The debit of a transaction, as a function *)

Definition tx_total (t : Transaction) : Z := u64 (tx_Amount t + tx_Fee t).

Definition debited (t : Transaction) (x : xst) : xst :=
  put (tx_From t) (set_Nonce (u64 (ac_Nonce (acc x (tx_From t)) + 1))
                     (sub_balance (tx_total t) (acc x (tx_From t))))
    (snapped (tx_From t) (touch (tx_From t) x)).

Section debit.
Context `{Platform}.

Record debit_ok (c : Config) (from : Account) (t : Transaction) : Prop := {
  dk_body : IsCoinbase t = false;
  dk_sig : tx_VerifySig t = Ok tt;
  dk_chain : tx_ChainID t = ChainID c;
  dk_nonce : tx_Nonce t = ac_Nonce from;
  dk_total : tx_Amount t <= tx_total t <= ac_Balance from;
}.

Lemma tx_VerifySig_no_panic t : tx_VerifySig t ≠ Panic.
Proof. unfold tx_VerifySig. by repeat case_match. Qed.

(** The debit succeeds when every check passes ... *)
Lemma debit_complete t x :
  debit_ok (cfg (x_s x)) (acc x (tx_From t)) t → debit t x = OK (debited t x) tt.
Proof.
  intros [Hb Hs Hc Hn Ht]. unfold debit. rewrite bind_require, Hb. simpl negb. cbv iota.
  unfold mbind at 1, M_bind at 1. rewrite Hs. cbn [lift].
  rewrite (bind_ok _ _ x x (x_s x)) by done. rewrite bind_require, Hc, Z.eqb_refl.
  rewrite (bind_ok _ _ _ _ _ (acct_run _ _)). set (x1 := snapped (tx_From t) (touch (tx_From t) x)).
  rewrite (bind_ok _ _ _ x1 tt) by done. rewrite bind_require, Hn, Z.eqb_refl. cbv zeta.
  rewrite bind_require. fold (tx_total t).
  rewrite (proj2 (Z.ltb_ge (tx_total t) _)), (proj2 (Z.ltb_ge _ (tx_total t))) by lia. cbn [orb negb].
  assert (has (tx_From t) (acc x (tx_From t)) x1) as Hh by (unfold has, x1; rewrite snapped_state; apply has_touch).
  rewrite (bind_ok _ _ _ _ _ (write_present _ _ _ _ Hh)).
  rewrite (write_present _ _ (sub_balance (tx_total t) (acc x (tx_From t)))).
  - unfold debited. by rewrite put_put.
  - unfold has. simpl. by rewrite lookup_insert_eq.
Qed.

(** ... and only then; a failing one leaves the ledger as it was, but for an
    empty account. *)
Lemma debit_run t x :
  (debit_ok (cfg (x_s x)) (acc x (tx_From t)) t ∧ debit t x = OK (debited t x) tt) ∨
  (∃ e, debit t x = ERR x e ∨ debit t x = ERR (snapped (tx_From t) (touch (tx_From t) x)) e).
Proof.
  set (x1 := snapped (tx_From t) (touch (tx_From t) x)).
  set (P := λ o : outcome xst unit, (debit_ok (cfg (x_s x)) (acc x (tx_From t)) t ∧ debit t x = OK (debited t x) tt) ∨
                 ∃ e, o = ERR x e ∨ o = ERR x1 e).
  assert (∀ e, P (ERR x e)) as E0 by (right; eauto). assert (∀ e, P (ERR x1 e)) as E1 by (right; eauto).
  change (P (debit t x)). unfold debit at 1.
  rewrite bind_require. destruct (IsCoinbase t) eqn:Ecb; simpl negb; cbv iota; [apply E0|].
  unfold mbind at 1, M_bind at 1. pose proof (tx_VerifySig_no_panic t).
  destruct (tx_VerifySig t) as [[]|e|] eqn:Esig; [|apply E0|done]. cbn [lift].
  rewrite (bind_ok _ _ x x (x_s x)) by done.
  rewrite bind_require. destruct (Z.eqb_spec (tx_ChainID t) (ChainID (cfg (x_s x)))); [|apply E0].
  rewrite (bind_ok _ _ _ _ _ (acct_run (tx_From t) x)). rewrite (bind_ok _ _ _ x1 tt) by done.
  rewrite bind_require. destruct (Z.eqb_spec (tx_Nonce t) (ac_Nonce (acc x (tx_From t)))); [|apply E1].
  cbv zeta. rewrite bind_require. fold (tx_total t).
  destruct (Z.ltb_spec (tx_total t) (tx_Amount t)); [apply E1|].
  destruct (Z.ltb_spec (ac_Balance (acc x (tx_From t))) (tx_total t)); [apply E1|].
  left. assert (debit_ok (cfg (x_s x)) (acc x (tx_From t)) t) as Hok by by split.
  split; [done|by apply debit_complete].
Qed.

Lemma debit_bad_nonce t x :
  tx_VerifySig t = Ok tt → IsCoinbase t = false → tx_ChainID t = ChainID (cfg (x_s x)) →
  tx_Nonce t ≠ ac_Nonce (acc x (tx_From t)) →
  debit t x = ERR (snapped (tx_From t) (touch (tx_From t) x)) ErrBadNonce.
Proof.
  intros Hs Hb Hc Hn. unfold debit. rewrite bind_require, Hb. simpl negb. cbv iota.
  unfold mbind at 1, M_bind at 1. rewrite Hs. cbn [lift].
  rewrite (bind_ok _ _ x x (x_s x)) by done. rewrite bind_require, Hc, Z.eqb_refl.
  rewrite (bind_ok _ _ _ _ _ (acct_run _ _)).
  rewrite (bind_ok _ _ _ (snapped (tx_From t) (touch (tx_From t) x)) tt) by done.
  by rewrite bind_require, (proj2 (Z.eqb_neq _ _) Hn).
Qed.

Lemma debit_inv t x x' u :
  debit t x = OK x' u → debit_ok (cfg (x_s x)) (acc x (tx_From t)) t ∧ x' = debited t x.
Proof.
  intros E. destruct (debit_run t x) as [[Hok E']|[e [E'|E']]]; rewrite E' in E; by simplify_eq.
Qed.

Lemma applyTx_inv hd i t x x' u :
  applyTx hd i t x = OK x' u →
  debit_ok (cfg (x_s x)) (acc x (tx_From t)) t ∧ applyKind hd i t (debited t x) = OK x' u.
Proof.
  unfold applyTx, mbind, M_bind. destruct (debit t x) as [x1 []| |] eqn:E; [|done..].
  apply debit_inv in E as [? ->]. done.
Qed.

Lemma applyTxs_nil hd i fees x x' f : applyTxs hd i fees [] x = OK x' f → x' = x ∧ f = fees.
Proof. cbn [applyTxs]. unfold mret, M_ret. by intros [= -> ->]. Qed.

Lemma applyTxs_cons hd i fees t r x x' f :
  applyTxs hd i fees (t :: r) x = OK x' f →
  ∃ x1, debit_ok (cfg (x_s x)) (acc x (tx_From t)) t ∧ applyKind hd i t (debited t x) = OK x1 tt ∧
    applyTxs hd (i + 1) (u64 (fees + tx_Fee t)) r x1 = OK x' f.
Proof.
  cbn [applyTxs]. unfold mbind, M_bind. destruct (applyTx hd i t x) as [x1 []| |] eqn:E; [|done..].
  apply applyTx_inv in E as [? ?]. eauto.
Qed.
(** What an admitted transaction is. *)
Lemma CheckTx_fields s t : CheckTx s t = Ok tt → tx_VerifySig t = Ok tt ∧ IsCoinbase t = false ∧
  tx_ChainID t = ChainID (cfg s) ∧ tx_Nonce t = ac_Nonce (Get s (tx_From t)).
Proof.
  unfold CheckTx. destruct (tx_VerifySig t) as [[]| |]; [|done..]. change (Ok tt ≫= ?f) with (f tt). cbv beta.
  destruct (IsCoinbase t); [done|]. destruct (Z.eqb_spec (tx_ChainID t) (ChainID (cfg s))); [|done].
  destruct (Z.eqb_spec (tx_Nonce t) (ac_Nonce (Get s (tx_From t)))); [|done]. done.
Qed.
End debit.

Lemma acc_debited t x a :
  acc (debited t x) a =
    if decide (tx_From t = a)
    then set_Nonce (u64 (ac_Nonce (acc x a) + 1)) (sub_balance (tx_total t) (acc x a)) else acc x a.
Proof. unfold debited. rewrite acc_put, snapped_acc, acc_touch. case_decide; by subst. Qed.

(** ** Nonces and the fixed part of the ledger *)

Definition nonces (f : Address → Z) (x : xst) : Prop := ∀ a, ac_Nonce (acc x a) = f a.

Lemma nonces_closed f : acct_closed (nonces f) ∧ val_closed (nonces f).
Proof.
  split; [split|].
  - intros a x Hf b. by rewrite acc_touch.
  - intros a x Hf b. by rewrite snapped_acc.
  - intros a c x Hf Hc b. rewrite acc_put. case_decide; subst; [by rewrite Hc|apply Hf].
  - intros l x Hf. exact Hf.
  - intros a h x Hf. exact Hf.
  - intros g x Hf. exact Hf.
Qed.

(** Nothing in the payload changes the height, the minted total, the logs of the
    previous block or the configuration. *)
Definition fixed (s0 : State) (x : xst) : Prop :=
  Height (x_s x) = Height s0 ∧ Minted (x_s x) = Minted s0 ∧ lastLogs (x_s x) = lastLogs s0 ∧
  cfg (x_s x) = cfg s0.

Lemma fixed_refl x : fixed (x_s x) x.
Proof. done. Qed.

Lemma fixed_closed s0 : acct_closed (fixed s0) ∧ val_closed (fixed s0).
Proof.
  split; [split|].
  - intros a x Hf. unfold touch. by destruct (Accounts (x_s x) !! a).
  - intros a x Hf. unfold fixed. by rewrite snapped_state.
  - intros a c x Hf _. exact Hf.
  - intros l x Hf. exact Hf.
  - intros a h x Hf. exact Hf.
  - intros g x Hf. exact Hf.
Qed.

Lemma fixed_debited s0 t x : fixed s0 x → fixed s0 (debited t x).
Proof.
  intros Hf. unfold debited.
  pose proof (fixed_closed s0) as [Hc _]. unfold put, fixed, on_state. simpl.
  pose proof (cl_snap _ Hc (tx_From t) _ (cl_touch _ Hc (tx_From t) x Hf)) as (? & ? & ? & ?). done.
Qed.

Section loop.
Context `{Platform}.

(** The part of the ledger the payload cannot change, through the whole loop. *)
Lemma applyTxs_fixed s0 hd txs : ∀ i fees x x' f,
  fixed s0 x → applyTxs hd i fees txs x = OK x' f → fixed s0 x'.
Proof.
  induction txs as [|t r IH]; intros i fees x x' f Hx E; [by apply applyTxs_nil in E as [-> _]|].
  apply applyTxs_cons in E as (x1 & _ & Ek & Er). eapply IH; [|exact Er].
  destruct (fixed_closed s0) as [Ha Hv].
  pose proof (keep_kind (fixed s0) Ha Hv hd i t (debited t x) (fixed_debited _ _ _ Hx)) as Hk.
  by rewrite Ek in Hk.
Qed.

Definition sent (a : Address) (txs : list Transaction) : Z :=
  zlen (filter (λ t, tx_From t = a) txs).

Lemma sent_cons a t r : sent a (t :: r) = (if decide (tx_From t = a) then 1 else 0) + sent a r.
Proof. unfold sent, zlen. rewrite filter_cons. case_decide; simpl length; lia. Qed.

Lemma u64_succ n k : u64 (u64 (n + 1) + k) = u64 (n + (1 + k)).
Proof. unfold u64. rewrite Zplus_mod_idemp_l. f_equal. lia. Qed.

(** Each sender's nonce grows by the number of its transactions, and each of
    those carried its place in the sequence. *)
Lemma applyTxs_nonces hd txs : ∀ i fees x x' f,
  applyTxs hd i fees txs x = OK x' f → (∀ a, is_u64 (ac_Nonce (acc x a))) →
  (∀ a, ac_Nonce (acc x' a) = u64 (ac_Nonce (acc x a) + sent a txs)) ∧
  Forall (λ t, ∃ k, 0 <= k < sent (tx_From t) txs ∧
                    tx_Nonce t = u64 (ac_Nonce (acc x (tx_From t)) + k)) txs.
Proof.
  induction txs as [|t r IH]; intros i fees x x' f E Hu.
  { apply applyTxs_nil in E as [-> _]. split; [|constructor]. intros a. unfold sent, zlen. simpl.
    by rewrite Z.add_0_r, u64_small. }
  apply applyTxs_cons in E as (x1 & Hok & Ek & Er).
  destruct (nonces_closed (λ a, ac_Nonce (acc (debited t x) a))) as [Ha Hv].
  pose proof (keep_kind _ Ha Hv hd i t (debited t x) (λ a, eq_refl)) as Hk. rewrite Ek in Hk. simpl in Hk.
  assert (∀ a, ac_Nonce (acc x1 a) = if decide (tx_From t = a) then u64 (ac_Nonce (acc x a) + 1)
                                     else ac_Nonce (acc x a)) as Hn.
  { intros a. rewrite Hk, acc_debited. by case_decide. }
  destruct (IH _ _ _ _ _ Er) as [IH1 IH2].
  { intros a. rewrite Hn. case_decide; [apply u64_range|apply Hu]. }
  split.
  - intros a. rewrite IH1, Hn, sent_cons. case_decide; [apply u64_succ|done].
  - constructor.
    + exists 0. rewrite sent_cons, decide_True by done. unfold sent, zlen. split; [lia|].
      rewrite Z.add_0_r, u64_small by done. apply Hok.
    + eapply Forall_impl; [exact IH2|]. intros t' (k & Hk' & E). rewrite sent_cons.
      rewrite Hn in E. case_decide as Ed.
      * exists (1 + k). split; [lia|]. by rewrite E, u64_succ.
      * exists k. split; [lia|done].
Qed.
End loop.

(** A word at the front of a payload. *)
Lemma word_at_front v r : is_u64 v → uint64_at (be_bytes 8 v ++ r) = v.
Proof. intros Hv. unfold uint64_at. rewrite take_app_length' by by rewrite length_be_bytes. by apply be_val_putU64. Qed.
