(* ===== verification/Demo.v ===== *)
(** * Concrete inputs

    A toy platform, two identities and a few ledgers, blocks and contracts, used
    to evaluate the definitions on concrete inputs and to apply the theorems. *)

From S2P Require Import Prelude Sha256 Crypto Economy Merkle Netparams Types Pow Vm State.

(** A signature scheme in which the only signature is the byte [1]; evidence is
    decoded by a given function; maps are visited in the order of [map_to_list]. *)
Definition toy_ed : Ed25519 := {|
  ed_sign := λ _ _, [zb 1]; ed_verify := λ _ _ sig, bool_decide (sig = [zb 1]) |}.

Definition demo_platform_ev (ev : bytes → option EquivocationEvidence) : Platform := {|
  pf_ed := toy_ed; json_evidence := ev; range_accounts := λ m, map_to_list m;
  range_accounts_perm := λ m, Permutation_refl (map_to_list m) |}.

#[export] Instance demo_platform : Platform := demo_platform_ev (λ _, None).

Definition alice_pub : bytes := replicate 32 (zb 1).
Definition bob_pub : bytes := replicate 32 (zb 2).
Definition alice : Address := Eval vm_compute in AddressFromPub alice_pub.
Definition bob : Address := Eval vm_compute in AddressFromPub bob_pub.

Example alice_is_derived : AddressFromPub alice_pub = alice.
Proof. vm_compute. reflexivity. Qed.

Lemma toy_key_ok pub : length pub = 32%nat → @key_ok toy_ed [] pub.
Proof. done. Qed.

Definition tx_by (pub : bytes) (from to : Address) (kind amount fee nonce gas : Z) (data : bytes) : Transaction :=
  MkTx from to amount fee nonce 7 kind gas data pub [zb 1].

Definition by_alice := tx_by alice_pub alice.
Definition by_bob := tx_by bob_pub bob.

Definition hash0 : Hash := replicate 32 (zb 0).

Definition header_at (h : Z) (v : Address) : Header :=
  MkHeader h hash0 hash0 0 v 0 0 (GenesisSpec) hash0 hash0 [] [].

Definition block_at (h : Z) (v : Address) (txs : list Transaction) : Block := MkBlock (header_at h v) txs.

Definition coinbase_tx (to : Address) (amount : Z) : Transaction := MkTx "" to amount 0 0 0 0 0 [] [] [].

Definition account (bal : Z) : Account := MkAccount bal 0 [] ∅ ∅.

Definition demo_cfg : Config := MkConfig 7 0 0 0 0 0 "" None 0 0 0 None None.

(** Alice holds 5000 coins, all of them minted. *)
Definition ledger0 : State :=
  MkState {[ alice := account (5000 * Coin) ]} ∅ 4 (5000 * Coin) ∅ [] demo_cfg.

(** Alice pays Bob 3 coins with a fee of 1, in a block by Bob with its coinbase. *)
Definition pay_block : Block :=
  block_at 5 bob [coinbase_tx bob (51 * Coin); by_alice bob KindTransfer (3 * Coin) Coin 0 0 []].

Definition after_pay : State := out_state (ApplyBlock pay_block ledger0).

Example pay_block_applies : is_OK (ApplyBlock pay_block ledger0) = true.
Proof. vm_compute. reflexivity. Qed.

Lemma pay_block_run : ApplyBlock pay_block ledger0 = OK after_pay tt.
Proof. exact (is_OK_unit (ApplyBlock pay_block ledger0) pay_block_applies). Qed.

Example pay_block_effect :
  ac_Balance (Get after_pay alice) = 4996 * Coin ∧ ac_Balance (Get after_pay bob) = 54 * Coin ∧
  ac_Nonce (Get after_pay alice) = 1 ∧ Minted after_pay = 5050 * Coin.
Proof. vm_compute. auto. Qed.

Lemma ledger0_nonces a : is_u64 (ac_Nonce (Get ledger0 a)).
Proof.
  unfold Get, acct_of, ledger0. simpl. destruct (decide (alice = a)) as [<-|].
  - rewrite lookup_singleton_eq. split; reflexivity || discriminate.
  - rewrite lookup_singleton_ne by done. split; reflexivity || discriminate.
Qed.

(** A block that cannot be paid for. *)
Definition poor_block : Block :=
  block_at 5 bob [by_alice bob KindTransfer (3 * Coin) Coin 0 0 [];
                  by_alice bob KindTransfer (6000 * Coin) Coin 1 0 []].

(** ** Contracts *)

(** Stores 1 under key 0 and returns 5. *)
Definition store_prog : bytes :=
  push_code 0 ++ push_code 1 ++ [op_byte SSTORE] ++ push_code 5 ++ [op_byte RETURN].
(** Calls the contract with digest [d] and then reverts. *)
Definition relay_prog (d : Z) : bytes :=
  push_code d ++ push_code 0 ++ push_code 1000 ++ [op_byte CALL; op_byte REVERT].
(** Jumps to an address that is negative as a Go [int]. *)
Definition crash_prog : bytes := push_code 9223372036854775808 ++ [op_byte JUMP].

Definition contract (code : bytes) : Account := MkAccount 0 0 code ∅ ∅.

Definition ledger_contracts : State :=
  set_Accounts (list_to_map
    [(alice, account (5000 * Coin)); ("store", contract store_prog);
     ("relay", contract (relay_prog (AddrDigest "store"))); ("crash", contract crash_prog)]) ledger0.

Definition call_by_alice (to : Address) (nonce : Z) : Transaction :=
  by_alice to KindCall (7 * Coin) Coin nonce 5000 [].

Definition relay_block : Block := block_at 5 bob [call_by_alice "relay" 0].
Definition crash_block : Block := block_at 5 bob [call_by_alice "crash" 0].

(** ** Faucet, storage proofs, registration *)

Definition faucet_cfg : Config := MkConfig 7 0 0 10 100 1 alice (Some (λ _, Some hash0)) 0 0 0 None None.
Definition ledger_faucet : State := set_cfg faucet_cfg ledger0.
Definition claim_by_bob : Transaction := by_bob "" KindFaucet 0 0 0 0 (be_bytes 8 4 ++ be_bytes 8 0).
Definition claim_block : Block := block_at 5 bob [claim_by_bob].
Definition spoilt_claim_block : Block :=
  block_at 5 bob [claim_by_bob; by_alice bob KindTransfer (6000 * Coin) Coin 0 0 []].

Definition storage_cfg : Config :=
  MkConfig 7 0 0 0 0 0 "" None 100 1 10 (Some (λ _, Some (hash0, 3))) (Some (λ _ _ _, true)).
Definition ledger_storage : State :=
  set_Validators {[ alice := MkValidator 0 true 0 false 4 0 ]} (set_cfg storage_cfg ledger0).
Definition proof_by_alice : Transaction := by_alice "" KindStorageProof 0 Coin 0 0 (be_bytes 8 2 ++ [zb 9]).

Definition cheap_register : Transaction := by_alice "" KindRegister 1 Coin 0 0 [].
Definition cheap_register_block : Block := block_at 5 bob [cheap_register].

