(* ===== verification/StateBlock.v ===== *)
(** * The ledger: nonces and supply across a block

    What an accepted block does to every nonce, why none of its transactions can
    be accepted again, and the accounting identity behind the 21M cap. *)

From S2P Require Import Prelude Sha256 Crypto Economy Merkle Netparams Types Pow Vm VmProps State StateInv Demo.

Definition xst0 (s : State) : xst := Xst s ∅ [].

Lemma acc_xst0 s a : acc (xst0 s) a = Get s a.
Proof. done. Qed.

Section block.
Context `{Platform}.

(** ** The anatomy of an accepted block *)

Definition coinbase_result (hd : Header) (cb : option Transaction) (fees : Z) (x x' : xst) : Prop :=
  let reward := BlockReward (hd_Height hd) (Minted (x_s x)) in
  let pay a v := put a (add_balance v (acc x a)) (snapped a x) in
  match cb with
  | Some t => tx_To t = hd_Validator hd ∧ tx_Amount t = u64 (reward + fees) ∧
              x' = on_state (λ s, set_Minted (u64 (Minted s + reward)) s) (pay (tx_To t) (tx_Amount t))
  | None => x' = x ∨ (0 < u64 (reward + fees) ∧ x' = pay (hd_Validator hd) fees)
  end.

Lemma applyCoinbase_inv hd cb fees x x' :
  applyCoinbase hd cb fees x = OK x' tt → coinbase_result hd cb fees x x'.
Proof.
  unfold applyCoinbase, coinbase_result. rewrite (bind_ok _ _ x x (x_s x)) by done. cbv zeta.
  assert (∀ a v, (snap a ≫= λ _, credit a v) x = OK (put a (add_balance v (acc x a)) (snapped a x)) tt) as Hpay.
  { intros a v. rewrite (bind_ok _ _ _ (snapped a x) tt) by done. by rewrite credit_run, snapped_acc. }
  destruct cb as [t|].
  - rewrite bind_require. case_bool_decide as Et; [|done]. rewrite bind_require.
    destruct (Z.eqb_spec (tx_Amount t) (u64 (BlockReward (hd_Height hd) (Minted (x_s x)) + fees))); [|done].
    rewrite (bind_ok _ _ _ (snapped (tx_To t) x) tt) by done.
    rewrite (bind_ok _ _ _ _ _ (credit_run _ _ _)), snapped_acc. intros [= <-].
    split; [done|]. split; [done|]. done.
  - destruct (_ && _) eqn:Ep.
    + rewrite Hpay. intros [= <-]. right. apply andb_prop in Ep as [Ep%Z.ltb_lt _]. done.
    + intros [= <-]. by left.
Qed.

Lemma ApplyBlock_inv b s s' :
  ApplyBlock b s = OK s' tt →
  ∃ cb txs x fees x',
    coinbase_of (b_Txs b) = (cb, txs) ∧
    applyTxs (b_Header b) 0 0 txs (xst0 s) = OK x fees ∧
    coinbase_result (b_Header b) cb fees x x' ∧
    s' = set_head (hd_Height (b_Header b)) (x_logs x') (x_s x').
Proof.
  unfold ApplyBlock, applyBody. destruct (coinbase_of (b_Txs b)) as [cb txs] eqn:Ec.
  fold (xst0 s). unfold mbind, M_bind.
  destruct (applyTxs (b_Header b) 0 0 txs (xst0 s)) as [x fees| |] eqn:E; [|done..].
  destruct (applyCoinbase (b_Header b) cb fees x) as [x' []| |] eqn:E'; [|done..].
  intros [= <-]. exists cb, txs, x, fees, x'. split_and!; auto. by apply applyCoinbase_inv.
Qed.

Lemma coinbase_result_nonces hd cb fees x x' a :
  coinbase_result hd cb fees x x' → ac_Nonce (acc x' a) = ac_Nonce (acc x a).
Proof.
  assert (∀ b v, ac_Nonce (acc (put b (add_balance v (acc x b)) (snapped b x)) a) = ac_Nonce (acc x a)) as Hp.
  { intros b v. rewrite acc_put. case_decide; subst; [done|]. by rewrite snapped_acc. }
  unfold coinbase_result. destruct cb as [t|].
  - intros (_ & _ & ->). apply Hp.
  - intros [->|[_ ->]]; [done|apply Hp].
Qed.

Definition payload (b : Block) : list Transaction := (coinbase_of (b_Txs b)).2.

Lemma sent_bound a b : sent a (payload b) <= zlen (b_Txs b).
Proof.
  unfold sent, payload, zlen. pose proof (length_filter (λ t, tx_From t = a) (coinbase_of (b_Txs b)).2) as Hl.
  destruct (b_Txs b) as [|t r]; simpl in *; [lia|]. destruct (IsCoinbase t); simpl in *; lia.
Qed.

(** ** Nonces *)

Lemma ApplyBlock_nonces b s s' :
  ApplyBlock b s = OK s' tt → (∀ a, is_u64 (ac_Nonce (Get s a))) →
  (∀ a, ac_Nonce (Get s' a) = u64 (ac_Nonce (Get s a) + sent a (payload b))) ∧
  Forall (λ t, ∃ k, 0 <= k < sent (tx_From t) (payload b) ∧
                    tx_Nonce t = u64 (ac_Nonce (Get s (tx_From t)) + k)) (payload b).
Proof.
  intros E Hu. unfold payload. apply ApplyBlock_inv in E as (cb & txs & x & fees & x' & -> & E & Hcb & ->).
  apply applyTxs_nonces in E as [H1 H2]; [|done]. split; [|exact H2].
  intros a. rewrite <- (acc_xst0 s), <- H1, <- (coinbase_result_nonces _ _ _ _ _ a Hcb). done.
Qed.

Lemma applyTxs_checked hd txs : ∀ i fees x x' f,
  applyTxs hd i fees txs x = OK x' f → Forall (λ t, tx_VerifySig t = Ok tt ∧ IsCoinbase t = false ∧
    tx_ChainID t = ChainID (cfg (x_s x))) txs.
Proof.
  induction txs as [|t r IH]; intros i fees x x' f E; [constructor|].
  pose proof E as E1. apply applyTxs_cons in E1 as (x1 & [] & Ek & Er). constructor; [done|].
  replace (cfg (x_s x)) with (cfg (x_s x1)); [eauto|].
  destruct (fixed_closed (x_s x)) as [Ha Hv].
  pose proof (keep_kind _ Ha Hv hd i t (debited t x) (fixed_debited _ _ _ ltac:(done))) as Hk.
  rewrite Ek in Hk. apply Hk.
Qed.

(** A block leaves the configuration alone. *)
Lemma ApplyBlock_cfg b s s' : ApplyBlock b s = OK s' tt → cfg s' = cfg s.
Proof.
  intros E. apply ApplyBlock_inv in E as (cb & txs & x & fees & x' & Ec & Et & Hcb & ->).
  pose proof (applyTxs_fixed s _ _ _ _ _ _ _ (fixed_refl (xst0 s)) Et) as (_ & _ & _ & Hf). unfold coinbase_result in Hcb. destruct cb.
  - destruct Hcb as (_ & _ & ->). simpl. by rewrite snapped_state.
  - destruct Hcb as [->|[_ ->]]; simpl; [done|by rewrite snapped_state].
Qed.

(** A transaction of an accepted block has a nonce the account has passed. *)
Lemma applied_refused b s s' t : ApplyBlock b s = OK s' tt → (∀ a, is_u64 (ac_Nonce (Get s a))) →
  zlen (b_Txs b) < W64 → t ∈ payload b →
  CheckTx s' t = Err ErrBadNonce ∧ ∀ hd i fees r, ∃ x, applyTxs hd i fees (t :: r) (xst0 s') = ERR x ErrBadNonce.
Proof.
  intros E Hu Hn Ht. pose proof (ApplyBlock_nonces b s s' E Hu) as [H1 H2]. pose proof (ApplyBlock_cfg b s s' E) as Ecfg.
  pose proof E as E'. apply ApplyBlock_inv in E' as (cb & txs & x & fees & x' & Ec & Et & Hcb & Es').
  assert (payload b = txs) as Ep by (unfold payload; by rewrite Ec).
  pose proof (applyTxs_checked _ _ _ _ _ _ _ Et) as Hck. rewrite <- Ep in Hck.
  assert (∀ a, sent a (payload b) < W64) as Hcount.
  { intros a. pose proof (sent_bound a b). lia. }
  rewrite Forall_forall in *. destruct (Hck t Ht) as (Hs & Hb & Hch).
  destruct (H2 t Ht) as (k & Hk & Hnon). specialize (Hcount (tx_From t)).
  assert (tx_Nonce t ≠ ac_Nonce (Get s' (tx_From t))) as Hne.
  { rewrite H1, Hnon. unfold u64. intros Eq. set (n := ac_Nonce (Get s (tx_From t))) in *.
    set (m := sent (tx_From t) (payload b)) in *.
    assert (((n + m) - (n + k)) mod W64 = 0) as Hz by (rewrite Zminus_mod, <- Eq, Z.sub_diag; done).
    replace (n + m - (n + k)) with (m - k) in Hz by lia. rewrite Z.mod_small in Hz by lia. lia. }
  split.
  - unfold CheckTx. rewrite Hs, Hb. simpl. rewrite Ecfg, Hch, Z.eqb_refl. simpl.
    by rewrite (proj2 (Z.eqb_neq _ _) Hne).
  - intros hd i f r. cbn [applyTxs]. unfold applyTx, mbind, M_bind.
    rewrite (debit_bad_nonce t (xst0 s')); eauto. exact (eq_trans Hch (f_equal ChainID (eq_sym Ecfg))).
Qed.

End block.

