(* ===== verification/StateFrame.v ===== *)
(** * The ledger: what execution does not look at

    A block reads nothing of the events of the block before: it executes on a ledger
    loaded from disk, which has none, as on the one that wrote the file.  Shown for every
    operation of the machine and of the ledger by one notion, a program that commutes with
    a change of the state it neither reads nor undoes. *)

From S2P Require Import Prelude Sha256 Crypto Economy Merkle Netparams Types Pow Vm State StateInv StateBlock Demo.

Local Abbreviation M := Prelude.M.

(** ** Programs that commute with a change of the state *)

Definition map_out {S A} (f : S → S) (o : outcome S A) : outcome S A :=
  match o with OK s a => OK (f s) a | ERR s e => ERR (f s) e | PANIC s => PANIC (f s) end.

Definition commutes {S A} (f : S → S) (m : M S A) : Prop := ∀ s, m (f s) = map_out f (m s).

Section laws.
Context {S : Type} (f : S → S).

Lemma commutes_ret {A} (a : A) : commutes f (mret a).
Proof. done. Qed.
Lemma commutes_throw {A} e : commutes f (throw (A:=A) e).
Proof. done. Qed.
Lemma commutes_panic {A} : commutes f (panic (A:=A)).
Proof. done. Qed.
Lemma commutes_lift {A} (r : res A) : commutes f (lift r).
Proof. intros s. by destruct r. Qed.
Lemma commutes_require b e : commutes f (require b e).
Proof. by destruct b. Qed.
Lemma commutes_bind {A B} (m : M S A) (k : A → M S B) : commutes f m → (∀ a, commutes f (k a)) → commutes f (m ≫= k).
Proof. intros Hm Hk s. unfold mbind, M_bind. rewrite Hm. destruct (m s); simpl; [apply Hk|done..]. Qed.
Lemma commutes_modify g : (∀ s, g (f s) = f (g s)) → commutes f (modify g).
Proof. intros Hg s. unfold modify. simpl. by rewrite Hg. Qed.
Lemma commutes_try {A} (m : M S A) : commutes f m → commutes f (try_ m).
Proof. intros Hm s. unfold try_. rewrite Hm. by destruct (m s). Qed.
(** A read whose use does not depend on what [f] changes. *)
Lemma commutes_get {B} (k : S → M S B) : (∀ s, k (f s) = k s) → (∀ s, commutes f (k s)) → commutes f (get ≫= k).
Proof. intros Hr Hk s. unfold mbind, M_bind, get. rewrite Hr. apply Hk. Qed.
End laws.

Create HintDb commutes.
#[export] Hint Resolve commutes_ret commutes_throw commutes_panic commutes_lift commutes_require commutes_try : commutes.

(** One constructor of a program at a time. *)
Ltac commutes_step := match goal with
  | |- commutes _ (get ≫= _) => apply commutes_get; [intros ?; try reflexivity|intros ?]
  | |- commutes _ (_ ≫= _) => apply commutes_bind; [|intros ?]
  | |- commutes _ (if ?b then _ else _) => destruct b
  | |- commutes _ (match ?x with _ => _ end) => destruct x
  | |- commutes _ (modify _) => apply commutes_modify; intros ?; try reflexivity
  | |- commutes _ (try_ _) => apply commutes_try
  | |- commutes _ (let _ := _ in _) => cbv zeta
  | |- commutes _ _ => solve [eauto with commutes]
  end.
Ltac commutes_tac := repeat commutes_step.

(** ** The machine *)

Section vm.
Context {H : Type} (f : H → H).

(** The change, on the host's part of the machine state. *)
Definition on_host (s : vmst H) : vmst H := set_hst (f (m_hst s)) s.

Definition host_commutes (h : host H) : Prop := ∀ self target arg gl depth, commutes f (h self target arg gl depth).

Lemma commutes_push v : commutes on_host (push v).
Proof. unfold push. commutes_tac. Qed.
Lemma commutes_push_ignore v : commutes on_host (push_ignore v).
Proof. unfold push_ignore. commutes_tac. Qed.
Lemma commutes_pop : commutes on_host pop.
Proof. unfold pop. commutes_tac. Qed.
Hint Resolve commutes_push commutes_push_ignore commutes_pop : commutes.

Lemma commutes_pop_topics n : ∀ acc, commutes on_host (pop_topics n acc).
Proof. induction n as [|n IH]; intros acc; cbn [pop_topics]; commutes_tac. Qed.
Hint Resolve commutes_pop_topics : commutes.

Context (code input : bytes) (gas : Z) (ctx : Context H) (Hhost : ∀ h, c_Host ctx = Some h → host_commutes h).

Lemma commutes_jump_to d : commutes on_host (jump_to code d).
Proof. unfold jump_to. commutes_tac. Qed.

Lemma commutes_call_host h self target arg gl depth : host_commutes h → commutes on_host (call_host h self target arg gl depth).
Proof.
  intros Hh s. unfold call_host. change (m_hst (on_host s)) with (f (m_hst s)). rewrite Hh.
  by destruct (h self target arg gl depth (m_hst s)).
Qed.
Hint Resolve commutes_jump_to commutes_call_host : commutes.

Lemma commutes_call : commutes on_host (exec_call gas ctx).
Proof. unfold exec_call. commutes_tac. Qed.
Hint Resolve commutes_call : commutes.

Lemma commutes_op o : commutes on_host (exec_op code input gas ctx o).
Proof.
  destruct o as [[]|]; cbn [exec_op]; cbv zeta; commutes_tac;
    unfold exec_push, exec_binop, exec_checked, exec_mix, exec_unop, append_st, exec_dup, exec_swap, exec_jump, exec_jumpi,
      exec_sload, exec_sstore, exec_cdload, exec_log, exec_bstore, exec_beq, exec_blen, exec_bhash, exec_storeaddr,
      exec_returnb, exec_return; commutes_tac.
Qed.

Lemma commutes_loop n : commutes on_host (loop code input gas ctx n).
Proof.
  induction n as [|n IH]; cbn [loop]; commutes_tac. unfold step. commutes_tac. apply commutes_op.
Qed.

Lemma commutes_ExecuteB storage bstore : commutes f (ExecuteB code input storage bstore gas ctx).
Proof.
  intros h. unfold ExecuteB. change (init storage bstore (f h)) with (on_host (init storage bstore h)).
  rewrite commutes_loop. by destruct (loop code input gas ctx (Z.to_nat maxSteps) (init storage bstore h)).
Qed.
End vm.

(** ** The ledger *)

(** A change of the events of the last block only. *)
Definition relog (l : list Log) (s : State) : State := set_head (Height s) l s.
Abbreviation relogged l := (on_state (relog l)).

Section ledger.
Context `{Platform} (l : list Log).

Lemma commutes_on_state g : (∀ s, g (relog l s) = relog l (g s)) → commutes (relogged l) (modify (on_state g)).
Proof. intros Hg. apply commutes_modify. intros x. unfold on_state. simpl. by rewrite Hg. Qed.

Lemma commutes_snap a : commutes (relogged l) (snap a).
Proof. apply commutes_modify. intros x. simpl. by destruct (x_saved x !! a). Qed.
Lemma commutes_acct a : commutes (relogged l) (acct a).
Proof. unfold acct. commutes_tac. Qed.
Lemma commutes_write a g : commutes (relogged l) (write a g).
Proof. unfold write. commutes_tac. Qed.
Hint Resolve commutes_snap commutes_acct commutes_write : commutes.
Lemma commutes_credit a v : commutes (relogged l) (credit a v).
Proof. unfold credit. commutes_tac. Qed.
Lemma commutes_set_validator a v : commutes (relogged l) (set_validator a v).
Proof. unfold set_validator. commutes_tac. Qed.
Hint Resolve commutes_credit commutes_set_validator : commutes.

Definition exec_commutes (exec : exec_fn) : Prop := ∀ a c ca i v g d t, commutes (relogged l) (exec a c ca i v g d t).

Lemma commutes_vmHost exec t : exec_commutes exec → host_commutes (relogged l) (vmHost_Call exec t).
Proof. intros He self target arg gl depth. unfold vmHost_Call. commutes_tac. Qed.

Lemma commutes_runContract h a c ca i v g d t : host_commutes (relogged l) h → commutes (relogged l) (runContract h a c ca i v g d t).
Proof.
  intros Hh. unfold runContract. commutes_tac. apply commutes_ExecuteB. by intros h' [= <-].
Qed.

Lemma commutes_execContract fuel : exec_commutes (execContract fuel).
Proof.
  induction fuel as [|n IH]; intros a c ca i v g d t; cbn [execContract]; apply commutes_runContract; [done|].
  by apply commutes_vmHost.
Qed.
Lemma commutes_contract fuel a c ca i v g d t : commutes (relogged l) (execContract fuel a c ca i v g d t).
Proof. apply commutes_execContract. Qed.
Hint Resolve commutes_contract : commutes.

(** What a program reads of the ledger, but the events. *)
Lemma commutes_state {B} (k : State → MX B) : (∀ s, k (relog l s) = k s) → (∀ s, commutes (relogged l) (k s)) →
  commutes (relogged l) (state_of ≫= k).
Proof. intros Hr Hk x. unfold state_of, mbind, M_bind. simpl. rewrite Hr. apply Hk. Qed.

Ltac ledger_tac := repeat first
  [ match goal with |- commutes _ (state_of ≫= _) => apply commutes_state; [intros ?; reflexivity|intros ?] end
  | commutes_step ].

Lemma commutes_kind hd i t : commutes (relogged l) (applyKind hd i t).
Proof.
  unfold applyKind, applyDeploy, applyCall, applyRegister, applySlash, applyUnregister, applyFaucet, applyStorageProof, applyTransfer.
  ledger_tac.
Qed.

Lemma commutes_debit t : commutes (relogged l) (debit t).
Proof. unfold debit. ledger_tac. Qed.
Hint Resolve commutes_kind commutes_debit : commutes.

Lemma commutes_txs hd txs : ∀ i fees, commutes (relogged l) (applyTxs hd i fees txs).
Proof. induction txs as [|t r IH]; intros i fees; cbn [applyTxs]; [done|]. unfold applyTx. ledger_tac. Qed.
Hint Resolve commutes_txs : commutes.

Lemma commutes_body b : commutes (relogged l) (applyBody b).
Proof. unfold applyBody, applyCoinbase. ledger_tac. Qed.

(** A block on a ledger with other events: the same outcome.  On success the ledger is the
    same, the events of the block replacing the old ones; on an error it keeps its own. *)
Lemma ApplyBlock_relog b s : ApplyBlock b (relog l s) =
  match ApplyBlock b s with
  | OK s' u => OK s' u
  | ERR s' e => ERR (relog l s') e
  | PANIC s' => PANIC (relog l s')
  end.
Proof.
  unfold ApplyBlock. change (Xst (relog l s) ∅ []) with (on_state (relog l) (Xst s ∅ [])). rewrite commutes_body.
  by destruct (applyBody b (Xst s ∅ [])).
Qed.
End ledger.
