(* ===== verification/StateSupply.v ===== *)
(** * The ledger: no inflation

    The sum of all balances and bonds never exceeds what was minted, and what was
    minted never exceeds the cap; in particular no balance ever wraps. *)

From S2P Require Import Prelude Sha256 Crypto Economy Merkle Netparams Types Pow Vm VmProps State StateInv StateBlock Demo.

(** ** The invariant *)

Definition total (s : State) : Z := msum ac_Balance (Accounts s) + msum v_Bond (Validators s).

(** [supply p x]: the books balance with [p] more set aside (fees collected, value
    in flight). *)
Record supply (p : Z) (x : xst) : Prop := {
  su_bal : map_Forall (λ _ c, 0 <= ac_Balance c) (Accounts (x_s x));
  su_bond : map_Forall (λ _ v, 0 <= v_Bond v) (Validators (x_s x));
  su_total : total (x_s x) + p <= Minted (x_s x);
  su_cap : Minted (x_s x) <= MaxSupply;
  su_faucet : 0 <= FaucetAmount (cfg (x_s x));
}.

Definition supply_ok (s : State) : Prop := supply 0 (xst0 s).

Lemma supply_parts p x : supply p x →
  0 <= msum ac_Balance (Accounts (x_s x)) ∧ 0 <= msum v_Bond (Validators (x_s x)).
Proof. intros []. split; by apply msum_nonneg. Qed.

Lemma supply_acc p x a : supply p x → 0 <= ac_Balance (acc x a) ∧ ac_Balance (acc x a) + p <= Minted (x_s x) <= MaxSupply.
Proof.
  intros Hs. pose proof (supply_parts _ _ Hs) as [_ Hv]. destruct Hs as [Hb _ Ht Hc _].
  unfold acc, acct_of, total in *. pose proof (msum_nonneg ac_Balance _ Hb).
  destruct (Accounts (x_s x) !! a) as [c|] eqn:E; simpl; [|lia].
  pose proof (msum_lookup_le ac_Balance _ _ _ Hb E). specialize (Hb _ _ E). simpl in Hb. lia.
Qed.

Lemma supply_validator p x a v : supply p x → Validators (x_s x) !! a = Some v →
  0 <= v_Bond v ∧ v_Bond v + p <= Minted (x_s x) <= MaxSupply.
Proof.
  intros Hs Hv. pose proof (supply_parts _ _ Hs) as [Ha _]. destruct Hs as [_ Hb Ht Hc _].
  pose proof (msum_lookup_le v_Bond _ _ _ Hb Hv). specialize (Hb _ _ Hv). simpl in Hb. unfold total in *. lia.
Qed.

Lemma supply_weaken p q x : q <= p → supply p x → supply q x.
Proof. intros ? []. split; auto. lia. Qed.

Lemma supply_put p x a c : supply p x → 0 <= ac_Balance c →
  supply (p + ac_Balance (acc x a) - ac_Balance c) (put a c x).
Proof.
  intros [] Hc. split; auto; unfold put, total in *; simpl.
  - by apply map_Forall_insert_2.
  - unfold acc, acct_of. destruct (Accounts (x_s x) !! a) as [c0|] eqn:E; simpl.
    + rewrite (msum_insert _ _ _ _ _ E). lia.
    + rewrite msum_insert_new by done. lia.
Qed.

Lemma supply_put_same p x a c : supply p x → ac_Balance c = ac_Balance (acc x a) → supply p (put a c x).
Proof.
  intros Hs Hc. replace p with (p + ac_Balance (acc x a) - ac_Balance c) by lia.
  apply supply_put; [done|]. rewrite Hc. by apply (supply_acc p).
Qed.

Lemma supply_touch p x a : supply p x → supply p (touch a x).
Proof.
  intros Hs. unfold touch. destruct (Accounts (x_s x) !! a) eqn:E; [done|].
  apply supply_put_same; [done|]. unfold acc, acct_of. by rewrite E.
Qed.

Lemma supply_snapped p x a : supply p x → supply p (snapped a x).
Proof. intros []. split; rewrite snapped_state; auto. Qed.

(** Crediting [v] out of what is set aside; the balance does not wrap. *)
Lemma supply_credit p x a v : supply p x → 0 <= v → v - p <= MaxSupply →
  supply (p - v) (put a (add_balance v (acc x a)) x).
Proof.
  intros Hs Hv Hp. pose proof (supply_acc p x a Hs).
  assert (u64 (ac_Balance (acc x a) + v) = ac_Balance (acc x a) + v) as E.
  { apply u64_small. unfold is_u64, W64, MaxSupply, Coin in *. lia. }
  replace (p - v) with (p + ac_Balance (acc x a) - ac_Balance (add_balance v (acc x a))).
  - apply supply_put; [done|]. simpl. rewrite E. lia.
  - simpl. rewrite E. lia.
Qed.

(** Debiting [v], which is then set aside. *)
Lemma supply_debit p x a v c : supply p x → 0 <= p → has a c x → 0 <= v <= ac_Balance c →
  supply (p + v) (put a (sub_balance v c) x).
Proof.
  intros Hs Hp Ha Hv. pose proof (supply_acc p x a Hs) as [H0 H1]. pose proof (acc_has _ _ _ Ha) as Ec.
  assert (u64 (ac_Balance c - v) = ac_Balance c - v) as E.
  { apply u64_small. rewrite Ec in *. unfold is_u64, W64, MaxSupply, Coin in *. lia. }
  replace (p + v) with (p + ac_Balance (acc x a) - ac_Balance (sub_balance v c)).
  - apply supply_put; [done|]. simpl. lia.
  - rewrite Ec. simpl. lia.
Qed.

Lemma supply_registry p q x f : supply p x →
  map_Forall (λ _ v, 0 <= v_Bond v) (f (Validators (x_s x))) →
  msum v_Bond (f (Validators (x_s x))) + q <= msum v_Bond (Validators (x_s x)) + p →
  supply q (on_state (λ s, set_Validators (f (Validators s)) s) x).
Proof. intros [] Hf Hq. split; auto. unfold total in *. simpl. lia. Qed.

(** Replacing a validator's record frees its old bond and locks the new one. *)
Lemma supply_set_validator p x a v :
  supply p x → 0 <= v_Bond v →
  supply (p + match Validators (x_s x) !! a with Some v0 => v_Bond v0 | None => 0 end - v_Bond v)
    (on_state (λ s, set_Validators (<[a:=v]> (Validators s)) s) x).
Proof.
  intros Hs Hv. apply (supply_registry p _ x (λ m, <[a:=v]> m)); [done| |].
  - apply map_Forall_insert_2; [done|]. apply Hs.
  - destruct (Validators (x_s x) !! a) as [v0|] eqn:E.
    + rewrite (msum_insert _ _ _ _ _ E). lia.
    + rewrite msum_insert_new by done. lia.
Qed.

Lemma supply_delete p x a v0 : supply p x → Validators (x_s x) !! a = Some v0 →
  supply (p + v_Bond v0) (on_state (λ s, set_Validators (delete a (Validators s)) s) x).
Proof.
  intros Hs E. apply (supply_registry p _ x (delete a)); [done| |].
  - apply map_Forall_delete, Hs.
  - rewrite (msum_delete _ _ _ _ E). lia.
Qed.

Lemma supply_exec_closed p : exec_closed (supply p).
Proof.
  split.
  - intros a x. apply supply_touch.
  - intros a x. apply supply_snapped.
  - intros a c st bst x Hs _ Ha. apply supply_put_same; [done|]. by rewrite (acc_has _ _ _ Ha).
  - intros l x []. by split.
Qed.

Lemma supply_mint p x r : supply p x → 0 <= Minted (x_s x) → 0 <= r → Minted (x_s x) + r <= MaxSupply →
  let x' := on_state (λ s, set_Minted (u64 (Minted s + r)) s) x in
  supply (p + r) x' ∧ Minted (x_s x') = Minted (x_s x) + r.
Proof.
  intros [] H0 Hr Hm. simpl.
  assert (u64 (Minted (x_s x) + r) = Minted (x_s x) + r) as E.
  { apply u64_small. unfold is_u64, W64, MaxSupply, Coin in *. lia. }
  split; [|done]. split; simpl; auto; unfold total in *; simpl; lia.
Qed.

(** ** The transaction kinds *)

Section kinds.
Context `{Platform} (q : Z) (Hq : 0 <= q) (t : Transaction) (Ht : 0 <= tx_Amount t).
Abbreviation A := (tx_Amount t).

Lemma su_credit p r a v : 0 <= v → v - p <= MaxSupply → r <= p - v →
  hoare (supply p) (credit a v) (λ _, supply r).
Proof.
  intros. apply t_credit. intros x Hx. apply (supply_weaken (p - v)); [done|]. by apply supply_credit.
Qed.

Lemma su_snap p a : hoare (supply p) (snap a) (λ _, supply p).
Proof. apply t_snap. intros x. apply supply_snapped. Qed.

Lemma su_transfer : hoare (supply (q + A)) (applyTransfer t) (λ _, supply q).
Proof.
  eapply triple_bind; [apply su_snap|intros ?]. apply su_credit; unfold MaxSupply, Coin; lia.
Qed.

Lemma su_acct p a : hoare (supply p) (acct a) (λ c x, supply p x ∧ has a c x).
Proof. apply t_acct. intros x Hx. split; [by apply supply_touch|apply has_touch]. Qed.

Lemma su_deploy : hoare (supply (q + A)) (applyDeploy t) (λ _, supply q).
Proof.
  eapply triple_bind; [apply su_snap|intros ?]. eapply triple_bind; [apply su_acct|intros c].
  eapply (triple_bind _ _ _ (λ _ x, supply (q + A) x ∧ ∃ c, has _ c x)).
  - apply t_write. intros x [Hs Hh]. exists c. split; [done|]. split.
    + apply supply_put_same; [done|]. by rewrite (acc_has _ _ _ Hh).
    + eexists. unfold has. simpl. apply lookup_insert_eq.
  - intros _. apply t_write. intros x [Hs [c' Hh]]. exists c'. split; [done|].
    rewrite <- (acc_has _ _ _ Hh). replace q with (q + A - A) by lia.
      apply supply_credit; [done..|]. unfold MaxSupply, Coin. lia.
Qed.

Lemma su_call i : hoare (supply (q + A)) (applyCall i t) (λ _, supply q).
Proof.
  eapply triple_bind; [apply su_snap|intros ?]. eapply triple_bind; [apply su_acct|intros c].
  eapply (triple_bind _ _ _ (λ _ x, supply q x ∧ ∃ c', has (tx_To t) c' x ∧ A <= ac_Balance c')).
  - apply t_write. intros x [Hs Hh]. exists c. split; [done|]. pose proof (supply_acc _ _ (tx_To t) Hs) as Hb.
    rewrite (acc_has _ _ _ Hh) in Hb. split.
    + rewrite <- (acc_has _ _ _ Hh). replace q with (q + A - A) by lia.
      apply supply_credit; [done..|]. unfold MaxSupply, Coin. lia.
    + eexists. split; [unfold has; simpl; apply lookup_insert_eq|]. simpl. rewrite u64_small; [lia|].
      unfold is_u64, W64, MaxSupply, Coin in *. lia.
  - intros _. destruct (_ =? 0); [by apply triple_ret; intros ? []|].
    eapply triple_bind.
    + apply preserves_hoare, execContract_closed, exec_closed_and;
        [apply supply_exec_closed|apply balance_exec_closed].
    + intros r. destruct (r.2); [by apply triple_ret; intros ? []|].
      eapply (triple_bind _ _ _ (λ _, supply (q + A))).
      * apply t_write. intros x [Hs (c' & Hh & Hb)]. exists c'. split; [done|].
        apply supply_debit; [done..|]. lia.
      * intros _. apply su_credit; unfold MaxSupply, Coin; lia.
Qed.

Lemma su_set_validator p r x a v :
  supply p x → 0 <= v_Bond v →
  r <= p + match Validators (x_s x) !! a with Some v0 => v_Bond v0 | None => 0 end - v_Bond v →
  supply r (on_state (λ s, set_Validators (<[a:=v]> (Validators s)) s) x).
Proof. intros Hs Hv Hr. eapply supply_weaken; [exact Hr|]. by apply supply_set_validator. Qed.

(** A registry write, knowing the record it replaces. *)
Lemma su_write_validator p r a v v0 : 0 <= v_Bond v → r <= p + v_Bond v0 - v_Bond v →
  hoare (λ x, supply p x ∧ Validators (x_s x) !! a = Some v0) (set_validator a v) (λ _, supply r).
Proof.
  intros Hv Hr. apply triple_modify. intros x [Hs E].
  apply (su_set_validator p); [done..|]. by rewrite E.
Qed.

Lemma su_register hd : hoare (supply (q + A)) (applyRegister hd t) (λ _, supply q).
Proof.
  unfold applyRegister. cbv zeta. apply t_state. intros x0 Hx0.
  eapply triple_bind; [apply (triple_require _ _ _ (λ _ x, x = x0)); auto|intros ?].
  destruct (tx_Amount t <? MinBond); [by apply triple_throw|].
  assert (hoare (λ x, x = x0) (set_validator (tx_From t) (MkValidator A true (hd_Height hd) false 0 0))
    (λ _, supply q)) as Hset.
  { apply triple_modify. intros x ->. apply (su_set_validator (q + A)); simpl; [done..|].
    destruct (Validators (x_s x0) !! tx_From t) as [v0|] eqn:E; [|lia].
    pose proof (su_bond _ _ Hx0 _ _ E) as Hb. simpl in Hb. lia. }
  destruct (Validators (x_s x0) !! tx_From t) as [v|]; [|exact Hset].
  destruct (_ || _); [by apply triple_throw|exact Hset].
Qed.

Lemma su_slash : hoare (supply (q + A)) (applySlash t) (λ _, supply q).
Proof.
  unfold applySlash. destruct (json_evidence _) as [ev|]; [|by apply triple_throw].
  destruct (Header_VerifySig (ev_A ev)) as [[]| |]; [|by apply triple_throw..].
  destruct (Header_VerifySig (ev_B ev)) as [[]| |]; [|by apply triple_throw..].
  destruct (_ || _); [by apply triple_throw|]. apply t_state. intros x0 Hx0.
  set (a := hd_Validator (ev_A ev)).
  destruct (Validators (x_s x0) !! a) as [v|] eqn:E; [|by apply triple_throw].
  destruct (negb _); [by apply triple_throw|].
  pose proof (supply_validator _ _ _ _ Hx0 E) as Hv.
  assert (0 <= v_Bond v / 10 <= v_Bond v) as Hdiv.
  { split; [apply Z.div_pos; lia|]. apply Z.div_le_upper_bound; lia. }
  eapply (triple_bind _ _ _ (λ _ x, supply (q + A) x ∧ Validators (x_s x) !! a = Some v)).
  { apply t_snap. intros x ->. split; [by apply supply_snapped|by rewrite snapped_state]. }
  intros _. eapply (triple_bind _ _ _ (λ _ x, supply (q + A - v_Bond v / 10) x ∧ Validators (x_s x) !! a = Some v)).
  { apply t_credit. intros x [Hs Ev]. split; [apply supply_credit; auto; unfold MaxSupply, Coin in *; lia|done]. }
  intros _. apply su_write_validator; simpl; lia.
Qed.

Lemma su_unregister : hoare (supply (q + A)) (applyUnregister t) (λ _, supply q).
Proof.
  apply t_state. intros x0 Hx0.
  destruct (Validators (x_s x0) !! tx_From t) as [v|] eqn:E; [|by apply triple_throw].
  destruct (negb _); [by apply triple_throw|].
  pose proof (supply_validator _ _ _ _ Hx0 E) as Hv.
  assert (u64 (v_Bond v + A) = v_Bond v + A) as ->.
  { apply u64_small. unfold is_u64, W64, MaxSupply, Coin in *. lia. }
  eapply (triple_bind _ _ _ (λ _ x, supply (q + A - (v_Bond v + A)) x ∧ Validators (x_s x) !! tx_From t = Some v)).
  - apply t_credit. intros x ->. split; [apply supply_credit; [done|lia..]|done].
  - intros _. apply triple_modify. intros x [Hs Ev].
    apply (supply_weaken (q + A - (v_Bond v + A) + v_Bond v)); [lia|]. by apply supply_delete.
Qed.

Lemma su_faucet_claim hd : hoare (supply (q + A)) (applyFaucet hd t) (λ _, supply q).
Proof.
  apply t_state. intros x0 Hx0. cbv zeta. set (c := cfg (x_s x0)).
  pose proof (su_faucet _ _ Hx0) as Hf. fold c in Hf.
  destruct (AnchorBodyHash c) as [anchor_of|]; [|by apply triple_throw].
  do 3 (destruct (_ : bool); [by apply triple_throw|]).
  destruct (anchor_of _); [|by apply triple_throw].
  do 2 (eapply triple_bind; [apply (triple_require _ _ _ (λ _ x, x = x0)); auto|intros ?]).
  eapply (triple_bind _ _ _ (λ src x, supply (q + A) x ∧ has (FaucetSource c) src x)).
  { apply t_acct. intros x ->. split; [by apply supply_touch|apply has_touch]. }
  intros src.
  eapply (triple_bind _ _ _ (λ _ x, FaucetAmount c <= ac_Balance src ∧ supply (q + A) x ∧ has (FaucetSource c) src x)).
  { apply triple_require; [|done]. intros x Hx Hb. split; [|done].
    destruct (Z.ltb_spec (ac_Balance src) (FaucetAmount c)); [done|lia]. }
  intros _. apply triple_pure. intros Hsrc.
  eapply (triple_bind _ _ _ (λ _ x, supply (q + A) x ∧ has (FaucetSource c) src x)).
  { apply t_snap. intros x [Hs Hh]. split; [by apply supply_snapped|]. unfold has in *. by rewrite snapped_state. }
  intros _. eapply (triple_bind _ _ _ (λ _, supply (q + A + FaucetAmount c))).
  { apply t_write. intros x [Hs Hh]. exists src. split; [done|]. apply supply_debit; auto; lia. }
  intros _. eapply (triple_bind _ _ _ (λ _, supply q)).
  { apply su_credit; unfold MaxSupply, Coin; lia. }
  intros _. apply triple_modify. intros x []. by split.
Qed.

Lemma su_storage hd : hoare (supply (q + A)) (applyStorageProof hd t) (λ _, supply q).
Proof.
  apply t_state. intros x0 Hx0. cbv zeta.
  destruct (ShardAt _) as [f|]; [|by apply triple_throw].
  destruct (ShardProofOK _) as [g|]; [|by apply triple_throw].
  destruct (Validators (x_s x0) !! tx_From t) as [v|] eqn:E; [|by apply triple_throw].
  do 3 (destruct (_ : bool); [by apply triple_throw|]).
  destruct (f _) as [[id n]|]; [|by apply triple_throw]. destruct (_ : bool); [by apply triple_throw|].
  eapply triple_bind; [apply (triple_require _ _ _ (λ _ x, x = x0)); auto|intros ?].
  apply (triple_pre _ (λ x, supply (q + A) x ∧ Validators (x_s x) !! tx_From t = Some v)); [by intros x ->|].
  pose proof (supply_validator _ _ _ _ Hx0 E). apply su_write_validator; simpl; lia.
Qed.

Lemma su_kind hd i : hoare (supply (q + A)) (applyKind hd i t) (λ _, supply q).
Proof.
  unfold applyKind. cbv zeta.
  destruct (_ =? _); [apply su_deploy|]. destruct (_ =? _); [apply su_call|].
  destruct (_ =? _); [apply su_register|]. destruct (_ =? _); [apply su_slash|].
  destruct (_ =? _); [apply su_unregister|]. destruct (_ =? _); [apply su_faucet_claim|].
  destruct (_ =? _); [apply su_storage|apply su_transfer].
Qed.
End kinds.

(** ** Blocks *)

Definition tx_words (t : Transaction) : Prop := is_u64 (tx_Amount t) ∧ is_u64 (tx_Fee t).
Definition block_words (b : Block) : Prop := Forall tx_words (b_Txs b) ∧ 0 <= hd_Height (b_Header b).

Section blocks.
Context `{Platform}.

Lemma supply_debited q t x :
  0 <= q → tx_words t → supply q x → debit_ok (cfg (x_s x)) (acc x (tx_From t)) t →
  supply (q + tx_Fee t + tx_Amount t) (debited t x).
Proof.
  intros Hq [Ha Hf] Hs [_ _ _ _ [Hlo Hhi]]. unfold tx_total in *.
  apply u64_add_no_wrap in Hlo; [|done..].
  rewrite u64_small in Hhi by (unfold is_u64 in *; lia).
  unfold debited, tx_total. rewrite (u64_small (tx_Amount t + tx_Fee t)) by (unfold is_u64 in *; lia).
  set (a := tx_From t) in *. set (y := snapped a (touch a x)).
  assert (supply q y) as Hy by by apply supply_snapped, supply_touch.
  assert (has a (acc x a) y) as Hh by (unfold has, y; rewrite snapped_state; apply has_touch).
  pose proof (supply_debit q y a (tx_Amount t + tx_Fee t) (acc x a) Hy Hq Hh) as Hd.
  replace (q + tx_Fee t + tx_Amount t) with (q + (tx_Amount t + tx_Fee t)) by lia.
  rewrite <- (put_put a (sub_balance (tx_Amount t + tx_Fee t) (acc x a))).
  apply supply_put_same; [apply Hd; unfold is_u64 in *; lia|].
  rewrite acc_put, decide_True by done. done.
Qed.

Lemma supply_applyTxs hd txs : ∀ i fees x x' f,
  Forall tx_words txs → 0 <= fees → supply fees x → applyTxs hd i fees txs x = OK x' f →
  supply f x' ∧ 0 <= f.
Proof.
  induction txs as [|t r IH]; intros i fees x x' f Hw Hf Hs E.
  { by apply applyTxs_nil in E as [-> ->]. }
  inversion_clear Hw as [|?? Ht Hr].
  apply applyTxs_cons in E as (x1 & Hok & Ek & Er).
  pose proof (supply_debited _ _ _ Hf Ht Hs Hok) as Hd. destruct Ht as [Ha Hfee]. unfold is_u64 in *.
  pose proof (su_kind (fees + tx_Fee t) ltac:(lia) t ltac:(lia) hd i _ Hd) as Hk.
  unfold wp in Hk. rewrite Ek in Hk.
  pose proof (supply_acc _ _ EmptyString Hk).
  assert (u64 (fees + tx_Fee t) = fees + tx_Fee t) as E1.
  { apply u64_small. unfold is_u64, W64, MaxSupply, Coin in *. lia. }
  rewrite E1 in Er. exact (IH (i + 1) (fees + tx_Fee t) x1 x' f Hr ltac:(lia) Hk Er).
Qed.

Lemma supply_coinbase hd cb f x x' :
  0 <= f → 0 <= hd_Height hd → supply f x → coinbase_result hd cb f x x' →
  supply 0 x' ∧ Minted (x_s x') = Minted (x_s x) +
    (if cb is Some _ then BlockReward (hd_Height hd) (Minted (x_s x)) else 0).
Proof.
  intros Hf Hh Hs. pose proof (supply_acc _ _ EmptyString Hs) as Hm.
  pose proof (BlockReward_bounded (hd_Height hd) (Minted (x_s x)) Hh ltac:(lia)) as Hr.
  unfold coinbase_result. cbv zeta. set (w := BlockReward _ _) in *.
  destruct cb as [t|].
  - intros (_ & -> & ->). rewrite u64_small by (unfold is_u64, W64, MaxSupply, Coin in *; lia).
    assert (supply (f - (w + f)) (put (tx_To t) (add_balance (w + f) (acc x (tx_To t))) (snapped (tx_To t) x))) as Hp.
    { rewrite <- (snapped_acc (tx_To t)). apply supply_credit; [by apply supply_snapped|lia..]. }
    assert (Minted (x_s (put (tx_To t) (add_balance (w + f) (acc x (tx_To t))) (snapped (tx_To t) x))) = Minted (x_s x)) as Em.
    { simpl. by rewrite snapped_state. }
    replace 0 with (f - (w + f) + w) by lia. rewrite <- Em. apply supply_mint; [done|lia..].
  - intros [->|[_ ->]]; [split; [by apply (supply_weaken f)|lia]|].
    split; [|simpl; rewrite snapped_state; lia].
    replace 0 with (f - f) by lia. rewrite <- (snapped_acc (hd_Validator hd)).
    apply supply_credit; [by apply supply_snapped|lia|unfold MaxSupply, Coin; lia].
Qed.

Lemma ApplyBlock_supply b s s' :
  supply_ok s → block_words b → ApplyBlock b s = OK s' tt →
  supply_ok s' ∧ Minted s <= Minted s' <= Minted s + BlockReward (hd_Height (b_Header b)) (Minted s).
Proof.
  intros Hs [Hw Hh] E. apply ApplyBlock_inv in E as (cb & txs & x & fees & x' & Ec & Et & Hcb & ->).
  assert (Forall tx_words txs) as Htx.
  { destruct (b_Txs b) as [|t r]; simpl in Ec; [by simplify_eq|].
    destruct (IsCoinbase t); simplify_eq; [by inversion Hw|done]. }
  pose proof (supply_applyTxs _ _ _ _ _ _ _ Htx (Z.le_refl 0) Hs Et) as [Hx Hf].
  pose proof (applyTxs_fixed s _ _ _ _ _ _ _ (fixed_refl (xst0 s)) Et) as (_ & Em & _).
  pose proof (supply_acc _ _ EmptyString Hs) as Hm0. simpl in Hm0.
  pose proof (BlockReward_bounded (hd_Height (b_Header b)) (Minted s) Hh ltac:(lia)) as Hr.
  destruct (supply_coinbase _ _ _ _ _ Hf Hh Hx Hcb) as [H0 H1]. rewrite Em in H1. split.
  - destruct H0. by split.
  - simpl. rewrite H1. destruct cb; lia.
Qed.

(** Applying a list of blocks, as a node does. *)
Fixpoint applyBlocks (bs : list Block) : Prelude.M State unit :=
  match bs with [] => mret tt | b :: r => ApplyBlock b ≫= λ _, applyBlocks r end.

(** [C1] The 21M cap. From books that balance, after any sequence of accepted
    blocks, whatever the transactions and the contracts they call: the balances and
    bonds together never exceed what was minted, the minted total grows by at most
    the scheduled subsidies and never passes [MaxSupply], and no balance ever wraps. *)
Theorem ledger_no_inflation (bs : list Block) (s s' : State)
  (Hs : supply_ok s) (Hb : Forall block_words bs) (E : applyBlocks bs s = OK s' tt) :
  supply_ok s' ∧ total s' <= Minted s' <= MaxSupply ∧ Minted s <= Minted s' ∧
  (∀ a, 0 <= ac_Balance (Get s' a) <= MaxSupply).
Proof.
  assert (supply_ok s' ∧ Minted s <= Minted s') as [Hs' Hm].
  { revert s Hs E. induction Hb as [|b r Hw _ IH]; intros s Hs E.
    - cbn in E. unfold mret, M_ret in E. apply OK_inj in E as [<- _]. split; [done|lia].
    - cbn [applyBlocks] in E. unfold mbind, M_bind in E.
      destruct (ApplyBlock b s) as [s1 []| |] eqn:E1; [|done..].
      destruct (ApplyBlock_supply b s s1 Hs Hw E1) as [H1 H2].
      destruct (IH s1 H1 E) as [? ?]. split; [done|lia]. }
  pose proof (supply_acc _ _ EmptyString Hs') as Hc. simpl in Hc.
  split; [done|]. split; [destruct Hs' as [_ _ Ht Hcap _]; simpl in *; lia|]. split; [done|].
  intros a. pose proof (supply_acc _ _ a Hs') as Ha. simpl in Ha. rewrite <- (acc_xst0 s'). lia.
Qed.
End blocks.

Lemma ledger0_supply : supply_ok ledger0.
Proof.
  split.
  - apply map_Forall_singleton. vm_compute. discriminate.
  - apply map_Forall_empty.
  - vm_compute. discriminate.
  - vm_compute. discriminate.
  - vm_compute. discriminate.
Qed.

Lemma ledger_no_inflation_witness :
  supply_ok after_pay ∧ total after_pay <= Minted after_pay <= MaxSupply.
Proof.
  destruct (ledger_no_inflation [pay_block] ledger0 after_pay) as (H1 & H2 & _).
  - exact ledger0_supply.
  - constructor; [|constructor]. split; [|vm_compute; discriminate].
    repeat constructor; vm_compute; discriminate || reflexivity.
  - cbn [applyBlocks]. rewrite (bind_ok _ _ _ _ _ pay_block_run). reflexivity.
  - split; [exact H1|exact H2].
Defined.
