(* ===== verification/StateTyping.v ===== *)
(** * The ledger: types

    The Go types of the ledger's fields as an invariant: every number is a 64-bit word,
    contract storage is what [storageEncode] writes for a map of words, log topics are
    words, and the registry's flags fit together.  Arithmetic wraps everywhere, so the
    invariant needs nothing of a block but the types of its own fields. *)

From S2P Require Import Prelude Sha256 Crypto Economy Merkle Netparams Types Vm VmProps State StateStore StateInv StateBlock StateSupply Demo.

(** ** The types *)

Definition short_name (a : Address) : Prop := short (bytes_of a).

Record account_typed (c : Account) : Prop := {
  ty_balance : is_u64 (ac_Balance c); ty_nonce : is_u64 (ac_Nonce c);
  ty_storage : ∃ m, word_map m ∧ ac_Storage c = storageEncode m;
  ty_bstorage : ∃ m, blob_map m ∧ ac_BStorage c = bstoreEncode m;
}.

(** A validator is active until it is slashed, and has no bond afterwards. *)
Record validator_typed (v : Validator) : Prop := {
  ty_bond : is_u64 (v_Bond v); ty_since : is_u64 (v_Since v);
  ty_score : is_u64 (v_StorageScore v); ty_proof : is_u64 (v_LastProofAt v);
  ty_flags : v_Active v = negb (v_Slashed v);
  ty_slashed : v_Slashed v = true → v_Bond v = 0;
}.

Definition log_typed (l : Log) : Prop := topics_ok (lg_Topics l).

Record typed (s : State) : Prop := {
  ty_accounts : map_Forall (λ a c, short_name a ∧ account_typed c) (Accounts s);
  ty_validators : map_Forall (λ _ v, validator_typed v) (Validators s);
  ty_height : is_u64 (Height s); ty_minted : is_u64 (Minted s);
  ty_claims : map_Forall (λ _ h, is_u64 h) (FaucetClaims s);
  ty_logs : Forall log_typed (lastLogs s);
  ty_source : short_name (FaucetSource (cfg s));
}.

(** A transaction as the decoder gives it: words and slices; the gas limit is below the
    last hundred values, where the meter's comparison wraps. *)
Record tx_typed (t : Transaction) : Prop := {
  tt_amount : is_u64 (tx_Amount t); tt_gas : gas_ok (tx_Gas t); tt_data : short (tx_Data t);
  tt_from : short_name (tx_From t); tt_to : short_name (tx_To t);
}.

Record block_typed (b : Block) : Prop := {
  bt_txs : Forall tx_typed (b_Txs b); bt_height : is_u64 (hd_Height (b_Header b));
  bt_validator : short_name (hd_Validator (b_Header b));
}.

(** The state of a running block, with its snapshots. *)
Record xtyped (x : xst) : Prop := {
  xt_state : typed (x_s x);
  xt_saved : map_Forall (λ a o, short_name a ∧ from_option account_typed True o) (x_saved x);
  xt_logs : Forall log_typed (x_logs x);
}.

(** * Lemmas *)

Lemma word_0 : is_u64 0.
Proof. unfold is_u64, W64. lia. Qed.
Create HintDb typing.
#[local] Hint Resolve word_0 u64_range : typing.

Lemma emptyAccount_typed : account_typed emptyAccount.
Proof. split; simpl; [auto with typing..| |]; exists ∅; (split; [apply map_Forall_empty|reflexivity]). Qed.

Lemma xtyped_accounts f x : map_Forall (λ a c, short_name a ∧ account_typed c) (f (Accounts (x_s x))) → xtyped x →
  xtyped (on_state (λ s, set_Accounts (f (Accounts s)) s) x).
Proof. intros Hf [[] ? ?]. by split; [split|..]. Qed.

Lemma digest_word a : is_u64 (AddrDigest a).
Proof. unfold AddrDigest. apply be_val_u64. rewrite length_take, length_sha256. reflexivity. Qed.

(** ** Contract execution *)

Section exec.
Context `{Platform}.

Lemma keeps_acct {B} a (f : Account → MX B) : short_name a → (∀ c, account_typed c → keeps xtyped (f c)) →
  keeps xtyped (acct a ≫= f).
Proof.
  intros Ha. apply keeps_gives. intros x Hx. unfold wp. rewrite acct_run. unfold touch, acc, acct_of.
  destruct (Accounts (x_s x) !! a) as [c|] eqn:E; simpl.
  - split; [done|]. apply (ty_accounts _ (xt_state _ Hx) _ _ E).
  - split; [|apply emptyAccount_typed]. apply (xtyped_accounts (insert a emptyAccount)); [|done].
    apply map_Forall_insert_2; [|apply Hx]. split; [done|apply emptyAccount_typed].
Qed.

Lemma keeps_snap a : short_name a → keeps xtyped (snap a).
Proof.
  intros Ha. apply keeps_modify. intros x Hx. destruct (x_saved x !! a); [done|]. destruct Hx as [H1 H2 H3]. split; [done| |done].
  simpl. apply map_Forall_insert_2; [|done]. split; [done|]. destruct (Accounts (x_s x) !! a) as [c|] eqn:E; [|done].
  apply (ty_accounts _ H1 _ _ E).
Qed.

Lemma keeps_write a f : (∀ c, account_typed c → account_typed (f c)) → keeps xtyped (write a f).
Proof.
  intros Hf. apply keeps_modify. intros x Hx. apply (xtyped_accounts (alter f a)); [|done].
  intros b c. rewrite lookup_alter_Some. intros [(<- & c0 & E & ->)|[_ E]]; apply (ty_accounts _ (xt_state _ Hx)) in E as [? ?]; auto.
Qed.

Lemma set_Balance_typed v c : account_typed c → account_typed (set_Balance (u64 v) c).
Proof. intros []. split; simpl; auto with typing. Qed.

Lemma keeps_balance a f : (∀ c, ∃ v, f c = set_Balance (u64 v) c) → keeps xtyped (write a f).
Proof. intros Hf. apply keeps_write. intros c Hc. destruct (Hf c) as [v ->]. by apply set_Balance_typed. Qed.

Lemma keeps_credit a v : short_name a → keeps xtyped (credit a v).
Proof. intros Ha. apply keeps_acct; [done|]. intros _ _. apply keeps_balance. eauto. Qed.

(** The result of a call: words, within the forwarded gas. *)
Definition call_typed (gas : Z) (o : outcome xst (Z * Z * bool)) : Prop :=
  match o with OK x (ret, used, _) => (is_u64 ret ∧ 0 <= used <= gas) ∧ xtyped x | ERR _ _ => False | PANIC _ => True end.

Lemma decode_typed c : account_typed c → word_map (storageDecode (ac_Storage c)) ∧ blob_map (bstoreDecode (ac_BStorage c)).
Proof.
  intros [_ _ (m & Hm & ->) (b & Hb & ->)]. unfold storageDecode, storageEncode, bstoreDecode, bstoreEncode.
  rewrite !decode_encode; [done|..]; eapply map_Forall_impl; [exact Hb| |exact Hm|]; by intros ? ? [? ?].
Qed.

Lemma runContract_typed h addr caller ca input value gas depth i x : host_ok xtyped h →
  short_name addr → is_u64 caller → short_name ca → short input → is_u64 value → gas_ok gas → xtyped x →
  call_typed gas (runContract h addr caller ca input value gas depth i x).
Proof.
  intros Hh Ha Hc Hca Hin Hv Hg Hx. unfold runContract.
  assert (∃ x1 c, acct addr x = OK x1 c ∧ account_typed c ∧ xtyped (snapped addr x1)) as (x1 & c & E1 & Hty & Hx1).
  { exists (touch addr x), (acc x addr). split; [apply acct_run|].
    pose proof (keeps_acct addr (λ c, snap addr ≫= λ _, mret c) Ha) as Hk. unfold touch, acc, acct_of in *.
    destruct (Accounts (x_s x) !! addr) as [c|] eqn:E; simpl.
    - split; [by apply (ty_accounts _ (xt_state _ Hx) _ _ E)|]. by apply (keeps_snap addr Ha x).
    - split; [apply emptyAccount_typed|]. apply (keeps_snap addr Ha (put addr emptyAccount x)).
      apply (xtyped_accounts (insert addr emptyAccount)); [|done].
      apply map_Forall_insert_2; [|apply Hx]. split; [done|apply emptyAccount_typed]. }
  rewrite (bind_ok _ _ _ _ _ E1). rewrite (bind_ok (snap addr) _ x1 (snapped addr x1) tt eq_refl). cbv zeta.
  destruct (decode_typed c Hty) as [Hst Hbst].
  match goal with |- context [ExecuteB ?cd ?inp ?s ?b ?g ?ctx] =>
    pose proof (ExecuteB_wf xtyped cd inp s b g ctx (snapped addr x1) Hg) as He end.
  unfold mbind at 1, M_bind at 1, try_. unfold exec_safe in He.
  destruct (ExecuteB _ _ _ _ _ _ _) as [x2 [[r st] bst]|x2 e|x2].
  - destruct He as (Hx2 & Hu & Hr & _ & _ & Hl & Hst' & Hb'); [|done|done|by intros b [= <-]|done|].
    { split; simpl; try done; [apply digest_word|apply Hty|by intros ? [= <-]]. }
    unfold call_typed. unfold mbind at 1, M_bind at 1.
    pose proof (keeps_write addr (set_Storage (storageEncode st) (bstoreEncode (default ∅ bst)))) as Hw.
    specialize (Hw ltac:(intros c' []; split; simpl; [done|done|by exists st|exists (default ∅ bst); split; [destruct bst; [by apply Hb'|apply map_Forall_empty]|done]]) x2 Hx2).
    change (write addr ?f x2) with (OK (S:=xst) (on_state (λ s, set_Accounts (alter f addr (Accounts s)) s) x2) tt) in *.
    unfold wp in Hw. cbv beta iota. simpl. split; [done|]. destruct Hw as [W1 W2 W3]. split; [done|done|].
    simpl in W3 |- *. apply Forall_app. split; [done|]. apply Forall_fmap. eapply Forall_impl; [exact Hl|]. by intros l.
  - destruct He as [_ Hx2]; [|done|done|by intros b [= <-]|done|].
    { split; simpl; try done; [apply digest_word|apply Hty|by intros ? [= <-]]. }
    simpl. split; [|done]. split; [apply word_0|]. unfold gas_ok in Hg. lia.
  - done.
Qed.

(** [e] answers in words when it is asked in words. *)
Definition exec_typed (e : exec_fn) : Prop := ∀ addr caller ca input value gas depth i x,
  short_name addr → is_u64 caller → short_name ca → short input → is_u64 value → gas_ok gas → xtyped x →
  call_typed gas (e addr caller ca input value gas depth i x).

Lemma vmHost_Call_typed e i : exec_typed e → host_ok xtyped (vmHost_Call e i).
Proof.
  intros He self target arg gl depth x H1 H2 H3 H4 Hx. unfold vmHost_Call. rewrite (bind_ok get _ _ _ _ eq_refl).
  pose proof word_0 as H0. assert (0 <= gl) as Hgl by (unfold gas_ok in H4; lia).
  destruct (contractByDigest target (x_s x)) as [addr|] eqn:Ed; [|split; [split; [done|lia]|done]].
  assert (short_name addr) as Ha.
  { unfold contractByDigest in Ed. destruct (List.find _ _) as [[a c]|] eqn:Ef; [|done]. injection Ed as <-.
    apply find_some in Ef as [Hin _]. apply list_elem_of_In in Hin. rewrite range_accounts_perm in Hin.
    apply elem_of_map_to_list in Hin. apply (ty_accounts _ (xt_state _ Hx) _ _ Hin). }
  specialize (He addr self "" (u64word arg) 0 gl depth i x Ha H1 ltac:(done) ltac:(done) H0 H4 Hx).
  unfold mbind, M_bind. destruct (e _ _ _ _ _ _ _ _ _) as [x' [[ret used] ok]| |]; [|done|done].
  destruct He as [[? ?] ?]. destruct ok; (split; [split; [done|lia]|done]).
Qed.

Lemma execContract_typed fuel : exec_typed (execContract fuel).
Proof.
  induction fuel as [|f IH]; intros addr caller ca input value gas depth i x; intros; cbn [execContract]; apply runContract_typed; auto.
  - by intros ? ? ? ? ? ? ? ? ? ? ?.
  - by apply vmHost_Call_typed.
Qed.

(** ** Transactions *)

Lemma keeps_state {B} (f : State → MX B) : (∀ s, typed s → keeps xtyped (f s)) → keeps xtyped (state_of ≫= f).
Proof. intros Hf x Hx. by apply (Hf (x_s x) (xt_state _ Hx) x). Qed.

Lemma keeps_validators f : (∀ m, map_Forall (λ _ v, validator_typed v) m → map_Forall (λ _ v, validator_typed v) (f m)) →
  keeps xtyped (modify (on_state (λ s, set_Validators (f (Validators s)) s))).
Proof. intros Hf. apply keeps_modify. intros x [[] ? ?]. by split; [split; [|apply Hf|..]|..]. Qed.

Lemma keeps_set_validator a v : validator_typed v → keeps xtyped (set_validator a v).
Proof. intros Hv. apply (keeps_validators (λ m, <[a:=v]> m)). intros m Hm. by apply map_Forall_insert_2. Qed.

Context (t : Transaction) (Ht : tx_typed t).

Lemma keeps_deploy : short_name (ContractAddress (tx_From t) (tx_Nonce t)) → keeps xtyped (applyDeploy t).
Proof.
  intros Ha. unfold applyDeploy. cbv zeta. apply keeps_bind; [by apply keeps_snap|intros _]. apply keeps_acct; [done|intros _ _].
  apply keeps_bind; [|intros _; apply keeps_balance; eauto]. apply keeps_write. intros c []. by split.
Qed.

Lemma keeps_call i : keeps xtyped (applyCall i t).
Proof.
  destruct Ht as [Hm Hg Hd Hf Hto]. unfold applyCall. apply keeps_bind; [by apply keeps_snap|intros _].
  apply keeps_acct; [done|intros to Hc]. apply keeps_bind; [apply keeps_balance; eauto|intros _].
  destruct (_ =? _); [apply keeps_ret|]. apply keeps_bind.
  - intros x Hx. pose proof (execContract_typed (Z.to_nat maxDepth) (tx_To t) (AddrDigest (tx_From t)) (tx_From t) (tx_Data t)
      (tx_Amount t) (tx_Gas t) 0 i x Hto (digest_word _) Hf Hd Hm Hg Hx) as Hc'. unfold wp. unfold call_typed in Hc'.
    destruct (execContract _ _ _ _ _ _ _ _ _ x) as [x' [[? ?] ?]| |]; [by destruct Hc'|done|done].
  - intros r. destruct (r.2 : bool); [apply keeps_ret|]. apply keeps_bind; [apply keeps_balance; eauto|intros _; by apply keeps_credit].
Qed.

Lemma keeps_transfer : keeps xtyped (applyTransfer t).
Proof. apply keeps_bind; [apply keeps_snap, Ht|intros _; apply keeps_credit, Ht]. Qed.

Lemma keeps_register hd : is_u64 (hd_Height hd) → keeps xtyped (applyRegister hd t).
Proof.
  intros Hh. assert (validator_typed (MkValidator (tx_Amount t) true (hd_Height hd) false 0 0)) as Hv.
  { split; simpl; auto with typing; [apply Ht|done]. }
  pose proof (keeps_set_validator (tx_From t) _ Hv). unfold applyRegister. apply keeps_state. intros s Hs. cbv zeta. keeps_tac.
Qed.

Lemma keeps_unregister : keeps xtyped (applyUnregister t).
Proof.
  pose proof (keeps_credit (tx_From t)). unfold applyUnregister. apply keeps_state. intros s Hs.
  destruct (Validators s !! tx_From t) as [v|]; [|apply keeps_throw]. destruct (negb _); [apply keeps_throw|].
  apply keeps_bind; [apply keeps_credit, Ht|intros _]. apply (keeps_validators (delete (tx_From t))). intros m. apply map_Forall_delete.
Qed.

Lemma keeps_slash : keeps xtyped (applySlash t).
Proof.
  unfold applySlash. destruct (json_evidence _) as [ev|]; [|apply keeps_throw].
  destruct (Header_VerifySig (ev_A ev)); [|apply keeps_throw..]. destruct (Header_VerifySig (ev_B ev)); [|apply keeps_throw..].
  destruct (_ || _); [apply keeps_throw|]. apply keeps_state. intros s Hs.
  destruct (Validators s !! _) as [v|] eqn:Ev; [|apply keeps_throw]. destruct (negb _); [apply keeps_throw|].
  apply keeps_bind; [apply keeps_snap, Ht|intros _]. apply keeps_bind; [apply keeps_credit, Ht|intros _].
  apply keeps_set_validator. apply (ty_validators _ Hs) in Ev as []. split; simpl; auto with typing.
Qed.

Lemma keeps_faucet hd : is_u64 (hd_Height hd) → keeps xtyped (applyFaucet hd t).
Proof.
  intros Hh. pose proof (keeps_credit (tx_From t)). unfold applyFaucet. apply keeps_state. intros s Hs. cbv zeta.
  pose proof (ty_source _ Hs) as Hsrc. pose proof (keeps_snap _ Hsrc). pose proof (tt_from _ Ht).
  assert (keeps xtyped (write (FaucetSource (cfg s)) (sub_balance (FaucetAmount (cfg s))))) by (apply keeps_balance; eauto).
  assert (keeps xtyped (modify (on_state (λ s, set_FaucetClaims (<[tx_From t:=hd_Height hd]> (FaucetClaims s)) s)))).
  { apply keeps_modify. intros x [[] ? ?]. split; [split|..]; try done. by apply map_Forall_insert_2. }
  destruct (AnchorBodyHash (cfg s)) as [o|]; [|apply keeps_throw]. destruct (_ =? 0); [apply keeps_throw|].
  destruct (_ <? 16); [apply keeps_throw|]. destruct (_ || _); [apply keeps_throw|]. destruct (o _); [|apply keeps_throw].
  do 2 (apply keeps_bind; [apply keeps_require|intros _]). apply keeps_acct; [done|intros src _]. keeps_tac.
Qed.

Lemma keeps_storage hd : is_u64 (hd_Height hd) → keeps xtyped (applyStorageProof hd t).
Proof.
  intros Hh. unfold applyStorageProof. apply keeps_state. intros s Hs. cbv zeta.
  destruct (ShardAt (cfg s)) as [at_|], (ShardProofOK (cfg s)) as [ok|]; [|apply keeps_throw..].
  destruct (Validators s !! tx_From t) as [v|] eqn:Ev; [|apply keeps_throw].
  assert (keeps xtyped (set_validator (tx_From t) (prove_storage (StorageCap (cfg s)) (hd_Height hd) v))).
  { apply keeps_set_validator. apply (ty_validators _ Hs) in Ev as []. split; simpl; auto. destruct (_ <? _); auto with typing. }
  keeps_tac.
Qed.

Lemma keeps_kind hd i : is_u64 (hd_Height hd) → keeps xtyped (applyKind hd i t).
Proof.
  intros Hh. pose proof keeps_deploy. pose proof keeps_call. pose proof keeps_transfer. pose proof (keeps_register hd Hh).
  pose proof keeps_unregister. pose proof keeps_slash. pose proof (keeps_faucet hd Hh). pose proof (keeps_storage hd Hh).
  assert (short_name (ContractAddress (tx_From t) (tx_Nonce t))).
  { unfold short_name, short, ContractAddress, zlen. rewrite bytes_of_string_of, length_app, length_hex_encode, length_take, length_sha256.
    reflexivity. }
  unfold applyKind. keeps_tac.
Qed.

Lemma keeps_debit : keeps xtyped (debit t).
Proof.
  pose proof (keeps_snap _ (tt_from _ Ht)).
  assert (keeps xtyped (write (tx_From t) (λ c, set_Nonce (u64 (ac_Nonce c + 1)) c))).
  { apply keeps_write. intros c []. split; simpl; auto with typing. }
  assert (keeps xtyped (write (tx_From t) (sub_balance (u64 (tx_Amount t + tx_Fee t))))) by (apply keeps_balance; eauto).
  unfold debit. apply keeps_bind; [apply keeps_require|intros _]. apply keeps_bind; [apply keeps_lift|intros _].
  apply keeps_state. intros s Hs. apply keeps_bind; [apply keeps_require|intros _]. apply keeps_acct; [apply Ht|intros c _]. keeps_tac.
Qed.
End exec.

(** ** Blocks *)

Section blocks.
Context `{Platform}.

Lemma keeps_txs hd txs : is_u64 (hd_Height hd) → Forall tx_typed txs → ∀ i fees, keeps xtyped (applyTxs hd i fees txs).
Proof.
  intros Hh. induction 1 as [|t r Ht _ IH]; intros i fees; cbn [applyTxs]; [apply keeps_ret|].
  apply keeps_bind; [|auto]. apply keeps_bind; [by apply keeps_debit|intros _; by apply keeps_kind].
Qed.

Lemma keeps_coinbase hd cb fees : short_name (hd_Validator hd) → from_option tx_typed True cb → keeps xtyped (applyCoinbase hd cb fees).
Proof.
  intros Hv Hcb. pose proof (keeps_snap _ Hv). pose proof (keeps_credit (hd_Validator hd) fees Hv).
  unfold applyCoinbase. apply keeps_state. intros s Hs. cbv zeta. destruct cb as [cb|]; [|keeps_tac].
  pose proof (keeps_snap _ (tt_to _ Hcb)). pose proof (keeps_credit _ (tx_Amount cb) (tt_to _ Hcb)).
  apply keeps_bind; [apply keeps_require|intros _]. apply keeps_bind; [apply keeps_require|intros _].
  do 2 (apply keeps_bind; [done|intros _]). apply keeps_modify. intros x [[] ? ?]. split; [split|..]; simpl; auto with typing.
Qed.

Lemma keeps_body b : block_typed b → keeps xtyped (applyBody b).
Proof.
  intros [Ht Hh Hv]. unfold applyBody. assert (from_option tx_typed True (coinbase_of (b_Txs b)).1 ∧ Forall tx_typed (coinbase_of (b_Txs b)).2) as [Hc Hp].
  { unfold coinbase_of. destruct (b_Txs b) as [|t r]; [done|]. inversion_clear Ht. destruct (IsCoinbase t); simpl; auto. }
  destruct (coinbase_of _) as [cb txs]. apply keeps_bind; [by apply keeps_txs|intros fees; by apply keeps_coinbase].
Qed.

Lemma ApplyBlock_keeps_types b : block_typed b → keeps typed (ApplyBlock b).
Proof.
  intros Hb s Hs. pose proof (keeps_body b Hb (Xst s ∅ []) ltac:(split; [done|apply map_Forall_empty|done])) as Hk.
  unfold wp, ApplyBlock in *. destruct (applyBody b (Xst s ∅ [])) as [x []|x e|x]; [| |done].
  - destruct Hk as [[] _ Hl]. split; simpl; auto. apply Hb.
  - destruct Hk as [Hx Hsv _]. pose proof (ty_validators _ Hs). pose proof (ty_accounts _ Hx) as Ha. destruct Hx. split; auto. simpl.
    intros a c. unfold restore. rewrite lookup_merge. unfold diag_None.
    destruct (Accounts (x_s x) !! a) as [cur|] eqn:Ec, (x_saved x !! a) as [o|] eqn:Eo; simpl; try done.
    1,3: intros ->; by destruct (Hsv _ _ Eo).
    intros [= <-]. by apply Ha.
Qed.

(** A sequence of blocks as a node meets them: a failed one leaves its rollback. *)
Fixpoint tryBlocks (bs : list Block) : Prelude.M State unit :=
  match bs with [] => mret tt | b :: r => try_ (ApplyBlock b) ≫= λ _, tryBlocks r end.

(** [C5] The ledger stays well-typed.  Whatever blocks a node executes, in whatever order,
    whether they succeed or fail half-way and are rolled back, and whatever their
    contracts do to each other: as long as no execution panics, every balance, nonce, bond, score, height
    and claim is a 64-bit word, the storage of every contract is exactly what
    [storageEncode] writes for some map of words to words, the logs have at most eight
    words each, a validator is active exactly until it is slashed, and a slashed one has
    no bond. *)
Theorem ledger_typed (bs : list Block) (s s' : State)
  (Hs : typed s) (Hb : Forall block_typed bs) (E : tryBlocks bs s = OK s' tt) : typed s'.
Proof.
  assert (keeps typed (tryBlocks bs)) as Hk.
  { clear E. induction Hb as [|b r Hb _ IH]; cbn [tryBlocks]; [apply keeps_ret|].
    apply keeps_bind; [by apply keeps_try, ApplyBlock_keeps_types|done]. }
  specialize (Hk s Hs). unfold wp in Hk. by rewrite E in Hk.
Qed.
End blocks.

Lemma fresh_account_typed bal code : is_u64 bal → account_typed (MkAccount bal 0 code ∅ ∅).
Proof. intros Hb. pose proof emptyAccount_typed as []. by split. Qed.

Lemma set_Accounts_typed l s : Forall (λ p, short_name p.1 ∧ account_typed p.2) l → typed s → typed (set_Accounts (list_to_map l) s).
Proof.
  intros Hl []. split; auto. simpl. induction Hl as [|[a c] r Hc _ IH]; [apply map_Forall_empty|].
  by apply map_Forall_insert_2.
Qed.

Lemma ledger0_typed : typed ledger0.
Proof.
  split; [|apply map_Forall_empty|split; vm_compute; discriminate || reflexivity..|apply map_Forall_empty|constructor|reflexivity].
  apply map_Forall_singleton. split; [vm_compute; reflexivity|]. apply fresh_account_typed. unfold is_u64, Coin, W64. lia.
Qed.

(** Two blocks on a ledger with contracts: one whose contracts call each other, and one
    that fails after a payment. *)
Lemma ledger_typed_witness :
  is_OK (tryBlocks [relay_block; poor_block] ledger_contracts) = true ∧
  typed (out_state (tryBlocks [relay_block; poor_block] ledger_contracts)).
Proof.
  assert (is_OK (tryBlocks [relay_block; poor_block] ledger_contracts) = true) as E by (vm_compute; reflexivity).
  split; [exact E|]. apply (ledger_typed [relay_block; poor_block] ledger_contracts).
  - unfold ledger_contracts. apply set_Accounts_typed; [|exact ledger0_typed].
    repeat (constructor; [split; [vm_compute; reflexivity|apply fresh_account_typed; unfold is_u64, Coin, W64; lia]|]).
    constructor.
  - repeat constructor; vm_compute; discriminate || reflexivity.
  - exact (is_OK_unit _ E).
Defined.
