(* ===== verification/StateAtomic.v ===== *)
(** * The ledger: a failing block is undone

    The invariant behind [rollback]: at every point of a block, restoring the
    snapshot gives back the accounts the block started from. *)

From S2P Require Import Prelude Sha256 Crypto Economy Merkle Netparams Types Pow Vm VmProps State StateInv StateBlock Demo.

(** The account [rollback] would leave at [a]. *)
Definition undone (x : xst) (a : Address) : Account := acct_of (restore (Accounts (x_s x)) (x_saved x)) a.

Lemma undone_eq x a : undone x a = match x_saved x !! a with Some o => default emptyAccount o | None => acc x a end.
Proof.
  unfold undone, acc, acct_of, restore. rewrite lookup_merge.
  by destruct (Accounts (x_s x) !! a), (x_saved x !! a) as [[]|].
Qed.

Lemma undone_put a c x b : is_saved a x → undone (put a c x) b = undone x b.
Proof.
  intros [o Ho]. rewrite !undone_eq. simpl. destruct (decide (a = b)) as [<-|].
  - by rewrite Ho.
  - rewrite acc_put, decide_False by done. done.
Qed.

Lemma undone_touch a x b : undone (touch a x) b = undone x b.
Proof. rewrite !undone_eq, touch_saved, acc_touch. done. Qed.

Lemma undone_snapped a x b : undone (snapped a x) b = undone x b.
Proof.
  rewrite !undone_eq, snapped_acc. unfold snapped. destruct (x_saved x !! a) eqn:E; [done|]. simpl.
  destruct (decide (a = b)) as [<-|].
  - rewrite lookup_insert_eq, E. done.
  - by rewrite lookup_insert_ne.
Qed.

Create HintDb atomic.

Section atomic.
Context `{Platform} (hd : Header) (txs : list Transaction) (s0 : State).

Definition claimed (a : Address) : Prop := ∃ t, t ∈ txs ∧ tx_Kind t = KindFaucet ∧ tx_From t = a.

(** The block so far can be undone: all but the faucet claims. *)
Record undoable (x : xst) : Prop := {
  un_acc : ∀ a, undone x a = Get s0 a;
  un_fixed : fixed s0 x;
  un_claims : ∀ a, FaucetClaims (x_s x) !! a = FaucetClaims s0 !! a ∨
                   (FaucetClaims (x_s x) !! a = Some (hd_Height hd) ∧ claimed a);
}.

(** ... and the accounts of [l] are in the snapshot, so they may be written. *)
Definition js (l : list Address) (x : xst) : Prop := undoable x ∧ ∀ a, a ∈ l → is_saved a x.

Lemma js_undoable l x : js l x → undoable x.
Proof. by intros []. Qed.

Lemma undoable_touch a x : undoable x → undoable (touch a x).
Proof.
  intros [Ha Hf Hc]. destruct (fixed_closed s0) as [Hcl _]. split.
  - intros b. by rewrite undone_touch.
  - by apply Hcl.
  - intros b. unfold touch. destruct (Accounts (x_s x) !! a); apply Hc.
Qed.

Lemma undoable_snapped a x : undoable x → undoable (snapped a x).
Proof.
  intros [Ha Hf Hc]. destruct (fixed_closed s0) as [Hcl _]. split.
  - intros b. by rewrite undone_snapped.
  - by apply Hcl.
  - intros b. rewrite snapped_state. apply Hc.
Qed.

Lemma undoable_put a c x : is_saved a x → undoable x → undoable (put a c x).
Proof. intros Hs [Ha Hf Hc]. split; [|done..]. intros b. by rewrite undone_put. Qed.

Lemma js_exec_closed l : exec_closed (js l).
Proof.
  split.
  - intros a x [Hu Hs]. split; [by apply undoable_touch|]. intros b Hb. unfold is_saved. rewrite touch_saved. by apply Hs.
  - intros a x [Hu Hs]. split; [by apply undoable_snapped|]. intros b Hb. by apply is_saved_mono, Hs.
  - intros a c st bst x [Hu Hs] Ha _. split; [by apply undoable_put|done].
  - intros lg x [[] Hs]. by split; [split|].
Qed.

(** ** Triples: success keeps writing rights, failure stays undoable *)

Local Notation "l ⊢ m ⊣ k" := (triple (js l) m (λ _, js k) undoable) (at level 70, m at next level).

Lemma j_bind {A B} l k r (m : MX A) (f : A → MX B) : (l ⊢ m ⊣ k) → (∀ a, k ⊢ f a ⊣ r) → l ⊢ (m ≫= f) ⊣ r.
Proof. apply triple_bind. Qed.
Lemma j_ret {A} l (a : A) : l ⊢ mret a ⊣ l.
Proof. by apply triple_ret. Qed.
Lemma j_throw {A} l k e : l ⊢ (throw e : MX A) ⊣ k.
Proof. apply triple_throw. apply js_undoable. Qed.
Lemma j_require l b e : l ⊢ require b e ⊣ l.
Proof. apply triple_require; [done|apply js_undoable]. Qed.
Lemma j_lift {A} l (r : res A) : l ⊢ lift r ⊣ l.
Proof. apply triple_lift; [done|apply js_undoable]. Qed.
Lemma j_state {B} l k (f : State → MX B) : (∀ s, l ⊢ f s ⊣ k) → l ⊢ (state_of ≫= f) ⊣ k.
Proof. intros Hf. apply t_state. intros x0 Hx. eapply triple_pre; [|apply Hf]. by intros x ->. Qed.
Lemma j_acct l a : l ⊢ acct a ⊣ l.
Proof. apply t_acct. intros x. apply (ec_touch _ (js_exec_closed l)). Qed.
Lemma j_snap l a : l ⊢ snap a ⊣ (a :: l).
Proof.
  apply t_snap. intros x [Hu Hs]. split; [by apply undoable_snapped|].
  intros b [->|Hb]%elem_of_cons; [apply is_saved_snapped|by apply is_saved_mono, Hs].
Qed.
Lemma j_write l a f : a ∈ l → l ⊢ write a f ⊣ l.
Proof.
  intros Ha x [Hu Hs]. unfold wp. destruct (Accounts (x_s x) !! a) as [c|] eqn:E.
  - rewrite (write_present _ _ c) by done. split; [apply undoable_put; auto|done].
  - rewrite write_absent by done. done.
Qed.
Lemma j_credit l a v : a ∈ l → l ⊢ credit a v ⊣ l.
Proof. intros Ha. eapply j_bind; [apply j_acct|intros _; by apply j_write]. Qed.
Lemma j_validators l f : l ⊢ modify (on_state (λ s, set_Validators (f (Validators s)) s)) ⊣ l.
Proof. apply triple_modify. intros x [[] Hs]. by split; [split|]. Qed.
Lemma j_set_validator l a v : l ⊢ set_validator a v ⊣ l.
Proof. apply (j_validators l (λ m, <[a:=v]> m)). Qed.
Lemma j_exec l fuel a c ca i v g d k : l ⊢ execContract fuel a c ca i v g d k ⊣ l.
Proof.
  pose proof (execContract_closed fuel (js l) a c ca i v g d k (js_exec_closed l)) as Hp.
  apply preserves_triple in Hp. intros x Hx. specialize (Hp x Hx). revert Hp.
  apply wp_mono; auto; intros; by eapply js_undoable.
Qed.
Lemma j_claim l a : claimed a →
  l ⊢ modify (on_state (λ s, set_FaucetClaims (<[a:=hd_Height hd]> (FaucetClaims s)) s)) ⊣ l.
Proof.
  intros Ha. apply triple_modify. intros x [[Hu Hf Hc] Hs]. split; [split|done]; [done..|].
  intros b. simpl. destruct (decide (a = b)) as [<-|].
  - right. by rewrite lookup_insert_eq.
  - rewrite lookup_insert_ne by done. apply Hc.
Qed.

Lemma j_post {A} l k (m : MX A) : (l ⊢ m ⊣ k) → triple (js l) m (λ _, undoable) undoable.
Proof. apply triple_post. intros _. apply js_undoable. Qed.

Hint Resolve j_ret j_require j_lift j_acct j_snap j_set_validator j_exec j_claim : atomic.
Hint Extern 1 (triple _ (write _ _) _ _) => (apply j_write; solve [repeat constructor]) : atomic.
Hint Extern 1 (triple _ (credit _ _) _ _) => (apply j_credit; solve [repeat constructor]) : atomic.

Lemma t_state_js {B} l (f : State → MX B) :
  (∀ s, triple (js l) (f s) (λ _, undoable) undoable) → triple (js l) (state_of ≫= f) (λ _, undoable) undoable.
Proof. intros Hf. apply t_state. intros x0 Hx. eapply triple_pre; [|apply Hf]. by intros x ->. Qed.

(** Walk through a handler; the list of writable accounts grows at each [snap]. *)
Ltac j_step :=
  match goal with
  | |- triple _ (state_of ≫= _) _ _ => apply t_state_js; intros ?
  | |- triple _ (_ ≫= _) _ _ => eapply triple_bind; [solve [eauto with atomic]|intros ?]
  | |- triple _ (match ?x with _ => _ end) _ _ => destruct x
  | |- triple _ (throw _) _ _ => apply triple_throw, js_undoable
  | |- triple _ _ _ _ => eapply j_post; solve [eauto with atomic]
  end.

(** Every transaction kind, from a snapshotted sender. *)
Lemma undoable_kind i t : t ∈ txs →
  triple (js [tx_From t]) (applyKind hd i t) (λ _, undoable) undoable.
Proof.
  intros Hin. unfold applyKind. cbv zeta.
  destruct (_ =? _); [unfold applyDeploy; cbv zeta; repeat j_step|].
  destruct (_ =? _); [unfold applyCall; repeat j_step|].
  destruct (_ =? _); [unfold applyRegister; cbv zeta; repeat j_step|].
  destruct (_ =? _); [unfold applySlash; repeat j_step|].
  destruct (_ =? _).
  { unfold applyUnregister. repeat j_step. eapply j_post, (j_validators _ (delete (tx_From t))). }
  destruct (Z.eqb_spec (tx_Kind t) KindFaucet).
  { assert (claimed (tx_From t)) by (by exists t). unfold applyFaucet; cbv zeta; repeat j_step. }
  destruct (_ =? _); [unfold applyStorageProof; cbv zeta; repeat j_step|].
  unfold applyTransfer. repeat j_step.
Qed.

Lemma undoable_debit t :
  triple undoable (debit t) (λ _, js [tx_From t]) undoable.
Proof.
  intros x Hx. unfold wp.
  assert (undoable (snapped (tx_From t) (touch (tx_From t) x))) as H1 by by apply undoable_snapped, undoable_touch.
  destruct (debit_run t x) as [[_ ->]|[e [-> | ->]]]; [|done..].
  split; [apply undoable_put; [apply is_saved_snapped|done]|].
  intros a ->%list_elem_of_singleton. apply is_saved_snapped.
Qed.

Lemma undoable_txs r : ∀ i fees, r ⊆ txs → triple undoable (applyTxs hd i fees r) (λ _, undoable) undoable.
Proof.
  induction r as [|t r IH]; intros i fees Hr; cbn [applyTxs]; [by apply triple_ret|].
  eapply triple_bind; [|intros ?; apply IH; set_solver].
  eapply triple_bind; [apply undoable_debit|intros ?]. apply undoable_kind. set_solver.
Qed.

Lemma undoable_coinbase cb fees : triple undoable (applyCoinbase hd cb fees) (λ _ _, True) undoable.
Proof.
  unfold applyCoinbase. apply t_state. intros x0 Hx0. cbv zeta.
  apply (triple_pre _ undoable); [by intros x ->|].
  assert (∀ a v, triple undoable (snap a ≫= λ _, credit a v) (λ _, undoable) undoable) as Hpay.
  { intros a v. apply (triple_pre _ (js [])); [intros x Hx; split; [done|set_solver]|]. repeat j_step. }
  destruct cb as [t|].
  - do 2 (eapply triple_bind; [apply (triple_require _ _ _ (λ _, undoable)); auto|intros ?]).
    apply (triple_post _ _ (λ _ _, True)); [done|]. intros x Hx. specialize (Hpay (tx_To t) (tx_Amount t) x Hx).
    revert Hpay. unfold wp, mbind, M_bind.
    destruct (snap (tx_To t) x) as [x1 []| |]; [|done..]. by destruct (credit _ _ x1) as [x2 []| |].
  - destruct (_ && _); [|by apply triple_ret]. eapply triple_post; [|apply Hpay]. done.
Qed.
End atomic.

Section property.
Context `{Platform}.

Lemma undoable_start hd txs s : undoable hd txs s (xst0 s).
Proof. split; [|done|by left]. intros a. by rewrite undone_eq. Qed.

(** What a failed block leaves. *)
Lemma ApplyBlock_undone b s s' e : ApplyBlock b s = ERR s' e →
  (∀ a, Get s' a = Get s a) ∧ Validators s' = Validators s ∧ Height s' = Height s ∧
  Minted s' = Minted s ∧ lastLogs s' = lastLogs s ∧ cfg s' = cfg s ∧
  (∀ a, FaucetClaims s' !! a = FaucetClaims s !! a ∨
     (FaucetClaims s' !! a = Some (hd_Height (b_Header b)) ∧
      ∃ t, t ∈ payload b ∧ tx_Kind t = KindFaucet ∧ tx_From t = a)).
Proof.
  intros E. unfold ApplyBlock in E. fold (xst0 s) in E.
  assert (triple (undoable (b_Header b) (payload b) s) (applyBody b) (λ _ _, True)
    (undoable (b_Header b) (payload b) s)) as Ht.
  { unfold applyBody, payload. destruct (coinbase_of (b_Txs b)) as [cb txs].
    eapply triple_bind; [by apply undoable_txs|intros fees; apply undoable_coinbase]. }
  specialize (Ht _ (undoable_start _ _ _)). unfold wp in Ht.
  destruct (applyBody b (xst0 s)) as [| x e'|]; [done| |done].
  injection E as <- <-. destruct Ht as [Ha (? & ? & ? & ?) Hc]. by split_and!.
Qed.

(** [C3] Atomicity. When [ApplyBlock] returns an error, every account (balance,
    nonce, code, storage), the validator registry, the height, the minted total, the
    logs and the configuration are what they were. The one exception is the
    rate-limit table of the faucet: a claim of the failed block may stay recorded. *)
Theorem ApplyBlock_atomic (b : Block) (s s' : State) (e : error)
  (E : ApplyBlock b s = ERR s' e) :
  (∀ a, Get s' a = Get s a) ∧ Validators s' = Validators s ∧ Height s' = Height s ∧
  Minted s' = Minted s ∧ lastLogs s' = lastLogs s ∧ cfg s' = cfg s ∧
  (∀ a, FaucetClaims s' !! a = FaucetClaims s !! a ∨
     (FaucetClaims s' !! a = Some (hd_Height (b_Header b)) ∧
      ∃ t, t ∈ payload b ∧ tx_Kind t = KindFaucet ∧ tx_From t = a)).
Proof. by apply ApplyBlock_undone in E. Qed.
End property.

Lemma ApplyBlock_atomic_witness :
  Get (out_state (ApplyBlock poor_block ledger0)) alice = account (5000 * Coin).
Proof.
  destruct (ApplyBlock_atomic poor_block ledger0 (out_state (ApplyBlock poor_block ledger0)) ErrInsufficient)
    as [HA _].
  - vm_compute. reflexivity.
  - rewrite HA. reflexivity.
Defined.
