(* ===== verification/StateValidators.v ===== *)
(** * The ledger: the validator registry as a state machine

    Registration, exit and slashing as transitions; slashing is final. *)

From S2P Require Import Prelude Sha256 Crypto Economy Merkle Netparams Types Pow Vm VmProps State StateInv StateBlock StateAtomic Demo.

(** One block offered to the ledger: accepted, or refused and rolled back. *)
Inductive ledger_step `{Platform} : State → State → Prop :=
  | step_accept b s s' : ApplyBlock b s = OK s' tt → ledger_step s s'
  | step_reject b s s' e : ApplyBlock b s = ERR s' e → ledger_step s s'.

Definition barred (a : Address) (s : State) : Prop :=
  ∃ v, Validators s !! a = Some v ∧ v_Slashed v = true ∧ v_Active v = false.

(** ** Queries on the registry *)

Lemma active_in s a v : Validators s !! a = Some v → v_Active v = true → a ∈ ActiveValidators s.
Proof.
  intros Hv Ha. unfold ActiveValidators. rewrite merge_sort_Permutation. apply list_elem_of_fmap.
  exists (a, v). split; [done|]. apply list_elem_of_filter. split; [done|]. by apply elem_of_map_to_list.
Qed.

Lemma active_inv s a : a ∈ ActiveValidators s → ∃ v, Validators s !! a = Some v ∧ v_Active v = true.
Proof.
  unfold ActiveValidators. rewrite merge_sort_Permutation. intros ([b v] & -> & Hf)%list_elem_of_fmap.
  apply list_elem_of_filter in Hf as [Ha Hm]. apply elem_of_map_to_list in Hm. eauto.
Qed.

(** The leader set: [ActiveValidators] lists exactly the registered active
    validators, each once, in lexicographic order; so it depends only on the
    registry, and every node with the same registry computes the same list. *)
Theorem ActiveValidators_spec (s : State) :
  (∀ a, a ∈ ActiveValidators s ↔ ∃ v, Validators s !! a = Some v ∧ v_Active v = true) ∧
  NoDup (ActiveValidators s) ∧ StronglySorted str_le (ActiveValidators s) ∧
  (∀ l, (∀ a, a ∈ l ↔ ∃ v, Validators s !! a = Some v ∧ v_Active v = true) → NoDup l →
        StronglySorted str_le l → l = ActiveValidators s).
Proof.
  assert (∀ a, a ∈ ActiveValidators s ↔ ∃ v, Validators s !! a = Some v ∧ v_Active v = true) as Hel.
  { intros a. split; [apply active_inv|intros (v & ? & ?); by eapply active_in]. }
  assert (NoDup (ActiveValidators s)) as Hnd.
  { unfold ActiveValidators. rewrite merge_sort_Permutation.
    apply NoDup_fmap_fst; [|apply NoDup_filter, NoDup_map_to_list].
    intros a v v' [_ H1%elem_of_map_to_list]%list_elem_of_filter [_ H2%elem_of_map_to_list]%list_elem_of_filter.
    congruence. }
  assert (StronglySorted str_le (ActiveValidators s)) as Hso.
  { unfold ActiveValidators. apply (StronglySorted_merge_sort str_le); apply _. }
  split_and!; auto. intros l Hl Hndl Hsl.
  apply (StronglySorted_unique str_le); [done..|].
  apply NoDup_Permutation; [done..|]. intros a. by rewrite Hl, Hel.
Qed.

Section barred.
Context `{Platform} (a : Address) (v : Validator) (Hsl : v_Slashed v = true) (Hin : v_Active v = false).

Abbreviation I := (λ x : xst, Validators (x_s x) !! a = Some v).

Lemma registry_acct_closed : acct_closed I.
Proof.
  split; try (intros; done).
  - intros b x Hx. unfold touch. by destruct (Accounts (x_s x) !! b).
  - intros b x Hx. by rewrite snapped_state.
Qed.

Lemma keep_set_other b w : b ≠ a → preserves I (set_validator b w).
Proof. intros Hb. apply preserves_modify. intros x Hx. simpl. by rewrite lookup_insert_ne. Qed.

Hint Resolve keep_set_other : hoare.

(** A handler that looks the sender's record up first. *)
Lemma keep_lookup {B} b (f : State → MX B) (g : Validator → MX B) (n : MX B) :
  (∀ s, f s = match Validators s !! b with Some w => g w | None => n end) →
  (b = a → preserves I (g v)) → (b ≠ a → ∀ w, preserves I (g w)) → preserves I n →
  preserves I (state_of ≫= f).
Proof.
  intros Hf Ha Hb Hn x Hx. unfold mbind, M_bind. simpl. rewrite Hf.
  destruct (decide (b = a)) as [->|Hne].
  - rewrite Hx. by apply Ha.
  - destruct (Validators (x_s x) !! b); [by apply Hb|by apply Hn].
Qed.

Lemma barred_slash t : preserves I (applySlash t).
Proof.
  pose proof registry_acct_closed as Hc. unfold applySlash.
  destruct (json_evidence _) as [ev|]; [|apply preserves_throw].
  destruct (Header_VerifySig (ev_A ev)) as [[]| |]; [|apply preserves_throw..].
  destruct (Header_VerifySig (ev_B ev)) as [[]| |]; [|apply preserves_throw..].
  destruct (_ || _); [apply preserves_throw|].
  eapply keep_lookup; [reflexivity|..].
  - intros _. cbv beta. rewrite Hin. apply preserves_throw.
  - intros Hne w. pose proof (keep_snap I Hc). pose proof (keep_credit I Hc).
    cbv beta. destruct (negb _); [apply preserves_throw|]. preserves_tac.
  - apply preserves_throw.
Qed.

Lemma barred_register hd t : preserves I (applyRegister hd t).
Proof.
  intros x Hx. unfold applyRegister. cbv zeta.
  change ((state_of ≫= ?f) x) with (f (x_s x) x). cbv beta. rewrite bind_require.
  destruct (Regpow.Verify _ _ _ _); [|done]. destruct (_ <? _); [done|].
  destruct (decide (tx_From t = a)) as [E|Hne].
  - rewrite E, Hx, Hsl, orb_true_r. done.
  - destruct (Validators (x_s x) !! tx_From t) as [w|]; [destruct (_ || _); [done|]|]; by apply keep_set_other.
Qed.

Lemma barred_unregister t : preserves I (applyUnregister t).
Proof.
  pose proof registry_acct_closed as Hc. eapply keep_lookup; [reflexivity|..].
  - intros _. cbv beta. rewrite Hin. apply preserves_throw.
  - intros Hne w. pose proof (keep_credit I Hc). cbv beta. destruct (negb _); [apply preserves_throw|].
    apply preserves_bind; [done|]. intros ?. apply preserves_modify. intros x Hx. simpl. by rewrite lookup_delete_ne.
  - apply preserves_throw.
Qed.

Lemma barred_storage hd t : preserves I (applyStorageProof hd t).
Proof.
  intros x Hx. unfold applyStorageProof. change ((state_of ≫= ?f) x) with (f (x_s x) x). cbv beta zeta.
  destruct (ShardAt _) as [f|]; [|done]. destruct (ShardProofOK _) as [g|]; [|done].
  destruct (decide (tx_From t = a)) as [E|Hne].
  - by rewrite E, Hx, Hin.
  - destruct (Validators (x_s x) !! tx_From t) as [w|]; [|done].
    enough (∀ m : MX unit, preserves I m → I (out_state (m x))) as Hm by (apply Hm; preserves_tac).
    intros m Hm. by apply Hm.
Qed.

Lemma barred_kind hd i t : preserves I (applyKind hd i t).
Proof.
  pose proof registry_acct_closed as Hc.
  pose proof (keep_deploy I Hc). pose proof (keep_call I Hc). pose proof (keep_faucet I Hc).
  pose proof (keep_transfer I Hc). pose proof barred_slash. pose proof barred_register.
  pose proof barred_unregister. pose proof barred_storage.
  unfold applyKind. cbv zeta. preserves_tac.
Qed.

Lemma barred_txs hd txs : ∀ i fees x x' f, I x → applyTxs hd i fees txs x = OK x' f → I x'.
Proof.
  induction txs as [|t r IH]; intros i fees x x' f Hx E; [by apply applyTxs_nil in E as [-> _]|].
  apply applyTxs_cons in E as (x1 & _ & Ek & Er). eapply IH; [|exact Er].
  assert (I (debited t x)) as Hd.
  { unfold debited. simpl. rewrite snapped_state. unfold touch. by destruct (Accounts (x_s x) !! tx_From t). }
  pose proof (barred_kind hd i t _ Hd) as Hk. by rewrite Ek in Hk.
Qed.

Lemma barred_block b s s' : Validators s !! a = Some v → ApplyBlock b s = OK s' tt → Validators s' !! a = Some v.
Proof.
  intros Hs E. apply ApplyBlock_inv in E as (cb & txs & x & fees & x' & _ & Et & Hcb & ->).
  pose proof (barred_txs _ _ _ _ (xst0 s) _ _ Hs Et) as Hx. simpl.
  destruct cb as [t|]; unfold coinbase_result in Hcb.
  - destruct Hcb as (_ & _ & ->). simpl. by rewrite snapped_state.
  - destruct Hcb as [->|[_ ->]]; [done|]. simpl. by rewrite snapped_state.
Qed.
End barred.

Section property.
Context `{Platform}.

(** Without rollback's help: an error leaves the registry of before. *)
Lemma reject_registry b s s' e : ApplyBlock b s = ERR s' e → Validators s' = Validators s.
Proof.
  unfold ApplyBlock. destruct (applyBody b (Xst s ∅ [])); [done| |done]. by intros [= <- _].
Qed.


Definition new_validator (bond height : Z) : Validator := MkValidator bond true height false 0 0.
Definition slashed_validator (v : Validator) : Validator := MkValidator 0 false (v_Since v) true 0 0.
Definition registry (f : gmap Address Validator → gmap Address Validator) : xst → xst :=
  on_state (λ s, set_Validators (f (Validators s)) s).

(** Evidence of double signing, as [applySlash] checks it. *)
Definition convicts (ev : EquivocationEvidence) (a : Address) : Prop :=
  Header_VerifySig (ev_A ev) = Ok tt ∧ Header_VerifySig (ev_B ev) = Ok tt ∧
  hd_Validator (ev_A ev) = a ∧ hd_Validator (ev_B ev) = a ∧
  hd_Height (ev_A ev) = hd_Height (ev_B ev) ∧ ID (ev_A ev) ≠ ID (ev_B ev).

Lemma register_iff hd t x x' :
  let nonce := if 8 <=? zlen (tx_Data t) then uint64_at (tx_Data t) else 0 in
  applyRegister hd t x = OK x' tt ↔
    Regpow.Verify (ChainID (cfg (x_s x))) (tx_From t) nonce (RegPoWBits (cfg (x_s x))) = true ∧
    MinBond <= tx_Amount t ∧
    (∀ v, Validators (x_s x) !! tx_From t = Some v → v_Active v = false ∧ v_Slashed v = false) ∧
    x' = registry (<[tx_From t := new_validator (tx_Amount t) (hd_Height hd)]>) x.
Proof.
  intros nonce. unfold applyRegister. fold nonce. change ((state_of ≫= ?f) x) with (f (x_s x) x). cbv beta zeta.
  rewrite bind_require. destruct (Regpow.Verify _ _ _ _); [|split; [done|by intros [? _]]].
  destruct (Z.ltb_spec (tx_Amount t) MinBond); [split; [done|intros (_ & ? & _); lia]|].
  assert (set_validator (tx_From t) (MkValidator (tx_Amount t) true (hd_Height hd) false 0 0) x =
    OK (registry (<[tx_From t := new_validator (tx_Amount t) (hd_Height hd)]>) x) tt) as Eset by done.
  destruct (Validators (x_s x) !! tx_From t) as [v|] eqn:E.
  - destruct (v_Active v || v_Slashed v) eqn:Eas.
    + split; [done|]. intros (_ & _ & Hv & _). destruct (Hv v eq_refl) as [E1 E2]. by rewrite E1, E2 in Eas.
    + apply orb_false_iff in Eas as [? ?]. rewrite Eset. split.
      * intros [Hx _]%OK_inj. split_and!; auto. intros w [= <-]. done.
      * intros (_ & _ & _ & ->). done.
  - rewrite Eset. split.
    + intros [Hx _]%OK_inj. split_and!; auto. done.
    + intros (_ & _ & _ & ->). done.
Qed.

Lemma unregister_inv t x x' :
  applyUnregister t x = OK x' tt →
  ∃ v, Validators (x_s x) !! tx_From t = Some v ∧ v_Active v = true ∧
    x' = registry (delete (tx_From t))
           (put (tx_From t) (add_balance (u64 (v_Bond v + tx_Amount t)) (acc x (tx_From t))) x).
Proof.
  unfold applyUnregister. change ((state_of ≫= ?f) x) with (f (x_s x) x). cbv beta zeta.
  destruct (Validators (x_s x) !! tx_From t) as [v|]; [|done].
  destruct (v_Active v) eqn:Ea; cbn [negb]; [|done].
  rewrite (bind_ok _ _ _ _ _ (credit_run _ _ _)). intros [<- _]%OK_inj. by exists v.
Qed.

Lemma slash_inv t x x' :
  applySlash t x = OK x' tt →
  ∃ ev a v, json_evidence (tx_Data t) = Some ev ∧ convicts ev a ∧
    Validators (x_s x) !! a = Some v ∧ v_Active v = true ∧
    x' = registry (<[a := slashed_validator v]>)
           (put (tx_From t) (add_balance (v_Bond v / 10) (acc x (tx_From t))) (snapped (tx_From t) x)).
Proof.
  unfold applySlash. destruct (json_evidence _) as [ev|]; [|done].
  destruct (Header_VerifySig (ev_A ev)) as [[]| |] eqn:EA; [|done..].
  destruct (Header_VerifySig (ev_B ev)) as [[]| |] eqn:EB; [|done..].
  case_bool_decide as Ev; [|done]. destruct (Z.eqb_spec (hd_Height (ev_A ev)) (hd_Height (ev_B ev))) as [Eh|]; [|done].
  case_bool_decide as Ei; [done|]. cbn [negb orb].
  change ((state_of ≫= ?f) x) with (f (x_s x) x). cbv beta zeta.
  destruct (Validators (x_s x) !! hd_Validator (ev_A ev)) as [v|] eqn:E; [|done].
  destruct (v_Active v) eqn:Ea; cbn [negb]; [|done].
  rewrite (bind_ok _ _ _ (snapped (tx_From t) x) tt) by done.
  rewrite (bind_ok _ _ _ _ _ (credit_run _ _ _)), snapped_acc. intros [<- _]%OK_inj.
  exists ev, (hd_Validator (ev_A ev)), v. split; [reflexivity|]. split; [|split; [exact E|split; [exact Ea|reflexivity]]].
  split; [exact EA|]. split; [exact EB|]. split; [reflexivity|]. split; [congruence|]. split; [exact Eh|exact Ei].
Qed.

(** The validator life cycle, transition by transition. Registration
    succeeds exactly when the proof-of-work is solved, the bond reaches [MinBond] and
    the sender has no active or slashed record, and then seats it with that bond.
    Unregistering takes an active record away and pays the bond back. Slashing takes
    two validly signed, different headers of one height by the accused, who must be
    active; it pays a tenth of the bond to the reporter and leaves a record with no
    bond, inactive and slashed. *)
Theorem validator_lifecycle hd t x x' :
  (applyRegister hd t x = OK x' tt ↔
     Regpow.Verify (ChainID (cfg (x_s x))) (tx_From t)
       (if 8 <=? zlen (tx_Data t) then uint64_at (tx_Data t) else 0) (RegPoWBits (cfg (x_s x))) = true ∧
     MinBond <= tx_Amount t ∧
     (∀ v, Validators (x_s x) !! tx_From t = Some v → v_Active v = false ∧ v_Slashed v = false) ∧
     x' = registry (<[tx_From t := new_validator (tx_Amount t) (hd_Height hd)]>) x) ∧
  (applyUnregister t x = OK x' tt → ∃ v,
     Validators (x_s x) !! tx_From t = Some v ∧ v_Active v = true ∧
     x' = registry (delete (tx_From t))
            (put (tx_From t) (add_balance (u64 (v_Bond v + tx_Amount t)) (acc x (tx_From t))) x)) ∧
  (applySlash t x = OK x' tt → ∃ ev a v,
     json_evidence (tx_Data t) = Some ev ∧ convicts ev a ∧
     Validators (x_s x) !! a = Some v ∧ v_Active v = true ∧
     x' = registry (<[a := slashed_validator v]>)
            (put (tx_From t) (add_balance (v_Bond v / 10) (acc x (tx_From t))) (snapped (tx_From t) x))).
Proof. split_and!; [apply register_iff|apply unregister_inv|apply slash_inv]. Qed.
End property.

(** Bob was slashed at some point; the ledger moves on. *)
Definition barred_ledger : State := set_Validators {[ bob := MkValidator 0 false 1 true 0 0 ]} ledger0.

Lemma barred_ledger_run :
  ApplyBlock pay_block barred_ledger = OK (out_state (ApplyBlock pay_block barred_ledger)) tt.
Proof. refine (is_OK_unit (ApplyBlock pay_block barred_ledger) _). vm_compute. reflexivity. Qed.

