(* ===== verification/StateRules.v ===== *)
(** * The ledger: transaction rules

    The exact effect of transfers and contract calls, the validator life cycle
    (registration, exit, slashing) as a state machine, the faucet and storage-proof
    rules, and inputs on which the admission check and the block rules part. *)

From S2P Require Import Prelude Sha256 Crypto Economy Merkle Netparams Types Pow Vm VmProps State StateInv StateBlock StateAtomic Demo.

Lemma state_bind {B} (f : State → MX B) x : (state_of ≫= f) x = f (x_s x) x.
Proof. done. Qed.

Section rules.
Context `{Platform}.

(** ** Transfers *)

Lemma pay_run a v x :
  (snap a ≫= λ _, credit a v) x = OK (put a (add_balance v (acc x a)) (snapped a x)) tt.
Proof. rewrite (bind_ok _ _ _ (snapped a x) tt) by done. by rewrite credit_run, snapped_acc. Qed.

(** Kinds that are not one of the seven special ones are transfers. *)
Definition is_transfer (k : Z) : Prop := k ≤ 0 ∨ 8 ≤ k.

Lemma applyKind_transfer hd i t : is_transfer (tx_Kind t) → applyKind hd i t = applyTransfer t.
Proof.
  unfold is_transfer, applyKind, KindDeploy, KindCall, KindRegister, KindSlash, KindUnregister, KindFaucet, KindStorageProof.
  intros Hk. cbv zeta. by repeat (rewrite (proj2 (Z.eqb_neq _ _)) by lia).
Qed.

(** The accounts after a transfer. *)
Definition transferred (t : Transaction) (get : Address → Account) (a : Address) : Account :=
  let c := if decide (a = tx_From t)
           then set_Nonce (u64 (ac_Nonce (get a) + 1)) (sub_balance (tx_total t) (get a))
           else get a in
  if decide (a = tx_To t) then add_balance (tx_Amount t) c else c.

Lemma transfer_acc hd i t x x' u : is_transfer (tx_Kind t) → applyKind hd i t (debited t x) = OK x' u → ∀ a, acc x' a = transferred t (acc x) a.
Proof.
  intros Hk E a. rewrite applyKind_transfer in E by done. unfold applyTransfer in E.
  rewrite pay_run in E. apply OK_inj in E as [<- _]. unfold transferred. rewrite acc_put. case_decide as Ea.
  - subst. rewrite decide_True by done. rewrite acc_debited. f_equal. do 2 case_decide; congruence.
  - rewrite snapped_acc, acc_debited, (decide_False (P:=a = tx_To t)) by done. do 2 case_decide; congruence.
Qed.

(** A transfer succeeds exactly when it is signed, addressed to this
    network, carries the sender's nonce and is covered with its fee; and then it
    debits the sender by amount plus fee, bumps its nonce, credits the receiver
    (also when that is the sender), and leaves every other account alone. *)
Theorem transfer_effect hd i t x (Hk : is_transfer (tx_Kind t)) :
  let x' := out_state (applyTx hd i t x) in
  if is_OK (applyTx hd i t x) then
    debit_ok (cfg (x_s x)) (acc x (tx_From t)) t ∧
    ∀ a, acc x' a =
      let c := if decide (a = tx_From t)
               then set_Nonce (u64 (ac_Nonce (acc x a) + 1)) (sub_balance (tx_total t) (acc x a))
               else acc x a in
      if decide (a = tx_To t) then add_balance (tx_Amount t) c else c
  else ¬ debit_ok (cfg (x_s x)) (acc x (tx_From t)) t.
Proof.
  cbv zeta. destruct (debit_run t x) as [[Hok Er]|Herr].
  - assert (∃ x', applyKind hd i t (debited t x) = OK x' tt) as [x' E].
    { rewrite applyKind_transfer by done. unfold applyTransfer. rewrite pay_run. by eexists. }
    unfold applyTx. rewrite (bind_ok _ _ _ _ _ Er), E. split; [done|]. exact (transfer_acc _ _ _ _ _ _ Hk E).
  - assert (is_OK (debit t x) = false ∧ debit t x ≠ OK (debited t x) tt) as [Hf Hne].
    { destruct Herr as [e [-> | ->]]; done. }
    unfold applyTx, mbind, M_bind. destruct (debit t x) as [? []|? e|] eqn:E; [done| |]; simpl; intros Hok; apply Hne.
    all: by rewrite <- (debit_complete t x Hok).
Qed.

(** ** Contract calls *)

Lemma framed_exec fuel a c ca inp v g d k x :
  framed x (out_state (execContract fuel a c ca inp v g d k x)).
Proof. by apply (execContract_closed fuel (framed x)); [apply framed_closed|split]. Qed.

(** The part of an account a call cannot change, with its balance [b]. *)
Definition core_with (b : Z) (c : Account) : Z * Z * bytes := (b, ac_Nonce c, ac_Code c).

(** The state the callee starts from, and whether it runs through. *)
Definition call_entered (t : Transaction) (x : xst) : xst :=
  put (tx_To t) (add_balance (tx_Amount t) (acc x (tx_To t))) (touch (tx_To t) (snapped (tx_To t) x)).

Definition call_ok (i : Z) (t : Transaction) (x : xst) : bool :=
  if zlen (ac_Code (acc x (tx_To t))) =? 0 then true else
  match execContract (Z.to_nat maxDepth) (tx_To t) (AddrDigest (tx_From t)) (tx_From t) (tx_Data t)
          (tx_Amount t) (tx_Gas t) 0 i (call_entered t x) with
  | OK _ r => r.2
  | _ => false
  end.

Lemma call_entered_acc t x a :
  acc (call_entered t x) a = if decide (a = tx_To t) then add_balance (tx_Amount t) (acc x a) else acc x a.
Proof.
  unfold call_entered. rewrite acc_put. do 2 case_decide; subst; try done. by rewrite acc_touch, snapped_acc.
Qed.

Lemma call_entered_rest t x : set_Accounts ∅ (x_s (call_entered t x)) = set_Accounts ∅ (x_s x).
Proof.
  unfold call_entered, touch. destruct (Accounts (x_s (snapped (tx_To t) x)) !! tx_To t); simpl; by rewrite ?snapped_state.
Qed.

Lemma call_run i t x :
  applyCall i t x =
    if zlen (ac_Code (acc x (tx_To t))) =? 0 then OK (call_entered t x) tt else
    (r ← execContract (Z.to_nat maxDepth) (tx_To t) (AddrDigest (tx_From t)) (tx_From t) (tx_Data t)
          (tx_Amount t) (tx_Gas t) 0 i;
     if r.2 : bool then mret tt else
     write (tx_To t) (sub_balance (tx_Amount t)) ≫= λ _, credit (tx_From t) (tx_Amount t)) (call_entered t x).
Proof.
  unfold applyCall. rewrite (bind_ok _ _ _ (snapped (tx_To t) x) tt) by done.
  rewrite (bind_ok _ _ _ _ _ (acct_run _ _)), snapped_acc.
  pose proof (has_touch (tx_To t) (snapped (tx_To t) x)) as Hh. rewrite snapped_acc in Hh.
  rewrite (bind_ok _ _ _ _ _ (write_present _ _ _ _ Hh)). by destruct (_ =? 0).
Qed.

(** Taking the value back from the callee and returning it to the sender. *)
Lemma refund_core t x x2 :
  is_u64 (ac_Balance (acc x (tx_To t))) → framed (call_entered t x) x2 →
  let y := put (tx_To t) (sub_balance (tx_Amount t) (acc x2 (tx_To t))) x2 in
  ∀ a, core (acc y a) = core (acc x a).
Proof.
  intros Hb [Hc _] y a. unfold y. rewrite acc_put. case_decide as Ea.
  - subst a. specialize (Hc (tx_To t)). rewrite call_entered_acc, decide_True in Hc by done.
    unfold core in *. simpl in Hc. injection Hc as H1 H2 H3. simpl. rewrite H1, H2, H3.
    do 2 f_equal. unfold u64. rewrite Zminus_mod_idemp_l.
    replace (ac_Balance (acc x (tx_To t)) + tx_Amount t - tx_Amount t) with (ac_Balance (acc x (tx_To t))) by lia.
    by apply u64_small.
  - by rewrite Hc, call_entered_acc, decide_False by done.
Qed.


(** ** The faucet *)

(** A faucet claim that is paid out met every condition: the faucet is
    configured, the anchor block is known, at least [FaucetDepth] and at most 256
    blocks old (in [uint64] arithmetic), the proof-of-work solves the puzzle bound to
    that anchor, the sender's cooldown is over and the treasury can pay; and then the
    payout moves from the treasury to the sender and the claim is recorded at this
    height. *)
Theorem faucet_claim_rules hd t x x' (E : applyFaucet hd t x = OK x' tt) :
  let c := cfg (x_s x) in
  let aH := uint64_at (tx_Data t) in
  let nonce := uint64_at (drop 8 (tx_Data t)) in
  FaucetAmount c ≠ 0 ∧ 16 <= zlen (tx_Data t) ∧
  u64 (aH + FaucetDepth c) <= hd_Height hd <= u64 (aH + 256) ∧
  (∃ anchor_of anchor, AnchorBodyHash c = Some anchor_of ∧ anchor_of aH = Some anchor ∧
     Faucet.Verify (ChainID c) (tx_From t) anchor nonce (FaucetBits c) = true) ∧
  (∀ last, FaucetClaims (x_s x) !! tx_From t = Some last → u64 (last + FaucetCooldown c) <= hd_Height hd) ∧
  FaucetAmount c <= ac_Balance (acc x (FaucetSource c)) ∧
  FaucetClaims (x_s x') = <[tx_From t := hd_Height hd]> (FaucetClaims (x_s x)) ∧
  (∀ a, acc x' a =
     let b := if decide (a = FaucetSource c) then sub_balance (FaucetAmount c) (acc x a) else acc x a in
     if decide (a = tx_From t) then add_balance (FaucetAmount c) b else b).
Proof.
  cbv zeta. unfold applyFaucet in E. rewrite state_bind in E. cbv beta zeta in E.
  set (c := cfg (x_s x)) in *.
  destruct (AnchorBodyHash c) as [anchor_of|] eqn:Ea; [|done].
  destruct (Z.eqb_spec (FaucetAmount c) 0) as [|Hamt]; [done|].
  destruct (Z.ltb_spec (zlen (tx_Data t)) 16) as [|Hlen]; [done|].
  set (aH := uint64_at (tx_Data t)) in *.
  destruct (Z.ltb_spec (hd_Height hd) (u64 (aH + FaucetDepth c))) as [|Hlo]; [done|].
  destruct (Z.ltb_spec (u64 (aH + 256)) (hd_Height hd)) as [|Hhi]; [done|]. cbn [orb] in E.
  destruct (anchor_of aH) as [anchor|] eqn:Eanc; [|done].
  rewrite bind_require in E. destruct (Faucet.Verify _ _ _ _ _) eqn:Epow; [|done].
  rewrite bind_require in E.
  destruct (match FaucetClaims (x_s x) !! tx_From t with Some _ => _ | None => true end) eqn:Ecd; [|done].
  rewrite (bind_ok _ _ _ _ _ (acct_run _ _)) in E. rewrite bind_require in E.
  destruct (Z.ltb_spec (ac_Balance (acc x (FaucetSource c))) (FaucetAmount c)) as [|Hsrc]; [done|].
  cbn [negb] in E. set (x1 := snapped (FaucetSource c) (touch (FaucetSource c) x)) in *.
  rewrite (bind_ok _ _ _ x1 tt) in E by done.
  assert (has (FaucetSource c) (acc x (FaucetSource c)) x1) as Hh.
  { unfold has, x1. rewrite snapped_state. apply has_touch. }
  rewrite (bind_ok _ _ _ _ _ (write_present _ _ _ _ Hh)) in E.
  rewrite (bind_ok _ _ _ _ _ (credit_run _ _ _)) in E. apply OK_inj in E as [<- _].
  split_and!; try done.
  - exists anchor_of, anchor. done.
  - intros last El. rewrite El in Ecd. apply negb_true_iff, Z.ltb_ge in Ecd. done.
  - simpl. unfold x1, touch. rewrite snapped_state. by destruct (Accounts (x_s x) !! FaucetSource c).
  - intros a. set (y := put (FaucetSource c) (sub_balance (FaucetAmount c) (acc x (FaucetSource c))) x1).
    assert (∀ b, acc y b =
      if decide (b = FaucetSource c) then sub_balance (FaucetAmount c) (acc x b) else acc x b) as Hb.
    { intros b. unfold y. rewrite acc_put. do 2 case_decide; subst; try done.
      unfold x1. by rewrite snapped_acc, acc_touch. }
    transitivity (acc (put (tx_From t) (add_balance (FaucetAmount c) (acc y (tx_From t))) y) a); [done|].
    rewrite acc_put, !Hb. destruct (decide (tx_From t = a)) as [<-|Hne].
    + by rewrite (decide_True (P:=tx_From t = tx_From t)) by done.
    + by rewrite (decide_False (P:=a = tx_From t)) by done.
Qed.

(** ** Proofs of storage *)

(** An accepted storage proof was for the shard the protocol assigns: the
    sender is an active validator, the target block lies between [StorageMinDepth]
    and [StorageWindow] below this height, the index is derived from the sender and
    the block and is a valid shard number, and the shard matches the commitment.  It
    raises the score by at most one, never above the cap (or above where it already
    was), and touches nothing else of the ledger. *)
Theorem storage_proof_rules hd t x x' (E : applyStorageProof hd t x = OK x' tt)
  (Hd : is_u64 (hd_Height hd)) :
  let c := cfg (x_s x) in
  let target := uint64_at (tx_Data t) in
  ∃ v shardAt proofOK id total,
    ShardAt c = Some shardAt ∧ ShardProofOK c = Some proofOK ∧
    Validators (x_s x) !! tx_From t = Some v ∧ v_Active v = true ∧
    target < hd_Height hd ∧ StorageMinDepth c <= hd_Height hd - target ∧
    hd_Height hd <= u64 (target + StorageWindow c) ∧
    shardAt target = Some (id, total) ∧
    0 <= assigned_index (tx_From t) id total < total ∧
    proofOK target (assigned_index (tx_From t) id total) (drop 8 (tx_Data t)) = true ∧
    (∃ v', x' = on_state (λ s, set_Validators (<[tx_From t := v']> (Validators s)) s) x ∧
       v_Bond v' = v_Bond v ∧ v_Active v' = true ∧ v_Slashed v' = v_Slashed v ∧
       v_LastProofAt v' = hd_Height hd ∧
       (is_u64 (StorageCap c) → 0 <= v_StorageScore v →
        v_StorageScore v <= v_StorageScore v' <= v_StorageScore v + 1 ∧
        v_StorageScore v' <= Z.max (v_StorageScore v) (StorageCap c))).
Proof.
  cbv zeta. unfold applyStorageProof in E. rewrite state_bind in E. cbv beta zeta in E.
  set (c := cfg (x_s x)) in *.
  destruct (ShardAt c) as [shardAt|]; [|done]. destruct (ShardProofOK c) as [proofOK|]; [|done].
  destruct (Validators (x_s x) !! tx_From t) as [v|] eqn:Ev; [|done].
  destruct (v_Active v) eqn:Eact; cbn [negb] in E; [|done].
  destruct (_ <? 8); [done|]. set (target := uint64_at (tx_Data t)) in *.
  destruct (Z.leb_spec (hd_Height hd) target) as [|H1]; [done|].
  destruct (Z.ltb_spec (u64 (target + StorageWindow c)) (hd_Height hd)) as [|H2]; [done|].
  destruct (Z.ltb_spec (hd_Height hd - target) (StorageMinDepth c)) as [|H3]; [done|]. cbn [orb] in E.
  destruct (shardAt target) as [[id total]|] eqn:Es; [|done].
  destruct (Z.leb_spec total 0) as [|Htot]; [done|]. rewrite bind_require in E.
  destruct (proofOK _ _ _) eqn:Ep; [|done]. apply OK_inj in E as [<- _].
  exists v, shardAt, proofOK, id, total. split_and!; try done.
  - apply Z.mod_pos_bound. lia.
  - apply Z.mod_pos_bound. lia.
  - exists (prove_storage (StorageCap c) (hd_Height hd) v). split_and!; try done.
    intros Hcap Hscore. unfold prove_storage. simpl.
    destruct (Z.ltb_spec (v_StorageScore v) (StorageCap c)); [|lia].
    rewrite u64_small by (unfold is_u64 in *; lia). lia.
Qed.

(** ** Admission and block rules part *)

(** A transaction whose kind handler can only fail. *)
Definition poison (t : Transaction) : Prop := tx_Kind t = KindRegister ∧ tx_Amount t < MinBond.

Lemma poison_fails hd i t x x' : poison t → applyKind hd i t x ≠ OK x' tt.
Proof.
  intros [Hk Ha]. unfold applyKind. rewrite Hk. cbv zeta. simpl (KindRegister =? _). cbv iota.
  unfold applyRegister. rewrite state_bind. cbv zeta. rewrite bind_require.
  destruct (Regpow.Verify _ _ _ _); [|done]. by rewrite (proj2 (Z.ltb_lt _ _) Ha).
Qed.

(** No ledger accepts a block with it, at any position. *)
Lemma poison_refused (t : Transaction) (b : Block) (s s' : State) : poison t → t ∈ payload b → ApplyBlock b s ≠ OK s' tt.
Proof.
  intros Hp Hin E. apply ApplyBlock_inv in E as (cb & txs & x & fees & x' & Ec & Et & _).
  unfold payload in Hin. rewrite Ec in Hin. simpl in Hin. clear Ec. revert Et.
  generalize (xst0 s) as x0. generalize 0 at 1 as i. generalize 0 as f. revert Hin.
  induction txs as [|t' r IH]; intros Hin f i x0 Et; [by apply elem_of_nil in Hin|].
  apply applyTxs_cons in Et as (x1 & _ & Ek & Er).
  apply elem_of_cons in Hin as [->|Hin]; [by apply poison_fails in Ek|].
  by eapply IH.
Qed.

(** A transaction the mempool admits can make every block that contains it
    invalid: a registration with a bond below [MinBond] passes [CheckTx] whenever it
    is signed, funded and in sequence (registration PoW included), yet no ledger
    accepts a block with it, at any position. *)
Theorem poison_transaction (t : Transaction) (b : Block) (s s' : State)
  (Hp : poison t) (Hin : t ∈ payload b) : ApplyBlock b s ≠ OK s' tt.
Proof. by apply (poison_refused t). Qed.
End rules.

(** ** Witnesses *)

Lemma transfer_effect_witness :
  let t := by_alice bob KindTransfer (3 * Coin) Coin 0 0 [] in
  acc (out_state (applyTx (header_at 5 bob) 0 t (xst0 ledger0))) bob = account (3 * Coin).
Proof.
  cbv zeta. pose proof (transfer_effect (header_at 5 bob) 0 (by_alice bob KindTransfer (3 * Coin) Coin 0 0 [])
    (xst0 ledger0) ltac:(left; vm_compute; discriminate)) as Ht. cbv zeta in Ht.
  replace (is_OK _) with true in Ht by (vm_compute; reflexivity).
  rewrite (proj2 Ht bob). vm_compute. reflexivity.
Defined.


Lemma faucet_claim_rules_witness :
  FaucetClaims (x_s (out_state (applyFaucet (header_at 5 bob) claim_by_bob (xst0 ledger_faucet)))) = {[ bob := 5 ]}.
Proof.
  destruct (faucet_claim_rules (header_at 5 bob) claim_by_bob (xst0 ledger_faucet)
    (out_state (applyFaucet (header_at 5 bob) claim_by_bob (xst0 ledger_faucet)))) as (_ & _ & _ & _ & _ & _ & Hc & _).
  - refine (is_OK_unit (applyFaucet (header_at 5 bob) claim_by_bob (xst0 ledger_faucet)) _). vm_compute. reflexivity.
  - exact Hc.
Defined.

Lemma storage_proof_rules_witness :
  ∃ v, Validators (x_s (out_state (applyStorageProof (header_at 5 bob) proof_by_alice (xst0 ledger_storage)))) !! alice
       = Some v ∧ v_LastProofAt v = 5.
Proof.
  destruct (storage_proof_rules (header_at 5 bob) proof_by_alice (xst0 ledger_storage)
    (out_state (applyStorageProof (header_at 5 bob) proof_by_alice (xst0 ledger_storage))))
    as (v & sa & pf & id & n & _ & _ & _ & _ & _ & _ & _ & _ & _ & _ & v' & Ex & _ & _ & _ & Hl & _).
  - refine (is_OK_unit (applyStorageProof (header_at 5 bob) proof_by_alice (xst0 ledger_storage)) _). vm_compute. reflexivity.
  - split; [discriminate|reflexivity].
  - exists v'. rewrite Ex. split; [apply lookup_insert_eq|exact Hl].
Defined.

Lemma poison_transaction_witness :
  CheckTx ledger0 cheap_register = Ok tt ∧
  ApplyBlock cheap_register_block ledger0 ≠ OK (out_state (ApplyBlock cheap_register_block ledger0)) tt.
Proof.
  split; [vm_compute; reflexivity|].
  apply (poison_transaction cheap_register cheap_register_block).
  - split; [reflexivity|]. vm_compute. reflexivity.
  - apply list_elem_of_here.
Defined.

(** ** Behaviours on concrete ledgers *)

(** A faucet claim outlives the block that carried it. Offered a block that
    pays a claim and then fails, the ledger reports the error and restores the
    balances, but keeps the claim: it then refuses the very block, with the claim
    alone, that a node which never saw the failing one accepts. *)
Theorem faucet_claim_not_rolled_back :
  let s1 := out_state (ApplyBlock spoilt_claim_block ledger_faucet) in
  error_of (ApplyBlock spoilt_claim_block ledger_faucet) = Some ErrInsufficient ∧
  Get s1 bob = Get ledger_faucet bob ∧
  is_OK (ApplyBlock claim_block ledger_faucet) = true ∧
  error_of (ApplyBlock claim_block s1) = Some ErrFaucetCooldown.
Proof. vm_compute. auto. Qed.

(** What a callee writes stays written when its caller fails. A call to a
    contract that calls another one and then reverts is refunded, and the contract's
    own storage is untouched; but the storage of the inner contract has changed. *)
Theorem callee_writes_survive_revert :
  let s1 := out_state (ApplyBlock relay_block ledger_contracts) in
  is_OK (ApplyBlock relay_block ledger_contracts) = true ∧
  ac_Balance (Get s1 "relay") = 0 ∧ ac_Balance (Get s1 alice) = 4999 * Coin ∧
  map_to_list (ac_Storage (Get s1 "relay")) = [] ∧
  ac_Storage (Get ledger_contracts "store") !! "0" = None ∧ ac_Storage (Get s1 "store") !! "0" = Some 1.
Proof. vm_compute. auto 10. Qed.

(** A contract can stop the node. Code that jumps to [2^63] deploys like any
    other; the call passes the admission check; applying a block with it ends in a
    run-time panic, not in an error. *)
Theorem contract_panics_the_node :
  CheckTx ledger_contracts (call_by_alice "crash" 0) = Ok tt ∧
  is_PANIC (ApplyBlock crash_block ledger_contracts) = true.
Proof. vm_compute. auto. Qed.
