(* ===== verification/Forkchoice.v ===== *)
(** * Fork choice ([internal/forkchoice/forkchoice.go])

    The block tree, the heaviest-tip rule and the common ancestor of two branches. *)

From S2P Require Import Prelude Merkle.

Record entry := MkEntry { e_parent : Hash; e_height : Z; e_cum : Z }.

Definition Tree : Type := gmap Hash entry.

Definition New : Tree := ∅.

(** [Add]: a known id is left alone; the weight accumulates on a known parent. *)
Definition Add (id parent : Hash) (height weight : Z) (t : Tree) : Tree :=
  match t !! id with
  | Some _ => t
  | None =>
      let cum := match t !! parent with Some p => u64 (weight + e_cum p) | None => weight end in
      <[id := MkEntry parent height cum]> t
  end.

(** The comparison loop over two arrays of one length. *)
Fixpoint less (a b : Hash) : bool :=
  match a, b with
  | x :: a', y :: b' => if bz x =? bz y then less a' b' else bz x <? bz y
  | _, _ => false
  end.

(** [e.cum > bestCum || (e.cum == bestCum && less(id, best))] *)
Definition better (p q : Hash * Z) : bool :=
  (q.2 <? p.2) || ((p.2 =? q.2) && less p.1 q.1).

(** One turn of the loop of [Best]; [None] is [first]. *)
Definition best_step (acc : option (Hash * Z)) (p : Hash * entry) : option (Hash * Z) :=
  match acc with
  | None => Some (p.1, e_cum p.2)
  | Some q => if better (p.1, e_cum p.2) q then Some (p.1, e_cum p.2) else Some q
  end.

(** [Best] over the entries in the order [range] happens to visit them. *)
Definition best_over (l : list (Hash * entry)) : Hash * Z :=
  default (Zero, 0) (foldl best_step None l).

Definition Best (t : Tree) : Hash * Z := best_over (map_to_list t).

Definition Height (t : Tree) (id : Hash) : option Z := e_height <$> t !! id.

(** The first loop of [CommonAncestor] collects the ancestors of [a]. *)
Fixpoint ancestors (fuel : nat) (t : Tree) (a : Hash) (seen : gset Hash) : option (gset Hash) :=
  match fuel with
  | O => None
  | S f =>
      match t !! a with
      | None => Some seen
      | Some e =>
          let seen := {[ a ]} ∪ seen in
          if bool_decide (a = e_parent e) then Some seen
          else if bool_decide (e_parent e = Zero) then Some seen
          else ancestors f t (e_parent e) seen
      end
  end.

(** The second loop: the first seen block on the way down from [b]. *)
Fixpoint first_seen (fuel : nat) (t : Tree) (seen : gset Hash) (b : Hash) : option (Hash * bool) :=
  match fuel with
  | O => None
  | S f =>
      if bool_decide (b ∈ seen) then Some (b, true) else
      match t !! b with
      | None => Some (Zero, false)
      | Some e => if bool_decide (b = Zero) then Some (Zero, false) else first_seen f t seen (e_parent e)
      end
  end.

(** [None] when the loops are still running after [fuel] turns each. *)
Definition CommonAncestor (fuel : nat) (t : Tree) (a b : Hash) : option (Hash * bool) :=
  seen ← ancestors fuel t a ∅; first_seen fuel t seen b.

(** * Lemmas *)

Definition hash_len (h : Hash) : Prop := length h = 32%nat.

Lemma less_ltb a b : length a = length b → less a b = bytes_ltb a b.
Proof.
  revert b. induction a as [|x a IH]; intros [|y b] Hl; simpl in Hl; try lia; [done|].
  simpl. unfold bytes_ltb in *. simpl. destruct (Z.compare_spec (bz x) (bz y)) as [E|E|E].
  - rewrite E, Z.eqb_refl. apply IH. lia.
  - rewrite (proj2 (Z.eqb_neq _ _)) by lia. by apply Z.ltb_lt.
  - rewrite (proj2 (Z.eqb_neq _ _)) by lia. apply Z.ltb_ge. lia.
Qed.

(** [better] is a strict total order on candidates with 32-byte ids. *)
Lemma better_irrefl p : better p p = false.
Proof.
  unfold better. rewrite Z.ltb_irrefl, Z.eqb_refl. simpl.
  rewrite less_ltb by done. apply bytes_ltb_irrefl.
Qed.

Lemma better_trans p q r : hash_len p.1 → hash_len q.1 → hash_len r.1 →
  better p q = true → better q r = true → better p r = true.
Proof.
  unfold better, hash_len. intros Hp Hq Hr.
  rewrite !orb_true_iff, !andb_true_iff, !Z.ltb_lt, !Z.eqb_eq, !less_ltb by congruence.
  intros [?|[? H1]] [?|[? H2]]; try (left; lia). right. split; [lia|]. by eapply bytes_ltb_trans.
Qed.

Lemma better_total p q : hash_len p.1 → hash_len q.1 →
  better p q = false → p = q ∨ better q p = true.
Proof.
  unfold better, hash_len. destruct p as [a x], q as [b y]; simpl. intros Hp Hq.
  rewrite !orb_false_iff, !orb_true_iff, !andb_true_iff, !Z.ltb_lt, Z.ltb_ge, !Z.eqb_eq, !less_ltb by congruence.
  intros [Hle Hl]. destruct (decide (x = y)) as [->|]; [|right; left; lia].
  rewrite Z.eqb_refl in Hl. simpl in Hl. apply bytes_ltb_total in Hl as [->|]; auto.
Qed.

Definition cand (p : Hash * entry) : Hash * Z := (p.1, e_cum p.2).

(** A candidate no other beats. *)
Definition is_best (l : list (Hash * entry)) (q : Hash * Z) : Prop :=
  (∃ p, p ∈ l ∧ q = cand p) ∧ ∀ p, p ∈ l → better (cand p) q = false.

Lemma best_fold l : Forall (λ p, hash_len p.1) l → ∀ acc,
  (∀ q, acc = Some q → hash_len q.1) →
  match foldl best_step acc l with
  | None => acc = None ∧ l = []
  | Some q => (acc = Some q ∨ ∃ p, p ∈ l ∧ q = cand p) ∧
              (∀ q0, acc = Some q0 → better q0 q = false) ∧ (∀ p, p ∈ l → better (cand p) q = false)
  end.
Proof.
  induction 1 as [|p l Hp Hl IH]; intros acc Hacc; simpl.
  { destruct acc as [q|]; [|done]. split; [by left|]. split.
    - intros q0 [= ->]. apply better_irrefl.
    - intros p Hp. by apply elem_of_nil in Hp. }
  assert (∀ q, best_step acc p = Some q → hash_len q.1) as Hstep.
  { intros q. destruct acc as [q'|]; simpl; [case_match|]; intros [= <-]; auto. }
  specialize (IH _ Hstep). destruct (foldl best_step (best_step acc p) l) as [q|] eqn:Ef.
  - destruct IH as (Hin & Hb1 & Hb2).
    assert (hash_len q.1) as Hq.
    { destruct Hin as [E|(p' & Hp' & ->)]; [by apply Hstep|].
      by apply (proj1 (Forall_forall _ _) Hl). }
    assert (better (cand p) q = false ∧ (∀ q0, acc = Some q0 → better q0 q = false)) as [H1 H2].
    { destruct acc as [q0|]; simpl in *; change (p.1, e_cum p.2) with (cand p) in *.
      - destruct (better (cand p) q0) eqn:Eb; pose proof (Hb1 _ eq_refl) as Hlast.
        + split; [done|]. intros ? [= <-]. destruct (better q0 q) eqn:E; [|done].
          by rewrite (better_trans (cand p) q0 q) in Hlast by auto.
        + split; [|by intros ? [= <-]]. destruct (better (cand p) q) eqn:E; [|done].
          destruct (better_total (cand p) q0 Hp (Hacc q0 eq_refl) Eb) as [Eq|Hb].
          * rewrite Eq in E. congruence.
          * by rewrite (better_trans q0 (cand p) q) in Hlast by auto.
      - split; [by apply Hb1|done]. }
    split_and!; auto.
    + destruct Hin as [E|(p' & Hp' & ->)].
      * destruct acc as [q0|]; simpl in E; [case_match|]; simplify_eq; auto.
        -- right. exists p. split; [apply list_elem_of_here|done].
        -- right. exists p. split; [apply list_elem_of_here|done].
      * right. exists p'. split; [by apply list_elem_of_further|done].
    + intros p' [->|Hp']%elem_of_cons; auto.
  - destruct IH as [E _]. destruct acc; simpl in E; [by case_match|done].
Qed.

Lemma best_over_spec l : Forall (λ p, hash_len p.1) l → l ≠ [] → is_best l (best_over l).
Proof.
  intros Hl Hne. pose proof (best_fold l Hl None ltac:(done)) as H. unfold best_over.
  destruct (foldl best_step None l) as [q|]; [|by destruct H].
  simpl. destruct H as ([?|?] & _ & Hb); [done|]. by split.
Qed.

Lemma is_best_unique l q q' : Forall (λ p, hash_len p.1) l → is_best l q → is_best l q' → q = q'.
Proof.
  intros Hl [(p & Hp & ->) Hb] [(p' & Hp' & ->) Hb'].
  rewrite Forall_forall in Hl. destruct (better_total (cand p) (cand p')) as [|H]; auto.
  - by apply Hl.
  - by apply Hl.
  - by rewrite (Hb _ Hp') in H.
Qed.

Definition tree_ids (t : Tree) : Prop := map_Forall (λ id _, hash_len id) t.

Lemma tree_ids_list t : tree_ids t → Forall (λ p : Hash * entry, hash_len p.1) (map_to_list t).
Proof. intros Ht. apply Forall_forall. intros [id e] Hp%elem_of_map_to_list. by apply Ht in Hp. Qed.

(** A tree only grows. *)
Lemma Add_grows t id parent h w k : is_Some (t !! k) → is_Some (Add id parent h w t !! k).
Proof.
  intros Hk. unfold Add. destruct (t !! id) eqn:E; [done|]. destruct (decide (id = k)) as [<-|Hne].
  - eexists. apply lookup_insert_eq.
  - destruct Hk as [e He]. exists e. rewrite <- He. by apply lookup_insert_ne.
Qed.

Lemma Add_ids t id parent h w : tree_ids t → hash_len id → tree_ids (Add id parent h w t).
Proof. intros Ht Hid. unfold Add. destruct (t !! id); [done|]. by apply map_Forall_insert_2. Qed.

(** ** Properties *)

(** Convergence of fork choice. On a non-empty tree [Best] is a known block
    that no other beats: every other has less cumulative weight, or the same and a
    greater id. The result does not depend on the order in which Go visits the map,
    so nodes with the same tree choose the same tip. *)
Theorem Best_deterministic (t : Tree) (l : list (Hash * entry))
  (Hids : tree_ids t) (Hne : t ≠ ∅) (Hl : l ≡ₚ map_to_list t) :
  best_over l = Best t ∧
  ∃ e, t !! (Best t).1 = Some e ∧ (Best t).2 = e_cum e ∧
    ∀ id' e', t !! id' = Some e' → id' ≠ (Best t).1 →
      e_cum e' < e_cum e ∨ (e_cum e' = e_cum e ∧ bytes_ltb (Best t).1 id' = true).
Proof.
  pose proof (tree_ids_list t Hids) as Hf.
  assert (map_to_list t ≠ []) as Hnil by by intros E%map_to_list_empty_iff.
  pose proof (best_over_spec _ Hf Hnil) as Hb. split.
  - apply (is_best_unique (map_to_list t)); [done| |done].
    assert (is_best l (best_over l)) as [(p & Hp & E) H].
    { apply best_over_spec; [by rewrite Hl|]. intros ->. by apply Permutation_nil in Hl. }
    split; [exists p; by rewrite <- Hl|]. intros p'. rewrite <- Hl. apply H.
  - fold (Best t) in Hb. destruct Hb as [([id e] & Hp & E) Hb]. rewrite E. simpl.
    apply elem_of_map_to_list in Hp. exists e. split_and!; auto.
    intros id' e' H' Hneq.
    pose proof (Hb (id', e') (proj2 (elem_of_map_to_list _ _ _) H')) as Hb'.
    rewrite E in Hb'. destruct (better_total (cand (id', e')) (cand (id, e))) as [Eq|Hlt].
    + by apply Hids in H'.
    + by apply Hids in Hp.
    + done.
    + unfold cand in Eq. simpl in Eq. congruence.
    + unfold better, cand in Hlt. simpl in Hlt.
      apply orb_true_iff in Hlt as [Hlt%Z.ltb_lt|[Heq%Z.eqb_eq Hl']%andb_true_iff]; [by left|right].
      split; [done|]. rewrite less_ltb in Hl'; [done|]. apply Hids in H', Hp. unfold hash_len in *. congruence.
Qed.

(** ** The common ancestor *)

(** [b] is [a] or lies below it along known parents. *)
Inductive below (t : Tree) : Hash → Hash → Prop :=
  | below_refl a : below t a a
  | below_step a e b : t !! a = Some e → below t (e_parent e) b → below t a b.

(** Parents lie strictly lower, as they do when every block names its parent's height. *)
Definition ordered (t : Tree) : Prop :=
  ∀ id e, t !! id = Some e → 0 <= e_height e ∧
    ∀ p, t !! e_parent e = Some p → e_height p < e_height e.

Lemma ancestors_sound fuel t : ∀ a seen s, ancestors fuel t a seen = Some s →
  ∀ x, x ∈ s → x ∈ seen ∨ below t a x.
Proof.
  induction fuel as [|f IH]; intros a seen s; simpl; [done|].
  destruct (t !! a) as [e|] eqn:E; [|by intros [= <-]; auto].
  assert (∀ x, x ∈ {[ a ]} ∪ seen → x ∈ seen ∨ below t a x) as H.
  { intros x [->%elem_of_singleton|]%elem_of_union; [right; constructor|by left]. }
  case_bool_decide; [by intros [= <-]|]. case_bool_decide; [by intros [= <-]|].
  intros Hs x Hx. destruct (IH _ _ _ Hs x Hx); [auto|]. right. by eapply below_step.
Qed.

Lemma first_seen_sound fuel t seen : ∀ b h,
  first_seen fuel t seen b = Some (h, true) → h ∈ seen ∧ below t b h.
Proof.
  induction fuel as [|f IH]; intros b h; simpl; [done|].
  case_bool_decide; [intros [= <-]; split; [done|constructor]|].
  destruct (t !! b) as [e|] eqn:E; [|done]. case_bool_decide; [done|].
  intros [? ?]%IH. split; [done|]. by eapply below_step.
Qed.

(** Turns the walk from [a] can still take. *)
Definition steps (t : Tree) (a : Hash) : nat :=
  match t !! a with Some e => S (Z.to_nat (e_height e)) | None => 0 end.

Lemma steps_parent t a e : ordered t → t !! a = Some e → (steps t (e_parent e) < steps t a)%nat.
Proof.
  intros Ht E. destruct (Ht _ _ E) as [H0 Hp]. unfold steps. rewrite E.
  destruct (t !! e_parent e) as [p|] eqn:Ep; [|lia].
  specialize (Hp p eq_refl). pose proof (proj1 (Ht _ _ Ep)). lia.
Qed.

Lemma ancestors_total t : ordered t → ∀ fuel a seen, (steps t a < fuel)%nat → is_Some (ancestors fuel t a seen).
Proof.
  intros Ht. induction fuel as [|f IH]; intros a seen Hf; [lia|]. simpl.
  destruct (t !! a) as [e|] eqn:E; [|by eexists]. case_bool_decide; [by eexists|].
  case_bool_decide; [by eexists|]. apply IH. pose proof (steps_parent _ _ _ Ht E). lia.
Qed.

Lemma first_seen_total t seen : ordered t → ∀ fuel b, (steps t b < fuel)%nat → is_Some (first_seen fuel t seen b).
Proof.
  intros Ht. induction fuel as [|f IH]; intros b Hf; [lia|]. simpl.
  case_bool_decide; [by eexists|]. destruct (t !! b) as [e|] eqn:E; [|by eexists].
  case_bool_decide; [by eexists|]. apply IH. pose proof (steps_parent _ _ _ Ht E). lia.
Qed.

(** The common ancestor. On a tree whose heights decrease towards the
    parents both loops end, after at most height + 2 turns, and a reported ancestor
    really lies on both branches. (Without that order they need not end: a cycle
    keeps the first loop running for ever.) *)
Theorem CommonAncestor_correct (t : Tree) (a b : Hash) (fuel : nat)
  (Ht : ordered t) (Hf : (steps t a < fuel)%nat ∧ (steps t b < fuel)%nat) :
  ∃ h ok, CommonAncestor fuel t a b = Some (h, ok) ∧ (ok = true → below t a h ∧ below t b h).
Proof.
  destruct Hf as [Ha Hb]. unfold CommonAncestor.
  destruct (ancestors_total t Ht fuel a ∅ Ha) as [seen Es]. rewrite Es. simpl.
  destruct (first_seen_total t seen Ht fuel b Hb) as [[h ok] Er]. rewrite Er.
  exists h, ok. split; [done|]. intros ->. apply first_seen_sound in Er as [Hin Hbel].
  destruct (ancestors_sound _ _ _ _ _ Es h Hin); [set_solver|done].
Qed.

(** ** Concrete trees *)

Definition h_ (n : Z) : Hash := be_bytes 32 n.

(** Two branches from block 1: 2 - 3 and 4. *)
Definition fork_tree : Tree :=
  Add (h_ 4) (h_ 1) 1 1 (Add (h_ 3) (h_ 2) 2 1 (Add (h_ 2) (h_ 1) 1 1 (Add (h_ 1) Zero 0 1 New))).

Example fork_tree_best : Best fork_tree = (h_ 3, 3).
Proof. vm_compute. reflexivity. Qed.
Example fork_tree_ancestor : CommonAncestor 10 fork_tree (h_ 3) (h_ 4) = Some (h_ 1, true).
Proof. vm_compute. reflexivity. Qed.

Lemma fork_tree_ids : tree_ids fork_tree.
Proof. unfold fork_tree. repeat (apply Add_ids; [|reflexivity]). apply map_Forall_empty. Qed.

Lemma fork_tree_nonempty : fork_tree ≠ ∅.
Proof. intros E. apply (f_equal (λ t, bool_decide (is_Some (t !! h_ 1)))) in E. by vm_compute in E. Qed.

Lemma Best_deterministic_witness : best_over (reverse (map_to_list fork_tree)) = (h_ 3, 3).
Proof.
  pose proof (Best_deterministic fork_tree (reverse (map_to_list fork_tree)) fork_tree_ids
    fork_tree_nonempty (reverse_Permutation _)) as [E _].
  etransitivity; [exact E|exact fork_tree_best].
Defined.

(** The order of heights as a check on the finite tree. *)
Definition orderedb (t : Tree) : bool := bool_decide (map_Forall (λ _ e,
  (0 <=? e_height e) && match t !! e_parent e with Some p => e_height p <? e_height e | None => true end = true) t).

Lemma orderedb_spec t : orderedb t = true → ordered t.
Proof.
  intros H%bool_decide_eq_true_1 id e He. specialize (H id e He). simpl in H.
  apply andb_true_iff in H as [H1%Z.leb_le H2]. split; [done|]. intros p Hp. rewrite Hp in H2. by apply Z.ltb_lt.
Qed.

Lemma CommonAncestor_correct_witness :
  ∃ h ok, CommonAncestor 10 fork_tree (h_ 3) (h_ 4) = Some (h, ok) ∧
          (ok = true → below fork_tree (h_ 3) h ∧ below fork_tree (h_ 4) h).
Proof.
  apply CommonAncestor_correct.
  - apply orderedb_spec. vm_compute. reflexivity.
  - vm_compute. lia.
Defined.

(** After a restart the tree holds the head alone, with weight 1 ([chain.New]).
    The head was block 10 of a long chain; a branch of two blocks from block 5, whose
    parent is on disk but not in the tree, is then heavier than the whole chain. *)
Definition restarted_tree : Tree :=
  Add (h_ 7) (h_ 6) 7 1 (Add (h_ 6) (h_ 5) 6 1 (Add (h_ 10) (h_ 9) 10 1 New)).

(** Weight depends on the order of arrival: a block whose parent is not in
    the tree counts as a root. After a restart a two-block branch off block 5 beats
    the ten-block canonical chain. *)
Theorem restart_prefers_short_branch :
  Best restarted_tree = (h_ 7, 2) ∧ Height restarted_tree (Best restarted_tree).1 = Some 7 ∧
  Height restarted_tree (h_ 10) = Some 10.
Proof. vm_compute. auto. Qed.
