(* ===== verification/Rendezvous.v ===== *)
(** * Shard placement ([internal/rendezvous/rendezvous.go])

    Highest-random-weight hashing: which nodes hold which shard. *)

From S2P Require Import Prelude Sha256 Merkle.

Definition score (nodeID : string) (blockID : Hash) (shardIndex : Z) : Z :=
  be_val (take 8 (sha256 (bytes_of nodeID ++ blockID ++ be_bytes 4 (u32 shardIndex)))).

Record ranked := MkRanked { rk_id : string; rk_score : Z }.

(** The comparison of [sort.Slice], as the order "not after". *)
Definition rank_le (p q : ranked) : Prop :=
  rk_score q < rk_score p ∨ (rk_score p = rk_score q ∧ str_le (rk_id p) (rk_id q)).

#[global] Instance rank_le_dec : RelDecision rank_le.
Proof. intros p q. unfold rank_le. apply _. Defined.

Definition rank (blockID : Hash) (shardIndex : Z) (nodes : list string) : list ranked :=
  merge_sort rank_le ((λ n, MkRanked n (score n blockID shardIndex)) <$> nodes).

Definition Holders (nodes : list string) (blockID : Hash) (shardIndex r : Z) : list string :=
  if (r <=? 0) || (zlen nodes =? 0) then [] else
  let rs := rank blockID shardIndex nodes in
  let r := if zlen rs <? r then zlen rs else r in
  rk_id <$> take (Z.to_nat r) rs.

Definition IsHolder (nodeID : string) (nodes : list string) (blockID : Hash) (shardIndex r : Z) : bool :=
  existsb (λ h, bool_decide (h = nodeID)) (Holders nodes blockID shardIndex r).

Definition AssignedShards (nodeID : string) (nodes : list string) (blockID : Hash) (total r : Z) : list Z :=
  filter (λ i, IsHolder nodeID nodes blockID i r = true) (seqZ 0 total).

(** * Lemmas *)

#[global] Instance rank_le_trans : Transitive rank_le.
Proof. intros p q r [?|[? H1]] [?|[? H2]]; unfold rank_le; try (left; lia). right. split; [lia|by etransitivity]. Qed.
#[global] Instance rank_le_antisymm : AntiSymm (=) rank_le.
Proof.
  intros [a x] [b y] [H1|[H1 H2]] [H3|[H3 H4]]; simpl in *; try lia. f_equal; [by apply (anti_symm str_le)|done].
Qed.
#[global] Instance rank_le_total : Total rank_le.
Proof.
  intros [a x] [b y]. unfold rank_le; simpl. destruct (Z.lt_trichotomy x y) as [|[|]]; [right; by left| |by left; left].
  destruct (total str_le a b); [left|right]; right; by split.
Qed.

(** ** Filtering a sorted list, and its first elements *)

Section sorted.
Context {A : Type} (R : relation A) (P : A → Prop) `{∀ x, Decision (P x)}.

Lemma StronglySorted_filter l : StronglySorted R l → StronglySorted R (filter P l).
Proof.
  induction 1 as [|x l Hl IH Hx]; [constructor|]. rewrite filter_cons. case_decide; [|done].
  constructor; [done|]. rewrite Forall_forall in *. intros y [_ Hy]%list_elem_of_filter. auto.
Qed.

Lemma take_filter_in n l x : x ∈ take n l → P x → x ∈ take n (filter P l).
Proof.
  revert n. induction l as [|y l IH]; intros n; [rewrite take_nil; by intros ?%elem_of_nil|]. destruct n as [|n]; [by intros ?%elem_of_nil|].
  cbn [take]. intros [->|Hx]%elem_of_cons HP; rewrite filter_cons.
  - rewrite decide_True by done. apply list_elem_of_here.
  - case_decide; [apply list_elem_of_further; auto|].
    specialize (IH n Hx HP). assert (take n (filter P l) `prefix_of` take (S n) (filter P l)) as [k ->].
    { exists (drop n (take (S n) (filter P l))). rewrite <- (take_drop n (take (S n) _)) at 1.
      f_equal. rewrite take_take. f_equal. lia. }
    apply elem_of_app. by left.
Qed.

Lemma take_filter_out n l : (∀ x, x ∈ take n l → P x) → take n (filter P l) = take n l.
Proof.
  revert n. induction l as [|y l IH]; intros n Hn; [done|]. destruct n as [|n]; [done|].
  rewrite filter_cons. cbn [take] in *. rewrite decide_True by (apply Hn, list_elem_of_here).
  cbn [take]. f_equal. apply IH. intros x Hx. apply Hn. by apply list_elem_of_further.
Qed.

Lemma StronglySorted_take n l x y : StronglySorted R l → x ∈ take n l → y ∈ l → y ∉ take n l → R x y.
Proof.
  intros Hl. revert n. induction Hl as [|z l Hl IH Hz]; intros n; [by rewrite take_nil; intros ?%elem_of_nil|].
  destruct n as [|n]; [by intros ?%elem_of_nil|]. cbn [take]. intros [->|Hx]%elem_of_cons Hy Hny.
  - apply elem_of_cons in Hy as [->|Hy]; [set_solver|]. by apply (proj1 (Forall_forall _ _) Hz).
  - apply elem_of_cons in Hy as [->|Hy]; [set_solver|]. apply (IH n); set_solver.
Qed.
End sorted.

Section ranking.
Context (id : Hash) (i : Z).
Abbreviation rk := (λ n, MkRanked n (score n id i)).

Lemma rank_sorted nodes : StronglySorted rank_le (rank id i nodes).
Proof. apply (StronglySorted_merge_sort rank_le); apply _. Qed.

Lemma rank_perm nodes : rank id i nodes ≡ₚ rk <$> nodes.
Proof. apply merge_sort_Permutation. Qed.

Lemma length_rank nodes : length (rank id i nodes) = length nodes.
Proof. by rewrite rank_perm, length_fmap. Qed.

Lemma rank_proper nodes nodes' : nodes ≡ₚ nodes' → rank id i nodes = rank id i nodes'.
Proof.
  intros Hp. apply (StronglySorted_unique rank_le); [apply rank_sorted..|]. by rewrite !rank_perm, Hp.
Qed.

(** Dropping nodes from the set drops them from the ranking. *)
Lemma rank_filter (P : string → Prop) `{∀ x, Decision (P x)} nodes :
  rank id i (filter P nodes) = filter (λ p, P (rk_id p)) (rank id i nodes).
Proof.
  apply (StronglySorted_unique rank_le); [apply rank_sorted|apply StronglySorted_filter, rank_sorted|].
  rewrite !rank_perm. assert (rk <$> filter P nodes = filter (λ p, P (rk_id p)) (rk <$> nodes)) as ->; [|done].
  induction nodes as [|n l IH]; [done|]. rewrite fmap_cons, !filter_cons. simpl.
  case_decide; [rewrite fmap_cons; by f_equal|done].
Qed.

Lemma Holders_take nodes r : 0 < r → Holders nodes id i r = rk_id <$> take (Z.to_nat r) (rank id i nodes).
Proof.
  intros Hr. unfold Holders. rewrite (proj2 (Z.leb_gt _ _)) by lia. simpl.
  destruct (Z.eqb_spec (zlen nodes) 0) as [E|E].
  - destruct nodes; [change (rank id i []) with (@nil ranked); by rewrite take_nil|unfold zlen in E; simpl in E; lia].
  - destruct (Z.ltb_spec (zlen (rank id i nodes)) r) as [Hlt|]; [|done].
    unfold zlen in *. by rewrite Nat2Z.id, !take_ge by lia.
Qed.

Lemma rank_in nodes p : p ∈ rank id i nodes ↔ rk_id p ∈ nodes ∧ p = rk (rk_id p).
Proof.
  rewrite rank_perm, list_elem_of_fmap. split.
  - intros (n & -> & Hn). done.
  - intros [Hn Hp]. by exists (rk_id p).
Qed.

Lemma rk_in n (l : list ranked) : rk n ∈ l → n ∈ rk_id <$> l.
Proof. intros Hn. apply list_elem_of_fmap. by exists (rk n). Qed.

Lemma in_holders nodes r n : 0 < r →
  n ∈ Holders nodes id i r ↔ rk n ∈ take (Z.to_nat r) (rank id i nodes).
Proof.
  intros Hr. rewrite Holders_take by done. split; [|apply rk_in].
  intros (p & -> & Hp)%list_elem_of_fmap.
  assert (p ∈ rank id i nodes) as [_ Hpe]%rank_in.
  { rewrite <- (take_drop (Z.to_nat r) (rank id i nodes)). apply elem_of_app. by left. }
  by rewrite <- Hpe.
Qed.
End ranking.

(** Placement by rendezvous hashing. The holders of a shard are [r] nodes of
    the set (all of them if it is smaller), each ranked before every node left out;
    they do not depend on the order in which the members are listed; and membership
    changes disturb them as little as possible: when a node that is not a holder
    leaves, the holders stay the same, and when a node joins, every new holder is that
    node or was a holder before. *)
Theorem Holders_stable (nodes : list string) (id : Hash) (i r : Z) (Hr : 0 < r) :
  length (Holders nodes id i r) = Nat.min (Z.to_nat r) (length nodes) ∧
  (∀ h, h ∈ Holders nodes id i r → h ∈ nodes) ∧
  (∀ h n, h ∈ Holders nodes id i r → n ∈ nodes → n ∉ Holders nodes id i r →
     rank_le (MkRanked h (score h id i)) (MkRanked n (score n id i))) ∧
  (∀ nodes', nodes ≡ₚ nodes' → Holders nodes' id i r = Holders nodes id i r) ∧
  (∀ x, x ∉ Holders nodes id i r → Holders (filter (λ n, n ≠ x) nodes) id i r = Holders nodes id i r) ∧
  (∀ x h, x ∉ nodes → h ∈ Holders (x :: nodes) id i r → h = x ∨ h ∈ Holders nodes id i r).
Proof.
  split_and!.
  - rewrite Holders_take, length_fmap, length_take, length_rank by done. lia.
  - intros h Hh%in_holders; [|done]. assert (MkRanked h (score h id i) ∈ rank id i nodes) as [? _]%rank_in; [|done].
    rewrite <- (take_drop (Z.to_nat r) (rank id i nodes)). apply elem_of_app. by left.
  - intros h n Hh Hn Hnn. rewrite in_holders in Hh, Hnn by done.
    eapply StronglySorted_take; [apply rank_sorted|exact Hh| |exact Hnn]. by apply rank_in.
  - intros nodes' Hp. rewrite !Holders_take by done. by rewrite (rank_proper id i _ _ Hp).
  - intros x Hx. rewrite !Holders_take by done. rewrite (rank_filter id i (λ n, n ≠ x)). f_equal.
    apply take_filter_out. intros p Hp Ex. apply Hx. rewrite Holders_take by done. apply list_elem_of_fmap. by exists p.
  - intros x h Hx Hh. destruct (decide (h = x)) as [|Hne]; [by left|right].
    rewrite in_holders in * by done.
    assert (MkRanked h (score h id i) ∈ take (Z.to_nat r) (rank id i (filter (λ n, n ≠ x) (x :: nodes)))) as Hh'.
    { rewrite (rank_filter id i (λ n, n ≠ x)). by apply (take_filter_in (λ p, rk_id p ≠ x)). }
    clear Hh. rename Hh' into Hh. rewrite filter_cons, decide_False in Hh by naive_solver.
    assert (filter (λ n, n ≠ x) nodes = nodes) as E; [|by rewrite E in Hh].
    clear Hh. induction nodes as [|n l IH]; [done|]. rewrite filter_cons, decide_True by set_solver.
    f_equal. apply IH. set_solver.
Qed.

Lemma Holders_stable_witness : length (Holders ["a"; "b"; "c"] (be_bytes 32 7) 0 2) = 2%nat.
Proof. refine (proj1 (Holders_stable ["a"; "b"; "c"] (be_bytes 32 7) 0 2 _)). lia. Defined.
