(* ===== verification/Pos.v ===== *)
(** * Storage challenges and scores ([internal/pos/pos.go])

    The challenge answer and the scoreboard.  Pass ratios are IEEE doubles, taken
    from the Standard Library's executable specification of binary64. *)

From S2P Require Import Prelude Sha256 Merkle.
From Stdlib Require Import Floats.SpecFloat.

Definition Challenge (nonce : Hash) (shard : bytes) : Hash := sha256 (nonce ++ shard).

Record Score := MkScore { sc_Pass : Z; sc_Miss : Z; sc_LastSeen : Z }.

(** [float64(n)] and [a / b], [a >= b] on doubles. *)
Definition float64_of (n : Z) : spec_float := binary_normalize 53 1024 n 0 false.
Definition fdiv (a b : spec_float) : spec_float := SFdiv 53 1024 a b.
Definition fge (a b : spec_float) : bool := SFleb b a.

Definition Ratio (s : Score) : spec_float :=
  let total := u64 (sc_Pass s + sc_Miss s) in
  if total =? 0 then float64_of 1 else fdiv (float64_of (sc_Pass s)) (float64_of total).

Definition Scoreboard : Type := gmap string Score.

Definition NewScoreboard : Scoreboard := ∅.

(** [entry]: the record, created when absent. *)
Definition entry (id : string) (b : Scoreboard) : Score := default (MkScore 0 0 0) (b !! id).

Definition Pass (now : Z) (id : string) (b : Scoreboard) : Scoreboard :=
  let s := entry id b in <[id := MkScore (u64 (sc_Pass s + 1)) (sc_Miss s) now]> b.

Definition Miss (id : string) (b : Scoreboard) : Scoreboard :=
  let s := entry id b in <[id := MkScore (sc_Pass s) (u64 (sc_Miss s + 1)) (sc_LastSeen s)]> b.

Definition Eligible (id : string) (minRatio : spec_float) (b : Scoreboard) : bool :=
  match b !! id with None => true | Some s => fge (Ratio s) minRatio end.

Definition Snapshot (b : Scoreboard) : gmap string Score := b.

(** The double nearest to 0.8, the default of [NewPoStorage]. *)
Definition f0_8 : spec_float := S754_finite false 7205759403792794 (-53).

Example ratio_exact : Eligible "n" f0_8 {[ "n" := MkScore 8 2 0 ]} = true ∧
  Eligible "n" f0_8 {[ "n" := MkScore 7 2 0 ]} = false ∧ Eligible "m" f0_8 {[ "n" := MkScore 7 2 0 ]} = true.
Proof. vm_compute. auto. Qed.

(** Challenges bind the nonce and the shard: equal answers to one nonce, for
    different shards, are a collision of the hash. *)
Lemma Challenge_binds nonce a b : Challenge nonce a = Challenge nonce b → a = b ∨ (nonce ++ a ≠ nonce ++ b ∧ sha256 (nonce ++ a) = sha256 (nonce ++ b)).
Proof.
  intros E. destruct (decide (a = b)); [by left|right]. split; [|exact E]. by intros ?%app_inv_head.
Qed.
