(* ===== verification/Consensus.v ===== *)
(** * Block production rights ([internal/consensus/consensus.go])

    The engine interface, the single-authority engine and the storage-weighted
    leader election. *)

From S2P Require Import Prelude Sha256 Crypto Merkle Netparams Types Pos Rendezvous.
From Stdlib Require Import Floats.SpecFloat.

(** ** The interface

    What the chain asks of an engine; [auth_signed] is the promise every engine
    keeps: an authorized header carries a valid signature of its validator. *)
Class Engine `{Ed25519} := {
  LeaderFor : Z → Hash → Z → Address;
  AuthorizeHeader : Header → res unit;
  CanProduce : Z → Hash → Z → bool;
  IsValidator : bool;
  auth_signed h : AuthorizeHeader h = Ok tt → Header_VerifySig h = Ok tt;
}.

Definition validator_map (validators : list Address) : gset Address := list_to_set validators.

(** [validatorSet]: the set, and the list without duplicates in order. *)
Definition validator_list (validators : list Address) : list Address :=
  merge_sort str_le (elements (validator_map validators)).

(** ** Authority *)

Module Authority.
Section authority.
Context `{Ed25519} (validators : list Address) (Self : Address).

Definition set : gset Address := validator_map validators.

Definition leader (height : Z) (prev : Hash) (round : Z) : Address := Self.

Definition authorize (h : Header) : res unit :=
  _ ← Header_VerifySig h;
  if bool_decide (hd_Validator h ∈ set) then Ok tt else Err ErrUnauthorizedValidator.

Definition can_produce (height : Z) (prev : Hash) (round : Z) : bool :=
  negb (bool_decide (Self = "")) && bool_decide (Self ∈ set).

Definition is_validator : bool := negb (bool_decide (Self = "")) && bool_decide (Self ∈ set).
End authority.

Lemma member_signed `{Ed25519} vs h : authorize vs h = Ok tt → Header_VerifySig h = Ok tt.
Proof. unfold authorize. destruct (Header_VerifySig h) as [[]| |]; done. Qed.

Definition engine `{Ed25519} (validators : list Address) (Self : Address) : Engine := {|
  LeaderFor := leader Self; AuthorizeHeader := authorize validators;
  CanProduce := can_produce validators Self; IsValidator := is_validator validators Self;
  auth_signed := member_signed validators |}.
End Authority.

(** ** PoStorage *)

Definition leaderScore (prev : Hash) (v : Address) (height round copy : Z) : Z :=
  be_val (take 8 (sha256 (prev ++ bytes_of v ++ be_bytes 8 height ++ be_bytes 4 round ++ be_bytes 8 copy))).

Module PoStorage.
Section election.
(** The live providers, read at the time of the call. *)
Context (validators : list Address) (weights : option (gmap Address Z)).

Definition copies (v : Address) : Z :=
  match weights with
  | None => 1
  | Some w => match w !! v with Some cw => if 1 <? cw then cw else 1 | None => 1 end
  end.

(** The virtual entries, in the order of the two nested loops. *)
Definition entries (height : Z) (prev : Hash) (round : Z) (l : list Address) : list (Address * Z) :=
  l ≫= λ v, (λ j, (v, leaderScore prev v height round j)) <$> seqZ 0 (copies v).

Definition elect_step (acc : Address * Z) (p : Address * Z) : Address * Z :=
  let '(best, bestScore) := acc in let '(v, s) := p in
  if bool_decide (best = "") || (bestScore <? s) || ((s =? bestScore) && str_ltb v best)
  then (v, s) else acc.

Definition leader (height : Z) (prev : Hash) (round : Z) : Address :=
  (foldl elect_step ("", 0) (entries height prev round (validator_list validators))).1.
End election.

Section engine.
Context `{Ed25519} (validators : list Address) (weights : option (gmap Address Z)).
Context (Self : Address) (scores : option Scoreboard) (minRatio : spec_float).

Definition authorize (h : Header) : res unit :=
  _ ← Header_VerifySig h;
  if negb (bool_decide (hd_Validator h ∈ validator_map validators)) then Err ErrUnauthorizedValidator
  else if hd_Height h =? 0 then Ok tt
  else if negb (bool_decide (hd_Validator h = leader validators weights (hd_Height h) (hd_PrevHash h) (hd_Round h)))
  then Err ErrNotLeader else Ok tt.

(** [NewPoStorage] replaces a non-positive ratio by 0.8. *)
Definition ratio : spec_float := if SFleb minRatio (S754_zero false) then f0_8 else minRatio.

Definition can_produce (height : Z) (prev : Hash) (round : Z) : bool :=
  if bool_decide (Self = "") || negb (bool_decide (Self ∈ validator_map validators)) then false
  else if negb (bool_decide (leader validators weights height prev round = Self)) then false
  else match scores with Some b => Eligible Self ratio b | None => true end.

Definition is_validator : bool :=
  negb (bool_decide (Self = "")) && bool_decide (Self ∈ validator_map validators).
End engine.

Lemma authorize_signed `{Ed25519} vs w h : authorize vs w h = Ok tt → Header_VerifySig h = Ok tt.
Proof. unfold authorize. destruct (Header_VerifySig h) as [[]| |]; done. Qed.

Definition engine `{Ed25519} validators weights Self scores minRatio : Engine := {|
  LeaderFor := leader validators weights; AuthorizeHeader := authorize validators weights;
  CanProduce := can_produce validators weights Self scores minRatio;
  IsValidator := is_validator validators Self;
  auth_signed := authorize_signed validators weights |}.
End PoStorage.

(** * Lemmas *)

Lemma validator_list_in vs v : v ∈ validator_list vs ↔ v ∈ vs.
Proof. unfold validator_list, validator_map. rewrite merge_sort_Permutation, elem_of_elements, elem_of_list_to_set. done. Qed.

Lemma validator_list_ext vs vs' : (∀ v, v ∈ vs ↔ v ∈ vs') → validator_list vs = validator_list vs'.
Proof.
  intros E. unfold validator_list, validator_map.
  assert (list_to_set (C:=gset Address) vs = list_to_set vs') as ->; [|done].
  apply set_eq. intros v. by rewrite !elem_of_list_to_set.
Qed.

Lemma copies_pos w v : 1 <= PoStorage.copies w v.
Proof.
  unfold PoStorage.copies. destruct w as [w|]; [|lia]. destruct (w !! v) as [cw|]; [|lia].
  destruct (Z.ltb_spec 1 cw); lia.
Qed.

Lemma entries_in w h prev r l v s :
  (v, s) ∈ PoStorage.entries w h prev r l ↔
  v ∈ l ∧ ∃ j, 0 <= j < PoStorage.copies w v ∧ s = leaderScore prev v h r j.
Proof.
  unfold PoStorage.entries. rewrite list_elem_of_bind. split.
  - intros (v' & Hin & Hv'). apply list_elem_of_fmap in Hin as (j & [= -> ->] & Hj).
    apply elem_of_seqZ in Hj. split; [done|]. exists j. split; [lia|done].
  - intros (Hv & j & Hj & ->). exists v. split; [|done]. apply list_elem_of_fmap. exists j. split; [done|].
    apply elem_of_seqZ. lia.
Qed.

(** Beaten by nobody: no entry has a higher score, or the same score and a
    smaller address. *)
Definition unbeaten (l : list (Address * Z)) (q : Address * Z) : Prop :=
  ∀ v s, (v, s) ∈ l → s < q.2 ∨ (s = q.2 ∧ str_ltb v q.1 = false).

Lemma elect_fold l : Forall (λ p, p.1 ≠ "") l → ∀ q,
  let r := foldl PoStorage.elect_step q l in
  (r = q ∨ r ∈ l) ∧ (q.1 ≠ "" → r.2 > q.2 ∨ (r.2 = q.2 ∧ (str_ltb q.1 r.1 = false))) ∧
  (l ≠ [] ∨ q.1 ≠ "" → r.1 ≠ "") ∧ unbeaten l r.
Proof.
  induction 1 as [|[v s] l Hp Hl IH]; intros [b bs]; cbn [foldl]; cbv zeta.
  { split_and!; [by left| |intros [?|?]; done|].
    - intros _. right. split; [done|]. apply str_ltb_irrefl.
    - intros v s Hin. by apply elem_of_nil in Hin. }
  set (q1 := PoStorage.elect_step (b, bs) (v, s)). destruct (IH q1) as (I1 & I2 & I3 & I4). clear IH.
  set (r := foldl PoStorage.elect_step q1 l) in *.
  assert (q1.1 ≠ "" ∧ (q1 = (b, bs) ∨ q1 = (v, s)) ∧
    (b ≠ "" → q1.2 > bs ∨ (q1.2 = bs ∧ str_ltb b q1.1 = false)) ∧
    (s < q1.2 ∨ (s = q1.2 ∧ str_ltb v q1.1 = false))) as (H1 & H2 & H3 & H4).
  { subst q1. unfold PoStorage.elect_step. simpl in Hp.
    case_bool_decide as Eb; simpl.
    - split_and!; [done|by right|done|right; split; [done|apply str_ltb_irrefl]].
    - destruct (Z.ltb_spec bs s); simpl.
      + split_and!; [done|by right|intros _; left; lia|right; split; [done|apply str_ltb_irrefl]].
      + destruct (Z.eqb_spec s bs) as [->|]; simpl.
        * destruct (str_ltb v b) eqn:E; simpl.
          -- split_and!; [done|by right|intros _; right; split; [done|by apply str_ltb_asym]|right; split; [done|apply str_ltb_irrefl]].
          -- split_and!; [done|by left|intros _; right; split; [done|apply str_ltb_irrefl]|by right].
        * split_and!; [done|by left|intros _; right; split; [done|apply str_ltb_irrefl]|left; lia]. }
  specialize (I2 H1).
  assert (∀ w t, t < q1.2 ∨ (t = q1.2 ∧ str_ltb w q1.1 = false) → t < r.2 ∨ (t = r.2 ∧ str_ltb w r.1 = false)) as Hlift.
  { intros w t [Ht|[-> Hw]]; destruct I2 as [Hr|[Hr Hq]]; try (left; lia). right. split; [done|].
    destruct (str_ltb w r.1) eqn:E; [|done]. destruct (str_ltb_total _ _ Hw) as [->|Hw']; [congruence|].
    rewrite (str_ltb_trans _ _ _ Hw' E) in Hq. done. }
  split_and!.
  - destruct I1 as [->|Hin]; [|right; by apply list_elem_of_further].
    destruct H2 as [->| ->]; [by left|right; apply list_elem_of_here].
  - simpl. intros Hb. specialize (H3 Hb). specialize (Hlift b bs).
    destruct H3 as [H3|[H3 H3']]; [destruct I2 as [?|[? ?]]; left; lia|].
    destruct Hlift as [?|[? ?]]; [by right|left; lia|right; split; [lia|done]].
  - intros _. apply I3. by right.
  - intros w t [[= -> ->]|Hin]%elem_of_cons; [by apply Hlift|by apply I4].
Qed.

Section election.
Context (vs : list Address) (w : option (gmap Address Z)) (Hne : vs ≠ []) (Hvs : "" ∉ vs).

Lemma leader_spec h prev r :
  let L := PoStorage.leader vs w h prev r in
  L ∈ vs ∧ ∃ j, 0 <= j < PoStorage.copies w L ∧
    ∀ v k, v ∈ vs → 0 <= k < PoStorage.copies w v →
      leaderScore prev v h r k < leaderScore prev L h r j ∨
      (leaderScore prev v h r k = leaderScore prev L h r j ∧ str_ltb v L = false).
Proof.
  cbv zeta. unfold PoStorage.leader. set (l := PoStorage.entries w h prev r (validator_list vs)).
  assert (Forall (λ p : Address * Z, p.1 ≠ "") l) as Hl.
  { apply Forall_forall. intros [v s] (Hv & _)%entries_in. rewrite validator_list_in in Hv. simpl. by intros ->. }
  destruct (elect_fold l Hl ("", 0)) as (H1 & _ & H3 & H4). cbv zeta in *.
  set (q := foldl PoStorage.elect_step ("", 0) l) in *.
  assert (l ≠ []) as Hlne.
  { destruct vs as [|v vs']; [done|]. intros El.
    assert ((v, leaderScore prev v h r 0) ∈ l) as Hin.
    { apply entries_in. split; [apply validator_list_in, list_elem_of_here|]. exists 0.
      pose proof (copies_pos w v). split; [lia|done]. }
    rewrite El in Hin. by apply elem_of_nil in Hin. }
  assert (q ∈ l) as Hq.
  { destruct H1 as [E|]; [|done]. exfalso. apply H3; [by left|]. by rewrite E. }
  destruct q as [L s] eqn:Eq. simpl. apply entries_in in Hq as (HL & j & Hj & ->).
  split; [by apply validator_list_in|]. exists j. split; [done|]. intros v k Hv Hk.
  apply (H4 v (leaderScore prev v h r k)). apply entries_in.
  split; [by apply validator_list_in|]. by exists k.
Qed.
End election.

(** [C33] Leader election. With a non-empty validator set the elected leader is a
    member of it, and one of its virtual entries has the highest score of all entries
    of all validators (ties go to the smaller address). The leader depends only on
    the set: the order of the list and repetitions in it do not matter. *)
Theorem leader_elected (vs : list Address) (w : option (gmap Address Z)) (h : Z) (prev : Hash) (r : Z)
  (Hne : vs ≠ []) (Hvs : "" ∉ vs) :
  let L := PoStorage.leader vs w h prev r in
  L ∈ vs ∧
  (∃ j, 0 <= j < PoStorage.copies w L ∧ ∀ v k, v ∈ vs → 0 <= k < PoStorage.copies w v →
     leaderScore prev v h r k < leaderScore prev L h r j ∨
     (leaderScore prev v h r k = leaderScore prev L h r j ∧ str_ltb v L = false)) ∧
  (∀ vs', (∀ v, v ∈ vs' ↔ v ∈ vs) → PoStorage.leader vs' w h prev r = L).
Proof.
  cbv zeta. destruct (leader_spec vs w Hne Hvs h prev r) as [H1 H2]. split_and!; auto.
  intros vs' E. unfold PoStorage.leader. by rewrite (validator_list_ext vs' vs E).
Qed.

Lemma leader_elected_witness : PoStorage.leader ["a"; "b"; "a"] None 5 (be_bytes 32 1) 0 ∈ ["a"; "b"; "a"].
Proof.
  refine (proj1 (leader_elected ["a"; "b"; "a"] None 5 (be_bytes 32 1) 0 _ _)).
  - discriminate.
  - intros H. repeat (apply elem_of_cons in H as [H|H]; [discriminate|]). by apply elem_of_nil in H.
Defined.

(** Header authorization. PoStorage authorizes a header exactly when its
    validator signed it, is registered, and, above height 0, is the elected leader of
    its height, parent and round; so with one registry two authorized headers for the
    same height, parent and round have the same validator. The authority engine
    authorizes exactly the headers signed by a member of its fixed set. *)
Theorem authorize_exact `{Ed25519} (vs : list Address) (w : option (gmap Address Z)) (h h' : Header) :
  (PoStorage.authorize vs w h = Ok tt ↔
     Header_VerifySig h = Ok tt ∧ hd_Validator h ∈ vs ∧
     (hd_Height h ≠ 0 → hd_Validator h = PoStorage.leader vs w (hd_Height h) (hd_PrevHash h) (hd_Round h))) ∧
  (PoStorage.authorize vs w h = Ok tt → PoStorage.authorize vs w h' = Ok tt → hd_Height h ≠ 0 →
     hd_Height h = hd_Height h' → hd_PrevHash h = hd_PrevHash h' → hd_Round h = hd_Round h' →
     hd_Validator h = hd_Validator h') ∧
  (Authority.authorize vs h = Ok tt ↔ Header_VerifySig h = Ok tt ∧ hd_Validator h ∈ vs).
Proof.
  assert (∀ h, PoStorage.authorize vs w h = Ok tt ↔
     Header_VerifySig h = Ok tt ∧ hd_Validator h ∈ vs ∧
     (hd_Height h ≠ 0 → hd_Validator h = PoStorage.leader vs w (hd_Height h) (hd_PrevHash h) (hd_Round h))) as Hiff.
  { intros k. unfold PoStorage.authorize, validator_map. destruct (Header_VerifySig k) as [[]| |]; simpl; [|naive_solver..].
    case_bool_decide as Hin; rewrite elem_of_list_to_set in Hin; simpl; [|naive_solver].
    destruct (Z.eqb_spec (hd_Height k) 0); simpl; [naive_solver|].
    case_bool_decide; simpl; naive_solver. }
  split_and!; [apply Hiff| |].
  - intros (_ & _ & H1)%Hiff (_ & _ & H2)%Hiff Hh E1 E2 E3. rewrite H1, H2 by congruence. congruence.
  - unfold Authority.authorize, Authority.set, validator_map. destruct (Header_VerifySig h) as [[]| |]; simpl; [|naive_solver..].
    case_bool_decide as Hin; rewrite elem_of_list_to_set in Hin; naive_solver.
Qed.
