(* ===== verification/Erasure.v ===== *)
(** * Erasure coding of block bodies ([internal/erasure/erasure.go])

    Framing, padding and splitting of a body, reconstruction from any K of K+M
    shards, and the per-shard commitments.  The Reed-Solomon code itself is the
    parameter [ReedSolomon], with the documented behaviour of
    github.com/klauspost/reedsolomon for the shapes and calls made here. *)

From S2P Require Import Prelude Sha256 Merkle Netparams Types.

(** ** The library

    A missing shard is [None] (a nil slice).  [rs_new k m] fails for unsupported
    shapes; [rs_split] cuts a buffer into [k] slices of one length and adds [m]
    parity slices, which [rs_encode] fills. *)
Class ReedSolomon := {
  rs_new : nat → nat → option error;
  rs_split : nat → nat → bytes → res (list bytes);
  rs_encode : nat → nat → list bytes → res (list bytes);
  rs_reconstruct : nat → nat → list (option bytes) → res (list bytes);
  rs_verify : nat → nat → list bytes → res bool;
}.

(** The chunks of [padded], each of length [n]. *)
Fixpoint chunks (n k : nat) (l : bytes) : list bytes :=
  match k with O => [] | S k' => take n l :: chunks n k' (drop n l) end.

(** A shard set with some shards missing. *)
Definition sparse (full : list bytes) (l : list (option bytes)) : Prop :=
  Forall2 (λ f s, s = None ∨ s = Some f) full l.

Definition present (l : list (option bytes)) : Z := zlen (filter is_Some l).

(** The documented behaviour, for a shape [k, m]. *)
Record rs_laws `{ReedSolomon} (k m : nat) : Prop := {
  (* the shape is supported *)
  rl_new : rs_new k m = None;
  (* a buffer of k*n bytes, n > 0, is cut exactly; the encoded data shards are the split ones *)
  rl_encode n padded : (0 < n)%nat → length padded = (k * n)%nat →
    ∃ split all, rs_split k m padded = Ok split ∧ rs_encode k m split = Ok all ∧
      length all = (k + m)%nat ∧ take k all = chunks n k padded;
  (* any k shards of an encoded set bring the others back, and the set verifies *)
  rl_reconstruct split all l : rs_encode k m split = Ok all → sparse all l → Z.of_nat k <= present l →
    rs_reconstruct k m l = Ok all ∧ rs_verify k m all = Ok true;
}.

(** ** The code *)

Section code.
Context `{ReedSolomon}.

(** [(shards, paddedLen, origLen)] *)
Definition Encode (body : bytes) (spec : ShardSpec) : res (list bytes * Z * Z) :=
  let k := K spec in
  let m := M spec in
  if (k <? 1) || (m <? 1) then Err ErrBadSpec else
  let framed := be_bytes 4 (u32 (zlen body)) ++ body in
  let shardLen := (zlen framed + k - 1) / k in
  let shardLen := if shardLen =? 0 then 1 else shardLen in
  let padded := take (Z.to_nat (shardLen * k)) framed ++
                replicate (Z.to_nat (shardLen * k) - length framed) (zb 0) in
  match rs_new (Z.to_nat k) (Z.to_nat m) with
  | Some e => Err e
  | None =>
      all ← rs_split (Z.to_nat k) (Z.to_nat m) padded;
      all ← rs_encode (Z.to_nat k) (Z.to_nat m) all;
      mret (all, shardLen, zlen body)
  end.

Definition Reconstruct (shards : list (option bytes)) (spec : ShardSpec) (origLen : Z) : res bytes :=
  let k := K spec in
  let m := M spec in
  if (k <? 1) || (m <? 1) then Err ErrBadSpec else
  if negb (zlen shards =? k + m) then Err ErrShortInput else
  if present shards <? k then Err ErrShortInput else
  match rs_new (Z.to_nat k) (Z.to_nat m) with
  | Some e => Err e
  | None =>
      all ← rs_reconstruct (Z.to_nat k) (Z.to_nat m) shards;
      ok ← rs_verify (Z.to_nat k) (Z.to_nat m) all;
      if negb ok then Err ErrParity else
      let joined := concat (take (Z.to_nat k) all) in
      if zlen joined <? 4 then Err ErrShortInput else
      let n := be_val (take 4 joined) in
      if negb (n =? origLen) || (zlen joined <? n + 4) then Err ErrLenMismatch else
      Ok (take (Z.to_nat n) (drop 4 joined))
  end.

Definition ShardHash (blockID : Hash) (index : Z) (data : bytes) : Hash :=
  sha256 (blockID ++ be_bytes 4 (u32 index) ++ data).

(** The commitments [ShardHash(blockID, i, s)] of shards [i, i+1, ...]. *)
Fixpoint shard_hashes (blockID : Hash) (i : Z) (shards : list bytes) : list Hash :=
  match shards with [] => [] | s :: r => ShardHash blockID i s :: shard_hashes blockID (i + 1) r end.

Definition BuildShardSet (blockID : Hash) (body : bytes) (spec : ShardSpec) : res (list bytes * ShardSet) :=
  r ← Encode body spec;
  let '(shards, paddedLen, origLen) := r in
  mret (shards, MkShardSet blockID spec paddedLen origLen (shard_hashes blockID 0 shards)).

Definition VerifyShard (set : ShardSet) (index : Z) (data : bytes) : bool :=
  if (index <? 0) || (zlen (ss_ShardHash set) <=? index) then false
  else bool_decide (ss_ShardHash set !! Z.to_nat index = Some (ShardHash (ss_BlockID set) index data)).
End code.

(** * Lemmas *)

Lemma concat_chunks n k : ∀ l, length l = (k * n)%nat → concat (chunks n k l) = l.
Proof.
  induction k as [|k IH]; intros l Hl; [destruct l; simpl in *; [done|lia]|].
  cbn [chunks concat]. rewrite IH by (rewrite length_drop; lia). apply take_drop.
Qed.

Lemma sparse_length full l : sparse full l → length l = length full.
Proof. intros Hs. by apply Forall2_length in Hs. Qed.

Lemma shard_hashes_lookup id shards : ∀ i j,
  shard_hashes id i shards !! j = (λ s, ShardHash id (i + Z.of_nat j) s) <$> (shards !! j).
Proof.
  induction shards as [|s r IH]; intros i j; [done|]. destruct j as [|j]; simpl.
  - by rewrite Z.add_0_r.
  - rewrite IH. replace (i + 1 + Z.of_nat j) with (i + Z.of_nat (S j)) by lia. done.
Qed.

Lemma length_shard_hashes id shards : ∀ i, length (shard_hashes id i shards) = length shards.
Proof. induction shards; simpl; auto. Qed.

Section laws.
Context `{ReedSolomon} (spec : ShardSpec) (HK : 1 <= K spec) (HM : 1 <= M spec).
Context (HL : rs_laws (Z.to_nat (K spec)) (Z.to_nat (M spec))).

(** What [Encode] produces on a body: the data shards spell the padded frame. *)
Lemma Encode_ok body : ∃ shards n split,
  Encode body spec = Ok (shards, n, zlen body) ∧
  length shards = Z.to_nat (K spec + M spec) ∧
  rs_encode (Z.to_nat (K spec)) (Z.to_nat (M spec)) split = Ok shards ∧
  ∃ pad, concat (take (Z.to_nat (K spec)) shards) = be_bytes 4 (u32 (zlen body)) ++ body ++ pad.
Proof.
  unfold Encode. rewrite (proj2 (Z.ltb_ge (K spec) 1)), (proj2 (Z.ltb_ge (M spec) 1)) by lia. cbn [orb].
  set (framed := be_bytes 4 (u32 (zlen body)) ++ body).
  assert (4 <= zlen framed) as H4 by (unfold zlen, framed; rewrite length_app, length_be_bytes; lia).
  set (n := (zlen framed + K spec - 1) / K spec).
  assert (zlen framed <= n * K spec) as Hn.
  { unfold n. pose proof (Z.div_mod (zlen framed + K spec - 1) (K spec)).
    pose proof (Z.mod_pos_bound (zlen framed + K spec - 1) (K spec)). nia. }
  assert (0 < n) as Hn0 by nia. rewrite (proj2 (Z.eqb_neq n 0)) by lia.
  set (padded := take (Z.to_nat (n * K spec)) framed ++ _).
  assert (padded = framed ++ replicate (Z.to_nat (n * K spec) - length framed) (zb 0)) as Ep.
  { unfold padded. rewrite take_ge by (unfold zlen in *; lia). done. }
  assert (length padded = (Z.to_nat (K spec) * Z.to_nat n)%nat) as Hlen.
  { rewrite Ep, length_app, length_replicate. unfold zlen in *. rewrite <- Z2Nat.inj_mul, (Z.mul_comm (K spec)) by lia. lia. }
  destruct (rl_encode _ _ HL (Z.to_nat n) padded ltac:(lia) Hlen) as (split & all & E1 & E2 & Hl & Ht).
  rewrite (rl_new _ _ HL), E1. simpl. rewrite E2. simpl. exists all, n, split. split_and!; auto.
  - rewrite Hl. lia.
  - exists (replicate (Z.to_nat (n * K spec) - length framed) (zb 0)).
    rewrite Ht, concat_chunks, Ep by done. unfold framed. by rewrite <- app_assoc.
Qed.

Lemma Reconstruct_ok body shards n l :
  zlen body < W32 → Encode body spec = Ok (shards, n, zlen body) →
  sparse shards l → K spec <= present l → Reconstruct l spec (zlen body) = Ok body.
Proof.
  intros Hb E Hs Hp. destruct (Encode_ok body) as (shards' & n' & split & E' & Hl & Henc & pad & Hcat).
  rewrite E in E'. injection E' as <- <-. unfold Reconstruct.
  rewrite (proj2 (Z.ltb_ge (K spec) 1)), (proj2 (Z.ltb_ge (M spec) 1)) by lia. cbn [orb].
  unfold zlen at 1. rewrite (sparse_length _ _ Hs), Hl, Z2Nat.id, Z.eqb_refl by lia. simpl negb. cbv iota.
  rewrite (proj2 (Z.ltb_ge _ _)) by lia. rewrite (rl_new _ _ HL).
  destruct (rl_reconstruct _ _ HL _ _ _ Henc Hs) as [-> Hv]; [lia|]. simpl. rewrite Hv. simpl. rewrite Hcat.
  assert (is_u64 (zlen body) ∧ 0 <= zlen body < 256 ^ 4) as [_ Hu].
  { unfold is_u64, W64, W32, zlen in *. lia. }
  assert (u32 (zlen body) = zlen body) as -> by (apply Z.mod_small; unfold W32, zlen in *; lia).
  rewrite take_app_length' by by rewrite length_be_bytes.
  rewrite be_val_be_bytes_small by done.
  rewrite (proj2 (Z.ltb_ge _ 4)) by (unfold zlen; rewrite length_app, length_be_bytes; lia).
  rewrite Z.eqb_refl. simpl negb. cbn [orb].
  rewrite (proj2 (Z.ltb_ge _ _)) by (unfold zlen; rewrite !length_app, length_be_bytes; lia).
  rewrite drop_app_length' by by rewrite length_be_bytes.
  unfold zlen. rewrite Nat2Z.id. by rewrite take_app_length.
Qed.
End laws.

(** [C29] Any K of K+M shards give the body back. For every supported shape and
    every body shorter than 2^32 bytes (the empty one included), [Encode] succeeds and
    yields K+M shards, and [Reconstruct] of any subset of at least K of them returns
    exactly the body; fewer than K, or a wrong number of slots, is [ErrShortInput]. *)
Theorem erasure_roundtrip `{ReedSolomon} (spec : ShardSpec) (body : bytes)
  (HK : 1 <= K spec) (HM : 1 <= M spec) (Hb : zlen body < W32)
  (HL : rs_laws (Z.to_nat (K spec)) (Z.to_nat (M spec))) :
  ∃ shards n, Encode body spec = Ok (shards, n, zlen body) ∧
    zlen shards = Total spec ∧
    (∀ l, sparse shards l → K spec <= present l → Reconstruct l spec (zlen body) = Ok body) ∧
    (∀ l, zlen l ≠ Total spec ∨ present l < K spec → Reconstruct l spec (zlen body) = Err ErrShortInput).
Proof.
  destruct (Encode_ok spec HK HM HL body) as (shards & n & split & E & Hl & _). exists shards, n.
  split_and!; auto.
  - unfold zlen, Total. rewrite Hl. lia.
  - intros l Hs Hp. by eapply Reconstruct_ok.
  - intros l Hbad. unfold Reconstruct, Total in *.
    rewrite (proj2 (Z.ltb_ge (K spec) 1)), (proj2 (Z.ltb_ge (M spec) 1)) by lia. cbn [orb].
    destruct (Z.eqb_spec (zlen l) (K spec + M spec)); simpl; [|done].
    destruct Hbad as [|Hp]; [done|]. by rewrite (proj2 (Z.ltb_lt _ _)).
Qed.

(** A committed shard passes verification, and whatever passes is that shard, or a
    collision of the hash. *)
Lemma BuildShardSet_verifies `{ReedSolomon} id body spec shards set i s :
  BuildShardSet id body spec = Ok (shards, set) → shards !! i = Some s →
  VerifyShard set (Z.of_nat i) s = true ∧
  ∀ s', VerifyShard set (Z.of_nat i) s' = true → ShardHash id (Z.of_nat i) s' = ShardHash id (Z.of_nat i) s.
Proof.
  unfold BuildShardSet. destruct (Encode body spec) as [[[sh n] o]| |]; simpl; [|done..].
  intros E Hi. assert (sh = shards ∧ set = MkShardSet id spec n o (shard_hashes id 0 shards)) as [-> ->].
  { unfold mret, res_ret in E. by simplify_eq. }
  assert (i < length shards)%nat by by eapply lookup_lt_Some.
  unfold VerifyShard. simpl. unfold zlen. rewrite length_shard_hashes.
  rewrite (proj2 (Z.ltb_ge _ _)), (proj2 (Z.leb_gt _ _)) by lia. cbn [orb].
  rewrite Nat2Z.id, shard_hashes_lookup, Hi. simpl. split; [by apply bool_decide_eq_true|].
  intros s' Hs'%bool_decide_eq_true. apply (inj Some) in Hs'. by rewrite <- Hs'.
Qed.

(** ** A concrete code

    With one data shard the parity shards are copies of it. *)

Definition first_some {A} (l : list (option A)) : option A := head (omap id l).

Definition copy_code : ReedSolomon := {|
  rs_new k m := if bool_decide (k = 1%nat) then None else Some ErrThirdParty;
  rs_split k m buf := Ok (buf :: replicate m []);
  rs_encode k m l := Ok (replicate (k + m) (default [] (head l)));
  rs_reconstruct k m l := match first_some l with Some d => Ok (replicate (k + m) d) | None => Err ErrShortInput end;
  rs_verify k m l := Ok (bool_decide (Forall (λ s, Some s = head l) l)) |}.

Lemma sparse_replicate_first n d l :
  sparse (replicate n d) l → 1 <= present l → first_some l = Some d.
Proof.
  unfold present, zlen, first_some. revert l. induction n as [|n IH]; intros l Hs Hp.
  { inversion Hs; subst. simpl in Hp. lia. }
  inversion Hs as [|? o ? r [->| ->] Hr]; subst; simpl in *; [|done]. apply IH; [done|].
  rewrite filter_cons, decide_False in Hp; [done|]. by intros [? ?].
Qed.

Lemma copy_code_laws m : @rs_laws copy_code 1 m.
Proof.
  split; [done| |].
  - intros n padded Hn Hl. eexists _, _. split; [reflexivity|]. split; [reflexivity|].
    simpl. rewrite length_replicate. split; [done|]. rewrite take_0, take_ge by lia. done.
  - intros split all l [= <-] Hs Hp. simpl in *.
    rewrite (sparse_replicate_first (S m) (default [] (head split)) l Hs Hp). split; [done|]. simpl.
    f_equal. apply bool_decide_eq_true. constructor; [done|]. apply Forall_replicate. done.
Qed.

Lemma erasure_roundtrip_witness : ∃ shards n,
  @Encode copy_code (bytes_of "body") (MkSpec 1 2) = Ok (shards, n, 4) ∧
  @Reconstruct copy_code [None; None; Some (be_bytes 4 4 ++ bytes_of "body")] (MkSpec 1 2) 4 = Ok (bytes_of "body").
Proof.
  destruct (@erasure_roundtrip copy_code (MkSpec 1 2) (bytes_of "body")) as (shards & n & E & _ & HR & _).
  - simpl. lia.
  - simpl. lia.
  - reflexivity.
  - apply copy_code_laws.
  - exists shards, n. split; [exact E|]. apply HR; [|vm_compute; discriminate].
    vm_compute in E. injection E as <- _.
    repeat (apply Forall2_cons_2; [first [by left|by right]|]). constructor.
Defined.
