(* ===== verification/Mempool.v ===== *)
(** * The transaction pool ([internal/mempool/mempool.go])

    Admission against the current ledger, selection for a block and removal.  The
    orders in which Go visits the pool and the senders are arguments of [Reap];
    [sort.Slice] is not stable, and as the first order is arbitrary a stable sort
    of it has the same outcomes. *)

From S2P Require Import Prelude Crypto Economy Merkle Netparams Types Pow Vm State Demo.

Record Pool := MkPool { p_byID : gmap Hash Transaction; p_limit : Z }.

Definition New (limit : Z) : Pool := MkPool ∅ (if limit <? 1 then 10000 else limit).

Definition Len (p : Pool) : Z := Z.of_nat (size (p_byID p)).

Definition Submit `{Platform} (s : State) (tx : Transaction) : Prelude.M Pool unit :=
  lift (CheckTx s tx) ≫= λ _,
  p ← get;
  if p_limit p <=? Len p then throw ErrFull
  else modify (λ p, MkPool (<[tx_Hash tx := tx]> (p_byID p)) (p_limit p)).

Definition Remove (txs : list Transaction) (p : Pool) : Pool :=
  MkPool (foldl (λ m tx, delete (tx_Hash tx) m) (p_byID p) txs) (p_limit p).

Definition nonce_le (t u : Transaction) : Prop := tx_Nonce t <= tx_Nonce u.
#[global] Instance nonce_le_dec : RelDecision nonce_le.
Proof. intros t u. unfold nonce_le. apply _. Defined.

(** The inner loop over one sender's sorted transactions; [true] when the batch
    is full and the function returns. *)
Fixpoint reap_run (max next : Z) (txs out : list Transaction) : bool * list Transaction :=
  match txs with
  | [] => (false, out)
  | tx :: r =>
      if negb (tx_Nonce tx =? next) then (false, out) else
      let out := out ++ [tx] in
      if max <=? zlen out then (true, out) else reap_run max (u64 (next + 1)) r out
  end.

Fixpoint reap_senders (s : State) (max : Z) (vals : list Transaction) (senders : list Address)
    (out : list Transaction) : list Transaction :=
  match senders with
  | [] => out
  | from :: r =>
      let txs := merge_sort nonce_le (filter (λ t, tx_From t = from) vals) in
      let '(full, out) := reap_run max (ac_Nonce (Get s from)) txs out in
      if full : bool then out else reap_senders s max vals r out
  end.

(** [vals]: the pool's transactions in the order of the first [range]; [senders]:
    the keys of [bySender] in the order of the second. *)
Definition Reap (s : State) (vals : list Transaction) (senders : list Address) (max : Z) : list Transaction :=
  reap_senders s max vals senders [].

Definition reap_orders (p : Pool) (vals : list Transaction) (senders : list Address) : Prop :=
  vals ≡ₚ (map_to_list (p_byID p)).*2 ∧ NoDup senders ∧ (∀ a, a ∈ senders ↔ ∃ t, t ∈ vals ∧ tx_From t = a).

(** * Lemmas *)

#[global] Instance nonce_le_trans : Transitive nonce_le.
Proof. intros t u v. unfold nonce_le. lia. Qed.
#[global] Instance nonce_le_total : base.Total nonce_le.
Proof. intros t u. unfold nonce_le. lia. Qed.

(** A run adds a prefix of its input, numbered from [next]. *)
Lemma reap_run_spec max txs : ∀ next out, is_u64 next →
  ∃ k, (reap_run max next txs out).2 = out ++ take k txs ∧ (k <= length txs)%nat ∧
    tx_Nonce <$> take k txs = (λ i, u64 (next + i)) <$> seqZ 0 (Z.of_nat k) ∧
    (zlen out < max → zlen (reap_run max next txs out).2 <= max ∧
      ((reap_run max next txs out).1 = false → zlen (reap_run max next txs out).2 < max)).
Proof.
  induction txs as [|tx r IH]; intros next out Hn; cbn [reap_run].
  { exists 0%nat. rewrite app_nil_r. split_and!; auto. intros; simpl; lia. }
  destruct (Z.eqb_spec (tx_Nonce tx) next) as [E|E]; simpl negb; cbv iota.
  2: { exists 0%nat. rewrite app_nil_r. split_and!; auto; [simpl; lia|intros; simpl; lia]. }
  destruct (Z.leb_spec max (zlen (out ++ [tx]))) as [Hfull|Hroom].
  - exists 1%nat. simpl. rewrite take_0. split_and!; auto; [lia| |].
    + change (seqZ 0 1) with [0]. simpl. by rewrite E, Z.add_0_r, u64_small.
    + intros Hlt. unfold zlen in *. rewrite length_app in *. simpl in *. split; [lia|done].
  - destruct (IH (u64 (next + 1)) (out ++ [tx]) (u64_range _)) as (k & E1 & Hk & E2 & E3).
    exists (S k). split; [by rewrite E1, <- app_assoc|]. split; [simpl; lia|]. split.
    + rewrite Nat2Z.inj_succ, (seqZ_cons 0 (Z.succ _)) by lia. simpl take. rewrite !fmap_cons, E2, E. f_equal.
      * by rewrite Z.add_0_r, u64_small.
      * replace (Z.succ 0) with (0 + 1) by lia. rewrite Z.pred_succ.
        rewrite <- (fmap_add_seqZ 1 0), <- list_fmap_compose.
        apply list_fmap_ext. intros _ i _. simpl. unfold u64. rewrite Zplus_mod_idemp_l. f_equal. lia.
    + intros _. by apply E3.
Qed.

Section senders.
Context (s : State) (max : Z) (vals : list Transaction) (Hs : ∀ a, is_u64 (ac_Nonce (Get s a))).

Definition sorted_of (a : Address) : list Transaction := merge_sort nonce_le (filter (λ t, tx_From t = a) vals).

Lemma sorted_of_from a t : t ∈ sorted_of a → tx_From t = a ∧ t ∈ vals.
Proof. unfold sorted_of. rewrite merge_sort_Permutation. by intros ?%list_elem_of_filter. Qed.

Lemma filter_all {A} (P : A → Prop) `{∀ x, Decision (P x)} l : Forall P l → filter P l = l.
Proof. induction 1 as [|x l Hx _ IH]; [done|]. by rewrite filter_cons, decide_True, IH. Qed.
Lemma filter_none {A} (P : A → Prop) `{∀ x, Decision (P x)} l : Forall (λ x, ¬ P x) l → filter P l = [].
Proof. induction 1 as [|x l Hx _ IH]; [done|]. by rewrite filter_cons, decide_False, IH. Qed.

(** The selection keeps what was there, and adds for each sender a prefix of its
    sorted transactions. *)
Lemma reap_senders_spec senders : NoDup senders → ∀ out, (∀ t, t ∈ out → tx_From t ∉ senders) →
  zlen out < max →
  zlen (reap_senders s max vals senders out) <= max ∧
  ∀ a, ∃ k, filter (λ t, tx_From t = a) (reap_senders s max vals senders out) =
            filter (λ t, tx_From t = a) out ++ (if decide (a ∈ senders) then take k (sorted_of a) else []) ∧
       (k <= length (sorted_of a))%nat ∧
       tx_Nonce <$> take k (sorted_of a) = (λ i, u64 (ac_Nonce (Get s a) + i)) <$> seqZ 0 (Z.of_nat k).
Proof.
  induction 1 as [|a0 r Ha0 Hr IH]; intros out Hout Hlt; cbn [reap_senders].
  { split; [lia|]. intros a. exists 0%nat. rewrite decide_False by (by intros ?%elem_of_nil). rewrite app_nil_r.
    split_and!; auto. lia. }
  fold (sorted_of a0).
  destruct (reap_run_spec max (sorted_of a0) (ac_Nonce (Get s a0)) out (Hs a0)) as (k0 & E1 & Hk & E2 & E3).
  destruct (E3 Hlt) as [Hle Hroom].
  destruct (reap_run max (ac_Nonce (Get s a0)) (sorted_of a0) out) as [full out'] eqn:Erun. simpl in E1, Hle, Hroom.
  assert (∀ a, filter (λ t, tx_From t = a) out' = filter (λ t, tx_From t = a) out ++
            (if decide (a = a0) then take k0 (sorted_of a0) else [])) as Hf.
  { intros a. rewrite E1, filter_app. f_equal.
    assert (Forall (λ t, tx_From t = a0) (take k0 (sorted_of a0))) as Hall.
    { apply Forall_forall. intros t Ht. apply sorted_of_from. rewrite <- (take_drop k0 (sorted_of a0)).
      apply elem_of_app. by left. }
    case_decide; [subst; by apply filter_all|]. apply filter_none.
    eapply Forall_impl; [exact Hall|]. intros t ->. congruence. }
  assert (∀ t, t ∈ out' → t ∈ out ∨ tx_From t = a0) as Hin.
  { intros t. rewrite E1. intros [?|Ht]%elem_of_app; [by left|right]. apply sorted_of_from.
    rewrite <- (take_drop k0 (sorted_of a0)). apply elem_of_app. by left. }
  destruct full.
  - split; [done|]. intros a. destruct (decide (a = a0)) as [->|Hne].
    + exists k0. rewrite Hf, !decide_True by (done || apply list_elem_of_here). done.
    + exists 0%nat. rewrite Hf, (decide_False (P:=a = a0)) by done. rewrite take_0.
      split_and!; [by destruct (decide _)|lia|done].
  - destruct (IH out') as [IH1 IH2]; [|by apply Hroom|].
    { intros t [Ht|Ht]%Hin; [|by rewrite Ht]. intros Hn. apply (Hout t Ht). by apply list_elem_of_further. }
    split; [done|]. intros a. destruct (IH2 a) as (k & F1 & F2 & F3). rewrite F1, Hf.
    destruct (decide (a = a0)) as [->|Hne].
    + exists k0. rewrite (decide_False (P:=a0 ∈ r)), app_nil_r by done.
      rewrite decide_True by (apply list_elem_of_here). done.
    + exists k. rewrite app_nil_r. split_and!; [|done..]. f_equal.
      destruct (decide (a ∈ r)) as [Hr1|Hr1], (decide (a ∈ a0 :: r)) as [Hr2|Hr2]; try done.
      * exfalso. apply Hr2. by apply list_elem_of_further.
      * exfalso. by apply elem_of_cons in Hr2 as [?|?].
Qed.

(** While the batch has room, a run only stops at a gap. *)
Lemma reap_run_roomy txs : ∀ next out, is_u64 next → zlen out + zlen txs < max →
  ∃ k, reap_run max next txs out = (false, out ++ take k txs) ∧
    ∀ t, txs !! k = Some t → tx_Nonce t ≠ u64 (next + Z.of_nat k).
Proof.
  induction txs as [|tx r IH]; intros next out Hn Hroom; cbn [reap_run].
  { exists 0%nat. split; [by rewrite app_nil_r|done]. }
  assert (zlen (tx :: r) = zlen r + 1) as Hz by (unfold zlen; simpl; lia). rewrite Hz in Hroom.
  destruct (Z.eqb_spec (tx_Nonce tx) next) as [E|E]; cbn [negb].
  2: { exists 0%nat. rewrite app_nil_r. split; [done|]. intros t [= <-]. by rewrite Z.add_0_r, u64_small. }
  assert (zlen (out ++ [tx]) = zlen out + 1) as Hl by (unfold zlen; rewrite length_app; simpl; lia).
  rewrite (proj2 (Z.leb_gt _ _)) by (unfold zlen in *; lia).
  destruct (IH (u64 (next + 1)) (out ++ [tx]) (u64_range _)) as (k & -> & Hk); [lia|].
  exists (S k). split; [by rewrite <- app_assoc|]. intros t Ht. rewrite <- lookup_tail in Ht. intros Hc. apply (Hk t Ht). rewrite Hc. unfold u64.
  rewrite Zplus_mod_idemp_l. by replace (next + 1 + Z.of_nat k) with (next + Z.of_nat (S k)) by lia.
Qed.

Lemma reap_senders_keep senders : ∀ out t, t ∈ out → t ∈ reap_senders s max vals senders out.
Proof.
  induction senders as [|a r IH]; intros out t Ht; cbn [reap_senders]; [done|]. fold (sorted_of a).
  destruct (reap_run_spec max (sorted_of a) (ac_Nonce (Get s a)) out (Hs a)) as (k & E & _).
  destruct (reap_run max _ (sorted_of a) out) as [[] out']; simpl in E; subst out'; [|apply IH]; apply elem_of_app; by left.
Qed.

Definition from_any (l : list Address) : list Transaction := filter (λ t, tx_From t ∈ l) vals.

Lemma from_any_cons a r : a ∉ r → zlen (from_any (a :: r)) = zlen (sorted_of a) + zlen (from_any r).
Proof.
  intros Ha. unfold from_any, sorted_of, zlen. rewrite merge_sort_Permutation. induction vals as [|t l IH]; [done|].
  rewrite !filter_cons. destruct (decide (tx_From t = a)) as [E|E].
  - rewrite (decide_True (P:=tx_From t ∈ a :: r)) by (rewrite E; apply list_elem_of_here).
    rewrite (decide_False (P:=tx_From t ∈ r)) by congruence. simpl. lia.
  - destruct (decide (tx_From t ∈ r)) as [Hr|Hr].
    + rewrite decide_True by by apply list_elem_of_further. simpl. lia.
    + rewrite decide_False by by intros [?|?]%elem_of_cons. simpl. lia.
Qed.

(** A pool smaller than the batch is visited to its last sender. *)
Lemma reap_senders_roomy senders : NoDup senders → ∀ out, zlen out + zlen (from_any senders) < max → ∀ a, a ∈ senders →
  ∃ k, (∀ t, t ∈ take k (sorted_of a) → t ∈ reap_senders s max vals senders out) ∧
    ∀ t, sorted_of a !! k = Some t → tx_Nonce t ≠ u64 (ac_Nonce (Get s a) + Z.of_nat k).
Proof.
  induction 1 as [|a0 r Ha0 Hr IH]; intros out Hroom a Ha; [by apply elem_of_nil in Ha|].
  rewrite from_any_cons in Hroom by done. cbn [reap_senders]. fold (sorted_of a0).
  destruct (reap_run_roomy (sorted_of a0) (ac_Nonce (Get s a0)) out (Hs a0)) as (k & E & Hk); [unfold zlen in *; lia|].
  rewrite E. apply elem_of_cons in Ha as [->|Ha].
  - exists k. split; [|done]. intros t Ht. apply reap_senders_keep, elem_of_app. by right.
  - apply IH; [|done]. pose proof (length_take (sorted_of a0) k). unfold zlen in *. rewrite length_app. lia.
Qed.
End senders.

(** ** The pool *)

(** Transactions are filed under their hash, and none is a coinbase. *)
Definition pool_wf (p : Pool) : Prop :=
  ∀ id t, p_byID p !! id = Some t → id = tx_Hash t ∧ IsCoinbase t = false.

Lemma New_pool_wf limit : pool_wf (New limit).
Proof. by intros id t. Qed.

Lemma Submit_pool_wf `{Platform} s tx p : pool_wf p → pool_wf (out_state (Submit s tx p)).
Proof.
  intros Hp. unfold Submit, mbind at 1, M_bind at 1, lift. destruct (CheckTx s tx) as [[]| |] eqn:E; [|done..].
  rewrite (bind_ok get _ _ _ _ eq_refl). destruct (_ <=? _); [done|]. intros id t. simpl.
  intros [[<- <-]|[_ Hl]]%lookup_insert_Some; [|by apply Hp]. split; [done|]. revert E. unfold CheckTx.
  destruct (tx_VerifySig tx) as [[]| |]; [|done..]. change (Ok tt ≫= ?f) with (f tt). cbv beta. by destruct (IsCoinbase tx).
Qed.

Lemma Remove_lookup txs p id : p_byID (Remove txs p) !! id = if decide (id ∈ tx_Hash <$> txs) then None else p_byID p !! id.
Proof.
  unfold Remove. simpl. generalize (p_byID p) as m. induction txs as [|t r IH]; intros m; simpl foldl; [done|].
  rewrite IH, fmap_cons. destruct (decide (id ∈ tx_Hash <$> r)) as [Hr|Hr].
  - rewrite decide_True; [done|by apply list_elem_of_further].
  - destruct (decide (id = tx_Hash t)) as [->|Hne].
    + rewrite lookup_delete_eq, decide_True; [done|apply list_elem_of_here].
    + rewrite lookup_delete_ne, decide_False by (try intros [?|?]%elem_of_cons; congruence || done). done.
Qed.

Lemma Remove_pool_wf txs p : pool_wf p → pool_wf (Remove txs p).
Proof. intros Hp id t. rewrite Remove_lookup. case_decide; [done|apply Hp]. Qed.

Section reaped.
Context (s : State) (p : Pool) (vals : list Transaction) (senders : list Address) (max : Z).
Context (Ho : reap_orders p vals senders) (Hs : ∀ a, is_u64 (ac_Nonce (Get s a))).

Lemma reap_orders_len : zlen vals = Len p.
Proof. destruct Ho as [Hp _]. unfold zlen, Len. by rewrite Hp, length_fmap, length_map_to_list. Qed.

(** From a pool smaller than the batch, the next transaction of a sender is taken when
    the sender has no other. *)
Lemma Reap_takes t : Len p < max → t ∈ vals → (∀ u, u ∈ vals → tx_From u = tx_From t → u = t) →
  tx_Nonce t = ac_Nonce (Get s (tx_From t)) → t ∈ Reap s vals senders max.
Proof.
  intros Hroom Ht Hone Hn. rewrite <- reap_orders_len in Hroom. destruct Ho as (_ & Hnd & Hsend).
  assert (zlen (from_any vals senders) <= zlen vals) as Hle by (unfold from_any, zlen; pose proof (length_filter (λ t, tx_From t ∈ senders) vals); lia).
  destruct (reap_senders_roomy s max vals Hs senders Hnd []) with (a := tx_From t) as (k & Hin & Hstop); [unfold zlen in *; simpl; lia|apply Hsend; eauto|].
  apply Hin. assert (t ∈ sorted_of vals (tx_From t)) as Hso by (unfold sorted_of; rewrite merge_sort_Permutation; by apply list_elem_of_filter).
  destruct (sorted_of vals (tx_From t)) as [|u r] eqn:E; [by apply elem_of_nil in Hso|].
  assert (u = t) as ->.
  { destruct (sorted_of_from vals (tx_From t) u) as [Hu1 Hu2]; [rewrite E; apply list_elem_of_here|]. by apply Hone. }
  destruct k as [|k]; [|apply list_elem_of_here].
  exfalso. apply (Hstop t eq_refl). rewrite Hn, Z.add_0_r, u64_small; [done|apply Hs].
Qed.
End reaped.

(** ** Properties *)

(** What the pool hands to the producer. Whatever the visiting orders, [Reap]
    returns at most [max] of the pooled transactions, and those of each sender carry
    consecutive nonces from its account's nonce on.  But one stale transaction of a
    sender (a nonce below the account's) keeps all of that sender's transactions out,
    the current ones included, as long as it stays pooled. *)
Theorem Reap_contiguous (s : State) (p : Pool) (vals : list Transaction) (senders : list Address) (max : Z)
  (Ho : reap_orders p vals senders) (Hs : ∀ a, is_u64 (ac_Nonce (Get s a))) (Hmax : 0 < max) :
  let out := Reap s vals senders max in
  zlen out <= max ∧ (∀ t, t ∈ out → t ∈ vals) ∧
  (∀ a, ∃ n, tx_Nonce <$> filter (λ t, tx_From t = a) out = (λ i, u64 (ac_Nonce (Get s a) + i)) <$> seqZ 0 n) ∧
  (∀ a t, t ∈ vals → tx_From t = a → tx_Nonce t < ac_Nonce (Get s a) → filter (λ t, tx_From t = a) out = []).
Proof.
  cbv zeta. destruct Ho as (_ & Hnd & Hsend). unfold Reap.
  destruct (reap_senders_spec s max vals Hs senders Hnd []) as [H1 H2]; [by intros ? ?%elem_of_nil|done|].
  split; [done|]. split_and!.
  - intros t Ht. destruct (H2 (tx_From t)) as (k & E & _ & _).
    assert (t ∈ filter (λ u, tx_From u = tx_From t) (reap_senders s max vals senders [])) as Hf
      by (by apply list_elem_of_filter).
    rewrite E in Hf. simpl in Hf. destruct (decide (tx_From t ∈ senders)); [|by apply elem_of_nil in Hf].
    apply (sorted_of_from vals (tx_From t)). rewrite <- (take_drop k (sorted_of vals (tx_From t))).
    apply elem_of_app. by left.
  - intros a. destruct (H2 a) as (k & E & _ & Hn). rewrite E. simpl.
    destruct (decide (a ∈ senders)); [by exists (Z.of_nat k)|by exists 0].
  - intros a t Ht Ha Hlt. destruct (H2 a) as (k & E & Hk & Hn). rewrite E. simpl.
    destruct (decide (a ∈ senders)) as [_|Hna]; [|done].
    assert (t ∈ sorted_of vals a) as Hin.
    { unfold sorted_of. rewrite merge_sort_Permutation. by apply list_elem_of_filter. }
    assert (StronglySorted nonce_le (sorted_of vals a)) as Hso by (apply (StronglySorted_merge_sort nonce_le); apply _).
    destruct (sorted_of vals a) as [|u r]; [by apply elem_of_nil in Hin|].
    assert (tx_Nonce u <= tx_Nonce t) as Hu.
    { apply elem_of_cons in Hin as [->|Hin]; [lia|].
      apply StronglySorted_cons in Hso as [Hall _]. by apply (proj1 (Forall_forall _ _) Hall). }
    destruct k as [|k]; [done|]. exfalso. rewrite Nat2Z.inj_succ, seqZ_cons in Hn by lia. simpl take in Hn.
    rewrite !fmap_cons in Hn. apply cons_eq in Hn as [Hn _]. rewrite Z.add_0_r, u64_small in Hn by done. lia.
Qed.

(** Alice has two payments with nonce 0 in the pool, to different receivers; one
    was mined, and her next payment is pooled as well. *)
Definition pay_bob : Transaction := by_alice bob KindTransfer (3 * Coin) Coin 0 0 [].
Definition pay_carol : Transaction := by_alice "carol" KindTransfer (2 * Coin) Coin 0 0 [].
Definition next_pay : Transaction := by_alice bob KindTransfer Coin Coin 1 0 [].

Definition pool2 : Pool :=
  out_state ((Submit ledger0 pay_bob ≫= λ _, Submit ledger0 pay_carol) (New 100)).

Lemma pool2_orders : reap_orders pool2 [pay_carol; pay_bob] [alice].
Proof.
  split; [|split].
  - assert (∃ l, (map_to_list (p_byID pool2)).*2 = l ∧ (l = [pay_carol; pay_bob] ∨ l = [pay_bob; pay_carol])) as (l & -> & Hl).
    { eexists. split; [vm_compute; reflexivity|]. right. vm_compute. reflexivity. }
    destruct Hl as [->| ->]; [done|]. apply perm_swap.
  - apply NoDup_singleton.
  - intros a. rewrite list_elem_of_singleton. split.
    + intros ->. exists pay_bob. split; [|done]. apply list_elem_of_further, list_elem_of_here.
    + intros (t & Ht & <-). apply elem_of_cons in Ht as [->|Ht]; [done|].
      apply elem_of_cons in Ht as [->|Ht]; [done|]. by apply elem_of_nil in Ht.
Qed.

Lemma Reap_contiguous_witness :
  let out := Reap ledger0 [pay_carol; pay_bob] [alice] 10 in
  out = [pay_carol] ∧ zlen out <= 10 ∧ (∀ t, t ∈ out → t ∈ [pay_carol; pay_bob]) ∧
  (∀ a, ∃ n, tx_Nonce <$> filter (λ t, tx_From t = a) out = (λ i, u64 (ac_Nonce (Get ledger0 a) + i)) <$> seqZ 0 n).
Proof.
  cbv zeta. split; [vm_compute; reflexivity|].
  destruct (Reap_contiguous ledger0 pool2 [pay_carol; pay_bob] [alice] 10 pool2_orders ledger0_nonces eq_refl)
    as (H1 & H2 & H3 & _).
  exact (conj H1 (conj H2 H3)).
Defined.

Definition pool_run : outcome Pool unit :=
  (Submit ledger0 pay_bob ≫= λ _, Submit ledger0 pay_carol ≫= λ _,
   modify (Remove [pay_bob]) ≫= λ _, Submit after_pay next_pay) (New 100).

Example pool_run_ok : is_OK pool_run = true.
Proof. vm_compute. reflexivity. Qed.

Example pool_run_stuck :
  Len (out_state pool_run) = 2 ∧ Reap after_pay [pay_carol; next_pay] [alice] 10 = [] ∧
  Reap after_pay [next_pay; pay_carol] [alice] 10 = [].
Proof. vm_compute. auto. Qed.
