(* ===== verification/Bloom.v ===== *)
(** * The Bloom filter of held shards ([internal/bloom/bloom.go])

    Sizing uses floating-point logarithms of the [math] package; the two numbers it
    computes are arguments of [New].  A file is the filter it was written from. *)

From S2P Require Import Prelude Sha256 Merkle.

Record Filter := MkFilter { f_Bits : list Z; f_M : Z; f_K : Z }.

(** [New] after the two computations: the clamps and the allocation. *)
Definition New (m k : Z) : Filter :=
  let m := if m <? 64 then 64 else m in
  let k := if k <? 1 then 1 else k in
  MkFilter (replicate (Z.to_nat ((m + 63) / 64)) 0) m k.

(** The standard library's 64-bit FNV-1a. *)
Definition fnv64a (b : bytes) : Z :=
  foldl (λ h x, u64 (Z.lxor h (bz x) * 1099511628211)) 14695981039346656037 b.

Definition hashes (h : Hash) : Z * Z := (fnv64a h, Z.lor (be_val (take 8 (drop 24 h))) 1).

(** [(a + i*b) % f.M]; a zero [M] is a run-time panic. *)
Definition bit_at (f : Filter) (h : Hash) (i : Z) : res Z :=
  if f_M f =? 0 then Panic else Ok (u64 ((hashes h).1 + u64 (i * (hashes h).2)) mod f_M f).

(** [f.Bits[bit/64] |= 1 << (bit % 64)] *)
Definition set_bit (bit : Z) (f : Filter) : res Filter :=
  match f_Bits f !! Z.to_nat (bit / 64) with
  | None => Panic
  | Some w => Ok (MkFilter (<[Z.to_nat (bit / 64) := Z.lor w (Z.shiftl 1 (bit mod 64))]> (f_Bits f)) (f_M f) (f_K f))
  end.

(** [n] turns of the loop are left. *)
Fixpoint add_loop (n : nat) (h : Hash) (i : Z) (f : Filter) : res Filter :=
  match n with
  | O => Ok f
  | S n' => bit ← bit_at f h i; f ← set_bit bit f; add_loop n' h (i + 1) f
  end.

Definition Add (h : Hash) (f : Filter) : res Filter := add_loop (Z.to_nat (f_K f)) h 0 f.

Definition bit_set (f : Filter) (bit : Z) : res bool :=
  match f_Bits f !! Z.to_nat (bit / 64) with
  | None => Panic
  | Some w => Ok (negb (Z.land w (Z.shiftl 1 (bit mod 64)) =? 0))
  end.

Fixpoint test_loop (n : nat) (h : Hash) (i : Z) (f : Filter) : res bool :=
  match n with
  | O => Ok true
  | S n' => bit ← bit_at f h i; b ← bit_set f bit; if b : bool then test_loop n' h (i + 1) f else Ok false
  end.

Definition Test (h : Hash) (f : Filter) : res bool := test_loop (Z.to_nat (f_K f)) h 0 f.

(** The file [Save] writes, and [Load] of a file. *)
Definition Filter_Save (f : Filter) : option Filter := Some f.
Definition Filter_Load (file : option Filter) : res Filter :=
  match file with Some f => Ok f | None => Err ErrNotExist end.

(** * Lemmas *)

(** A filter as [New] makes it and [Add] keeps it. *)
Record filter_wf (f : Filter) : Prop := {
  fw_M : 0 < f_M f; fw_len : zlen (f_Bits f) = (f_M f + 63) / 64; fw_words : Forall is_u64 (f_Bits f);
}.

Lemma New_wf m k : filter_wf (New m k).
Proof.
  unfold New. split; simpl.
  - destruct (Z.ltb_spec m 64); lia.
  - unfold zlen. rewrite length_replicate. destruct (Z.ltb_spec m 64); Z.to_euclidean_division_equations; lia.
  - apply Forall_replicate. unfold is_u64, W64. lia.
Qed.

Lemma bit_range f h i : filter_wf f → ∃ bit, bit_at f h i = Ok bit ∧ 0 <= bit < f_M f.
Proof.
  intros [HM _ _]. unfold bit_at. rewrite (proj2 (Z.eqb_neq _ _)) by lia. eexists. split; [done|].
  by apply Z.mod_pos_bound.
Qed.

Lemma word_of f bit : filter_wf f → 0 <= bit < f_M f → ∃ w, f_Bits f !! Z.to_nat (bit / 64) = Some w.
Proof.
  intros [_ Hl _] Hb. apply lookup_lt_is_Some_2. unfold zlen in Hl. Z.to_euclidean_division_equations; lia.
Qed.

(** Whether a bit is set, as a proposition on the array. *)
Definition has_bit (f : Filter) (bit : Z) : Prop :=
  ∃ w, f_Bits f !! Z.to_nat (bit / 64) = Some w ∧ Z.testbit w (bit mod 64) = true.

Lemma land_shiftl w k : 0 <= k → negb (Z.land w (Z.shiftl 1 k) =? 0) = Z.testbit w k.
Proof.
  intros Hk. rewrite Z.shiftl_1_l. destruct (Z.testbit w k) eqn:E.
  - apply negb_true_iff, Z.eqb_neq. intros H0. apply (f_equal (λ z, Z.testbit z k)) in H0.
    rewrite Z.land_spec, E, Z.pow2_bits_true, Z.bits_0 in H0; done.
  - apply negb_false_iff, Z.eqb_eq. apply Z.bits_inj_iff'. intros j Hj. rewrite Z.land_spec, Z.bits_0, Z.pow2_bits_eqb by lia.
    destruct (Z.eqb_spec k j) as [<-|]; [by rewrite E|by rewrite andb_false_r].
Qed.

Lemma bit_set_has f bit : bit_set f bit = Ok true ↔ has_bit f bit.
Proof.
  unfold bit_set, has_bit. destruct (f_Bits f !! Z.to_nat (bit / 64)) as [w|].
  - rewrite land_shiftl by (apply Z.mod_pos_bound; lia). split; [intros [= H]; eauto|intros (? & [= ->] & ->); done].
  - split; [done|intros (? & [=] & _)].
Qed.

Lemma shiftl_u64 k : 0 <= k < 64 → is_u64 (Z.shiftl 1 k).
Proof.
  intros Hk. rewrite Z.shiftl_1_l. split; [apply Z.pow_nonneg; lia|]. change W64 with (2 ^ 64).
  apply Z.pow_lt_mono_r; lia.
Qed.

Lemma lor_u64 a b : is_u64 a → is_u64 b → is_u64 (Z.lor a b).
Proof.
  unfold is_u64. change W64 with (2 ^ 64). intros Ha Hb. split; [apply Z.lor_nonneg; lia|].
  destruct (Z.eq_dec (Z.lor a b) 0) as [->|Hne]; [lia|].
  assert (∀ z, 0 <= z < 2 ^ 64 → z = 0 ∨ Z.log2 z < 64) as Hlog.
  { intros z Hz. destruct (Z.eq_dec z 0); [by left|right]. apply Z.log2_lt_pow2; lia. }
  apply Z.log2_lt_pow2; [pose proof (proj2 (Z.lor_nonneg a b) (conj (proj1 Ha) (proj1 Hb))) as Hn; destruct (Z.lor a b); [done|lia|done]|].
  rewrite Z.log2_lor by lia. destruct (Hlog a Ha) as [->|], (Hlog b Hb) as [->|]; change (Z.log2 0) with 0; lia.
Qed.

(** Setting a bit sets it, keeps every other, and keeps the filter well formed. *)
Lemma set_bit_spec f bit : filter_wf f → 0 <= bit < f_M f →
  ∃ g, set_bit bit f = Ok g ∧ filter_wf g ∧ f_M g = f_M f ∧ f_K g = f_K f ∧ has_bit g bit ∧
    ∀ b, has_bit f b → has_bit g b.
Proof.
  intros Hf Hb. destruct (word_of f bit Hf Hb) as [w Hw]. unfold set_bit. rewrite Hw.
  pose proof (Z.mod_pos_bound bit 64 eq_refl) as Hm. eexists. split; [done|].
  assert (is_u64 (Z.lor w (Z.shiftl 1 (bit mod 64)))) as Hu.
  { apply lor_u64; [|by apply shiftl_u64]. by apply (Forall_lookup_1 _ _ _ _ (fw_words f Hf) Hw). }
  split; [split; [apply Hf| |apply Forall_insert; [apply Hf|done]]|].
  { simpl. unfold zlen. rewrite length_insert. apply Hf. }
  split_and!; [done|done| |].
  - eexists. simpl. split; [apply list_lookup_insert_eq; by eapply lookup_lt_Some|].
    rewrite Z.lor_spec, Z.shiftl_1_l, Z.pow2_bits_true by lia. apply orb_true_r.
  - intros b (u & Hu1 & Hu2). destruct (decide (Z.to_nat (bit / 64) = Z.to_nat (b / 64))) as [E|E].
    + exists (Z.lor w (Z.shiftl 1 (bit mod 64))). simpl. rewrite <- E. split.
      { apply list_lookup_insert_eq. by eapply lookup_lt_Some. }
      rewrite <- E, Hw in Hu1. injection Hu1 as ->. by rewrite Z.lor_spec, Hu2.
    + exists u. simpl. rewrite list_lookup_insert_ne by done. done.
Qed.

Lemma test_loop_spec n h : ∀ i f, filter_wf f →
  (test_loop n h i f = Ok true ↔ ∀ j, i <= j < i + Z.of_nat n → ∀ bit, bit_at f h j = Ok bit → has_bit f bit) ∧
  test_loop n h i f ≠ Panic.
Proof.
  induction n as [|n IH]; intros i f Hf; cbn [test_loop].
  { split; [split; [intros _ j Hj; lia|done]|done]. }
  destruct (bit_range f h i Hf) as (bit & Eb & Hb). rewrite Eb. simpl.
  destruct (bit_set f bit) as [[]| |] eqn:Es; simpl.
  - destruct (IH (i + 1) f Hf) as [IH1 IH2]. split; [|done]. rewrite IH1. split.
    + intros H j Hj b Ej. destruct (decide (j = i)) as [->|]; [|apply (H j); [lia|done]].
      rewrite Eb in Ej. injection Ej as <-. by apply bit_set_has.
    + intros H j Hj. apply H. lia.
  - split; [|done]. split; [done|]. intros H. exfalso.
    assert (has_bit f bit) as Hh by (apply (H i); [lia|done]). apply bit_set_has in Hh. congruence.
  - exfalso. unfold bit_set in Es. destruct (word_of f bit Hf Hb) as [w Hw]. by rewrite Hw in Es.
  - exfalso. unfold bit_set in Es. destruct (word_of f bit Hf Hb) as [w Hw]. by rewrite Hw in Es.
Qed.

Lemma bit_at_same f g h i : f_M g = f_M f → bit_at g h i = bit_at f h i.
Proof. unfold bit_at. by intros ->. Qed.

Lemma add_loop_spec n h : ∀ i f, filter_wf f →
  ∃ g, add_loop n h i f = Ok g ∧ filter_wf g ∧ f_M g = f_M f ∧ f_K g = f_K f ∧
    (∀ b, has_bit f b → has_bit g b) ∧
    (∀ j bit, i <= j < i + Z.of_nat n → bit_at f h j = Ok bit → has_bit g bit).
Proof.
  induction n as [|n IH]; intros i f Hf; cbn [add_loop].
  { exists f. split_and!; [done..|]. intros j bit Hj. lia. }
  destruct (bit_range f h i Hf) as (bit & Eb & Hb). rewrite Eb. simpl.
  destruct (set_bit_spec f bit Hf Hb) as (f1 & E1 & Hf1 & HM1 & HK1 & Hin & Hkeep). rewrite E1. simpl.
  destruct (IH (i + 1) f1 Hf1) as (g & E & Hg & HM & HK & Hk & Hj). exists g. rewrite HM, HK.
  split_and!; [done|done|done|done|auto|].
  intros j b Hr Ej. destruct (decide (j = i)) as [->|].
  - rewrite Eb in Ej. injection Ej as <-. auto.
  - apply (Hj j b); [lia|]. by rewrite (bit_at_same f f1).
Qed.

Lemma Add_ok f h : filter_wf f → ∃ g, Add h f = Ok g ∧ filter_wf g.
Proof. intros Hf. destruct (add_loop_spec (Z.to_nat (f_K f)) h 0 f Hf) as (g & E & Hg & _). by exists g. Qed.

(** ** Property *)

(** No false negatives. On a filter made by [New] and filled by any sequence of
    [Add]s, adding succeeds, the added hash tests positive, and whatever tested
    positive before still does; testing never panics. *)
Theorem no_false_negatives (f : Filter) (h h' : Hash) (Hf : filter_wf f) :
  ∃ g, Add h f = Ok g ∧ filter_wf g ∧ Test h g = Ok true ∧
    (Test h' f = Ok true → Test h' g = Ok true) ∧ Test h' g ≠ Panic.
Proof.
  unfold Add, Test. destruct (add_loop_spec (Z.to_nat (f_K f)) h 0 f Hf) as (g & E & Hg & HM & HK & Hkeep & Hin).
  exists g. rewrite HK. split_and!; [done|done| | |by apply test_loop_spec].
  - apply test_loop_spec; [done|]. intros j Hj bit Eb. apply (Hin j bit); [lia|]. by rewrite <- (bit_at_same f g).
  - rewrite (proj1 (test_loop_spec _ h' 0 f Hf)), (proj1 (test_loop_spec _ h' 0 g Hg)).
    intros H j Hj bit Eb. apply Hkeep, (H j Hj). by rewrite <- (bit_at_same f g).
Qed.

Lemma no_false_negatives_witness :
  let h := replicate 32 (zb 7) in
  Test h (New 100 3) = Ok false ∧ ∃ g, Add h (New 100 3) = Ok g ∧ Test h g = Ok true.
Proof.
  cbv zeta. split; [vm_compute; reflexivity|].
  destruct (no_false_negatives (New 100 3) (replicate 32 (zb 7)) [] (New_wf 100 3)) as (g & H1 & _ & H2 & _).
  exact (ex_intro _ g (conj H1 H2)).
Defined.
