(* ===== verification/Chain.v ===== *)
(** * The chain ([internal/chain/chain.go], [internal/chain/reorg.go], the maps of
    [internal/store/store.go])

    Production, ingestion and reorganisation of blocks, finality, sharded storage
    and reconstruction, and fast sync, as programs of [M Chain].  The files of the
    store are maps from what names them to what was written; file errors are not
    modelled.  Reading a JSON file gives back what was written, except that the
    fields a ledger does not write come back zero.  The ledger's resolvers
    ([BodyHashAt], [ShardAt], [ShardProofOK]) are closures over the chain: they read
    the store as it is when they are called, which [resolve] makes explicit.  Walks
    along parents are bounded by [fuel]; a walk that runs out (in Go: one that never
    ends) is given the outcome [PANIC], and [ChainProps] shows when none does. *)

From S2P Require Import Prelude Sha256 Crypto Economy Merkle Netparams Types Forkchoice Rendezvous Consensus Erasure Bloom State StateStore Strconv.

(** ** The store *)

Record Store := MkStore {
  st_headers : gmap Z (Header * ShardSet);
  st_logsets : gmap Z ShardSet;
  st_bodies : gmap Hash Block;
  st_base : option (Hash * Z * State);
  st_shards : gmap (Hash * Z) bytes;
}.

Definition PutHeader (h : Header) (set : ShardSet) (st : Store) : Store :=
  MkStore (<[hd_Height h := (h, set)]> (st_headers st)) (st_logsets st) (st_bodies st) (st_base st) (st_shards st).
Definition PutLogsSet (h : Z) (set : ShardSet) (st : Store) : Store :=
  MkStore (st_headers st) (<[h := set]> (st_logsets st)) (st_bodies st) (st_base st) (st_shards st).
Definition PutBlock (id : Hash) (b : Block) (st : Store) : Store :=
  MkStore (st_headers st) (st_logsets st) (<[id := b]> (st_bodies st)) (st_base st) (st_shards st).
Definition PutState (id : Hash) (h : Z) (s : State) (st : Store) : Store :=
  MkStore (st_headers st) (st_logsets st) (st_bodies st) (Some (id, h, s)) (st_shards st).
Definition PutShard (id : Hash) (i : Z) (data : bytes) (st : Store) : Store :=
  MkStore (st_headers st) (st_logsets st) (st_bodies st) (st_base st) (<[(id, i) := data]> (st_shards st)).

Definition GetHeader (h : Z) (st : Store) : res (Header * ShardSet) :=
  match st_headers st !! h with Some r => Ok r | None => Err ErrNotExist end.
Definition GetShard (id : Hash) (i : Z) (st : Store) : option bytes := st_shards st !! (id, i).
Definition GetLogsSet (height : Z) (st : Store) : option ShardSet := st_logsets st !! height.
Definition GetBlockRaw (id : Hash) (st : Store) : option Block := st_bodies st !! id.
Definition GetStateRaw (st : Store) : option (Hash * Z * State) := st_base st.

(** [Store.Height] and [HasHeaders] list the directory of headers. *)
Definition Store_Height (st : Store) : Z := foldr Z.max 0 (map_to_list (st_headers st)).*1.
Definition HasHeaders (st : Store) : bool := negb (bool_decide (st_headers st = ∅)).

(** [HeldShards] lists the directory of the block, which [os.ReadDir] sorts by file name. *)
Definition shard_file (i : Z) : string := string_of (bytes_of (Itoa i) ++ bytes_of ".shard").
Definition file_le (i j : Z) : Prop := str_le (shard_file i) (shard_file j).
#[global] Instance file_le_dec : RelDecision file_le.
Proof. intros i j. unfold file_le. apply _. Defined.
Definition HeldShards (id : Hash) (st : Store) : list Z :=
  merge_sort file_le (filter (λ k, k.1 = id) (map_to_list (st_shards st)).*1).*2.

(** The loop of [HeaderByID], from height [n - 1] down; its index is an [int64]. *)
Fixpoint header_scan (n : nat) (id : Hash) (st : Store) : option (Header * ShardSet) :=
  match n with
  | O => None
  | S n' =>
      match GetHeader (Z.of_nat n') st with
      | Ok r => if bool_decide (ID r.1 = id) then Some r else header_scan n' id st
      | _ => header_scan n' id st
      end
  end.
Definition HeaderByID (id : Hash) (st : Store) : res (Header * ShardSet) :=
  match header_scan (Z.to_nat (int_of_u64 (Store_Height st) + 1)) id st with Some r => Ok r | None => Err ErrNotExist end.

(** What [encoding/json] keeps of a ledger: the unexported and ["-"] fields are lost. *)
Definition json_state (s : State) : State :=
  MkState (Accounts s) (Validators s) (Height s) (Minted s) (FaucetClaims s) []
    (MkConfig (ChainID (cfg s)) 0 0 0 0 0 "" None 0 0 0 None None).

(** [State.Save]: what the file holds afterwards.  [Load] of a file; its two maps are
    allocated when the file has none. *)
Definition State_Save (s : State) : option State := Some (json_state s).
Definition State_Load (file : option State) : res State :=
  match file with Some s => Ok (json_state s) | None => Err ErrNotExist end.

(** ** The chain *)

Record Chain := MkChain {
  ch_store : Store; ch_state : State; ch_bloom : option Filter;
  ch_head : Header; ch_hasGen : bool;
  ch_tree : Tree; ch_blockByID : gmap Hash Block;
  ch_replayBase : option State; ch_replayBaseID : Hash; ch_replayBaseHeight : Z;
}.

Definition set_store st c := MkChain st (ch_state c) (ch_bloom c) (ch_head c) (ch_hasGen c) (ch_tree c)
  (ch_blockByID c) (ch_replayBase c) (ch_replayBaseID c) (ch_replayBaseHeight c).
Definition set_ledger s c := MkChain (ch_store c) s (ch_bloom c) (ch_head c) (ch_hasGen c) (ch_tree c)
  (ch_blockByID c) (ch_replayBase c) (ch_replayBaseID c) (ch_replayBaseHeight c).
Definition set_bloom f c := MkChain (ch_store c) (ch_state c) f (ch_head c) (ch_hasGen c) (ch_tree c)
  (ch_blockByID c) (ch_replayBase c) (ch_replayBaseID c) (ch_replayBaseHeight c).
Definition set_tip h c := MkChain (ch_store c) (ch_state c) (ch_bloom c) h true (ch_tree c)
  (ch_blockByID c) (ch_replayBase c) (ch_replayBaseID c) (ch_replayBaseHeight c).
Definition set_tree t c := MkChain (ch_store c) (ch_state c) (ch_bloom c) (ch_head c) (ch_hasGen c) t
  (ch_blockByID c) (ch_replayBase c) (ch_replayBaseID c) (ch_replayBaseHeight c).
Definition set_cache m c := MkChain (ch_store c) (ch_state c) (ch_bloom c) (ch_head c) (ch_hasGen c) (ch_tree c)
  m (ch_replayBase c) (ch_replayBaseID c) (ch_replayBaseHeight c).
Definition set_base s id h c := MkChain (ch_store c) (ch_state c) (ch_bloom c) (ch_head c) (ch_hasGen c) (ch_tree c)
  (ch_blockByID c) s id h.

Definition header0 : Header := MkHeader 0 Zero Zero 0 "" 0 0 (MkSpec 0 0) Zero Zero [] [].

(** ** What the other components ask *)

Definition Chain_Head (c : Chain) : option Header := if ch_hasGen c then Some (ch_head c) else None.
Definition Chain_Height (c : Chain) : Z := hd_Height (ch_head c).
Definition Chain_HeadID (c : Chain) : Hash := if ch_hasGen c then ID (ch_head c) else Zero.
Definition Finalized (c : Chain) : Z := ch_replayBaseHeight c.

(** ** Resolvers *)

Definition BodyHashAt (st : Store) (h : Z) : option Hash :=
  match GetHeader h st with Ok (hdr, _) => Some (hd_BodyHash hdr) | _ => None end.
Definition ShardAt (st : Store) (h : Z) : option (Hash * Z) :=
  match GetHeader h st with Ok (hdr, set) => Some (ID hdr, Total (ss_Spec set)) | _ => None end.
Definition ShardProofOK (st : Store) (h i : Z) (shard : bytes) : bool :=
  match GetHeader h st with Ok (_, set) => VerifyShard set i shard | _ => false end.

Definition resolve_cfg (st : Store) (c : Config) : Config :=
  MkConfig (ChainID c) (RegPoWBits c) (FaucetBits c) (FaucetAmount c) (FaucetCooldown c) (FaucetDepth c)
    (FaucetSource c) ((λ _, BodyHashAt st) <$> AnchorBodyHash c)
    (StorageWindow c) (StorageMinDepth c) (StorageCap c)
    ((λ _, ShardAt st) <$> State.ShardAt c) ((λ _, ShardProofOK st) <$> State.ShardProofOK c).
Definition resolve (st : Store) (s : State) : State := set_cfg (resolve_cfg st (cfg s)) s.

Section chain.
Context `{Platform} `{ReedSolomon}.
(** The engine reads the validator registry of the ledger when it is asked. *)
Context (engine : State → Engine).
(** Configuration: the node's id, the members [members()] lists, the round length,
    the genesis time, the finality depth, the remote shard source. *)
Context (selfID : string) (members : list string) (blockTime genesisTS finalityDepth : Z)
  (source : option (Hash → Z → ShardSet → option bytes)).
Context (fuel : nat).

(** What the network policy picks for the current membership. *)
Definition replFor : Z := Replication (zlen members).
Definition specFor : ShardSpec := Spec (zlen members).

Local Abbreviation MC := (Prelude.M Chain).

(** ** Construction *)

Definition loadReplayBase (c : Chain) : Chain :=
  match GetStateRaw (ch_store c) with
  | None => c
  | Some (id, h, s) => set_base (Some (json_state s)) id h c
  end.

(** [chain.New]: on a fresh store the chain has no genesis; after a restart the tree
    holds the head alone. *)
Definition New (st : Store) (s : State) (bf : option Filter) : Chain :=
  let c := MkChain st s bf header0 false Forkchoice.New ∅ None Zero 0 in
  loadReplayBase
    (if HasHeaders st then
       match GetHeader (Store_Height st) st with
       | Ok (hdr, _) =>
           let c := set_tree (Forkchoice.Add (ID hdr) (hd_PrevHash hdr) (hd_Height hdr) 1 (ch_tree c)) (set_tip hdr c) in
           match GetBlockRaw (ID hdr) st with
           | Some b => set_cache (<[ID hdr := b]> (ch_blockByID c)) c
           | None => c
           end
       | _ => c
       end
     else c).

(** ** Blocks by id *)

(** [Chain.block]: the cache, or the disk, filling the cache. *)
Definition block (id : Hash) : MC (option Block) :=
  c ← get;
  match ch_blockByID c !! id with
  | Some b => mret (Some b)
  | None =>
      match GetBlockRaw id (ch_store c) with
      | Some b => modify (set_cache (<[id := b]> (ch_blockByID c))) ≫= λ _, mret (Some b)
      | None => mret None
      end
  end.

(** The parent walks of [walkDown] and [advanceFinality]: from [id] down to [stop]
    (exclusive), keeping the blocks [keep] selects, newest first. *)
Fixpoint walk (n : nat) (keep : Block → bool) (id stop : Hash) (rev : list Block) : MC (option (list Block)) :=
  if bool_decide (id = stop) then mret (Some rev) else
  match n with
  | O => panic
  | S n' =>
      b ← block id;
      match b with
      | None => mret None
      | Some b =>
          let rev := if keep b then rev ++ [b] else rev in
          if bool_decide (hd_PrevHash (b_Header b) = Zero) then mret None
          else walk n' keep (hd_PrevHash (b_Header b)) stop rev
      end
  end.

Definition walkDown (tip stop : Hash) : MC (option (list Block)) :=
  r ← walk fuel (λ _, true) tip stop []; mret (reverse <$> r).

(** ** Sharded persistence *)

Definition bloom_add (h : Hash) : MC unit :=
  c ← get;
  match ch_bloom c with
  | None => mret tt
  | Some f => f ← lift (Bloom.Add h f); modify (set_bloom (Some f))
  end.

(** From shard [i] on. *)
Fixpoint storeAssignedShards (id : Hash) (i : Z) (shards : list bytes) (set : ShardSet) : MC unit :=
  match shards with
  | [] => mret tt
  | data :: r =>
      (if IsHolder selfID members id i replFor then
         modify (λ c, set_store (PutShard id i data (ch_store c)) c) ≫= λ _,
         match ss_ShardHash set !! Z.to_nat i with
         | Some h => bloom_add h
         | None => panic
         end
       else mret tt) ≫= λ _, storeAssignedShards id (i + 1) r set
  end.

Definition persistBlockSet (hdr : Header) (body : bytes) : MC ShardSet :=
  r ← lift (BuildShardSet (ID hdr) body (hd_Spec hdr));
  modify (λ c, set_store (PutHeader hdr r.2 (ch_store c)) c) ≫= λ _,
  storeAssignedShards (ID hdr) 0 r.1 r.2 ≫= λ _, mret r.2.

Definition persistBlock (hdr : Header) (body : bytes) : MC unit := _ ← persistBlockSet hdr body; mret tt.

Definition logs_prefix : bytes := bytes_of "sl-logs:".
Definition logsID (blockID : Hash) : Hash := sha256 (logs_prefix ++ blockID).

Definition persistLogs (hdr : Header) : MC unit :=
  c ← get;
  match lastLogs (ch_state c) with
  | [] => mret tt
  | logs =>
      match BuildShardSet (logsID (ID hdr)) (EncodeLogs logs) (hd_Spec hdr) with
      | Err _ => mret tt
      | Panic => panic
      | Ok (shards, set) =>
          modify (λ c, set_store (PutLogsSet (hd_Height hdr) set (ch_store c)) c) ≫= λ _,
          storeAssignedShards (logsID (ID hdr)) 0 shards set
      end
  end.

(** ** Ledger steps *)

(** [c.state.ApplyBlock(b)] *)
Definition apply_state (b : Block) : MC unit := λ c,
  match ApplyBlock b (resolve (ch_store c) (ch_state c)) with
  | OK s u => OK (set_ledger s c) u
  | ERR s e => ERR (set_ledger s c) e
  | PANIC s => PANIC (set_ledger s c)
  end.

(** A branch on a ledger of its own, while the store stands still. *)
Fixpoint replay (bs : list Block) : Prelude.M State unit :=
  match bs with [] => mret tt | b :: r => ApplyBlock b ≫= λ _, replay r end.

Definition saveReplayBase : MC unit :=
  modify (λ c, match ch_replayBase c with
    | None => c
    | Some s => set_store (PutState (ch_replayBaseID c) (ch_replayBaseHeight c) s (ch_store c)) c
    end).

Definition recordBlock (b : Block) : MC unit :=
  let id := ID (b_Header b) in
  modify (λ c, set_store (PutBlock id b (ch_store c))
    (set_cache (<[id := b]> (ch_blockByID c))
      (set_tree (Forkchoice.Add id (hd_PrevHash (b_Header b)) (hd_Height (b_Header b)) 1 (ch_tree c)) c))).

(** The clone the winning or final blocks are replayed on. *)
Definition fresh_base (c : Chain) (base : State) : State :=
  resolve (ch_store c) (InheritConfig (ch_state c) (Clone base)).

Definition advanceFinality : MC unit :=
  c ← get;
  match ch_replayBase c with
  | None => mret tt
  | Some base =>
      if (finalityDepth =? 0) || (hd_Height (ch_head c) <? finalityDepth) then mret tt else
      let target := hd_Height (ch_head c) - finalityDepth in
      if target <=? ch_replayBaseHeight c then mret tt else
      rev ← walk fuel (λ b, hd_Height (b_Header b) <=? target) (ID (ch_head c)) (ch_replayBaseID c) [];
      match rev with
      | None => mret tt
      | Some rev =>
          match replay (reverse rev) (fresh_base c base) with
          | PANIC _ => panic
          | ERR _ _ => mret tt
          | OK ns _ =>
              modify (λ c, match rev with
                | b :: _ => set_base (Some ns) (ID (b_Header b)) (hd_Height (b_Header b)) c
                | [] => set_base (Some ns) (ch_replayBaseID c) (ch_replayBaseHeight c) c
                end) ≫= λ _, saveReplayBase
          end
      end
  end.

Definition SetCheckpoint (id : Hash) (s : State) : MC unit :=
  modify (set_base (Some (Clone s)) id (Height s)) ≫= λ _, saveReplayBase.

(** ** Genesis *)

Definition genesis_txs (funding : gmap Address Z) : list Transaction :=
  (λ a, MkTx "" a (default 0 (funding !! a)) 0 0 0 0 0 [] [] []) <$> merge_sort str_le (elements (dom funding)).

Definition genesis_header (funding : gmap Address Z) (val : Address) (kp : option KeyPair) : Header :=
  let txs := genesis_txs funding in
  let hdr := MkHeader 0 Zero (MerkleRootOf txs) genesisTS val (u32 (zlen txs)) 0 GenesisSpec
               (BodyHash (EncodeTxs txs)) Zero [] [] in
  match kp with
  | Some k => if bool_decide (KeyPair_Address k = val) then Header_Sign hdr k else hdr
  | None => hdr
  end.

(** The funding loop, over the entries in the order [range] visits them. *)
Definition fund (entries : list (Address * Z)) (s : State) : State * Z :=
  foldl (λ p e, (Credit e.1 e.2 p.1, u64 (p.2 + e.2))) (s, 0) entries.

Definition Genesis (funding : gmap Address Z) (val : Address) (kp : option KeyPair) : MC Block :=
  c ← get;
  require (negb (ch_hasGen c)) ErrHasGenesis ≫= λ _,
  let hdr := genesis_header funding val kp in
  let blk := MkBlock hdr (genesis_txs funding) in
  let '(s, premine) := fund (map_to_list funding) (ch_state c) in
  let s := RegisterGenesisValidator val (SetMinted premine s) in
  modify (set_ledger (set_head 0 (lastLogs s) s)) ≫= λ _,
  persistBlock hdr (Body blk) ≫= λ _,
  modify (λ c, set_base (Some (Clone (ch_state c))) (ID hdr) 0 (set_tip hdr c)) ≫= λ _,
  modify (λ c, set_store (PutBlock (ID hdr) blk (ch_store c))
    (set_cache (<[ID hdr := blk]> (ch_blockByID c))
      (set_tree (Forkchoice.Add (ID hdr) Zero 0 1 (ch_tree c)) c))) ≫= λ _,
  saveReplayBase ≫= λ _, mret blk.

(** ** Production *)

Definition total_fees (txs : list Transaction) : Z := foldl (λ f t, u64 (f + tx_Fee t)) 0 txs.

(** The coinbase in front, unless there is nothing to pay. *)
Definition with_coinbase (to : Address) (amount : Z) (txs : list Transaction) : list Transaction :=
  (if 0 <? amount then [MkTx "" to amount 0 0 0 0 0 [] [] []] else []) ++ txs.

(** The header before execution; [now] is [time.Now().Unix()]. *)
Definition draft_header (prev : Header) (full : list Transaction) (to : Address) (now round : Z) : Header :=
  MkHeader (u64 (hd_Height prev + 1)) (ID prev) (MerkleRootOf full) now to (u32 (zlen full)) round
    specFor (BodyHash (EncodeTxs full)) Zero [] [].

Definition with_logs_root (h : Header) (root : Hash) : Header :=
  MkHeader (hd_Height h) (hd_PrevHash h) (hd_MerkleRoot h) (hd_Timestamp h) (hd_Validator h) (hd_TxCount h)
    (hd_Round h) (hd_Spec h) (hd_BodyHash h) root (hd_Sig h) (hd_ValPubKey h).

Definition ProduceBlock (txs : list Transaction) (kp : KeyPair) (round now : Z) : MC (Block * ShardSet) :=
  c ← get;
  require (ch_hasGen c) ErrNoGenesis ≫= λ _,
  let prev := ch_head c in
  let height := u64 (hd_Height prev + 1) in
  let amount := u64 (NextReward (ch_state c) height + total_fees txs) in
  let full := with_coinbase (KeyPair_Address kp) amount txs in
  let draft := draft_header prev full (KeyPair_Address kp) now round in
  apply_state (MkBlock draft full) ≫= λ _,
  c ← get;
  let hdr := Header_Sign (with_logs_root draft (LogsRootOf (lastLogs (ch_state c)))) kp in
  let blk := MkBlock hdr full in
  set ← persistBlockSet hdr (EncodeTxs full);
  persistLogs hdr ≫= λ _,
  modify (set_tip hdr) ≫= λ _,
  recordBlock blk ≫= λ _,
  advanceFinality ≫= λ _, mret (blk, set).

(** ** Ingestion: head + 1 only *)

(** The checks of [ApplyExternalBlock] before execution. *)
Definition check_external (now : Z) (blk : Block) : MC unit :=
  c ← get;
  let hdr := b_Header blk in
  require (ch_hasGen c) ErrNoGenesis ≫= λ _,
  lift (@AuthorizeHeader _ (engine (ch_state c)) hdr) ≫= λ _,
  require (hd_Height hdr =? u64 (hd_Height (ch_head c) + 1)) ErrBadHeight ≫= λ _,
  require (bool_decide (hd_PrevHash hdr = ID (ch_head c))) ErrBadPrev ≫= λ _,
  require (negb (hd_Timestamp hdr <? i64 (hd_Timestamp (ch_head c) + i64 (hd_Round hdr * blockTime)))) ErrBadRound ≫= λ _,
  require (negb (i64 (now + i64 (2 * blockTime)) <? hd_Timestamp hdr)) ErrBadRound ≫= λ _,
  require (bool_decide (MerkleRootOf (b_Txs blk) = hd_MerkleRoot hdr)) ErrBadMerkle ≫= λ _,
  require (bool_decide (BodyHash (Body blk) = hd_BodyHash hdr)) ErrBadBodyHash.

Definition ApplyExternalBlock (now : Z) (blk : Block) : MC unit :=
  let hdr := b_Header blk in
  check_external now blk ≫= λ _,
  apply_state blk ≫= λ _,
  c ← get;
  require (bool_decide (LogsRootOf (lastLogs (ch_state c)) = hd_LogsRoot hdr)) ErrBadLogsRoot ≫= λ _,
  persistBlockSet hdr (Body blk) ≫= λ _,
  persistLogs hdr ≫= λ _,
  modify (set_tip hdr) ≫= λ _,
  recordBlock blk ≫= λ _,
  advanceFinality.

(** ** Ingestion: any branch *)

Definition commitCanonical (b : Block) : MC unit :=
  try_ (persistBlockSet (b_Header b) (Body b)) ≫= λ _, persistLogs (b_Header b).

(** A failing block is [ErrReorgReplay]. *)
Definition or_replay {A} (m : MC A) : MC A :=
  r ← try_ m; match r with inl _ => throw ErrReorgReplay | inr a => mret a end.

Fixpoint fast_forward (bs : list Block) : MC unit :=
  match bs with
  | [] => mret tt
  | b :: r => or_replay (apply_state b) ≫= λ _, commitCanonical b ≫= λ _, fast_forward r
  end.

Fixpoint commit_all (bs : list Block) : MC unit :=
  match bs with [] => mret tt | b :: r => commitCanonical b ≫= λ _, commit_all r end.

(** [if n := len(bs); n > 0 { c.head = bs[n-1].Header; c.advanceFinality() }] *)
Definition follow (bs : list Block) : MC unit :=
  match last bs with
  | None => mret tt
  | Some b => modify (set_tip (b_Header b)) ≫= λ _, advanceFinality
  end.

Definition reorg (best : Hash) : MC unit :=
  c ← get;
  match ch_replayBase c with
  | None => mret tt
  | Some base =>
      branch ← walkDown best (ch_replayBaseID c);
      match branch with
      | None => mret tt
      | Some bs =>
          match replay bs (fresh_base c base) with
          | PANIC _ => panic
          | ERR _ _ => throw ErrReorgReplay
          | OK ns _ =>
              modify (λ c, set_ledger (ReplaceWith ns (ch_state c)) c) ≫= λ _,
              commit_all bs ≫= λ _, follow bs
          end
      end
  end.

Definition reorgToBest : MC unit :=
  c ← get;
  let best := (Best (ch_tree c)).1 in
  if bool_decide (best = ID (ch_head c)) then mret tt else
  suffix ← walkDown best (ID (ch_head c));
  match suffix with
  | Some bs => fast_forward bs ≫= λ _, follow bs
  | None => reorg best
  end.

Definition AcceptBlock (blk : Block) : MC unit :=
  c ← get;
  require (ch_hasGen c) ErrNoGenesis ≫= λ _,
  let hdr := b_Header blk in
  match Forkchoice.Height (ch_tree c) (ID hdr) with
  | Some _ => mret tt
  | None =>
      lift (@AuthorizeHeader _ (engine (ch_state c)) hdr) ≫= λ _,
      require (bool_decide (MerkleRootOf (b_Txs blk) = hd_MerkleRoot hdr)) ErrBadMerkle ≫= λ _,
      require (bool_decide (BodyHash (Body blk) = hd_BodyHash hdr)) ErrBadBodyHash ≫= λ _,
      parent ← block (hd_PrevHash hdr);
      match parent with
      | None => throw ErrUnknownParent
      | Some p =>
          require (hd_Height hdr =? u64 (hd_Height (b_Header p) + 1)) ErrBadHeight ≫= λ _,
          require (negb (hd_Timestamp hdr <? i64 (hd_Timestamp (b_Header p) + i64 (hd_Round hdr * blockTime)))) ErrBadRound ≫= λ _,
          recordBlock blk ≫= λ _, reorgToBest
      end
  end.

(** ** Fast sync *)

(** The verification loop of [SyncInstall], from record [i] on; headers are stored
    as they pass. *)
Fixpoint sync_records (i : Z) (prevID : Hash) (records : list (Header * ShardSet)) : MC unit :=
  match records with
  | [] => mret tt
  | (h, set) :: r =>
      c ← get;
      require (hd_Height h =? i) ErrBadHeight ≫= λ _,
      require (bool_decide (hd_PrevHash h = if i =? 0 then Zero else prevID)) ErrBadPrev ≫= λ _,
      lift (@AuthorizeHeader _ (engine (ch_state c)) h) ≫= λ _,
      modify (λ c, set_store (PutHeader h set (ch_store c)) c) ≫= λ _,
      sync_records (i + 1) (ID h) r
  end.

Definition SyncInstall (records : list (Header * ShardSet)) (snap : State) : MC unit :=
  match last records with
  | None => throw ErrReconstruct
  | Some (tip, _) =>
      sync_records 0 Zero records ≫= λ _,
      modify (λ c, set_tip tip (set_ledger (ReplaceWith snap (ch_state c)) c)) ≫= λ _,
      modify (λ c, set_base (Some (Clone snap)) (ID tip) (hd_Height tip)
        (set_cache (<[ID tip := MkBlock tip []]> (ch_blockByID c))
          (set_tree (Forkchoice.Add (ID tip) (hd_PrevHash tip) (hd_Height tip) 1 (ch_tree c)) c))) ≫= λ _,
      saveReplayBase
  end.

(** ** Reconstruction *)

(** The shards held on disk that match their commitment. *)
Definition local_shards (st : Store) (id : Hash) (set : ShardSet) : list (option bytes) :=
  (λ i, d ← GetShard id i st; if VerifyShard set i d then Some d else None) <$> seqZ 0 (Total (ss_Spec set)).

(** The slow path: ask for the missing ones, from index [i] on, until [K] are there. *)
Fixpoint fetch_shards (src : Hash → Z → ShardSet → option bytes) (id : Hash) (set : ShardSet)
    (i have : Z) (slots : list (option bytes)) : list (option bytes) :=
  match slots with
  | [] => []
  | s :: r =>
      if K (ss_Spec set) <=? have then slots else
      match s with
      | Some _ => s :: fetch_shards src id set (i + 1) have r
      | None =>
          match src id i set with
          | Some d =>
              if VerifyShard set i d then Some d :: fetch_shards src id set (i + 1) (have + 1) r
              else None :: fetch_shards src id set (i + 1) have r
          | None => None :: fetch_shards src id set (i + 1) have r
          end
      end
  end.

Definition gather (st : Store) (id : Hash) (set : ShardSet) : list (option bytes) :=
  let slots := local_shards st id set in
  match source with
  | Some src => fetch_shards src id set 0 (present slots) slots
  | None => slots
  end.

Definition reconstructShards (st : Store) (id : Hash) (set : ShardSet) : res bytes :=
  let slots := gather st id set in
  if present slots <? K (ss_Spec set) then Err ErrReconstruct
  else Reconstruct slots (ss_Spec set) (ss_OrigLen set).

Definition ReconstructBody (st : Store) (height : Z) : res (list Transaction) :=
  r ← GetHeader height st;
  body ← reconstructShards st (ID r.1) r.2;
  DecodeTxs body.

(** [None] stands for the ["[]"] of every early return. *)
Definition Chain_Logs (st : Store) (height : Z) : res (option (list Log)) :=
  match GetLogsSet height st with
  | None => Ok None
  | Some set =>
      match GetHeader height st with
      | Ok (hdr, _) =>
          match reconstructShards st (logsID (ID hdr)) set with
          | Panic => Panic
          | Err _ => Ok None
          | Ok raw =>
              match DecodeLogs raw with
              | Panic => Panic
              | Err _ => Ok None
              | Ok logs => if bool_decide (LogsRootOf logs = hd_LogsRoot hdr) then Ok (Some logs) else Ok None
              end
          end
      | _ => Ok None
      end
  end.

Definition VerifyAvailable (st : Store) (height : Z) : res bool :=
  match GetHeader height st with
  | Panic => Panic
  | Err e => Err e
  | Ok (hdr, set) =>
      match reconstructShards st (ID hdr) set with
      | Panic => Panic
      | Err _ => Ok false
      | Ok body =>
          if negb (bool_decide (BodyHash body = hd_BodyHash hdr)) then Ok false else
          match DecodeTxs body with
          | Panic => Panic
          | Err _ => Ok false
          | Ok txs => Ok (bool_decide (MerkleRootOf txs = hd_MerkleRoot hdr))
          end
      end
  end.

(** [Ok None] is [ok = false]. *)
Definition ShardBytes (st : Store) (height i : Z) : res (option bytes) :=
  match GetHeader height st with
  | Ok (hdr, set) =>
      if (i <? 0) || (Total (ss_Spec set) <=? i) then Ok None else
      let again :=
        match reconstructShards st (ID hdr) set with
        | Panic => Panic
        | Err _ => Ok None
        | Ok body =>
            match Encode body (ss_Spec set) with
            | Panic => Panic
            | Err _ => Ok None
            | Ok (shards, _, _) => Ok (shards !! Z.to_nat i)
            end
        end in
      match GetShard (ID hdr) i st with
      | Some data => if VerifyShard set i data then Ok (Some data) else again
      | None => again
      end
  | _ => Ok None
  end.
End chain.

(** ** Which errors count as forgery *)

Definition IsForgery (e : error) : bool :=
  match e with
  | ErrBadMerkle | ErrBadBodyHash | ErrBadLogsRoot | ErrBadRound
  | ErrBadSignature | ErrPubAddrMismatch | ErrUnauthorizedValidator | ErrNotLeader => true
  | _ => false
  end.
