(* ===== verification/ChainProps.v ===== *)
(** * The chain: ingestion of blocks

    What storing, finality and the head + 1 path do to each part of the chain. *)

From S2P Require Import Prelude Sha256 Crypto Economy Merkle Netparams Types Forkchoice Rendezvous Consensus Erasure Bloom Vm State StateInv StateBlock Demo Chain.

(** ** What sharded persistence leaves alone *)

(** Everything but the filter and the files of headers, logs and shards. *)
Definition core (c : Chain) :=
  (ch_state c, (ch_head c, ch_hasGen c), ch_tree c, (ch_blockByID c, st_bodies (ch_store c)),
   (ch_replayBase c, ch_replayBaseID c, ch_replayBaseHeight c, st_base (ch_store c))).

(** The filter is one [New] made and [Add]s filled. *)
Definition bloom_ok (c : Chain) : Prop := ∀ f, ch_bloom c = Some f → filter_wf f.

Section persist.
Context `{ReedSolomon} (selfID : string) (members : list string).

Lemma bloom_add_ok h c : bloom_ok c → ∃ c', bloom_add h c = OK c' tt ∧ core c' = core c ∧ ch_store c' = ch_store c ∧ bloom_ok c'.
Proof.
  unfold bloom_ok. intros Hc. unfold bloom_add, mbind, M_bind; simpl. destruct (ch_bloom c) as [f|] eqn:E.
  - destruct (Add_ok f h (Hc f eq_refl)) as (g & Eg & Hg). unfold lift. rewrite Eg. eexists. split; [done|].
    split_and!; [done..|]. simpl. by intros ? [= <-].
  - exists c. split_and!; [done..|]. congruence.
Qed.

Lemma storeAssigned_ok id shards set : ∀ i c, bloom_ok c → 0 <= i → i + zlen shards <= zlen (ss_ShardHash set) →
  ∃ c', storeAssignedShards selfID members id i shards set c = OK c' tt ∧ core c' = core c ∧ bloom_ok c' ∧
    st_headers (ch_store c') = st_headers (ch_store c) ∧ st_logsets (ch_store c') = st_logsets (ch_store c).
Proof.
  induction shards as [|d r IH]; intros i c Hb Hi Hl; cbn [storeAssignedShards]; [by exists c|].
  unfold zlen in Hl; rewrite length_cons in Hl.
  assert (∀ c1, bloom_ok c1 → ∃ c', storeAssignedShards selfID members id (i + 1) r set c1 = OK c' tt ∧
    core c' = core c1 ∧ bloom_ok c' ∧ st_headers (ch_store c') = st_headers (ch_store c1) ∧
    st_logsets (ch_store c') = st_logsets (ch_store c1)) as Hr by (intros; apply IH; unfold zlen; [done|lia..]).
  destruct (IsHolder _ _ _ _ _); [|by apply Hr].
  destruct (lookup_lt_is_Some_2 (ss_ShardHash set) (Z.to_nat i)) as [h Hh]; [lia|].
  set (c1 := set_store (PutShard id i d (ch_store c)) c).
  destruct (bloom_add_ok h c1) as (c2 & E2 & Hc2 & Hs2 & Hb2); [exact Hb|].
  destruct (Hr c2 Hb2) as (c3 & E3 & Hc3 & Hb3 & Hh3 & Hl3). exists c3. rewrite Hh, Hc3, Hc2, Hh3, Hl3, Hs2.
  split_and!; [|done..]. unfold mbind, M_bind at 1. unfold mbind, M_bind at 1. unfold modify at 1.
  fold c1. rewrite E2. exact E3.
Qed.

Lemma BuildShardSet_hashes id body spec shards set :
  BuildShardSet id body spec = Ok (shards, set) → zlen shards = zlen (ss_ShardHash set) ∧ ss_BlockID set = id ∧ ss_Spec set = spec.
Proof.
  unfold BuildShardSet, mbind, res_bind. destruct (Encode body spec) as [[[sh p] o]| |]; [|done..].
  intros [= <- <-]. simpl. unfold zlen. by rewrite length_shard_hashes.
Qed.

(** Persisting a block fails exactly as cutting its shards does; otherwise it only
    adds the header, its shards and their hashes. *)
Lemma persistBlockSet_run hdr body c : bloom_ok c →
  match BuildShardSet (ID hdr) body (hd_Spec hdr) with
  | Ok (_, set) => ∃ c', persistBlockSet selfID members hdr body c = OK c' set ∧ core c' = core c ∧ bloom_ok c' ∧
      st_headers (ch_store c') = <[hd_Height hdr := (hdr, set)]> (st_headers (ch_store c)) ∧
      st_logsets (ch_store c') = st_logsets (ch_store c)
  | Err e => persistBlockSet selfID members hdr body c = ERR c e
  | Panic => persistBlockSet selfID members hdr body c = PANIC c
  end.
Proof.
  intros Hb. unfold persistBlockSet. destruct (BuildShardSet _ _ _) as [[shards set]|e|] eqn:E; [|done..].
  apply BuildShardSet_hashes in E as [Hl _].
  destruct (storeAssigned_ok (ID hdr) shards set 0 (set_store (PutHeader hdr set (ch_store c)) c)) as (c' & E' & Hc & Hb' & Hh & Hg);
    [done|done|lia|].
  exists c'. split_and!; [|done..]. unfold mbind, M_bind, lift, modify, mret, M_ret. simpl. by rewrite E'.
Qed.

(** Cutting the shards of the last block's events does not panic. *)
Definition logs_cut (hdr : Header) (s : State) : Prop :=
  lastLogs s = [] ∨ BuildShardSet (logsID (ID hdr)) (EncodeLogs (lastLogs s)) (hd_Spec hdr) ≠ Panic.

Lemma persistLogs_run hdr c : bloom_ok c →
  (logs_cut hdr (ch_state c) ∧ ∃ c', persistLogs selfID members hdr c = OK c' tt ∧ core c' = core c ∧ bloom_ok c' ∧
     st_headers (ch_store c') = st_headers (ch_store c) ∧
     st_logsets (ch_store c') =
       match lastLogs (ch_state c), BuildShardSet (logsID (ID hdr)) (EncodeLogs (lastLogs (ch_state c))) (hd_Spec hdr) with
       | _ :: _, Ok (_, set) => <[hd_Height hdr := set]> (st_logsets (ch_store c))
       | _, _ => st_logsets (ch_store c)
       end) ∨
  (¬ logs_cut hdr (ch_state c) ∧ persistLogs selfID members hdr c = PANIC c).
Proof.
  intros Hb. unfold persistLogs, logs_cut, mbind, M_bind; simpl.
  destruct (lastLogs (ch_state c)) as [|l ls]; [left; split; [by left|by exists c]|].
  destruct (BuildShardSet _ _ _) as [[shards set]|e|] eqn:E;
    [|left; split; [by right|by exists c]|by right; split; [intros [|]|]]. left. split; [by right|].
  apply BuildShardSet_hashes in E as [Hl _].
  destruct (storeAssigned_ok (logsID (ID hdr)) shards set 0 (set_store (PutLogsSet (hd_Height hdr) set (ch_store c)) c))
    as (c' & E' & Hc & Hb' & Hh & Hg); [done|done|lia|]. exists c'. by split_and!.
Qed.
End persist.

(** ** What finality leaves alone *)

(** The ledger, the tip, the tree and the files but the replay base. *)
Definition visible (c : Chain) :=
  (ch_state c, (ch_head c, ch_hasGen c), ch_tree c,
   (st_headers (ch_store c), st_logsets (ch_store c), st_bodies (ch_store c), st_shards (ch_store c)), ch_bloom c).

(** Every outcome of [m] but an error, and the visible part is kept. *)
Definition quiet {A} (m : Prelude.M Chain A) : Prop :=
  ∀ c, wp m (λ _ c', visible c' = visible c) (λ _ _, False) (λ c', visible c' = visible c) c.

Lemma quiet_bind {A B} (m : Prelude.M Chain A) (f : A → Prelude.M Chain B) :
  quiet m → (∀ a, quiet (f a)) → quiet (m ≫= f).
Proof.
  intros Hm Hf c. apply wp_bind. eapply wp_mono; [..|apply Hm]; [|done..].
  intros a c' E. eapply wp_mono; [..|apply (Hf a)]; simpl; [|done|]; congruence.
Qed.
Lemma quiet_ret {A} (a : A) : quiet (mret a).
Proof. done. Qed.
Lemma quiet_panic {A} : quiet (panic (A:=A)).
Proof. done. Qed.
Lemma quiet_get : quiet get.
Proof. done. Qed.
Lemma quiet_modify f : (∀ c, visible (f c) = visible c) → quiet (modify f).
Proof. intros Hf c. apply Hf. Qed.

Ltac quiet_tac := repeat match goal with
  | |- quiet (_ ≫= _) => apply quiet_bind; [|intros ?]
  | |- quiet (if ?b then _ else _) => destruct b
  | |- quiet (match ?x with _ => _ end) => destruct x
  | |- quiet (modify _) => apply quiet_modify; intros ?
  | |- quiet _ => first [apply quiet_ret | apply quiet_panic | apply quiet_get | done]
  end.

Lemma block_quiet id : quiet (block id).
Proof. unfold block. quiet_tac. done. Qed.

Lemma walk_quiet n keep : ∀ id stop rev, quiet (walk n keep id stop rev).
Proof.
  induction n as [|n IH]; intros id stop rev; cbn [walk]; quiet_tac.
  apply block_quiet.
Qed.

Lemma walkDown_quiet n tip stop : quiet (walkDown n tip stop).
Proof. unfold walkDown. quiet_tac. apply walk_quiet. Qed.

Section finality.
Context `{Platform} (finalityDepth : Z) (fuel : nat).

Lemma saveReplayBase_quiet : quiet saveReplayBase.
Proof. unfold saveReplayBase. apply quiet_modify. intros c. by destruct (ch_replayBase c). Qed.

Lemma advanceFinality_quiet : quiet (advanceFinality finalityDepth fuel).
Proof.
  unfold advanceFinality. quiet_tac.
  - apply walk_quiet.
  - match goal with |- visible (match ?x with _ => _ end) = _ => by destruct x end.
  - apply saveReplayBase_quiet.
Qed.

Lemma advanceFinality_off c : finalityDepth = 0 → advanceFinality finalityDepth fuel c = OK c tt.
Proof. intros ->. unfold advanceFinality, mbind, M_bind. simpl. by destruct (ch_replayBase c). Qed.
End finality.

(** ** The head + 1 path *)

Section external.
Context `{Platform} `{ReedSolomon} (engine : State → Engine) (selfID : string) (members : list string)
  (blockTime finalityDepth : Z) (fuel : nat).

Local Abbreviation apply_external := (ApplyExternalBlock engine selfID members blockTime finalityDepth fuel).

(** The conditions a block has to meet before it is executed. *)
Record acceptable (now : Z) (blk : Block) (c : Chain) : Prop := {
  ax_gen : ch_hasGen c = true;
  ax_auth : @AuthorizeHeader _ (engine (ch_state c)) (b_Header blk) = Ok tt;
  ax_height : hd_Height (b_Header blk) = u64 (hd_Height (ch_head c) + 1);
  ax_prev : hd_PrevHash (b_Header blk) = ID (ch_head c);
  ax_reached : i64 (hd_Timestamp (ch_head c) + i64 (hd_Round (b_Header blk) * blockTime)) <= hd_Timestamp (b_Header blk);
  ax_future : hd_Timestamp (b_Header blk) <= i64 (now + i64 (2 * blockTime));
  ax_merkle : MerkleRootOf (b_Txs blk) = hd_MerkleRoot (b_Header blk);
  ax_body : BodyHash (Body blk) = hd_BodyHash (b_Header blk);
}.

Lemma check_external_run now blk c :
  (acceptable now blk c ∧ check_external engine blockTime now blk c = OK c tt) ∨
  (¬ acceptable now blk c ∧ ∃ e, check_external engine blockTime now blk c = ERR c e) ∨
  (¬ acceptable now blk c ∧ check_external engine blockTime now blk c = PANIC c).
Proof.
  unfold check_external. rewrite (bind_ok get _ c c c eq_refl). cbv zeta. rewrite bind_require.
  destruct (ch_hasGen c) eqn:Hg; [|right; left; split; [by intros []; congruence|eauto]].
  destruct (@AuthorizeHeader _ (engine (ch_state c)) (b_Header blk)) as [[]|e|] eqn:Ha.
  2: { right; left. split; [by intros []; congruence|]. exists e. done. }
  2: { right; right. split; [by intros []; congruence|done]. }
  rewrite (bind_ok (lift (Ok tt)) _ c c tt eq_refl). rewrite !bind_require.
  destruct (Z.eqb_spec (hd_Height (b_Header blk)) (u64 (hd_Height (ch_head c) + 1))) as [Hh|];
    [|right; left; split; [by intros []; congruence|eauto]].
  case_bool_decide as Hp; [|right; left; split; [by intros []; congruence|eauto]].
  destruct (Z.ltb_spec (hd_Timestamp (b_Header blk)) (i64 (hd_Timestamp (ch_head c) + i64 (hd_Round (b_Header blk) * blockTime)))) as [|Ht];
    [right; left; split; [intros []; lia|cbn [negb]; eauto]|]. cbn [negb].
  destruct (Z.ltb_spec (i64 (now + i64 (2 * blockTime))) (hd_Timestamp (b_Header blk))) as [|Hf];
    [right; left; split; [intros []; lia|cbn [negb]; eauto]|]. cbn [negb].
  case_bool_decide as Hm; [|right; left; split; [by intros []; congruence|eauto]].
  unfold require. case_bool_decide as Hb; [|right; left; split; [by intros []; congruence|eauto]].
  left. by split.
Qed.

(** Recording a block: the tree, the cache and the body on disk. *)
Lemma recordBlock_run b c : recordBlock b c = OK
  (set_store (PutBlock (ID (b_Header b)) b (ch_store c))
    (set_cache (<[ID (b_Header b) := b]> (ch_blockByID c))
      (set_tree (Forkchoice.Add (ID (b_Header b)) (hd_PrevHash (b_Header b)) (hd_Height (b_Header b)) 1 (ch_tree c)) c))) tt.
Proof. done. Qed.

(** The steps after execution, which [ProduceBlock] shares. *)
Definition commit (hdr : Header) (blk : Block) : Prelude.M Chain unit :=
  persistLogs selfID members hdr ≫= λ _, modify (set_tip hdr) ≫= λ _, recordBlock blk ≫= λ _,
  advanceFinality finalityDepth fuel.

(** Where the commit steps lead: an error never, a panic only from finality, and the
    tip and the ledger are in place in both cases. *)
Definition installed (hdr : Header) (c c' : Chain) : Prop :=
  ch_state c' = ch_state c ∧ ch_head c' = hdr ∧ ch_hasGen c' = true ∧
  Forkchoice.Height (ch_tree c') (ID hdr) ≠ None ∧ st_headers (ch_store c') = st_headers (ch_store c).

Lemma Add_known id p h w t : Forkchoice.Height (Forkchoice.Add id p h w t) id ≠ None.
Proof.
  unfold Forkchoice.Height, Forkchoice.Add. destruct (t !! id) eqn:E; [by rewrite E|].
  match goal with |- context [<[_:=?e]> _] => by rewrite (lookup_insert_eq t id e) end.
Qed.

Lemma commit_run blk c : let hdr := b_Header blk in bloom_ok c → logs_cut hdr (ch_state c) →
  wp (commit hdr blk) (λ _, installed hdr c) (λ _ _, False) (installed hdr c) c ∧
  (finalityDepth = 0 → is_OK (commit hdr blk c) = true).
Proof.
  cbv zeta. intros Hb Hp. destruct (persistLogs_run selfID members (b_Header blk) c Hb) as [(_ & c1 & E1 & Hc & _ & Hh & _)|[? _]]; [|done].
  unfold commit. assert (∀ B (f : unit → Prelude.M Chain B), (persistLogs selfID members (b_Header blk) ≫= f) c = f tt c1) as Hrun.
  { intros B f. by apply bind_ok. }
  injection Hc as Hs _ _ _ _ _ _ _ _ _. split.
  - unfold wp. rewrite Hrun.
    pose proof (advanceFinality_quiet finalityDepth fuel) as Hq.
    unfold mbind, M_bind, modify at 1. rewrite recordBlock_run.
    match goal with |- context [advanceFinality _ _ ?x] => set (c3 := x); specialize (Hq c3) end.
    assert (∀ c', visible c' = visible c3 → installed (b_Header blk) c c') as Hi.
    { intros c' Hv. unfold visible in Hv. injection Hv as V1 V2 V3 V4 V5 _ _ _ _. unfold installed.
      rewrite V1, V2, V3, V4, V5. subst c3. simpl. split_and!; [done..|apply Add_known|done]. }
    unfold wp in Hq. destruct (advanceFinality finalityDepth fuel c3); auto.
  - intros Hf. rewrite Hrun. unfold mbind, M_bind, modify at 1. rewrite recordBlock_run. by rewrite advanceFinality_off.
Qed.

Lemma apply_state_run b c : apply_state b c =
  match ApplyBlock b (resolve (ch_store c) (ch_state c)) with
  | OK s u => OK (set_ledger s c) u
  | ERR s e => ERR (set_ledger s c) e
  | PANIC s => PANIC (set_ledger s c)
  end.
Proof. done. Qed.

Lemma ledger_bloom s c : bloom_ok c → bloom_ok (set_ledger s c).
Proof. done. Qed.

(** The path of a block that is executed and committed. *)
Lemma external_run now blk c : acceptable now blk c → apply_external now blk c =
  (apply_state blk ≫= λ _, c ← get;
   require (bool_decide (LogsRootOf (lastLogs (ch_state c)) = hd_LogsRoot (b_Header blk))) ErrBadLogsRoot ≫= λ _,
   persistBlockSet selfID members (b_Header blk) (Body blk) ≫= λ _, commit (b_Header blk) blk) c.
Proof.
  intros Ha. destruct (check_external_run now blk c) as [[_ E]|[[? _]|[? _]]]; [|done..].
  unfold ApplyExternalBlock. cbv zeta. by rewrite (bind_ok _ _ _ _ _ E).
Qed.

(** After execution, when the logs match: the block is persisted and committed. *)
Lemma external_persist now blk c s : acceptable now blk c →
  ApplyBlock blk (resolve (ch_store c) (ch_state c)) = OK s tt → LogsRootOf (lastLogs s) = hd_LogsRoot (b_Header blk) →
  apply_external now blk c =
  (persistBlockSet selfID members (b_Header blk) (Body blk) ≫= λ _, commit (b_Header blk) blk) (set_ledger s c).
Proof.
  intros Ha Hrun Hroot. rewrite external_run by done.
  assert (apply_state blk c = OK (set_ledger s c) tt) as E1 by (by rewrite apply_state_run, Hrun).
  rewrite (bind_ok _ _ _ _ _ E1), (bind_ok get _ _ _ _ eq_refl), bind_require. simpl ch_state.
  by rewrite bool_decide_true.
Qed.

Lemma commit_panic hdr blk c : ¬ logs_cut hdr (ch_state c) → bloom_ok c → commit hdr blk c = PANIC c.
Proof.
  intros Hn Hb. destruct (persistLogs_run selfID members hdr c Hb) as [(? & _)|[_ E1]]; [done|].
  unfold commit, mbind, M_bind. by rewrite E1.
Qed.

(** The state after execution, when the logs match and the shards can be cut. *)
Lemma external_installs now blk c s shards set : acceptable now blk c → bloom_ok c →
  ApplyBlock blk (resolve (ch_store c) (ch_state c)) = OK s tt →
  LogsRootOf (lastLogs s) = hd_LogsRoot (b_Header blk) →
  BuildShardSet (ID (b_Header blk)) (Body blk) (hd_Spec (b_Header blk)) = Ok (shards, set) →
  logs_cut (b_Header blk) s →
  let good c' := ch_state c' = s ∧ ch_head c' = b_Header blk ∧ ch_hasGen c' = true ∧
    Forkchoice.Height (ch_tree c') (ID (b_Header blk)) ≠ None ∧
    st_headers (ch_store c') = <[hd_Height (b_Header blk) := (b_Header blk, set)]> (st_headers (ch_store c)) in
  wp (apply_external now blk) (λ _, good) (λ _ _, False) good c ∧
  (finalityDepth = 0 → is_OK (apply_external now blk c) = true).
Proof.
  intros Ha Hb Hrun Hroot Hset Hlogs. unfold wp. rewrite (external_persist _ _ _ s) by done.
  pose proof (persistBlockSet_run selfID members (b_Header blk) (Body blk) (set_ledger s c) (ledger_bloom s c Hb)) as Hp.
  rewrite Hset in Hp. destruct Hp as (c1 & E2 & Hc & Hb1 & Hh & _). rewrite !(bind_ok _ _ _ _ _ E2).
  injection Hc as Hs _ _ _ _ _ _ _ _ _. simpl in Hs.
  destruct (commit_run blk c1 Hb1) as [Hw Hok]; [by rewrite Hs|]. split; [|exact Hok].
  unfold wp in Hw. unfold installed in Hw. rewrite Hs, Hh in Hw.
  destruct (commit (b_Header blk) blk c1); exact Hw.
Qed.

Lemma classic_cut hdr s : logs_cut hdr s ∨ ¬ logs_cut hdr s.
Proof.
  unfold logs_cut. destruct (lastLogs s); [by left; left|]. destruct (BuildShardSet _ _ _); [by left; right..|].
  right. by intros [|].
Qed.

(** [C21] What [ApplyExternalBlock] guarantees. On success the block met every
    condition (an authorized header that extends the tip in height and hash, a
    timestamp its round allows, matching transaction root and body hash), its
    transactions were executed on the ledger, the events match the header's root,
    and the header, its shard commitments, the tree and the tip are in place. On an
    error nothing but the ledger can have changed, and what it is then is stated:
    untouched when the block was refused before execution, rolled back by
    [ApplyBlock], but already executed when only the logs root (or the erasure
    shape) was wrong. *)
Theorem ApplyExternalBlock_spec (now : Z) (blk : Block) (c : Chain) (Hb : bloom_ok c) :
  let hdr := b_Header blk in
  let run := ApplyBlock blk (resolve (ch_store c) (ch_state c)) in
  match apply_external now blk c with
  | OK c' _ =>
      acceptable now blk c ∧ run = OK (ch_state c') tt ∧
      LogsRootOf (lastLogs (ch_state c')) = hd_LogsRoot hdr ∧ ch_head c' = hdr ∧
      Forkchoice.Height (ch_tree c') (ID hdr) ≠ None ∧
      ∃ shards set, BuildShardSet (ID hdr) (Body blk) (hd_Spec hdr) = Ok (shards, set) ∧
        GetHeader (hd_Height hdr) (ch_store c') = Ok (hdr, set)
  | ERR c' e =>
      c' = set_ledger (ch_state c') c ∧
      (¬ acceptable now blk c ∧ c' = c ∨
       acceptable now blk c ∧ (run = ERR (ch_state c') e ∨
         run = OK (ch_state c') tt ∧
           (e = ErrBadLogsRoot ∧ LogsRootOf (lastLogs (ch_state c')) ≠ hd_LogsRoot hdr ∨
            BuildShardSet (ID hdr) (Body blk) (hd_Spec hdr) = Err e)))
  | PANIC _ => True
  end.
Proof.
  cbv zeta. destruct (check_external_run now blk c) as [[Ha _]|[[Hn [e E]]|[_ E]]].
  2: { unfold ApplyExternalBlock. cbv zeta. unfold mbind, M_bind. rewrite E. split; [by destruct c|]. left. by split. }
  2: { unfold ApplyExternalBlock. cbv zeta. unfold mbind, M_bind. by rewrite E. }
  destruct (ApplyBlock blk (resolve (ch_store c) (ch_state c))) as [s []|s e|s] eqn:Erun.
  - destruct (decide (LogsRootOf (lastLogs s) = hd_LogsRoot (b_Header blk))) as [Hr|Hr].
    2: { rewrite external_run by done. assert (apply_state blk c = OK (set_ledger s c) tt) as E1 by (by rewrite apply_state_run, Erun).
         rewrite (bind_ok _ _ _ _ _ E1), (bind_ok get _ _ _ _ eq_refl), bind_require. simpl ch_state.
         rewrite bool_decide_false by done. split; [done|]. right. split; [done|]. right. split; [done|]. left. by split. }
    pose proof (persistBlockSet_run selfID members (b_Header blk) (Body blk) (set_ledger s c) (ledger_bloom s c Hb)) as Hp.
    destruct (BuildShardSet (ID (b_Header blk)) (Body blk) (hd_Spec (b_Header blk))) as [[shards set]|e|] eqn:Eset.
    + destruct (classic_cut (b_Header blk) s) as [Hcut|Hcut].
      * destruct (external_installs now blk c s shards set Ha Hb Erun Hr Eset Hcut) as [Hw _].
        unfold wp in Hw. destruct (apply_external now blk c) as [c' []|c' e'|]; [|done..].
        destruct Hw as (H1' & H2' & H3' & H4' & H5'). rewrite H1'. split_and!; [done..|].
        exists shards, set. split; [done|]. unfold GetHeader. by rewrite H5', lookup_insert_eq.
      * rewrite (external_persist _ _ _ s) by done. destruct Hp as (c1 & E2 & Hc & Hb1 & _). rewrite (bind_ok _ _ _ _ _ E2).
        injection Hc as Hs _ _ _ _ _ _ _ _ _. rewrite commit_panic; [done| |done]. by rewrite Hs.
    + rewrite (external_persist _ _ _ s) by done. unfold mbind, M_bind. rewrite Hp. split; [done|]. right.
      split; [done|]. right. split; [done|]. by right.
    + rewrite (external_persist _ _ _ s) by done. unfold mbind, M_bind. by rewrite Hp.
  - rewrite external_run by done. assert (apply_state blk c = ERR (set_ledger s c) e) as E1 by (by rewrite apply_state_run, Erun).
    unfold mbind, M_bind. rewrite E1. split; [done|]. right. split; [done|]. by left.
  - rewrite external_run by done. unfold mbind, M_bind. by rewrite apply_state_run, Erun.
Qed.
End external.

(** ** Production *)

(** Block application reads the height and the validator of the header only. *)
Section header.
Context `{Platform} (h1 h2 : Header) (Eh : hd_Height h1 = hd_Height h2) (Ev : hd_Validator h1 = hd_Validator h2).

Lemma applyKind_header i t : applyKind h1 i t = applyKind h2 i t.
Proof using Eh. unfold applyKind, applyRegister, applyFaucet, applyStorageProof, prove_storage. by rewrite Eh. Qed.

Lemma applyTxs_header txs : ∀ i fees x, applyTxs h1 i fees txs x = applyTxs h2 i fees txs x.
Proof using Eh.
  induction txs as [|t r IH]; intros i fees x; [done|]. cbn [applyTxs]. unfold applyTx. rewrite applyKind_header.
  unfold mbind, M_bind. destruct (debit t x); [|done..]. destruct (applyKind h2 i t s); [|done..]. apply IH.
Qed.

Lemma ApplyBlock_header txs s : ApplyBlock (MkBlock h1 txs) s = ApplyBlock (MkBlock h2 txs) s.
Proof using Eh Ev.
  unfold ApplyBlock. assert (applyBody (MkBlock h1 txs) (Xst s ∅ []) = applyBody (MkBlock h2 txs) (Xst s ∅ [])) as E.
  { unfold applyBody. simpl. destruct (coinbase_of txs) as [cb payload]. unfold mbind, M_bind. rewrite applyTxs_header.
    destruct (applyTxs h2 0 0 payload (Xst s ∅ [])); [|done..]. unfold applyCoinbase. by rewrite Eh, Ev. }
  rewrite E.
  destruct (applyBody (MkBlock h2 txs) (Xst s ∅ [])) as [x []|x e|x]; simpl.
  - by rewrite Eh.
  - reflexivity.
  - reflexivity.
Qed.
End header.

Section production.
Context `{Platform} `{ReedSolomon} (engine : State → Engine) (blockTime : Z).
(** The producer and the receiver: ids, members, finality depths, fuel. *)
Context (selfP selfR : string) (membersP membersR : list string) (fdP fdR : Z) (fuelP fuelR : nat).

Lemma ProduceBlock_inv txs kp round now P P' blk set : bloom_ok P →
  ProduceBlock selfP membersP fdP fuelP txs kp round now P = OK P' (blk, set) →
  ∃ s shards, ch_hasGen P = true ∧
    hd_Height (b_Header blk) = u64 (hd_Height (ch_head P) + 1) ∧ hd_PrevHash (b_Header blk) = ID (ch_head P) ∧
    hd_Timestamp (b_Header blk) = now ∧ hd_Round (b_Header blk) = round ∧
    MerkleRootOf (b_Txs blk) = hd_MerkleRoot (b_Header blk) ∧ BodyHash (Body blk) = hd_BodyHash (b_Header blk) ∧
    ApplyBlock blk (resolve (ch_store P) (ch_state P)) = OK s tt ∧ LogsRootOf (lastLogs s) = hd_LogsRoot (b_Header blk) ∧
    BuildShardSet (ID (b_Header blk)) (Body blk) (hd_Spec (b_Header blk)) = Ok (shards, set) ∧
    logs_cut (b_Header blk) s ∧ ch_state P' = s ∧ ch_head P' = b_Header blk ∧ ∃ h, b_Header blk = Header_Sign h kp.
Proof.
  intros Hb. unfold ProduceBlock. rewrite (bind_ok get _ _ _ _ eq_refl), bind_require.
  destruct (ch_hasGen P) eqn:Hg; [|done]. cbv zeta.
  set (draft := draft_header _ _ _ _ _ _). set (full := with_coinbase _ _ _).
  intros (u & P1 & E1 & Hrest)%bind_OK_inv. destruct u. rewrite apply_state_run in E1.
  destruct (ApplyBlock (MkBlock draft full) (resolve (ch_store P) (ch_state P))) as [s []| |] eqn:Erun; [|done..].
  apply OK_inj in E1 as [<- _]. rewrite (bind_ok get _ _ _ _ eq_refl) in Hrest. simpl ch_state in Hrest.
  set (hdr := Header_Sign _ _) in Hrest. apply bind_OK_inv in Hrest as (set' & P2 & E2 & Hrest).
  pose proof (persistBlockSet_run selfP membersP hdr (EncodeTxs full) (set_ledger s P) (ledger_bloom s P Hb)) as Hp.
  destruct (BuildShardSet (ID hdr) (EncodeTxs full) (hd_Spec hdr)) as [[shards set1]|e|] eqn:Eset;
    [|rewrite Hp in E2; discriminate..].
  destruct Hp as (c1 & E2' & Hc & Hb1 & Hh & _). rewrite E2' in E2. apply OK_inj in E2 as [<- <-].
  injection Hc as Hs _ _ _ _ _ _ _ _ _. simpl in Hs.
  destruct (persistLogs_run selfP membersP hdr c1 Hb1) as [(Hcut & c2 & E3 & Hc2 & _)|[_ E3]];
    [|unfold mbind, M_bind in Hrest; rewrite E3 in Hrest; discriminate].
  rewrite Hs in Hcut. injection Hc2 as Hs2 _ _ _ _ _ _ _ _ _. rewrite (bind_ok _ _ _ _ _ E3) in Hrest.
  rewrite (bind_ok (modify _) _ _ _ _ eq_refl), (bind_ok (recordBlock _) _ _ _ _ eq_refl) in Hrest.
  apply bind_OK_inv in Hrest as (? & P3 & E4 & Hrest). apply OK_inj in Hrest as [<- [= <- <-]].
  pose proof (advanceFinality_quiet fdP fuelP) as Hq. match type of E4 with _ ?x = _ => specialize (Hq x) end.
  unfold wp in Hq. rewrite E4 in Hq. injection Hq as V1 V2 _ _ _ _ _ _ _. simpl in V1, V2.
  exists s, shards. rewrite (ApplyBlock_header hdr draft) by done. split_and!; try done; try congruence. by eexists.
Qed.

(** A production that fails leaves the tip. *)
Lemma ProduceBlock_fails txs kp round now P : bloom_ok P →
  wp (ProduceBlock selfP membersP fdP fuelP txs kp round now) (λ _ _, True) (λ _ P', ch_head P' = ch_head P) (λ _, True) P.
Proof.
  intros Hb. unfold ProduceBlock. apply wp_bind, wp_get. apply wp_bind, wp_require; [|done]. intros _. cbv zeta.
  set (draft := draft_header _ _ _ _ _ _). set (full := with_coinbase _ _ _). apply wp_bind. unfold wp at 1. rewrite apply_state_run.
  destruct (ApplyBlock _ _) as [s []|s e|s]; [|done..]. apply wp_bind, wp_get. set (hdr := Header_Sign _ _). apply wp_bind.
  pose proof (persistBlockSet_run selfP membersP hdr (EncodeTxs full) (set_ledger s P) (ledger_bloom s P Hb)) as Hp.
  unfold wp at 1. destruct (BuildShardSet _ _ _) as [[shards set]|e|]; [|by rewrite Hp..].
  destruct Hp as (c1 & -> & _ & Hb1 & _). apply wp_bind. unfold wp at 1.
  destruct (persistLogs_run selfP membersP hdr c1 Hb1) as [(_ & c2 & -> & _)|[_ ->]]; [|done].
  apply wp_bind, wp_modify, wp_bind, wp_modify, wp_bind.
  eapply wp_mono; [..|apply advanceFinality_quiet]; done.
Qed.

Local Abbreviation receive := (ApplyExternalBlock engine selfR membersR blockTime fdR fuelR).
Local Abbreviation produce := (ProduceBlock selfP membersP fdP fuelP).


Lemma resolve_idem st s : cfg s = resolve_cfg st (cfg s) → resolve st s = s.
Proof. unfold resolve. intros <-. by destruct s. Qed.
Lemma resolve_cfg_idem st c : resolve_cfg st c = resolve_cfg st (resolve_cfg st c).
Proof. unfold resolve_cfg. simpl. f_equal; by repeat (destruct (_ c)). Qed.

(** A wrong logs root wedges the node. When the leader's block is valid but for
    the logs root of its header, [ApplyExternalBlock] returns [ErrBadLogsRoot] after
    the ledger has executed the block, without undoing it: the tip stays, the ledger
    is one block ahead.  From then on the honest block for that height, with the same
    transactions and the right root, is refused too, because their nonces are spent. *)
Theorem bad_logs_root_wedges (now : Z) (blk : Block) (c : Chain) (s : State)
  (Ha : acceptable engine blockTime now blk c)
  (Hrun : ApplyBlock blk (resolve (ch_store c) (ch_state c)) = OK s tt)
  (Hroot : LogsRootOf (lastLogs s) ≠ hd_LogsRoot (b_Header blk))
  (Hpay : payload blk ≠ []) (Hn : ∀ a, is_u64 (ac_Nonce (Get (ch_state c) a))) (Hlen : zlen (b_Txs blk) < W64) :
  let c' := set_ledger s c in
  receive now blk c = ERR c' ErrBadLogsRoot ∧ ch_head c' = ch_head c ∧
  ∀ now' honest, b_Txs honest = b_Txs blk → is_OK (receive now' honest c') = false ∧
    (acceptable engine blockTime now' honest c' → ∃ s', receive now' honest c' = ERR (set_ledger s' c') ErrBadNonce).
Proof.
  cbv zeta. split; [|split; [done|]].
  { rewrite external_run by done. assert (apply_state blk c = OK (set_ledger s c) tt) as E1 by (by rewrite apply_state_run, Hrun).
    rewrite (bind_ok _ _ _ _ _ E1), (bind_ok get _ _ _ _ eq_refl), bind_require. simpl ch_state. by rewrite bool_decide_false. }
  intros now' honest Etx. destruct (payload blk) as [|t r] eqn:Ep; [done|].
  assert (resolve (ch_store c) s = s) as Es.
  { apply resolve_idem. rewrite (ApplyBlock_cfg _ _ _ Hrun). apply resolve_cfg_idem. }
  assert (∃ s', ApplyBlock honest (resolve (ch_store (set_ledger s c)) (ch_state (set_ledger s c))) = ERR s' ErrBadNonce) as [s' Eh].
  { simpl. rewrite Es. destruct (applied_refused blk _ s t Hrun Hn Hlen) as [_ Href]; [rewrite Ep; apply list_elem_of_here|].
    unfold payload in Ep. unfold ApplyBlock, applyBody. rewrite Etx.
    destruct (coinbase_of (b_Txs blk)) as [cb p]. simpl in Ep. subst p.
    destruct (Href (b_Header honest) 0 0 r) as [x Ex]. unfold mbind, M_bind. fold (xst0 s). rewrite Ex. eauto. }
  assert (acceptable engine blockTime now' honest (set_ledger s c) →
          receive now' honest (set_ledger s c) = ERR (set_ledger s' (set_ledger s c)) ErrBadNonce) as Hr.
  { intros Ha'. rewrite external_run by done. unfold mbind, M_bind. by rewrite apply_state_run, Eh. }
  split; [|eauto]. destruct (check_external_run engine blockTime now' honest (set_ledger s c)) as [[Ha' _]|[[_ [e E]]|[_ E]]].
  - by rewrite Hr.
  - unfold ApplyExternalBlock. cbv zeta. unfold mbind, M_bind. by rewrite E.
  - unfold ApplyExternalBlock. cbv zeta. unfold mbind, M_bind. by rewrite E.
Qed.
End production.

(** ** Concrete chains *)

(** A code that leaves its parity shards empty: enough to run a node whose shards
    nobody loses. *)
Definition plain_code : ReedSolomon := {|
  rs_new _ _ := None;
  rs_split k m buf := Ok (chunks (length buf / k) k buf ++ replicate m []);
  rs_encode _ _ l := Ok l;
  rs_reconstruct _ _ l := Ok (default [] <$> l);
  rs_verify _ _ _ := Ok true |}.

Definition store0 : Store := MkStore ∅ ∅ ∅ None ∅.
Definition chain0 : Chain := MkChain store0 ledger0 None (header_at 4 bob) true Forkchoice.New ∅ None Zero 0.
Definition bob_engine : State → Engine := λ _, Authority.engine [bob] bob.
Definition bob_key : KeyPair := {| kp_Priv := []; kp_Pub := bob_pub |}.

Definition produced : outcome Chain (Block * ShardSet) :=
  @ProduceBlock demo_platform plain_code "n1" ["n1"] 0 0 [] bob_key 0 100 chain0.

Definition produced_ok : bool :=
  match produced with
  | OK _ (blk, _) => bool_decide (@AuthorizeHeader _ (bob_engine ledger0) (b_Header blk) = Ok tt)
  | _ => false
  end.

Lemma no_bloom c : ch_bloom c = None → bloom_ok c.
Proof. unfold bloom_ok. congruence. Qed.


(** The payment of [Demo.pay_block] in a block whose logs root is wrong. *)
Definition forged_block : Block :=
  let txs := b_Txs pay_block in
  MkBlock (MkHeader 5 (ID (header_at 4 bob)) (MerkleRootOf txs) 50 bob 2 0 GenesisSpec (BodyHash (EncodeTxs txs))
             (replicate 32 (zb 1)) [zb 1] bob_pub) txs.

Lemma bad_logs_root_wedges_witness :
  let c' := set_ledger after_pay chain0 in
  @ApplyExternalBlock demo_platform plain_code bob_engine "n2" ["n2"] 1 0 0 100 forged_block chain0 = ERR c' ErrBadLogsRoot ∧
  ch_head c' = ch_head chain0.
Proof.
  assert (ApplyBlock forged_block (resolve store0 ledger0) = OK after_pay tt) as Hrun.
  { rewrite <- pay_block_run. change (resolve store0 ledger0) with ledger0. by apply ApplyBlock_header. }
  destruct (@bad_logs_root_wedges demo_platform plain_code bob_engine 1 "n2" ["n2"] 0 0 100 forged_block chain0 after_pay)
    as (H1 & H2 & _).
  - split; vm_compute; (reflexivity || discriminate).
  - exact Hrun.
  - vm_compute. discriminate.
  - discriminate.
  - exact ledger0_nonces.
  - vm_compute. reflexivity.
  - split; [exact H1|exact H2].
Defined.

Lemma ApplyExternalBlock_spec_witness :
  match @ApplyExternalBlock demo_platform plain_code bob_engine "n2" ["n2"] 1 0 0 100 forged_block chain0 with
  | ERR c' e => c' = set_ledger (ch_state c') chain0
  | _ => False
  end.
Proof.
  pose proof (@ApplyExternalBlock_spec demo_platform plain_code bob_engine "n2" ["n2"] 1 0 0 100 forged_block chain0
    (no_bloom chain0 eq_refl)) as Hs. cbv zeta in Hs.
  assert (error_of (@ApplyExternalBlock demo_platform plain_code bob_engine "n2" ["n2"] 1 0 0 100 forged_block chain0)
    = Some ErrBadLogsRoot) as He by (vm_compute; reflexivity).
  destruct (@ApplyExternalBlock demo_platform plain_code bob_engine "n2" ["n2"] 1 0 0 100 forged_block chain0) as [c []|c e|c];
    [discriminate He| |discriminate He]. exact (proj1 Hs).
Defined.
