(* ===== verification/ChainReorg.v ===== *)
(** * The chain: branches and reorganisation

    The parent walks and their termination, and what following the heaviest tip does
    to the ledger and the tip. *)

From S2P Require Import Prelude Sha256 Crypto Economy Merkle Netparams Types Forkchoice Rendezvous Consensus Erasure Bloom State Chain Demo ChainProps.

(** ** Blocks and parent walks *)

Definition lookup_block (c : Chain) (id : Hash) : option Block :=
  match ch_blockByID c !! id with Some b => Some b | None => st_bodies (ch_store c) !! id end.

(** All a block walk may change is the cache, and not what it answers. *)
Definition same_blocks (c c' : Chain) : Prop :=
  visible c' = visible c ∧ (∀ id, lookup_block c' id = lookup_block c id) ∧
  (ch_replayBase c', ch_replayBaseID c', ch_replayBaseHeight c', st_base (ch_store c')) =
  (ch_replayBase c, ch_replayBaseID c, ch_replayBaseHeight c, st_base (ch_store c)).

#[global] Instance same_blocks_preorder : PreOrder same_blocks.
Proof.
  split; [by intros c|]. intros a b c (V1 & L1 & B1) (V2 & L2 & B2). split; [congruence|]. split; [|congruence].
  intros id. by rewrite L2.
Qed.

Lemma block_run id c : ∃ c', block id c = OK c' (lookup_block c id) ∧ same_blocks c c'.
Proof.
  unfold block, lookup_block, GetBlockRaw. rewrite (bind_ok get _ _ _ _ eq_refl).
  destruct (ch_blockByID c !! id) as [b|] eqn:E; [by exists c|].
  destruct (st_bodies (ch_store c) !! id) as [b|] eqn:E'; [|by exists c].
  eexists. split; [done|]. split; [done|]. split; [|done]. intros i. unfold lookup_block. simpl.
  destruct (decide (i = id)) as [->|Hne]; [by rewrite lookup_insert_eq, E, E'|by rewrite lookup_insert_ne].
Qed.

(** The walk as a function of what the lookups answer; [None]: still walking after
    [n] turns. *)
Fixpoint walk_pure (look : Hash → option Block) (n : nat) (keep : Block → bool) (id stop : Hash) (rev : list Block)
    : option (option (list Block)) :=
  if bool_decide (id = stop) then Some (Some rev) else
  match n with
  | O => None
  | S n' =>
      match look id with
      | None => Some None
      | Some b =>
          let rev := if keep b then rev ++ [b] else rev in
          if bool_decide (hd_PrevHash (b_Header b) = Zero) then Some None
          else walk_pure look n' keep (hd_PrevHash (b_Header b)) stop rev
      end
  end.

Lemma walk_pure_ext look look' n keep : (∀ id, look id = look' id) → ∀ id stop rev,
  walk_pure look n keep id stop rev = walk_pure look' n keep id stop rev.
Proof.
  intros Hl. induction n as [|n IH]; intros id stop rev; cbn [walk_pure]; [done|]. rewrite Hl.
  case_bool_decide; [done|]. destruct (look' id); [|done]. case_bool_decide; [done|]. apply IH.
Qed.

Lemma walk_run n keep : ∀ id stop rev c, ∃ c', same_blocks c c' ∧
  walk n keep id stop rev c =
    match walk_pure (lookup_block c) n keep id stop rev with Some r => OK c' r | None => PANIC c' end.
Proof.
  induction n as [|n IH]; intros id stop rev c; cbn [walk walk_pure].
  { exists c. split; [done|]. by case_bool_decide. }
  case_bool_decide; [by exists c|]. destruct (block_run id c) as (c1 & E1 & H1).
  rewrite (bind_ok _ _ _ _ _ E1). destruct (lookup_block c id) as [b|] eqn:Eb; [|by exists c1].
  case_bool_decide; [by exists c1|].
  destruct (IH (hd_PrevHash (b_Header b)) stop (if keep b then rev ++ [b] else rev) c1) as (c2 & H2 & E2).
  exists c2. split; [by transitivity c1|]. rewrite E2, (walk_pure_ext (lookup_block c1) (lookup_block c)); [done|]. apply H1.
Qed.

(** ** Branches *)

(** [bs], in ascending order, leads from the block [stop] to the block [tip]. *)
Fixpoint linked (stop : Hash) (bs : list Block) (tip : Hash) : Prop :=
  match bs with
  | [] => stop = tip
  | b :: r => hd_PrevHash (b_Header b) = stop ∧ linked (ID (b_Header b)) r tip
  end.

(** Every block is found under its own id. *)
Definition filed (look : Hash → option Block) : Prop := ∀ id b, look id = Some b → ID (b_Header b) = id.

Lemma linked_snoc stop bs b tip : linked stop bs (hd_PrevHash (b_Header b)) → ID (b_Header b) = tip → linked stop (bs ++ [b]) tip.
Proof.
  revert stop. induction bs as [|b' r IH]; intros stop; simpl; [by intros -> ->|]. intros [-> Hr] E. auto.
Qed.

Lemma linked_last stop bs tip : linked stop bs tip →
  match last bs with Some b => ID (b_Header b) = tip | None => stop = tip end.
Proof.
  revert stop. induction bs as [|b r IH]; intros stop; [done|]. intros [_ Hr]. specialize (IH _ Hr).
  rewrite last_cons. by destruct (last r).
Qed.

Lemma walk_linked look n : filed look → ∀ id stop rev bs, walk_pure look n (λ _, true) id stop rev = Some (Some bs) →
  ∃ l, bs = rev ++ l ∧ linked stop (reverse l) id ∧ ∀ b, b ∈ l → look (ID (b_Header b)) = Some b.
Proof.
  intros Hf. induction n as [|n IH]; intros id stop rev bs; cbn [walk_pure]; case_bool_decide as Hs.
  - intros [= <-]. exists []. rewrite app_nil_r. split_and!; [done|done|]. by intros b ?%elem_of_nil.
  - done.
  - intros [= <-]. exists []. rewrite app_nil_r. split_and!; [done|done|]. by intros b ?%elem_of_nil.
  - destruct (look id) as [b|] eqn:Eb; [|done]. case_bool_decide; [done|].
    intros (l & -> & Hl & Hin)%IH. exists (b :: l). rewrite <- app_assoc. split_and!; [done| |].
    + rewrite reverse_cons. apply linked_snoc; [done|by apply Hf].
    + intros b' [->|Hb']%elem_of_cons; [|auto]. by rewrite (Hf _ _ Eb).
Qed.

(** The parent of a block, when it is there, has a smaller height. *)
Definition descending (look : Hash → option Block) : Prop :=
  (∀ id b, look id = Some b → 0 <= hd_Height (b_Header b)) ∧
  ∀ id b p, look id = Some b → look (hd_PrevHash (b_Header b)) = Some p → hd_Height (b_Header p) < hd_Height (b_Header b).

Lemma walk_ends look n keep : descending look → ∀ id stop rev,
  (∀ b, look id = Some b → hd_Height (b_Header b) + 1 < Z.of_nat n) → (0 < n)%nat → walk_pure look n keep id stop rev ≠ None.
Proof.
  intros [Hpos Hd]. induction n as [|n IH]; intros id stop rev Hn Hn0; [lia|]. cbn [walk_pure].
  case_bool_decide; [done|]. destruct (look id) as [b|] eqn:Eb; [|done]. case_bool_decide; [done|].
  specialize (Hn b eq_refl). pose proof (Hpos _ _ Eb). apply IH; [|lia]. intros p Ep. specialize (Hd _ _ _ Eb Ep). lia.
Qed.

Lemma walkDown_run n tip stop c : ∃ c', same_blocks c c' ∧
  walkDown n tip stop c =
    match walk_pure (lookup_block c) n (λ _, true) tip stop [] with Some r => OK c' (reverse <$> r) | None => PANIC c' end.
Proof.
  destruct (walk_run n (λ _, true) tip stop [] c) as (c' & Hc & E). exists c'. split; [done|].
  unfold walkDown, mbind, M_bind. rewrite E. by destruct (walk_pure _ _ _ _ _ _).
Qed.

(** ** Applying a branch *)

(** The ledger runs through the blocks; the resolvers read some store each time. *)
Inductive ran `{Platform} : State → list Block → State → Prop :=
  | ran_nil s : ran s [] s
  | ran_cons st s b s1 r s2 : ApplyBlock b (resolve st s) = OK s1 tt → ran s1 r s2 → ran s (b :: r) s2.

(** What a fast-forward keeps: all but the ledger, the headers, logs and shards. *)
Definition frame (c : Chain) :=
  (ch_head c, ch_hasGen c, ch_tree c, ch_blockByID c, st_bodies (ch_store c),
   (ch_replayBase c, ch_replayBaseID c, ch_replayBaseHeight c, st_base (ch_store c))).

Lemma core_frame c c' : core c' = core c → frame c' = frame c ∧ ch_state c' = ch_state c.
Proof. unfold core, frame. intros [= -> -> -> -> -> -> -> -> -> ->]. done. Qed.

Section reorg.
Context `{Platform} `{ReedSolomon} (engine : State → Engine) (selfID : string) (members : list string)
  (blockTime finalityDepth : Z) (fuel : nat).

Lemma commitCanonical_run b c : bloom_ok c →
  wp (commitCanonical selfID members b) (λ _ c', core c' = core c ∧ bloom_ok c') (λ _ _, False) (λ _, True) c.
Proof.
  intros Hb. pose proof (persistBlockSet_run selfID members (b_Header b) (Body b) c Hb) as Hp.
  assert (∀ c1, core c1 = core c → bloom_ok c1 →
    wp (persistLogs selfID members (b_Header b)) (λ _ c', core c' = core c ∧ bloom_ok c') (λ _ _, False) (λ _, True) c1) as Hl.
  { intros c1 Hc1 Hb1. unfold wp. destruct (persistLogs_run selfID members (b_Header b) c1 Hb1) as [(_ & c2 & E & Hc & Hb2 & _)|[_ E]];
      rewrite E; [|done]. split; [by rewrite Hc|done]. }
  unfold commitCanonical. apply wp_bind. unfold wp at 1, try_.
  destruct (BuildShardSet (ID (b_Header b)) (Body b) (hd_Spec (b_Header b))) as [[shards set]|e|].
  - destruct Hp as (c1 & E & Hc & Hb1 & _). rewrite E. auto.
  - rewrite Hp. auto.
  - by rewrite Hp.
Qed.

Lemma commit_all_run bs : ∀ c, bloom_ok c →
  wp (commit_all selfID members bs) (λ _ c', core c' = core c ∧ bloom_ok c') (λ _ _, False) (λ _, True) c.
Proof.
  induction bs as [|b r IH]; intros c Hb; [done|]. cbn [commit_all]. apply wp_bind.
  eapply wp_mono; [..|by apply commitCanonical_run]; [|done..]. intros [] c1 [Hc Hb1].
  eapply wp_mono; [..|by apply IH]; [|done..]. intros [] c2 [Hc2 ?]. split; [congruence|done].
Qed.

(** A fast-forward that fails stops after the blocks before the failing one. *)
Definition stopped (s : State) (bs : list Block) (s' : State) : Prop :=
  ∃ done b rest st s1 e, bs = done ++ b :: rest ∧ ran s done s1 ∧ ApplyBlock b (resolve st s1) = ERR s' e.

Lemma fast_forward_run bs : ∀ c, bloom_ok c →
  wp (fast_forward selfID members bs)
    (λ _ c', frame c' = frame c ∧ ran (ch_state c) bs (ch_state c') ∧ bloom_ok c')
    (λ e c', e = ErrReorgReplay ∧ frame c' = frame c ∧ stopped (ch_state c) bs (ch_state c')) (λ _, True) c.
Proof.
  induction bs as [|b r IH]; intros c Hb; [split_and!; [done|constructor|done]|]. cbn [fast_forward]. apply wp_bind.
  unfold or_replay. apply wp_bind. unfold wp at 1, try_. rewrite apply_state_run.
  destruct (ApplyBlock b (resolve (ch_store c) (ch_state c))) as [s []|s e|s] eqn:E; [|split_and!; [done..|]|done].
  2: { exists [], b, r, (ch_store c), (ch_state c), e. split_and!; [done|constructor|done]. }
  apply wp_ret. apply wp_bind. eapply wp_mono; [..|apply commitCanonical_run, (ledger_bloom s c Hb)]; [|done..].
  intros [] c1 [[Hf Hs]%core_frame Hb1]. simpl in Hs. eapply wp_mono; [..|by apply IH]; [| |done].
  - intros [] c2 (Hf2 & Hr & Hb2). rewrite Hs in Hr. split_and!; [|by econstructor|done]. rewrite Hf2, Hf. done.
  - intros e c2 (-> & Hf2 & dn & b' & rest & st & s1 & e' & -> & Hr & Ee). rewrite Hs in Hr.
    split_and!; [done|rewrite Hf2, Hf; done|]. exists (b :: dn), b', rest, st, s1, e'. split_and!; [done|by econstructor|done].
Qed.

Lemma follow_run bs c :
  let good c' := ch_state c' = ch_state c ∧ ch_head c' = default (ch_head c) (b_Header <$> last bs) ∧
    st_headers (ch_store c') = st_headers (ch_store c) in
  wp (follow finalityDepth fuel bs) (λ _, good) (λ _ _, False) good c.
Proof.
  cbv zeta. unfold follow. destruct (last bs) as [b|]; [|done]. apply wp_bind, wp_modify.
  eapply wp_mono; [..|apply advanceFinality_quiet]; [|done|].
  - intros [] c' V. unfold visible in V. injection V as -> -> _ _ -> _ _ _ _. done.
  - intros c' V. unfold visible in V. injection V as -> -> _ _ -> _ _ _ _. done.
Qed.

(** ** The property *)

(** What an outcome of [reorgToBest] may be, from the chain [c]: the ledger and the
    tip it leaves. *)
Inductive followed (c : Chain) (best : Hash) : Header → State → Prop :=
  | stayed : followed c best (ch_head c) (ch_state c)
  | forwarded bs b s : linked (ID (ch_head c)) (bs ++ [b]) best → ran (ch_state c) (bs ++ [b]) s →
      followed c best (b_Header b) s
  | reorganised base bs ns u : ch_replayBase c = Some base → linked (ch_replayBaseID c) bs best →
      replay bs (fresh_base c base) = OK ns u →
      followed c best (default (ch_head c) (b_Header <$> last bs)) (ReplaceWith ns (ch_state c)).

Lemma same_blocks_fresh c c1 base : same_blocks c c1 → fresh_base c1 base = fresh_base c base ∧ ch_head c1 = ch_head c ∧
  ch_state c1 = ch_state c ∧ (bloom_ok c → bloom_ok c1) ∧ ch_replayBase c1 = ch_replayBase c ∧ ch_replayBaseID c1 = ch_replayBaseID c.
Proof.
  intros (V & _ & B). unfold visible in V. injection V as V1 V2 V3 V4 V5 V6 V7 V8 V9. injection B as B1 B2 B3 B4.
  unfold fresh_base, resolve, resolve_cfg, bloom_ok, BodyHashAt, ShardAt, ShardProofOK, GetHeader.
  rewrite V1, V5, V9. done.
Qed.

Lemma followed_same c c1 best h s : same_blocks c c1 → followed c1 best h s → followed c best h s.
Proof.
  intros Hs. destruct (same_blocks_fresh c c1 State.New Hs) as (_ & Eh & Est & _ & Eb & Ei). destruct 1 as [|bs b s Hl Hr|base bs ns u Hb Hl Hr].
  - rewrite Eh, Est. constructor.
  - rewrite Eh in Hl. rewrite Est in Hr. by apply forwarded with bs.
  - rewrite Eb in Hb. rewrite Ei in Hl. rewrite (proj1 (same_blocks_fresh c c1 base Hs)) in Hr. rewrite Eh, Est.
    by apply reorganised with base u.
Qed.

Lemma filed_same c c1 : same_blocks c c1 → filed (lookup_block c) → filed (lookup_block c1).
Proof. intros (_ & L & _) Hf id b. rewrite L. apply Hf. Qed.

Lemma walkDown_linked n tip stop c : filed (lookup_block c) →
  wp (walkDown n tip stop) (λ r c', same_blocks c c' ∧ ∀ bs, r = Some bs → linked stop bs tip) (λ _ _, False) (λ _, True) c.
Proof.
  intros Hf. destruct (walkDown_run n tip stop c) as (c' & Hc & E). unfold wp. rewrite E.
  destruct (walk_pure _ _ _ _ _ _) as [[l|]|] eqn:Ew; [|done..]. split; [done|].
  intros bs [= <-]. apply walk_linked in Ew as (l' & -> & Hl & _); done.
Qed.

Lemma reorg_run best c : bloom_ok c → filed (lookup_block c) →
  wp (reorg selfID members finalityDepth fuel best) (λ _ c', followed c best (ch_head c') (ch_state c'))
    (λ e c', e = ErrReorgReplay ∧ ch_head c' = ch_head c ∧ ch_state c' = ch_state c) (λ _, True) c.
Proof.
  intros Hb Hf. unfold reorg. apply wp_bind, wp_get. destruct (ch_replayBase c) as [base|] eqn:Ebase; [|constructor].
  apply wp_bind. eapply wp_mono; [..|by apply walkDown_linked]; [|done..].
  intros [bs|] c1 [Hs Hl]; destruct (same_blocks_fresh c c1 base Hs) as (Efr & Eh & Est & Hb1 & _); [|apply wp_ret; rewrite Eh, Est; constructor].
  specialize (Hl bs eq_refl). destruct (replay bs (fresh_base c base)) as [ns []| |] eqn:Er; [|done..].
  apply wp_bind, wp_modify, wp_bind.
  eapply wp_mono; [..|apply commit_all_run; by apply Hb1]; [|done..].
  intros [] c2 [[Hfr Hst]%core_frame _]. simpl in Hst. unfold frame in Hfr. injection Hfr as Hh _ _ _ _ _ _ _ _. simpl in Hh.
  eapply wp_mono; [..|apply follow_run]; simpl; [|done|done].
  intros [] c3 (-> & -> & _). rewrite Hst, Hh, Eh, Est. econstructor; eauto.
Qed.


(** ** Walks end *)

End reorg.

(** ** Fast sync *)

Section sync.
Context `{Platform} (engine : State → Engine).

(** The records from index [i] on: heights in order, each linked to the one before,
    each signed. *)
Fixpoint verified (i : Z) (prevID : Hash) (records : list (Header * ShardSet)) : Prop :=
  match records with
  | [] => True
  | (h, _) :: r =>
      hd_Height h = i ∧ hd_PrevHash h = (if i =? 0 then Zero else prevID) ∧ Header_VerifySig h = Ok tt ∧
      verified (i + 1) (ID h) r
  end.

Lemma sync_records_run records : ∀ i prevID c,
  wp (sync_records engine i prevID records)
    (λ _ c', frame c' = frame c ∧ ch_state c' = ch_state c ∧ verified i prevID records ∧
       (∀ h, h < i ∨ i + zlen records <= h → st_headers (ch_store c') !! h = st_headers (ch_store c) !! h) ∧
       ∀ j r, records !! j = Some r → st_headers (ch_store c') !! (i + Z.of_nat j) = Some r)
    (λ _ c', frame c' = frame c ∧ ch_state c' = ch_state c) (λ _, True) c.
Proof.
  induction records as [|[h set] r IH]; intros i prevID c; cbn [sync_records verified]; [done|].
  apply wp_bind, wp_get, wp_bind, wp_require; [|done]. intros Eh%Z.eqb_eq.
  apply wp_bind, wp_require; [|done]. intros Ep%bool_decide_eq_true.
  apply wp_bind, wp_lift; [|done..]. intros [] Ea.
  apply (@auth_signed _ (engine (ch_state c))) in Ea.
  apply wp_bind, wp_modify. eapply wp_mono; [..|apply (IH (i + 1) (ID h))]; [| |done].
  - intros [] c' (Hf & Hs & Hv & Hlow & Hhd). split_and!; [done|done|done|done|done|done| |].
    + intros k Hk. unfold zlen in *. cbn [length] in Hk. rewrite Hlow by lia. simpl. by rewrite lookup_insert_ne by lia.
    + intros [|j] x Hx.
      * injection Hx as <-. rewrite Hlow by lia. simpl. by rewrite Eh, Z.add_0_r, lookup_insert_eq.
      * replace (i + Z.of_nat (S j)) with (i + 1 + Z.of_nat j) by lia. by apply Hhd.
  - intros e c' [Hf Hs]. done.
Qed.

Lemma verified_height records : ∀ i p k r, records !! k = Some r → verified i p records → hd_Height r.1 = i + Z.of_nat k.
Proof.
  induction records as [|[h s] rs IH]; intros i p [|k] r; [done..| |].
  - intros [= <-] [? _]. simpl. lia.
  - intros Hk (_ & _ & _ & Hv). rewrite (IH _ _ _ _ Hk Hv). lia.
Qed.

(** The files after a sync that succeeds. *)
Lemma SyncInstall_files records snap c c' u : SyncInstall engine records snap c = OK c' u →
  ch_hasGen c' = true ∧ st_bodies (ch_store c') = st_bodies (ch_store c) ∧ 0 <= hd_Height (ch_head c') ∧
  hd_Height (ch_head c') = zlen records - 1 ∧
  (∃ set, st_headers (ch_store c') !! hd_Height (ch_head c') = Some (ch_head c', set)) ∧
  ∀ h, zlen records <= h → st_headers (ch_store c') !! h = st_headers (ch_store c) !! h.
Proof.
  unfold SyncInstall. destruct (last records) as [[tip set]|] eqn:El; [|done].
  pose proof (sync_records_run records 0 Zero c) as Hw. unfold wp in Hw. unfold mbind, M_bind.
  destruct (sync_records engine 0 Zero records c) as [c1 []|c1 e|c1]; [|done..].
  destruct Hw as (Hf & Hs & Hv & Hlow & Hhd). intros [<- _]%OK_inj. simpl. rewrite last_lookup in El.
  pose proof (verified_height _ _ _ _ _ El Hv) as Ht. pose proof (lookup_lt_Some _ _ _ El) as Hlt. simpl in Ht. unfold zlen in *.
  split; [done|]. split; [by injection Hf|]. split; [lia|]. split; [lia|]. split.
  - exists set. specialize (Hhd _ _ El). rewrite Ht. exact Hhd.
  - intros h Hh. apply Hlow. by right.
Qed.

(** A sync forgets no branch. *)
Lemma SyncInstall_known records snap c c' u id : SyncInstall engine records snap c = OK c' u →
  is_Some (ch_tree c !! id) → is_Some (ch_tree c' !! id).
Proof.
  unfold SyncInstall. destruct (last records) as [[tip set]|]; [|done].
  pose proof (sync_records_run records 0 Zero c) as Hw. unfold wp in Hw. unfold mbind, M_bind.
  destruct (sync_records engine 0 Zero records c) as [c1 []|c1 e|c1]; [|done..].
  destruct Hw as (Hf & _). injection Hf as _ _ Ht _ _ _ _ _ _. intros [<- _]%OK_inj Hi.
  change (is_Some (Forkchoice.Add (ID tip) (hd_PrevHash tip) (hd_Height tip) 1 (ch_tree c1) !! id)). rewrite Ht. by apply Forkchoice.Add_grows.
Qed.

(** [C39] Fast sync installs only verified history. When [SyncInstall] succeeds the
    records are a chain of headers from height 0 without gaps, each naming the hash
    of the one before and each signed by its validator (whatever the engine: it is a
    law of the interface); every one is stored at its height, the tip is the last of
    them, and the snapshot is the ledger and the new finality floor.  When it fails,
    ledger, tip, tree and floor are untouched (only headers that passed are stored). *)
Theorem SyncInstall_verified (records : list (Header * ShardSet)) (snap : State) (c : Chain) :
  match SyncInstall engine records snap c with
  | OK c' _ =>
      verified 0 Zero records ∧
      (∀ i r, records !! i = Some r → GetHeader (Z.of_nat i) (ch_store c') = Ok r) ∧
      Some (ch_head c') = fst <$> last records ∧ hd_Height (ch_head c') = zlen records - 1 ∧ ch_hasGen c' = true ∧
      ch_state c' = ReplaceWith snap (ch_state c) ∧ ch_replayBase c' = Some (Clone snap) ∧
      ch_replayBaseID c' = ID (ch_head c') ∧ ch_replayBaseHeight c' = hd_Height (ch_head c')
  | ERR c' _ => frame c' = frame c ∧ ch_state c' = ch_state c
  | PANIC _ => True
  end.
Proof.
  unfold SyncInstall. destruct (last records) as [[tip set]|] eqn:El; [|done].
  pose proof (sync_records_run records 0 Zero c) as Hw. unfold wp in Hw. unfold mbind, M_bind.
  destruct (sync_records engine 0 Zero records c) as [c1 []|c1 e|c1]; [|done..].
  destruct Hw as (Hf & Hs & Hv & _ & Hhd). simpl. rewrite Hs. split_and!; try done.
  - intros i r Hi. unfold GetHeader. simpl. specialize (Hhd i r Hi); rewrite Z.add_0_l in Hhd; by rewrite Hhd.
  - revert Hv. rewrite last_lookup in El. clear -El. unfold zlen.
    intros Hv. pose proof (verified_height _ _ _ _ _ El Hv) as Ht. simpl in Ht. rewrite Ht. apply lookup_lt_Some in El. lia.
Qed.
End sync.

(** ** Concrete chains *)

Definition tip_block : Block := MkBlock (header_at 4 bob) [].
Definition tip_id : Hash := Eval vm_compute in ID (header_at 4 bob).
Definition forged_id : Hash := Eval vm_compute in ID (b_Header forged_block).

(** The chain with its tip on file, and the same with the forged block recorded. *)
Definition chain1 : Chain :=
  set_cache {[tip_id := tip_block]} (set_tree (Forkchoice.Add tip_id Zero 4 1 Forkchoice.New) chain0).
Definition chain2 : Chain := out_state (recordBlock forged_block chain1).

Lemma tip_id_eq : ID (header_at 4 bob) = tip_id.
Proof. vm_compute. reflexivity. Qed.
Lemma forged_id_eq : ID (b_Header forged_block) = forged_id.
Proof. vm_compute. reflexivity. Qed.

Lemma chain2_lookup id : lookup_block chain2 id =
  if decide (id = forged_id) then Some forged_block else if decide (id = tip_id) then Some tip_block else None.
Proof.
  unfold chain2. rewrite recordBlock_run, forged_id_eq. unfold lookup_block, chain1. simpl. case_decide as E.
  - by rewrite E, lookup_insert_eq.
  - rewrite !lookup_insert_ne by done. case_decide as E'; [by rewrite E', lookup_singleton_eq|].
    by rewrite lookup_singleton_ne.
Qed.

Local Abbreviation reorg2 := (@reorgToBest demo_platform plain_code "n2" ["n2"] 0 5 chain2).


Lemma chain1_lookup id b : lookup_block chain1 id = Some b → id = tip_id ∧ b = tip_block.
Proof.
  unfold lookup_block, chain1. simpl. destruct (decide (tip_id = id)) as [<-|Hne].
  - rewrite lookup_singleton_eq. by intros [= <-].
  - by rewrite lookup_singleton_ne.
Qed.


(** Gossip does not check the logs root. The block with the forged logs root that
    [ApplyExternalBlock] refuses is taken by [AcceptBlock], the path used by the
    storage consensus: it becomes the tip. *)
Theorem AcceptBlock_ignores_logs_root :
  let accepted := @AcceptBlock demo_platform plain_code bob_engine "n2" ["n2"] 1 0 5 forged_block chain1 in
  is_OK accepted = true ∧ hd_Height (ch_head (out_state accepted)) = 5 ∧
  hd_LogsRoot (ch_head (out_state accepted)) ≠ LogsRootOf (lastLogs (ch_state (out_state accepted))) ∧
  error_of (@ApplyExternalBlock demo_platform plain_code bob_engine "n2" ["n2"] 1 0 5 100 forged_block chain1) =
    Some ErrBadLogsRoot.
Proof. vm_compute. split_and!; [reflexivity|reflexivity|discriminate|reflexivity]. Qed.
