(* ===== verification/ChainShards.v ===== *)
(** * The chain: reconstruction from scattered shards

    However the shards are spread and whatever the peers answer, what is put together
    again is the committed payload or an error. *)

From S2P Require Import Prelude Sha256 Crypto Merkle Netparams Types Erasure Bloom State Chain.

(** ** Counting slots *)

(** A range of slots holds at least the shards that are certain to be there. *)
Lemma present_lower (av : nat → bool) : ∀ (r : list (option bytes)) i,
  (∀ j, (j < length r)%nat → av (i + j)%nat = true → ∃ d, r !! j = Some (Some d)) →
  zlen (filter (λ j, av j = true) (seq i (length r))) <= present r.
Proof.
  unfold present, zlen. induction r as [|s r IH]; intros i Hav; [done|]. simpl length. cbn [seq]. rewrite !filter_cons.
  assert (Z.of_nat (length (filter (λ j, av j = true) (seq (S i) (length r)))) <= Z.of_nat (length (filter is_Some r))) as Hr.
  { apply IH. intros j Hj Ha. apply (Hav (S j)); simpl; [lia|]. by rewrite Nat.add_succ_r. }
  destruct (decide (av i = true)) as [Ha|Ha].
  - destruct (Hav 0%nat) as [d Hd]; [simpl; lia|by rewrite Nat.add_0_r|]. injection Hd as ->.
    rewrite (decide_True (P:=is_Some (Some d))) by (by eexists). simpl. lia.
  - case_decide; simpl; lia.
Qed.

Lemma present_cons s r : present (s :: r) = match s with Some _ => 1 | None => 0 end + present r.
Proof.
  unfold present, zlen. rewrite filter_cons. destruct s.
  - rewrite decide_True by (by eexists). simpl. lia.
  - rewrite decide_False by (by intros [? ?]). done.
Qed.

(** ** Gathering *)

Section gather.
Context (set : ShardSet) (id : Hash) (shards : list bytes).

(** What verifies among the offered data is the committed shard. *)
Definition binding (offered : Z → bytes → Prop) : Prop :=
  ∀ i d, offered (Z.of_nat i) d → VerifyShard set (Z.of_nat i) d = true → (i < length shards)%nat → shards !! i = Some d.

Context (Hgen : ∀ i s, shards !! i = Some s → VerifyShard set (Z.of_nat i) s = true).

Lemma local_sparse st : binding (λ i d, GetShard id i st = Some d) → Total (ss_Spec set) = zlen shards →
  sparse shards (local_shards st id set).
Proof.
  intros Hb Ht. unfold sparse, local_shards. rewrite Ht. apply Forall2_same_length_lookup_2.
  { rewrite length_fmap, length_seqZ. unfold zlen. lia. }
  intros i f s Hf Hs. apply list_lookup_fmap_Some in Hs as (z & -> & Hz).
  apply lookup_seqZ in Hz as [-> Hi]. rewrite Z.add_0_l. destruct (GetShard id (Z.of_nat i) st) as [d|] eqn:Ed; simpl; [|by left].
  destruct (VerifyShard set (Z.of_nat i) d) eqn:Ev; [|by left]. right.
  rewrite <- Hf. symmetry. apply Hb; [done|done|]. by eapply lookup_lt_Some.
Qed.

Lemma local_genuine st i s : Total (ss_Spec set) = zlen shards → shards !! i = Some s →
  GetShard id (Z.of_nat i) st = Some s → local_shards st id set !! i = Some (Some s).
Proof.
  intros Ht Hi Hg. unfold local_shards. apply list_lookup_fmap_Some. exists (Z.of_nat i). split.
  - simpl. rewrite Hg. simpl. by rewrite (Hgen i s Hi).
  - apply lookup_lt_Some in Hi. apply lookup_seqZ. unfold zlen in Ht. lia.
Qed.

Context (src : Hash → Z → ShardSet → option bytes).

Lemma fetch_sparse slots : ∀ k have, (∀ i d, src id (Z.of_nat i) set = Some d → VerifyShard set (Z.of_nat i) d = true →
    (i < length shards)%nat → shards !! i = Some d) →
  sparse (drop k shards) slots → sparse (drop k shards) (fetch_shards src id set (Z.of_nat k) have slots).
Proof.
  intros k have Hb. revert k have. induction slots as [|s r IH]; intros k have Hs; cbn [fetch_shards]; [done|].
  destruct (K (ss_Spec set) <=? have); [done|].
  apply Forall2_cons_inv_r in Hs as (f & fs & Hf & Hr & Ed).
  assert (shards !! k = Some f) as Hk.
  { pose proof (lookup_drop shards k 0) as Hd. rewrite Ed in Hd. simpl in Hd. by rewrite Nat.add_0_r in Hd. }
  assert (drop (S k) shards = fs) as Efs by (rewrite (drop_S _ _ _ Hk) in Ed; by injection Ed).
  assert (∀ h, sparse fs (fetch_shards src id set (Z.of_nat k + 1) h r)) as Hrest.
  { intros h. replace (Z.of_nat k + 1) with (Z.of_nat (S k)) by lia. rewrite <- Efs. apply IH. by rewrite Efs. }
  rewrite Ed. destruct s as [d|]; [constructor; [done|apply Hrest]|].
  destruct (src id (Z.of_nat k) set) as [d|] eqn:Es; [|constructor; [by left|apply Hrest]].
  destruct (VerifyShard set (Z.of_nat k) d) eqn:Ev; constructor; [right|apply Hrest|by left|apply Hrest].
  rewrite <- Hk. symmetry. apply Hb; [done|done|]. by eapply lookup_lt_Some.
Qed.

Lemma fetch_length slots : ∀ k have, length (fetch_shards src id set k have slots) = length slots.
Proof.
  induction slots as [|s r IH]; intros k have; cbn [fetch_shards]; [done|].
  destruct (_ <=? _); [done|]. destruct s; [simpl; by rewrite IH|].
  destruct (src id k set) as [d|]; [destruct (VerifyShard set k d)|]; simpl; by rewrite IH.
Qed.

(** The loop ends with enough shards, or having asked for every missing one. *)
Lemma fetch_present slots : ∀ k have,
  K (ss_Spec set) <= have + present (fetch_shards src id set k have slots) - present slots ∨
  ∀ j, (j < length slots)%nat →
    (∃ d, slots !! j = Some (Some d)) ∨ (∃ d, src id (k + Z.of_nat j) set = Some d ∧ VerifyShard set (k + Z.of_nat j) d = true) →
    ∃ d, fetch_shards src id set k have slots !! j = Some (Some d).
Proof.
  induction slots as [|s r IH]; intros k have; cbn [fetch_shards]; [right; simpl; lia|].
  destruct (Z.leb_spec (K (ss_Spec set)) have) as [Hk|Hk]; [left; lia|].
  assert (∀ j, k + 1 + Z.of_nat j = k + Z.of_nat (S j)) as Ej by lia.
  destruct s as [d|].
  - rewrite !present_cons. destruct (IH (k + 1) have) as [Hl|Hr]; [left; lia|right].
    intros [|j] Hj Hor; [simpl; eauto|]. simpl. apply Hr; [simpl in Hj; lia|]. by rewrite Ej.
  - destruct (src id k set) as [d|] eqn:Es; [destruct (VerifyShard set k d) eqn:Ev|].
    + rewrite !present_cons. destruct (IH (k + 1) (have + 1)) as [Hl|Hr]; [left; lia|right].
      intros [|j] Hj Hor; [simpl; eauto|]. simpl. apply Hr; [simpl in Hj; lia|]. by rewrite Ej.
    + rewrite !present_cons. destruct (IH (k + 1) have) as [Hl|Hr]; [left; lia|right].
      intros [|j] Hj Hor; [|simpl; apply Hr; [simpl in Hj; lia|by rewrite Ej]].
      rewrite Z.add_0_r, Es in Hor. destruct Hor as [[? Hx]|(? & [= <-] & ?)]; [discriminate Hx|congruence].
    + rewrite !present_cons. destruct (IH (k + 1) have) as [Hl|Hr]; [left; lia|right].
      intros [|j] Hj Hor; [|simpl; apply Hr; [simpl in Hj; lia|by rewrite Ej]].
      rewrite Z.add_0_r, Es in Hor. destruct Hor as [[? Hx]|(? & Hx & ?)]; discriminate Hx.
Qed.
End gather.

(** ** Reconstruction *)

Section reconstruct.
Context `{ReedSolomon} (source : option (Hash → Z → ShardSet → option bytes)).

(** The bytes the disk or the peers offer for a slot. *)
Definition offered (st : Store) (id : Hash) (set : ShardSet) (i : Z) (d : bytes) : Prop :=
  GetShard id i st = Some d ∨ ∃ src, source = Some src ∧ src id i set = Some d.

(** The committed shard of a slot is on disk, or a peer hands it out. *)
Definition available (st : Store) (id : Hash) (set : ShardSet) (shards : list bytes) (i : nat) : bool :=
  bool_decide (is_Some (shards !! i)) &&
  (bool_decide (GetShard id (Z.of_nat i) st = shards !! i) ||
   match source with Some src => bool_decide (src id (Z.of_nat i) set = shards !! i) | None => false end).

Lemma gather_sparse st id set shards :
  (∀ i d, offered st id set (Z.of_nat i) d → VerifyShard set (Z.of_nat i) d = true →
     (i < length shards)%nat → shards !! i = Some d) → Total (ss_Spec set) = zlen shards →
  sparse shards (gather source st id set).
Proof.
  intros Hb Ht. assert (sparse shards (local_shards st id set)) as Hl.
  { apply local_sparse; [|done]. intros i d Hd. apply Hb. by left. }
  unfold gather. unfold offered in Hb. destruct source as [src|]; [|done].
  apply (fetch_sparse set id shards src _ 0); [|done]. intros i d Hd. apply Hb. right. eauto.
Qed.

Lemma gather_present st id set shards : (∀ i s, shards !! i = Some s → VerifyShard set (Z.of_nat i) s = true) →
  Total (ss_Spec set) = zlen shards →
  K (ss_Spec set) <= zlen (filter (λ i, available st id set shards i = true) (seq 0 (length shards))) →
  K (ss_Spec set) <= present (gather source st id set).
Proof.
  intros Hgen Ht Hk.
  assert (length (local_shards st id set) = length shards) as Hlen.
  { unfold local_shards. rewrite length_fmap, length_seqZ, Ht. unfold zlen. lia. }
  assert (∀ r : list (option bytes), length r = length shards →
    (∀ j, (j < length r)%nat → available st id set shards j = true → ∃ d, r !! j = Some (Some d)) →
    K (ss_Spec set) <= present r) as Hfin.
  { intros r Hr Hav. pose proof (present_lower (available st id set shards) r 0 Hav) as Hp. rewrite Hr in Hp. lia. }
  unfold gather. unfold available in *. destruct source as [src|].
  - destruct (fetch_present set id src (local_shards st id set) 0 (present (local_shards st id set))) as [Hl|Hr]; [lia|].
    set (r := fetch_shards _ _ _ _ _ _) in *. apply Hfin.
    + subst r. by rewrite fetch_length.
    + intros j Hj [Hs Ho]%andb_prop. apply bool_decide_eq_true in Hs as [s Hs].
      assert (j < length shards)%nat by by eapply lookup_lt_Some.
      apply Hr; [by rewrite Hlen|]. rewrite Z.add_0_l. apply orb_prop in Ho as [Ho|Ho]; apply bool_decide_eq_true in Ho.
      * left. exists s. apply (local_genuine _ _ shards); congruence || auto.
      * right. exists s. split; [congruence|auto].
  - apply Hfin; [done|]. intros j Hj [Hs Ho]%andb_prop. apply bool_decide_eq_true in Hs as [s Hs].
    apply orb_prop in Ho as [Ho|]; [|done]. apply bool_decide_eq_true in Ho.
    exists s. apply (local_genuine _ _ shards); congruence || auto.
Qed.

(** The body, or nothing: the core of both reconstruction theorems. *)
Lemma reconstruct_genuine st hdr blk shards set : zlen (Body blk) < W32 → 1 <= K (hd_Spec hdr) → 1 <= M (hd_Spec hdr) →
  rs_laws (Z.to_nat (K (hd_Spec hdr))) (Z.to_nat (M (hd_Spec hdr))) →
  BuildShardSet (ID hdr) (Body blk) (hd_Spec hdr) = Ok (shards, set) →
  (∀ i d s, offered st (ID hdr) set (Z.of_nat i) d → shards !! i = Some s →
     ShardHash (ID hdr) (Z.of_nat i) d = ShardHash (ID hdr) (Z.of_nat i) s → d = s) →
  ss_Spec set = hd_Spec hdr ∧ Total (hd_Spec hdr) = zlen shards ∧
  (∀ i s, shards !! i = Some s → VerifyShard set (Z.of_nat i) s = true) ∧
  (K (hd_Spec hdr) <= present (gather source st (ID hdr) set) →
    reconstructShards source st (ID hdr) set = Ok (Body blk)) ∧
  (present (gather source st (ID hdr) set) < K (hd_Spec hdr) →
    reconstructShards source st (ID hdr) set = Err ErrReconstruct).
Proof.
  intros Hlen HK HM HL Hset Hcoll.
  assert (ss_Spec set = hd_Spec hdr ∧ ss_OrigLen set = zlen (Body blk) ∧ Total (hd_Spec hdr) = zlen shards ∧
    ∃ n, Encode (Body blk) (hd_Spec hdr) = Ok (shards, n, zlen (Body blk))) as (Espec & Eorig & Et & n & Eenc).
  { destruct (Encode_ok (hd_Spec hdr) HK HM HL (Body blk)) as (sh & n & split & E & Hl & _).
    unfold BuildShardSet in Hset. rewrite E in Hset. injection Hset as <- <-. simpl. split_and!; [done|done| |by exists n].
    unfold Total, zlen. rewrite Hl. lia. }
  assert (∀ i s, shards !! i = Some s → VerifyShard set (Z.of_nat i) s = true) as Hgen
    by (intros i s Hs; by eapply BuildShardSet_verifies).
  assert (sparse shards (gather source st (ID hdr) set)) as Hsp.
  { apply gather_sparse; [|by rewrite Espec]. intros i d Ho Hv Hi. destruct (lookup_lt_is_Some_2 shards i Hi) as [s Hs].
    rewrite Hs. f_equal. symmetry. apply (Hcoll i d s Ho Hs). by eapply BuildShardSet_verifies. }
  split_and!; [done..| |].
  - intros Hp. unfold reconstructShards. rewrite Espec, Eorig, (proj2 (Z.ltb_ge _ _)) by done.
    by apply (Reconstruct_ok (hd_Spec hdr) HK HM HL (Body blk) shards n).
  - intros Hp. unfold reconstructShards. by rewrite Espec, (proj2 (Z.ltb_lt _ _)).
Qed.

(** [C24] Reconstruction from an untrusted network. Let a node hold the commitment of a
    body (its shard set), any shards on disk, and peers that answer what they like.
    Unless an offered byte string collides with the committed shard under the shard
    hash, reconstruction gives exactly the body or [ErrReconstruct], never anything
    else; and it gives the body as soon as K of the committed shards are on disk or
    handed out by some peer. So [ReconstructBody] returns exactly the block's
    transactions, whatever the other answers were. *)
Theorem reconstruction_integrity (st : Store) (hdr : Header) (blk : Block) (shards : list bytes) (set : ShardSet)
  (HK : 1 <= K (hd_Spec hdr)) (HM : 1 <= M (hd_Spec hdr))
  (HL : rs_laws (Z.to_nat (K (hd_Spec hdr))) (Z.to_nat (M (hd_Spec hdr))))
  (Hlen : zlen (Body blk) < W32) (Hwf : Forall tx_wf (b_Txs blk))
  (Hcan : Forall (λ t, zlen (canonical t) < W64) (b_Txs blk)) (Hn : zlen (b_Txs blk) < W32)
  (Hset : BuildShardSet (ID hdr) (Body blk) (hd_Spec hdr) = Ok (shards, set))
  (Hget : GetHeader (hd_Height hdr) st = Ok (hdr, set))
  (Hcoll : ∀ i d s, offered st (ID hdr) set (Z.of_nat i) d → shards !! i = Some s →
     ShardHash (ID hdr) (Z.of_nat i) d = ShardHash (ID hdr) (Z.of_nat i) s → d = s) :
  (reconstructShards source st (ID hdr) set = Ok (Body blk) ∨
   reconstructShards source st (ID hdr) set = Err ErrReconstruct) ∧
  (K (hd_Spec hdr) <= zlen (filter (λ i, available st (ID hdr) set shards i = true) (seq 0 (length shards))) →
   reconstructShards source st (ID hdr) set = Ok (Body blk) ∧
   ReconstructBody source st (hd_Height hdr) = Ok (b_Txs blk)).
Proof.
  destruct (reconstruct_genuine st hdr blk shards set) as (Espec & Et & Hgen & Hok & Hno); [done..|]. split.
  - destruct (Z.lt_ge_cases (present (gather source st (ID hdr) set)) (K (hd_Spec hdr))); auto.
  - intros Hav. assert (reconstructShards source st (ID hdr) set = Ok (Body blk)) as E.
    { apply Hok. rewrite <- Espec. rewrite <- Espec in Hav. apply (gather_present _ _ _ shards); [done|by rewrite Espec|done]. }
    split; [done|]. unfold ReconstructBody. rewrite Hget. simpl. rewrite E. simpl. by apply DecodeTxs_EncodeTxs.
Qed.
End reconstruct.

(** ** A concrete network

    Nothing is on disk; one peer answers with the right shard, the others lie. *)

Definition w_hdr : Header := MkHeader 1 Zero Zero 7 "val" 1 0 (MkSpec 1 2) Zero Zero [] [].
Definition w_blk : Block := MkBlock w_hdr [sample_tx].
Definition w_built : list bytes * ShardSet := Eval vm_compute in
  match @BuildShardSet copy_code (ID w_hdr) (Body w_blk) (MkSpec 1 2) with
  | Ok r => r | _ => ([], MkShardSet [] (MkSpec 0 0) 0 0 []) end.
Definition w_source : Hash → Z → ShardSet → option bytes := λ _ i _,
  if i =? 1 then w_built.1 !! 1%nat else Some [zb i].
Definition w_store : Store := MkStore {[1 := (w_hdr, w_built.2)]} ∅ ∅ None ∅.

Lemma reconstruction_integrity_witness :
  @ReconstructBody copy_code (Some w_source) w_store 1 = Ok [sample_tx].
Proof.
  destruct (@reconstruction_integrity copy_code (Some w_source) w_store w_hdr w_blk w_built.1 w_built.2) as [_ H].
  - simpl. lia.
  - simpl. lia.
  - apply copy_code_laws.
  - vm_compute. reflexivity.
  - repeat constructor; apply sample_tx_wf.
  - repeat constructor; vm_compute; reflexivity.
  - vm_compute. reflexivity.
  - vm_compute. reflexivity.
  - reflexivity.
  - intros i d s [Ho|(src & [= <-] & Ho)] Hs; [discriminate Ho|].
    destruct i as [|[|[|i]]]; [| | |discriminate Hs].
    + injection Hs as <-. injection Ho as <-. intros Hc. vm_compute in Hc. discriminate Hc.
    + intros _. vm_compute in Ho, Hs. congruence.
    + injection Hs as <-. injection Ho as <-. intros Hc. vm_compute in Hc. discriminate Hc.
  - apply H. vm_compute. discriminate.
Defined.
