(* ===== verification/StoreFiles.v ===== *)
(** * The store on disk ([internal/store/store.go])

    The files behind the maps of [Chain.Store]: what each method of the Go store reads and
    writes below the data directory, and that the maps are what the files amount to. *)

From S2P Require Import Prelude Sha256 Crypto Merkle Netparams Types State StateStore Demo Strconv Chain ChainProps.

Local Abbreviation M := Prelude.M.

(** ** A file system *)

(** A path below the data directory, as [filepath.Join] puts it together. *)
Definition path := list string.
Record Files := MkFiles { fs_dirs : gset path; fs_data : gmap path bytes }.

(** [os.MkdirAll], [os.WriteFile], [os.ReadFile], [os.ReadDir]. *)
Definition prefixes (p : path) : list path := (λ n, take n p) <$> seq 0 (S (length p)).
Definition MkdirAll (p : path) : M Files unit := modify (λ f, MkFiles (list_to_set (prefixes p) ∪ fs_dirs f) (fs_data f)).
Definition parent (p : path) : path := take (length p - 1) p.
Definition WriteFile (p : path) (b : bytes) : M Files unit := λ f,
  if decide (parent p ∈ fs_dirs f) then OK (MkFiles (fs_dirs f) (<[p := b]> (fs_data f))) tt else ERR f ErrNotExist.
Definition ReadFile (p : path) (f : Files) : res bytes :=
  match fs_data f !! p with Some b => Ok b | None => Err ErrNotExist end.

(** The name of [q] in the directory [p]. *)
Definition child (p q : path) : option string :=
  match drop (length p) q with [n] => if decide (take (length p) q = p) then Some n else None | _ => None end.
Definition names (p : path) (f : Files) : gset string :=
  list_to_set (omap (child p) (elements (fs_dirs f) ++ (map_to_list (fs_data f)).*1)).
(** The entries come sorted by name; a directory that does not exist is an error. *)
Definition ReadDir (p : path) (f : Files) : option (list string) :=
  if decide (p ∈ fs_dirs f) then Some (merge_sort str_le (elements (names p f))) else None.

(** ** Names *)

(** [fmt.Sprintf("%020d" ++ suffix, h)]. *)
Definition pad (n : nat) (l : bytes) : bytes := replicate (n - length l) (zb 48) ++ l.
Definition height_name (suffix : string) (h : Z) : string := string_of (pad 20 (bytes_of (FormatUint h)) ++ bytes_of suffix).

(** [fmt.Sscanf(name, "%020d" ++ suffix, &h)]: up to twenty digits, then the suffix; what
    follows is not looked at. *)
Definition scan_uint (width : nat) (suffix : string) (name : string) : option Z :=
  let l := bytes_of name in
  let l := trim (length l) (filter (λ p, p ≠ [zb 10]) spaces) l in
  let d := take width (take_digits l) in
  h ← ParseUint (string_of d);
  if decide (take (length (bytes_of suffix)) (drop (length d) l) = bytes_of suffix) then Some h else None.

(** [fmt.Sscanf(name, "%d" ++ suffix, &i)] for an [int]: a sign, digits, the suffix. *)
Definition scan_int (suffix : string) (name : string) : option Z :=
  let l := bytes_of name in
  let l := trim (length l) (filter (λ p, p ≠ [zb 10]) spaces) l in
  let s := match l with b :: _ => if (bz b =? 45) || (bz b =? 43) then take 1 l else [] | [] => [] end in
  let d := s ++ take_digits (drop (length s) l) in
  match Atoi (string_of d) with
  | (i, true) => if decide (take (length (bytes_of suffix)) (drop (length d) l) = bytes_of suffix) then Some i else None
  | _ => None
  end.

(** ** The methods *)

Module OnDisk.

Definition headerPath (h : Z) : path := ["blocks"; height_name ".hdr" h].
Definition shardDir (id : Hash) : path := ["shards"; string_of (hex_encode id)].
Definition logsSetPath (h : Z) : path := ["logs"; height_name ".set" h].
Definition blockPath (id : Hash) : path := ["bodies"; string_of (hex_encode id ++ bytes_of ".json")].
Definition statePath (name : string) : path := [name].
Definition shardPath (id : Hash) (i : Z) : path := shardDir id ++ [shard_file i].
Definition replayBaseFile : string := "replaybase.json".

(** encoding/json, for what the store writes; it reads back two of the four itself. *)
Class StoreCodec := {
  json_record : Header * ShardSet → bytes;
  value_record : bytes → option (Header * ShardSet);
  json_set : ShardSet → bytes;
  value_set : bytes → option ShardSet;
  json_block : Block → bytes;
  json_base : Hash * Z * State → bytes;
}.
Record store_codec_laws `{StoreCodec} : Prop := {
  record_law r : value_record (json_record r) = Some r;
  set_law s : value_set (json_set s) = Some s;
}.

Section methods.
Context `{StoreCodec}.

Fixpoint make_dirs (l : list string) : M Files unit :=
  match l with [] => mret tt | d :: r => MkdirAll [d] ≫= λ _, make_dirs r end.
Definition Open : M Files unit := make_dirs ["blocks"; "shards"; "keys"; "logs"].

Definition PutLogsSet (h : Z) (set : ShardSet) : M Files unit :=
  MkdirAll ["logs"] ≫= λ _, WriteFile (logsSetPath h) (json_set set).
Definition GetLogsSet (h : Z) (f : Files) : option ShardSet :=
  match ReadFile (logsSetPath h) f with Ok b => value_set b | _ => None end.
Definition PutBlock (id : Hash) (b : Block) : M Files unit :=
  MkdirAll ["bodies"] ≫= λ _, WriteFile (blockPath id) (json_block b).
Definition GetBlockRaw (id : Hash) (f : Files) : option bytes :=
  match ReadFile (blockPath id) f with Ok b => Some b | _ => None end.
Definition PutState (name : string) (v : Hash * Z * State) : M Files unit := WriteFile (statePath name) (json_base v).
Definition GetStateRaw (name : string) (f : Files) : option bytes :=
  match ReadFile (statePath name) f with Ok b => Some b | _ => None end.
Definition PutHeader (h : Header) (set : ShardSet) : M Files unit := WriteFile (headerPath (hd_Height h)) (json_record (h, set)).
Definition GetHeader (h : Z) (f : Files) : res (Header * ShardSet) :=
  b ← ReadFile (headerPath h) f; match value_record b with Some r => Ok r | None => Err ErrJSON end.

(** The greatest number a file name of the directory gives. *)
Definition higher (r : Z * bool) (name : string) : Z * bool :=
  match scan_uint 20 ".hdr" name with
  | Some h => if negb r.2 || (r.1 <? h) then (h, true) else r
  | None => r
  end.
Definition Height (f : Files) : Z :=
  match ReadDir ["blocks"] f with Some l => (foldl higher (0, false) l).1 | None => 0 end.
Definition HasHeaders (f : Files) : bool := match ReadDir ["blocks"] f with Some (_ :: _) => true | _ => false end.

(** From height [n - 1] down; files that do not read are passed over. *)
Fixpoint header_scan (n : nat) (id : Hash) (f : Files) : option (Header * ShardSet) :=
  match n with
  | O => None
  | S n' =>
      match GetHeader (Z.of_nat n') f with
      | Ok r => if bool_decide (ID r.1 = id) then Some r else header_scan n' id f
      | _ => header_scan n' id f
      end
  end.
Definition HeaderByID (id : Hash) (f : Files) : res (Header * ShardSet) :=
  match header_scan (Z.to_nat (int_of_u64 (Height f) + 1)) id f with Some r => Ok r | None => Err ErrNotExist end.

Definition PutShard (id : Hash) (i : Z) (data : bytes) : M Files unit :=
  MkdirAll (shardDir id) ≫= λ _, WriteFile (shardPath id i) data.
Definition GetShard (id : Hash) (i : Z) (f : Files) : res bytes := ReadFile (shardPath id i) f.
Definition HeldShards (id : Hash) (f : Files) : list Z :=
  match ReadDir (shardDir id) f with Some l => omap (scan_int ".shard") l | None => [] end.
End methods.
End OnDisk.

(** ** Names are read back *)

Definition digit_byte (b : byte) : Prop := 48 <= bz b <= 57.

Lemma parse_digits_all l : ∀ n v, parse_digits l n = Some v → Forall digit_byte l.
Proof.
  induction l as [|b l IH]; intros n v; simpl; [constructor|]. destruct ((48 <=? bz b) && _) eqn:E; [|done].
  apply andb_prop in E as [?%Z.leb_le ?%Z.leb_le]. destruct (_ <? W64); [|done]. intros Hp. constructor; [by split|by eapply IH].
Qed.

Lemma digits_length n : ∀ z, (length (digits n z []) <= n)%nat.
Proof.
  induction n as [|n IH]; intros z; cbn [digits]; [done|]. destruct (_ =? 0); [simpl; lia|].
  rewrite digits_app, length_app. specialize (IH (z / 10)). simpl. lia.
Qed.

Lemma take_digits_app l r : Forall digit_byte l → match r with b :: _ => ¬ digit_byte b | [] => True end → take_digits (l ++ r) = l.
Proof.
  intros Hl Hr. induction Hl as [|b l [H1 H2] _ IH]; simpl.
  - destruct r as [|b r]; [done|]. simpl. destruct ((48 <=? bz b) && _) eqn:E; [|done].
    apply andb_prop in E as [?%Z.leb_le ?%Z.leb_le]. by destruct Hr.
  - rewrite (proj2 (Z.leb_le _ _) H1), (proj2 (Z.leb_le _ _) H2). simpl. by rewrite IH.
Qed.

Lemma parse_zeros k l : parse_digits (replicate k (zb 48) ++ l) 0 = parse_digits l 0.
Proof. induction k as [|k IH]; [done|]. simpl. exact IH. Qed.

Lemma digit_hex b : digit_byte b → is_hex_digit b = true.
Proof. intros [H1 H2]. unfold is_hex_digit. rewrite (proj2 (Z.leb_le _ _) H1), (proj2 (Z.leb_le _ _) H2). done. Qed.

Lemma trim_digits n b r : is_hex_digit b = true → trim n (filter (λ p, p ≠ [zb 10]) spaces) (b :: r) = b :: r.
Proof. intros Hb. by apply trim_none. Qed.

Lemma padded_digits h : is_u64 h → let l := pad 20 (bytes_of (FormatUint h)) in
  Forall digit_byte l ∧ length l = 20%nat ∧ ParseUint (string_of l) = Some h.
Proof.
  intros Hh. pose proof (Parse_Format h Hh) as E. unfold ParseUint in E.
  assert (length (bytes_of (FormatUint h)) <= 20)%nat as Hlen by (unfold FormatUint; rewrite bytes_of_string_of; apply digits_length).
  destruct (bytes_of (FormatUint h)) as [|b r] eqn:Eb; [done|]. cbv zeta. unfold pad. split_and!.
  - apply Forall_app. split; [|by eapply parse_digits_all]. apply Forall_replicate. split; vm_compute; discriminate.
  - rewrite length_app, length_replicate. lia.
  - unfold ParseUint. rewrite bytes_of_string_of. destruct (replicate _ _ ++ _) as [|c s] eqn:Ec; [by destruct (20 - length (b :: r))%nat in Ec|].
    by rewrite <- Ec, parse_zeros.
Qed.

Lemma scan_height suffix h : is_u64 h → match bytes_of suffix with b :: _ => ¬ digit_byte b | [] => True end →
  scan_uint 20 suffix (height_name suffix h) = Some h.
Proof.
  intros Hh Hs. destruct (padded_digits h Hh) as (Hd & Hl & Hp). unfold scan_uint, height_name. rewrite bytes_of_string_of.
  set (l := pad 20 _) in *. assert (∃ b r, l = b :: r) as (b & r & El) by (destruct l; [done|eauto]).
  assert (∀ n, trim n (filter (λ p, p ≠ [zb 10]) spaces) (l ++ bytes_of suffix) = l ++ bytes_of suffix) as Et.
  { intros n. rewrite El. apply trim_digits, digit_hex. rewrite El in Hd. by inversion Hd. }
  cbv zeta. rewrite Et, take_digits_app by done. rewrite (take_ge l) by lia. rewrite Hp. cbn [mbind option_bind].
  rewrite drop_app_length, firstn_all. by rewrite decide_True.
Qed.

Lemma scan_shard i : - maxInt - 1 <= i <= maxInt → scan_int ".shard" (shard_file i) = Some i.
Proof.
  intros Hi. pose proof (Atoi_Itoa i Hi) as Ea. unfold scan_int, shard_file. rewrite bytes_of_string_of.
  assert (∃ z, is_u64 z ∧ bytes_of (Itoa i) = (if i <? 0 then [zb 45] else []) ++ bytes_of (FormatUint z)) as (z & Hz & Ei).
  { unfold Itoa, maxInt in *. destruct (Z.ltb_spec i 0); [exists (- i)|exists i]; (split; [unfold is_u64, W64; lia|]);
      [by rewrite bytes_of_string_of|done]. }
  assert (string_of (bytes_of (Itoa i)) = Itoa i) as Es by (unfold string_of, bytes_of; apply String.string_of_list_byte_of_string).
  pose proof (Parse_Format z Hz) as E. unfold ParseUint in E. destruct (bytes_of (FormatUint z)) as [|b r] eqn:Eb; [done|].
  apply parse_digits_all in E. assert (digit_byte b) as [Hb1 Hb2] by (by inversion E).
  assert (take_digits ((b :: r) ++ bytes_of ".shard") = b :: r) as Et by (apply take_digits_app; [done|intros [X Y]; vm_compute in X, Y; by destruct X]).
  cbv zeta. rewrite Ei in *. destruct (Z.ltb_spec i 0); cbn [app] in *.
  - assert (∀ n x, trim n (filter (λ p, p ≠ [zb 10]) spaces) (zb 45 :: x) = zb 45 :: x) as -> by (intros [|n] x; reflexivity).
    change (bz (zb 45) =? 45) with true. cbn [orb take length drop app]. rewrite Et, Es, Ea.
    change (b :: r ++ bytes_of ".shard") with ((b :: r) ++ bytes_of ".shard"). rewrite drop_app_length, firstn_all. by rewrite decide_True.
  - rewrite trim_digits by (by apply digit_hex). rewrite (proj2 (Z.eqb_neq (bz b) 45)), (proj2 (Z.eqb_neq (bz b) 43)) by lia. cbn [orb length drop app]. rewrite Et, Es, Ea.
    change (b :: r ++ bytes_of ".shard") with ((b :: r) ++ bytes_of ".shard"). rewrite drop_app_length, firstn_all. by rewrite decide_True.
Qed.

(** ** What the files hold *)

Import OnDisk.

(** The key a file name stands for, when it is the name of that key. *)
Definition named {K} (name : K → string) (scan : string → option K) (n : string) : option K :=
  k ← scan n; if decide (name k = n) then Some k else None.
Lemma named_name {K} (name : K → string) scan k : scan (name k) = Some k → named name scan (name k) = Some k.
Proof. intros E. unfold named. rewrite E. cbn [mbind option_bind]. by rewrite decide_True. Qed.
Lemma named_Some {K} (name : K → string) scan n k : named name scan n = Some k → name k = n.
Proof. unfold named. destruct (scan n) as [x|]; [|done]. cbn [mbind option_bind]. case_decide; [by intros [= <-]|done]. Qed.

Definition hex_name (suffix : string) (id : Hash) : string := string_of (hex_encode id ++ bytes_of suffix).
Definition scan_hex (suffix : string) (n : string) : option Hash :=
  hex_decode (take (length (bytes_of n) - length (bytes_of suffix)) (bytes_of n)).
Lemma scan_hex_name suffix id : scan_hex suffix (hex_name suffix id) = Some id.
Proof.
  unfold scan_hex, hex_name. rewrite bytes_of_string_of, length_app, Nat.add_sub, take_app_length. apply hex_decode_encode.
Qed.

Section holds.
Context `{StoreCodec}.

(** What is in the file of a path, for the maps of the store. *)
Definition content (st : Store) (p : path) : option bytes :=
  match p with
  | [n] => if decide (n = replayBaseFile) then json_base <$> st_base st else None
  | [d; n] =>
      if decide (d = "blocks") then h ← named (height_name ".hdr") (scan_uint 20 ".hdr") n; json_record <$> st_headers st !! h
      else if decide (d = "logs") then h ← named (height_name ".set") (scan_uint 20 ".set") n; json_set <$> st_logsets st !! h
      else if decide (d = "bodies") then id ← named (hex_name ".json") (scan_hex ".json") n; json_block <$> st_bodies st !! id
      else None
  | [d; x; n] =>
      if decide (d = "shards") then
        id ← named (hex_name "") (scan_hex "") x; i ← named shard_file (scan_int ".shard") n; st_shards st !! (id, i)
      else None
  | _ => None
  end.

Record holds (st : Store) (f : Files) : Prop := {
  hs_data p : fs_data f !! p = content st p;
  hs_headers : map_Forall (λ h _, is_u64 h) (st_headers st);
  hs_shards : map_Forall (λ (k : Hash * Z) _, - maxInt - 1 <= k.2 <= maxInt ∧ shardDir k.1 ∈ fs_dirs f) (st_shards st);
  hs_root : [] ∈ fs_dirs f ∧ ["blocks"] ∈ fs_dirs f;
  hs_dirs p : p ∈ fs_dirs f → (length p <= 1)%nat ∨ ∃ id, p = shardDir id;
}.

Lemma scan_hdr h : is_u64 h → scan_uint 20 ".hdr" (height_name ".hdr" h) = Some h.
Proof. intros Hh. apply scan_height; [done|]. intros [X Y]. by vm_compute in X. Qed.
Lemma scan_set h : is_u64 h → scan_uint 20 ".set" (height_name ".set" h) = Some h.
Proof. intros Hh. apply scan_height; [done|]. intros [X Y]. by vm_compute in X. Qed.
Lemma hex_name_dir id : hex_name "" id = string_of (hex_encode id).
Proof. unfold hex_name. by rewrite app_nil_r. Qed.

(** The files of the keys. *)
Lemma content_header st h : is_u64 h → content st (headerPath h) = json_record <$> st_headers st !! h.
Proof. intros Hh. unfold content, headerPath. rewrite decide_True by done. by rewrite named_name by by apply scan_hdr. Qed.
Lemma content_set st h : is_u64 h → content st (logsSetPath h) = json_set <$> st_logsets st !! h.
Proof. intros Hh. unfold content, logsSetPath. rewrite decide_False, decide_True by done. by rewrite named_name by by apply scan_set. Qed.
Lemma content_block st id : content st (blockPath id) = json_block <$> st_bodies st !! id.
Proof.
  unfold content, blockPath. rewrite !decide_False, decide_True by done. fold (hex_name ".json" id). by rewrite named_name by apply scan_hex_name.
Qed.
Lemma content_shard st id i : - maxInt - 1 <= i <= maxInt → content st (shardPath id i) = st_shards st !! (id, i).
Proof.
  intros Hi. unfold content, shardPath, shardDir. cbn [app]. rewrite decide_True by done. rewrite <- hex_name_dir.
  rewrite (named_name (hex_name "")) by apply scan_hex_name. cbn [mbind option_bind]. by rewrite named_name by by apply scan_shard.
Qed.

(** A write to the maps is a write to one file. *)
Definition writes (p : path) (b : bytes) (st st' : Store) : Prop := ∀ q, content st' q = if decide (q = p) then Some b else content st q.

Lemma writes_header h set st : is_u64 (hd_Height h) → writes (headerPath (hd_Height h)) (json_record (h, set)) st (Chain.PutHeader h set st).
Proof.
  intros Hh q. case_decide as E; [subst q; rewrite content_header by done; simpl; by rewrite lookup_insert_eq|].
  destruct q as [|d [|n [|]]]; try done. simpl. case_decide as Ed; [subst d|done].
  destruct (named _ _ n) as [k|] eqn:Ek; [|done]. simpl. apply named_Some in Ek. rewrite lookup_insert_ne; [done|]. intros <-. apply E. by rewrite <- Ek.
Qed.
Lemma writes_set h set st : is_u64 h → writes (logsSetPath h) (json_set set) st (Chain.PutLogsSet h set st).
Proof.
  intros Hh q. case_decide as E; [subst q; rewrite content_set by done; simpl; by rewrite lookup_insert_eq|].
  destruct q as [|d [|n [|]]]; try done. simpl. case_decide; [done|]. case_decide as Ed; [subst d|done].
  destruct (named _ _ n) as [k|] eqn:Ek; [|done]. simpl. apply named_Some in Ek. rewrite lookup_insert_ne; [done|]. intros <-. apply E. by rewrite <- Ek.
Qed.
Lemma writes_block id b st : writes (blockPath id) (json_block b) st (Chain.PutBlock id b st).
Proof.
  intros q. case_decide as E; [subst q; rewrite content_block; simpl; by rewrite lookup_insert_eq|].
  destruct q as [|d [|n [|]]]; try done. simpl. case_decide; [done|]. case_decide; [done|]. case_decide as Ed; [subst d|done].
  destruct (named _ _ n) as [k|] eqn:Ek; [|done]. simpl. apply named_Some in Ek. rewrite lookup_insert_ne; [done|]. intros <-. apply E. by rewrite <- Ek.
Qed.
Lemma writes_state id h s st : writes (statePath replayBaseFile) (json_base (id, h, s)) st (Chain.PutState id h s st).
Proof. intros q. case_decide as E; [by subst q|]. destruct q as [|d [|]]; try done. simpl. case_decide as Ed; [by subst d|done]. Qed.
Lemma writes_shard id i d st : - maxInt - 1 <= i <= maxInt → writes (shardPath id i) d st (Chain.PutShard id i d st).
Proof.
  intros Hi q. case_decide as E; [subst q; rewrite content_shard by done; simpl; by rewrite lookup_insert_eq|].
  destruct q as [|a [|x [|n [|]]]]; try done. simpl. case_decide as Ed; [subst a|done].
  destruct (named _ _ x) as [k|] eqn:Ek; [|done]. destruct (named shard_file _ n) as [j|] eqn:Ej; [|done]. simpl.
  apply named_Some in Ek, Ej. rewrite lookup_insert_ne; [done|]. intros [= <- <-]. apply E. unfold shardPath, shardDir. rewrite <- hex_name_dir. by rewrite Ek, Ej.
Qed.
End holds.

(** ** Listings *)

Lemma child_Some p q n : child p q = Some n ↔ q = p ++ [n].
Proof.
  unfold child. split.
  - destruct (drop (length p) q) as [|x [|]] eqn:E; [done| |done]. case_decide as Et; [|done]. intros [= <-].
    rewrite <- (take_drop (length p) q). by rewrite Et, E.
  - intros ->. rewrite drop_app_length, take_app_length. by rewrite decide_True.
Qed.

Lemma elem_of_names p f n : n ∈ names p f ↔ p ++ [n] ∈ fs_dirs f ∨ is_Some (fs_data f !! (p ++ [n])).
Proof.
  unfold names. rewrite elem_of_list_to_set, list_elem_of_omap. split.
  - intros (q & Hq & ->%child_Some). apply elem_of_app in Hq as [Hq|Hq]; [left; by apply elem_of_elements|right].
    apply list_elem_of_fmap in Hq as ([k b] & -> & Hk%elem_of_map_to_list). by exists b.
  - intros Hq. exists (p ++ [n]). rewrite child_Some. split; [|done]. apply elem_of_app. destruct Hq as [Hq|[b Hb]]; [left; by apply elem_of_elements|right].
    apply list_elem_of_fmap. exists (p ++ [n], b). split; [done|]. by apply elem_of_map_to_list.
Qed.

Lemma merge_sort_perm l l' : l ≡ₚ l' → merge_sort str_le l = merge_sort str_le l'.
Proof.
  intros Hp. apply (Sorted_unique str_le); [apply (Sorted_merge_sort str_le)..|].
  by rewrite !(merge_sort_Permutation str_le).
Qed.

(** A directory that holds one file per key. *)
Lemma listing {K} p f (name : K → string) (ks : list K) : p ∈ fs_dirs f → NoDup (name <$> ks) →
  (∀ n, n ∈ names p f ↔ n ∈ name <$> ks) → ReadDir p f = Some (merge_sort str_le (name <$> ks)).
Proof.
  intros Hd Hnd Hn. unfold ReadDir. rewrite decide_True by done. f_equal. apply merge_sort_perm.
  apply NoDup_Permutation; [apply NoDup_elements|done|]. intros n. rewrite elem_of_elements. apply Hn.
Qed.

Lemma higher_max ks : Forall is_u64 ks → ∀ m b, 0 <= m → (b = false → m = 0) →
  (foldl higher (m, b) (height_name ".hdr" <$> ks)).1 = Z.max m (foldr Z.max 0 ks).
Proof.
  induction 1 as [|h ks Hh _ IH]; intros m b Hm Hb; [simpl; lia|]. rewrite fmap_cons. cbn [foldl foldr].
  unfold higher at 2. rewrite scan_hdr by done. cbn [fst snd]. destruct Hh as [H0 _].
  destruct b; cbn [negb orb].
  - destruct (Z.ltb_spec m h); rewrite IH by (done || lia); lia.
  - rewrite (Hb eq_refl). rewrite IH by (done || lia). lia.
Qed.

Lemma foldr_max_perm l l' : l ≡ₚ l' → foldr Z.max 0 l = foldr Z.max 0 l'.
Proof. induction 1; simpl; lia. Qed.

Section refine.
Context `{StoreCodec} (laws : store_codec_laws).

Lemma blocks_listed st f : holds st f → ReadDir ["blocks"] f = Some (merge_sort str_le (height_name ".hdr" <$> (map_to_list (st_headers st)).*1)).
Proof.
  intros [Hd Hh _ [_ Hb] Hdirs]. apply listing; [done| |].
  - apply (NoDup_fmap_2_strong (height_name ".hdr")); [|apply NoDup_fst_map_to_list]. intros h h' Hi Hi' E.
    assert (∀ k, k ∈ (map_to_list (st_headers st)).*1 → is_u64 k) as Hk.
    { intros k ([k' r] & -> & Hin%elem_of_map_to_list)%list_elem_of_fmap. exact (Hh k' r Hin). }
    pose proof (scan_hdr h (Hk h Hi)) as E1. rewrite E, scan_hdr in E1 by by apply Hk. congruence.
  - intros n. rewrite elem_of_names. cbn [app]. rewrite Hd. split.
    + intros [Hn|[b Hb']]; [apply Hdirs in Hn as [Hl|[id E]]; [simpl in Hl; lia|done]|]. simpl in Hb'.
      destruct (named _ _ n) as [h|] eqn:En; [|done]. apply named_Some in En. simpl in Hb'.
      destruct (st_headers st !! h) as [r|] eqn:Er; [|done]. apply list_elem_of_fmap. exists h. split; [done|].
      apply list_elem_of_fmap. exists (h, r). split; [done|]. by apply elem_of_map_to_list.
    + intros (h & -> & Hin)%list_elem_of_fmap. apply list_elem_of_fmap in Hin as ([k r] & -> & Hin%elem_of_map_to_list). right. cbn [fst].
      change ["blocks"; height_name ".hdr" k] with (headerPath k). rewrite (content_header st k (Hh k r Hin)), Hin. by eexists.
Qed.

Lemma Height_refines st f : holds st f → Height f = Store_Height st.
Proof.
  intros Hs. unfold Height. rewrite (blocks_listed st f Hs). unfold Store_Height.
  destruct (Permutation_map_inv (height_name ".hdr") _ (merge_sort_Permutation str_le (height_name ".hdr" <$> (map_to_list (st_headers st)).*1)))
    as (ks & E & Hp). change (merge_sort str_le (height_name ".hdr" <$> (map_to_list (st_headers st)).*1) = height_name ".hdr" <$> ks) in E. rewrite E.
  assert (Forall is_u64 ks) as Hk.
  { apply Forall_forall. intros k Hk. rewrite <- Hp in Hk. apply list_elem_of_fmap in Hk as ([k' r] & -> & Hin%elem_of_map_to_list).
    exact (hs_headers _ _ Hs k' r Hin). }
  rewrite higher_max by done. rewrite (foldr_max_perm _ _ Hp).
  assert (0 <= foldr Z.max 0 ks) by (clear; induction ks; simpl; lia). lia.
Qed.

Lemma HasHeaders_refines st f : holds st f → HasHeaders f = Chain.HasHeaders st.
Proof.
  intros Hs. unfold HasHeaders. rewrite (blocks_listed st f Hs). unfold Chain.HasHeaders.
  pose proof (Permutation_length (merge_sort_Permutation str_le (height_name ".hdr" <$> (map_to_list (st_headers st)).*1))) as Hl.
  rewrite !length_fmap, length_map_to_list in Hl. destruct (merge_sort _ _) as [|x l]; simpl in Hl.
  - rewrite bool_decide_true; [done|]. by apply map_size_empty_inv.
  - rewrite bool_decide_false; [done|]. intros E. by rewrite E, map_size_empty in Hl.
Qed.

Lemma GetHeader_refines st f h : holds st f → is_u64 h → GetHeader h f = Chain.GetHeader h st.
Proof.
  intros Hs Hh. unfold GetHeader, ReadFile, Chain.GetHeader. rewrite (hs_data _ _ Hs), content_header by done.
  destruct (st_headers st !! h) as [r|]; [|done]. simpl. by rewrite (record_law laws).
Qed.

Lemma header_scan_refines st f id n : holds st f → Z.of_nat n <= W64 → header_scan n id f = Chain.header_scan n id st.
Proof.
  intros Hs. induction n as [|n IH]; intros Hn; [done|]. cbn [header_scan Chain.header_scan].
  rewrite (GetHeader_refines st f _ Hs) by (unfold is_u64; lia). destruct (Chain.GetHeader _ st); rewrite IH by lia; done.
Qed.

Lemma Store_Height_u64 st f : holds st f → is_u64 (Store_Height st).
Proof.
  intros Hs. unfold Store_Height. assert (Forall is_u64 (map_to_list (st_headers st)).*1) as Hk.
  { apply Forall_forall. intros k ([k' r] & -> & Hin%elem_of_map_to_list)%list_elem_of_fmap. exact (hs_headers _ _ Hs k' r Hin). }
  induction Hk as [|k l Hk _ IH]; simpl; [by split|]. unfold is_u64 in *. lia.
Qed.

Lemma HeaderByID_refines st f id : holds st f → HeaderByID id f = Chain.HeaderByID id st.
Proof.
  intros Hs. unfold HeaderByID, Chain.HeaderByID. rewrite (Height_refines st f Hs), (header_scan_refines st f); [done|done|].
  pose proof (Store_Height_u64 st f Hs). unfold int_of_u64, is_u64, W64 in *. destruct (_ <? _); lia.
Qed.

Lemma HeldShards_refines st f id : holds st f → HeldShards id f = Chain.HeldShards id st.
Proof.
  intros Hs. unfold HeldShards, Chain.HeldShards. set (ks := (filter (λ k : Hash * Z, k.1 = id) (map_to_list (st_shards st)).*1).*2).
  assert (∀ i, i ∈ ks ↔ is_Some (st_shards st !! (id, i))) as Hks.
  { intros i. unfold ks. rewrite list_elem_of_fmap. split.
    - intros ([k j] & -> & Hk). apply list_elem_of_filter in Hk as [Ek Hk]. simpl in *. subst k.
      apply list_elem_of_fmap in Hk as ([k' d] & -> & Hd%elem_of_map_to_list). by exists d.
    - intros [d Hd]. exists (id, i). split; [done|]. apply list_elem_of_filter. split; [done|]. apply list_elem_of_fmap. exists ((id, i), d).
      split; [done|]. by apply elem_of_map_to_list. }
  assert (∀ i, i ∈ ks → - maxInt - 1 <= i <= maxInt ∧ shardDir id ∈ fs_dirs f) as Hr.
  { intros i [d Hd]%Hks. exact (hs_shards _ _ Hs (id, i) d Hd). }
  assert (NoDup ks) as Hnd.
  { apply NoDup_fmap_2_strong; [|apply NoDup_filter, NoDup_fst_map_to_list].
    intros [k i] [k' i'] [E1 _]%list_elem_of_filter [E2 _]%list_elem_of_filter. simpl in *. congruence. }
  destruct (decide (shardDir id ∈ fs_dirs f)) as [Hd|Hd].
  2: { unfold ReadDir. rewrite decide_False by done. destruct ks as [|k r]; [done|]. destruct Hd. apply (Hr k), list_elem_of_here. }
  rewrite (listing (shardDir id) f shard_file ks Hd).
  - assert (merge_sort str_le (shard_file <$> ks) = shard_file <$> merge_sort file_le ks) as ->.
    { apply (Sorted_unique str_le); [apply (Sorted_merge_sort str_le)| |].
      - apply (Sorted_fmap shard_file file_le str_le); [done|]. apply Sorted_merge_sort. intros i j. unfold file_le. apply str_le_total.
      - by rewrite (merge_sort_Permutation str_le), (merge_sort_Permutation file_le). }
    assert (Forall (λ i, - maxInt - 1 <= i <= maxInt) (merge_sort file_le ks)) as Hall.
    { apply Forall_forall. intros i. rewrite (merge_sort_Permutation file_le). intros Hi. by apply Hr. }
    clear -Hall. induction Hall as [|i l Hi _ IH]; [done|]. rewrite fmap_cons. cbn [omap list_omap]. rewrite scan_shard by done. by rewrite IH.
  - apply (NoDup_fmap_2_strong shard_file); [|done]. intros i j Hi Hj E. pose proof (scan_shard i (proj1 (Hr i Hi))) as E1.
    rewrite E, scan_shard in E1 by by apply Hr. congruence.
  - intros n. rewrite elem_of_names, (hs_data _ _ Hs). change (shardDir id ++ [n]) with ["shards"; string_of (hex_encode id); n]. split.
    + intros [Hn|[b Hb]]; [apply (hs_dirs _ _ Hs) in Hn as [Hl|[id' E]]; [simpl in Hl; lia|done]|]. revert Hb. simpl. rewrite <- hex_name_dir.
      rewrite (named_name (hex_name "")) by apply scan_hex_name. cbn [mbind option_bind].
      destruct (named shard_file _ n) as [i|] eqn:En; [|done]. apply named_Some in En. cbn [mbind option_bind]. intros Hb. apply list_elem_of_fmap.
      exists i. split; [done|]. apply Hks. by exists b.
    + intros (i & -> & Hi)%list_elem_of_fmap. right. change ["shards"; string_of (hex_encode id); shard_file i] with (shardPath id i).
      rewrite (content_shard st id i (proj1 (Hr i Hi))). by apply Hks.
Qed.
End refine.

(** ** The store as a client of the file system *)

(** The writes of a store, on the maps and on the disk. *)
Inductive write :=
  | WHeader (h : Header) (set : ShardSet)
  | WLogs (h : Z) (set : ShardSet)
  | WBlock (id : Hash) (b : Block)
  | WState (id : Hash) (h : Z) (s : State)
  | WShard (id : Hash) (i : Z) (data : bytes).

Definition on_maps (x : write) : Store → Store :=
  match x with
  | WHeader h set => Chain.PutHeader h set
  | WLogs h set => Chain.PutLogsSet h set
  | WBlock id b => Chain.PutBlock id b
  | WState id h s => Chain.PutState id h s
  | WShard id i d => Chain.PutShard id i d
  end.

(** Heights are uint64, indices are int. *)
Definition fits (x : write) : Prop :=
  match x with
  | WHeader h _ => is_u64 (hd_Height h)
  | WLogs h _ => is_u64 h
  | WShard _ i _ => - maxInt - 1 <= i <= maxInt
  | _ => True
  end.

Section client.
Context `{StoreCodec} (laws : store_codec_laws).

Definition on_disk (x : write) : M Files unit :=
  match x with
  | WHeader h set => PutHeader h set
  | WLogs h set => PutLogsSet h set
  | WBlock id b => PutBlock id b
  | WState id h s => PutState replayBaseFile (id, h, s)
  | WShard id i d => PutShard id i d
  end.
Fixpoint on_disk_all (l : list write) : M Files unit :=
  match l with [] => mret tt | x :: r => on_disk x ≫= λ _, on_disk_all r end.

(** Every read answers as the maps do. *)
Record reads_as (st : Store) (f : Files) : Prop := {
  ra_header h : is_u64 h → GetHeader h f = Chain.GetHeader h st;
  ra_logs h : is_u64 h → GetLogsSet h f = Chain.GetLogsSet h st;
  ra_block id : GetBlockRaw id f = json_block <$> Chain.GetBlockRaw id st;
  ra_state : GetStateRaw replayBaseFile f = json_base <$> Chain.GetStateRaw st;
  ra_shard id i : - maxInt - 1 <= i <= maxInt → GetShard id i f = match Chain.GetShard id i st with Some d => Ok d | None => Err ErrNotExist end;
  ra_height : Height f = Store_Height st;
  ra_headers : HasHeaders f = Chain.HasHeaders st;
  ra_by_id id : HeaderByID id f = Chain.HeaderByID id st;
  ra_held id : HeldShards id f = Chain.HeldShards id st;
}.

Lemma holds_reads st f : holds st f → reads_as st f.
Proof.
  intros Hs. pose proof (hs_data _ _ Hs) as Hd. split.
  - intros h Hh. by apply GetHeader_refines.
  - intros h Hh. unfold GetLogsSet, ReadFile, Chain.GetLogsSet. rewrite Hd, content_set by done.
    destruct (st_logsets st !! h); [|done]. simpl. apply (set_law laws).
  - intros id. unfold GetBlockRaw, ReadFile, Chain.GetBlockRaw. rewrite Hd, content_block. by destruct (st_bodies st !! id).
  - unfold GetStateRaw, ReadFile, Chain.GetStateRaw. rewrite Hd. simpl. by destruct (st_base st).
  - intros id i Hi. unfold GetShard, ReadFile, Chain.GetShard. rewrite Hd, content_shard by done. done.
  - by apply Height_refines.
  - by apply HasHeaders_refines.
  - intros id. by apply HeaderByID_refines.
  - intros id. by apply HeldShards_refines.
Qed.

Lemma mkdir_holds st f d : holds st f → (length d <= 1)%nat ∨ (∃ id, d = shardDir id) →
  ∃ f', MkdirAll d f = OK f' tt ∧ holds st f' ∧ d ∈ fs_dirs f' ∧ fs_data f' = fs_data f.
Proof.
  intros [H1 H2 H3 [H4 H5] H6] Hd. eexists. split; [reflexivity|]. cbn [fs_dirs fs_data].
  assert (d ∈ prefixes d) as Hself.
  { unfold prefixes. apply list_elem_of_fmap. exists (length d). split; [by rewrite take_ge|]. apply elem_of_seq. lia. }
  split; [|split; [by apply elem_of_union_l, elem_of_list_to_set|done]]. split; cbn [fs_dirs fs_data]; [done|done| |by split; apply elem_of_union_r|].
  - intros k x Hk. destruct (H3 k x Hk) as [Hi Hx]. split; [done|]. by apply elem_of_union_r.
  - intros p [Hp|Hp]%elem_of_union; [|by apply H6]. apply elem_of_list_to_set, list_elem_of_fmap in Hp as (n & -> & _).
    destruct Hd as [Hl|[id ->]]; [left; rewrite length_take; lia|]. destruct n as [|[|n]]; [left; simpl; lia..|right]. exists id. by destruct n.
Qed.

Lemma write_holds st st' f p b : holds st f → parent p ∈ fs_dirs f → writes p b st st' →
  map_Forall (λ h _, is_u64 h) (st_headers st') →
  map_Forall (λ (k : Hash * Z) _, - maxInt - 1 <= k.2 <= maxInt ∧ shardDir k.1 ∈ fs_dirs f) (st_shards st') →
  ∃ f', WriteFile p b f = OK f' tt ∧ holds st' f'.
Proof.
  intros [H1 H2 H3 H4 H5] Hp Hw Hh Hsh. unfold WriteFile. rewrite decide_True by done. eexists. split; [reflexivity|].
  split; cbn [fs_dirs fs_data]; try done. intros q. rewrite Hw, <- H1. case_decide as E; [by rewrite E, lookup_insert_eq|by rewrite lookup_insert_ne].
Qed.

(** A write keeps the files and the maps together. *)
Lemma on_disk_holds x st f : holds st f → fits x → ∃ f', on_disk x f = OK f' tt ∧ holds (on_maps x st) f'.
Proof.
  intros Hs Hx. destruct x as [h set|h set|id b|id h s|id i d]; cbn [on_disk on_maps fits] in *.
  - pose proof Hs as [H1 H2 H3 H4 H5]. apply (write_holds st); [done|apply H4|by apply writes_header| |done]. by apply map_Forall_insert_2.
  - destruct (mkdir_holds st f ["logs"] Hs) as (f1 & E & Hs1 & Hd & _); [by left|]. unfold PutLogsSet. rewrite (bind_ok _ _ _ _ _ E).
    pose proof Hs1 as [H1 H2 H3 H4 H5]. apply (write_holds st); [done|done|by apply writes_set|done|done].
  - destruct (mkdir_holds st f ["bodies"] Hs) as (f1 & E & Hs1 & Hd & _); [by left|]. unfold PutBlock. rewrite (bind_ok _ _ _ _ _ E).
    pose proof Hs1 as [H1 H2 H3 H4 H5]. apply (write_holds st); [done|done|apply writes_block|done|done].
  - pose proof Hs as [H1 H2 H3 H4 H5]. apply (write_holds st); [done|apply H4|apply writes_state|done|done].
  - destruct (mkdir_holds st f (shardDir id) Hs) as (f1 & E & Hs1 & Hd & _); [right; by exists id|]. unfold PutShard. rewrite (bind_ok _ _ _ _ _ E).
    pose proof Hs1 as [H1 H2 H3 H4 H5]. apply (write_holds st); [done|done|by apply writes_shard|done|]. by apply map_Forall_insert_2.
Qed.

Lemma Open_holds st f : holds st f → ∃ f', Open f = OK f' tt ∧ holds st f' ∧ fs_data f' = fs_data f.
Proof.
  unfold Open. generalize ["blocks"; "shards"; "keys"; "logs"]. intros l. revert f. induction l as [|d l IH]; intros f Hs; [by exists f|].
  cbn [make_dirs]. destruct (mkdir_holds st f [d] Hs) as (f1 & E & Hs1 & _ & Ed); [by left|]. rewrite (bind_ok _ _ _ _ _ E), <- Ed. by apply IH.
Qed.

Lemma opened_holds : ∃ f, Open (MkFiles ∅ ∅) = OK f tt ∧ holds store0 f.
Proof.
  eexists. split; [reflexivity|]. cbn [fs_dirs fs_data].
  assert (∀ p, content store0 p = None) as Hc.
  { intros [|a [|b [|c [|]]]]; try done; simpl; repeat (case_decide; [try done|]); try done.
    - by destruct (named _ _ b).
    - by destruct (named _ _ b).
    - destruct (named _ _ b); [simpl; by rewrite lookup_empty|done].
    - destruct (named _ _ b); [simpl|done]. destruct (named _ _ c); [simpl; by rewrite lookup_empty|done]. }
  split; cbn [fs_dirs fs_data]; [intros p; by rewrite Hc|apply map_Forall_empty|apply map_Forall_empty|split; vm_compute; done|].
  intros p Hp. left. match type of Hp with _ ∈ ?d => assert (set_Forall (λ p, (length p <= 1)%nat) d) as Hall by (apply (bool_decide_eq_true_1 _); vm_compute; reflexivity) end.
  exact (Hall p Hp).
Qed.

(** [C28] The files of the store are the maps of the model.  Open a store in an empty directory and
    write to it, in any order, headers, shard sets of logs, blocks, the replay base and shards,
    with uint64 heights and int indices.  No write fails, and every read of the store, the scans
    of directories by file name included, answers what the maps of [Chain.Store] answer after the
    same writes.  A store opened again over the same directory answers the same. *)
Theorem store_refines (ws : list write) (Hfit : Forall fits ws) :
  let st := foldl (λ st x, on_maps x st) store0 ws in
  ∃ f f', (Open ≫= λ _, on_disk_all ws) (MkFiles ∅ ∅) = OK f tt ∧ reads_as st f ∧
    Open f = OK f' tt ∧ fs_data f' = fs_data f ∧ reads_as st f'.
Proof.
  cbv zeta. destruct opened_holds as (f0 & E0 & H0). rewrite (bind_ok _ _ _ _ _ E0).
  assert (∃ f, on_disk_all ws f0 = OK f tt ∧ holds (foldl (λ st x, on_maps x st) store0 ws) f) as (f & E & Hs).
  { clear E0. revert f0 H0. generalize store0. induction Hfit as [|x ws Hx _ IH]; intros st f0 H0; [by exists f0|].
    cbn [on_disk_all foldl]. destruct (on_disk_holds x st f0 H0 Hx) as (f1 & E1 & H1). rewrite (bind_ok _ _ _ _ _ E1). by apply IH. }
  destruct (Open_holds _ f Hs) as (f' & E' & Hs' & Ed). exists f, f'. split; [exact E|]. split; [by apply holds_reads|].
  split; [exact E'|]. split; [exact Ed|]. by apply holds_reads.
Qed.
End client.

(** ** A concrete store *)

(** A codec that reads back what it writes: the bits of a numbering of the values. *)
Fixpoint bits_of (p : positive) : bytes :=
  match p with xH => [] | xO p => zb 48 :: bits_of p | xI p => zb 49 :: bits_of p end.
Fixpoint of_bits (l : bytes) : positive :=
  match l with [] => xH | b :: r => if bz b =? 48 then xO (of_bits r) else xI (of_bits r) end.
Lemma of_bits_of p : of_bits (bits_of p) = p.
Proof. induction p as [p IH|p IH|]; simpl; [by rewrite IH..|done]. Qed.

#[local] Instance spec_countable : Countable ShardSpec :=
  inj_countable' (λ s, (K s, Netparams.M s)) (λ p, MkSpec p.1 p.2) ltac:(by intros []).
#[local] Instance set_countable : Countable ShardSet :=
  inj_countable' (λ s, (ss_BlockID s, ss_Spec s, ss_PaddedLen s, ss_OrigLen s, ss_ShardHash s))
    (λ '(a, b, c, d, e), MkShardSet a b c d e) ltac:(by intros []).
#[local] Instance header_countable : Countable Header :=
  inj_countable' (λ h, (hd_Height h, hd_PrevHash h, hd_MerkleRoot h, hd_Timestamp h, hd_Validator h, hd_TxCount h,
      (hd_Round h, hd_Spec h, hd_BodyHash h, hd_LogsRoot h, hd_Sig h, hd_ValPubKey h)))
    (λ '(a, b, c, d, e, f, (g, h, i, j, k, l)), MkHeader a b c d e f g h i j k l) ltac:(by intros []).

Definition numbered_codec : StoreCodec := {|
  json_record := λ r, bits_of (encode r);
  value_record := λ b, decode (of_bits b);
  json_set := λ s, bits_of (encode s);
  value_set := λ b, decode (of_bits b);
  json_block := λ b, bits_of (encode (b_Header b));
  json_base := λ v, bits_of (encode v.1.1);
|}.
Lemma numbered_laws : @store_codec_laws numbered_codec.
Proof. split; intros x; cbn; by rewrite of_bits_of, countable.decode_encode. Qed.

Definition some_set : ShardSet := MkShardSet hash0 GenesisSpec 0 0 [].
Definition some_writes : list write :=
  [WHeader (header_at 9 bob) some_set; WHeader (header_at 10 bob) some_set; WShard hash0 2 [zb 1]; WShard hash0 10 [zb 2]; WLogs 9 some_set].

Lemma small_heights : is_u64 9 ∧ is_u64 10.
Proof. unfold is_u64, W64. lia. Qed.

(** The greatest height is 10; the shards come in the order of their file names. *)
Lemma store_refines_witness : ∃ f, (Open ≫= λ _, on_disk_all (H:=numbered_codec) some_writes) (MkFiles ∅ ∅) = OK f tt ∧
  Height f = 10 ∧ HeldShards hash0 f = [10; 2] ∧ GetHeader (H:=numbered_codec) 9 f = Ok (header_at 9 bob, some_set) ∧
  GetLogsSet (H:=numbered_codec) 10 f = None.
Proof.
  destruct (@store_refines numbered_codec numbered_laws some_writes) as (f & f' & E & R & _).
  - repeat constructor; vm_compute; discriminate || reflexivity.
  - exists f. split; [exact E|].
    split; [exact (eq_trans (ra_height _ _ R) ltac:(vm_compute; reflexivity))|].
    split; [exact (eq_trans (ra_held _ _ R hash0) ltac:(vm_compute; reflexivity))|].
    split; [exact (eq_trans (ra_header _ _ R 9 (proj1 small_heights)) ltac:(vm_compute; reflexivity))|exact (eq_trans (ra_logs _ _ R 10 (proj2 small_heights)) ltac:(vm_compute; reflexivity))].
Defined.
