(* ===== verification/Peers.v ===== *)
(** * Known peers and local bans ([internal/p2p/peer.go], [internal/p2p/banlist.go])

    Both tables of the networking layer.  Each operation runs under a lock, so it is a
    function of the table; the clock is an argument, in nanoseconds. *)

From S2P Require Import Prelude Sha256 Merkle Netparams Rendezvous.
Open Scope Z_scope.

(** ** Bans *)

Record Banlist := MkBanlist {
  bl_strikes : gmap string Z; bl_until : gmap string Z; bl_threshold : Z; bl_base : Z;
}.

Definition NewBanlist (threshold base : Z) : Banlist :=
  MkBanlist ∅ ∅ (if threshold <? 1 then 3 else threshold) (if base <=? 0 then 600000000000 else base).

(** [b.base << exp], the backoff capped at [base*64]. *)
Definition backoff (b : Banlist) (n : Z) : Z :=
  let exp := n - bl_threshold b in
  let exp := if 6 <? exp then 6 else exp in
  i64 (Z.shiftl (bl_base b) exp).

Definition Strike (now : Z) (key : string) (b : Banlist) : bool * Banlist :=
  if bool_decide (key = "") then (false, b) else
  let n := i64 (default 0 (bl_strikes b !! key) + 1) in
  let strikes := <[key := n]> (bl_strikes b) in
  if n <? bl_threshold b then (false, MkBanlist strikes (bl_until b) (bl_threshold b) (bl_base b))
  else (true, MkBanlist strikes (<[key := now + backoff b n]> (bl_until b)) (bl_threshold b) (bl_base b)).

Definition Banned (now : Z) (key : string) (b : Banlist) : bool * Banlist :=
  if bool_decide (key = "") then (false, b) else
  match bl_until b !! key with
  | None => (false, b)
  | Some u =>
      if now <? u then (true, b)
      else (false, MkBanlist (delete key (bl_strikes b)) (delete key (bl_until b)) (bl_threshold b) (bl_base b))
  end.

(** The keys banned now and the time their ban lifts. *)
Definition Snapshot (now : Z) (b : Banlist) : gmap string Z := filter (λ p, now < p.2) (bl_until b).

(** ** Peers *)

Record Peer := MkPeer { p_ID : string; p_Control : string; p_Shard : string }.

(** The key of the map is the peer's id. *)
Record Peerstore := MkPeerstore { ps_self : Peer; ps_m : gmap string Peer }.

Definition NewPeerstore (self : Peer) : Peerstore := MkPeerstore self ∅.

Definition Add (p : Peer) (ps : Peerstore) : bool * Peerstore :=
  if bool_decide (p_ID p = "") || bool_decide (p_ID p = p_ID (ps_self ps)) || bool_decide (p_Control p = "")
  then (false, ps)
  else (bool_decide (ps_m ps !! p_ID p = None), MkPeerstore (ps_self ps) (<[p_ID p := p]> (ps_m ps))).

Fixpoint Merge (l : list Peer) (ps : Peerstore) : Z * Peerstore :=
  match l with
  | [] => (0, ps)
  | p :: r =>
      let '(new, ps) := Add p ps in
      let '(n, ps) := Merge r ps in
      (n + (if new : bool then 1 else 0), ps)
  end.

Definition peer_le (p q : Peer) : Prop := str_le (p_ID p) (p_ID q).
#[global] Instance peer_le_dec : RelDecision peer_le.
Proof. intros p q. unfold peer_le. apply _. Defined.

Definition Peers (ps : Peerstore) : list Peer := merge_sort peer_le (map_to_list (ps_m ps)).*2.

Definition MemberIDs (ps : Peerstore) : list string :=
  merge_sort str_le (p_ID (ps_self ps) :: (map_to_list (ps_m ps)).*1).

Definition Count (ps : Peerstore) : Z := Z.of_nat (size (ps_m ps)) + 1.

(** [""] for self and for unknown nodes. *)
Definition shardURLFor (id : string) (ps : Peerstore) : string :=
  if bool_decide (id = p_ID (ps_self ps)) then "" else
  match ps_m ps !! id with Some p => p_Shard p | None => "" end.

(** * Lemmas *)

(** ** Bans *)

(** What a node does with its list: it notes misbehaviour and asks who is banned. *)
Inductive event := EStrike (now : Z) (key : string) | EBanned (now : Z) (key : string).

Definition ban_step (b : Banlist) (e : event) : Banlist :=
  match e with EStrike now k => (Strike now k b).2 | EBanned now k => (Banned now k b).2 end.
Definition ban_run (b : Banlist) (es : list event) : Banlist := foldl ban_step b es.

Definition is_banned (now : Z) (key : string) (b : Banlist) : bool := (Banned now key b).1.

(** A base whose longest ban fits a [time.Duration]. *)
Definition base_ok (b : Banlist) : Prop := 0 < bl_base b ∧ bl_base b * 64 < 9223372036854775808.

Lemma i64_small z : -9223372036854775808 <= z < 9223372036854775808 → i64 z = z.
Proof.
  intros Hz. unfold i64, int_of_u64, u64, W64. destruct (Z_lt_le_dec z 0) as [Hn|Hn].
  - rewrite <- (Z.mod_add z 1), Z.mod_small by lia. case_match; lia.
  - rewrite Z.mod_small by lia. case_match; lia.
Qed.

Lemma backoff_value b n : base_ok b → bl_threshold b <= n →
  backoff b n = bl_base b * 2 ^ Z.min (n - bl_threshold b) 6 ∧ 0 < backoff b n <= 64 * bl_base b.
Proof.
  intros [Hb Hm] Hn. unfold backoff.
  replace (if 6 <? n - bl_threshold b then 6 else n - bl_threshold b) with (Z.min (n - bl_threshold b) 6) by (case_match; lia).
  set (e := Z.min _ _). assert (0 <= e <= 6) as He by lia. rewrite Z.shiftl_mul_pow2 by lia.
  assert (1 <= 2 ^ e <= 64) as Hp.
  { split; [apply (Z.pow_le_mono_r 2 0 e); lia|change 64 with (2 ^ 6); apply Z.pow_le_mono_r; lia]. }
  rewrite i64_small by nia. split; [done|nia].
Qed.

Lemma is_banned_until now key b :
  is_banned now key b = match bl_until b !! key with Some u => negb (bool_decide (key = "")) && (now <? u) | None => false end.
Proof. unfold is_banned, Banned. case_bool_decide; simpl; repeat case_match; done. Qed.

(** The bound every ban obeys: it ends at most 64 bases after a strike. *)
Definition bounded (T : Z) (b : Banlist) : Prop := map_Forall (λ _ u, u <= T + 64 * bl_base b) (bl_until b).

Lemma ban_step_ok T b e : base_ok b → (match e with EStrike now _ => now <= T | _ => True end) → bounded T b →
  bounded T (ban_step b e) ∧ bl_threshold (ban_step b e) = bl_threshold b ∧ bl_base (ban_step b e) = bl_base b.
Proof.
  intros Hb He HT. destruct e as [now k|now k]; simpl; unfold Strike, Banned; repeat case_match; simpl; try done.
  - split_and!; [|done..]. apply map_Forall_insert_2; [|done]. simpl.
    match goal with E : (_ <? _) = false |- _ => apply Z.ltb_ge in E; pose proof (backoff_value b _ Hb E) end. lia.
  - split_and!; [|done..]. by apply map_Forall_delete.
Qed.

Definition strikes_of (b : Banlist) (k : string) : Z := default 0 (bl_strikes b !! k).

(** No more strikes are counted than there were. *)
Lemma ban_step_strikes N b e : 0 <= N < 9223372036854775807 → (∀ k, 0 <= strikes_of b k <= N) →
  ∀ k, 0 <= strikes_of (ban_step b e) k <= N + 1.
Proof.
  intros HN Hs k. pose proof (Hs k) as Hk. unfold strikes_of in *.
  destruct e as [now k'|now k']; simpl; unfold Strike, Banned; repeat case_match; simpl; try lia.
  1-2: destruct (decide (k' = k)) as [->|]; [rewrite lookup_insert_eq|rewrite lookup_insert_ne by done; lia];
    simpl; rewrite i64_small by lia; lia.
  destruct (decide (k' = k)) as [->|]; [rewrite lookup_delete_eq; simpl; lia|rewrite lookup_delete_ne by done; lia].
Qed.

Definition by_time (T : Z) (es : list event) : Prop :=
  Forall (λ e, match e with EStrike now _ => now <= T | _ => True end) es.

Lemma ban_run_ok T es : by_time T es → ∀ b N, base_ok b → bounded T b → 0 <= N →
  N + zlen es < 9223372036854775807 → (∀ k, 0 <= strikes_of b k <= N) →
  let b' := ban_run b es in
  bounded T b' ∧ bl_threshold b' = bl_threshold b ∧ bl_base b' = bl_base b ∧ ∀ k, 0 <= strikes_of b' k <= N + zlen es.
Proof.
  induction 1 as [|e es He Hes IH]; intros b N Hb HT HN Hl Hs; simpl.
  { split_and!; [done..|]. intros k. specialize (Hs k). unfold zlen. simpl. lia. }
  unfold zlen in *. simpl length in *. destruct (ban_step_ok T b e Hb He HT) as (HT' & Eth & Eb).
  destruct (IH (ban_step b e) (N + 1)) as (H1 & H2 & H3 & H4).
  - unfold base_ok. by rewrite Eb.
  - done.
  - lia.
  - lia.
  - apply ban_step_strikes; [lia|done].
  - rewrite H2, H3. split_and!; [done..|]. intros k. specialize (H4 k). lia.
Qed.

(** What one strike does to a list in good order. *)
Lemma Strike_effect b now key : base_ok b → key ≠ "" → 0 <= strikes_of b key < 9223372036854775807 →
  let n := strikes_of b key + 1 in let '(r, b') := Strike now key b in
  r = (bl_threshold b <=? n) ∧
  (∀ t, is_banned t key b' = if bl_threshold b <=? n then t <? now + bl_base b * 2 ^ Z.min (n - bl_threshold b) 6
                             else is_banned t key b) ∧
  (∀ k t, k ≠ key → is_banned t k b' = is_banned t k b).
Proof.
  intros Hb Hk Hn n. unfold Strike. rewrite bool_decide_false by done.
  change (default 0 (bl_strikes b !! key)) with (strikes_of b key). rewrite i64_small by lia. fold n.
  destruct (Z.ltb_spec n (bl_threshold b)).
  - rewrite (proj2 (Z.leb_gt _ _)) by done. split_and!; [done|by intros t; rewrite !is_banned_until|by intros k t ?; rewrite !is_banned_until].
  - rewrite (proj2 (Z.leb_le _ _)) by done. destruct (backoff_value b n Hb) as [-> _]; [done|]. split_and!; [done| |].
    + intros t. rewrite is_banned_until. simpl. rewrite lookup_insert_eq. by rewrite bool_decide_false.
    + intros k t ?. rewrite !is_banned_until. simpl. by rewrite lookup_insert_ne.
Qed.

(** Bans come and go as [NewBanlist] says.  Whatever a node has struck and asked, at
    times up to [T]: every ban is over 64 base periods after [T], and the next question
    then forgets the strikes; the strike that brings a key to the threshold, and each one
    after it, bans it for the base period doubled per extra strike (at most six times);
    earlier ones do not; other keys are not touched. *)
Theorem bans_expire (threshold base T : Z) (es : list event)
  (Hb : base_ok (NewBanlist threshold base)) (HT : by_time T es) (Hl : zlen es < 9223372036854775807) :
  let b := ban_run (NewBanlist threshold base) es in
  (∀ k t, T + 64 * bl_base b <= t → is_banned t k b = false ∧
     (k ≠ "" → is_Some (bl_until b !! k) → strikes_of (Banned t k b).2 k = 0)) ∧
  (∀ now k, k ≠ "" → let n := strikes_of b k + 1 in let '(r, b') := Strike now k b in
     r = (bl_threshold b <=? n) ∧
     (∀ t, is_banned t k b' = if bl_threshold b <=? n then t <? now + bl_base b * 2 ^ Z.min (n - bl_threshold b) 6
                              else is_banned t k b) ∧
     (∀ k' t, k' ≠ k → is_banned t k' b' = is_banned t k' b)).
Proof.
  intros b. destruct (ban_run_ok T es HT (NewBanlist threshold base) 0) as (HB & Hth & Hbase & Hs); try done.
  fold b in HB, Hth, Hbase, Hs. assert (base_ok b) as Hb' by (unfold base_ok; by rewrite Hbase).
  split.
  - intros k t Ht. split.
    + rewrite is_banned_until. destruct (bl_until b !! k) as [u|] eqn:Eu; [|done].
      specialize (HB k u Eu). simpl in HB. rewrite (proj2 (Z.ltb_ge t u)) by lia. by rewrite andb_false_r.
    + intros Hk [u Eu]. specialize (HB k u Eu). simpl in HB. unfold Banned. rewrite bool_decide_false, Eu by done.
      rewrite (proj2 (Z.ltb_ge t u)) by lia. unfold strikes_of. simpl. by rewrite lookup_delete_eq.
  - intros now k Hk. apply Strike_effect; [done..|]. specialize (Hs k). lia.
Qed.

(** Three strikes at once ban for ten minutes. *)
Lemma bans_expire_witness :
  let es := [EStrike 0 "n"; EStrike 1 "n"; EStrike 2 "n"] in let b := ban_run (NewBanlist 3 600) es in
  is_banned 601 "n" b = true ∧ is_banned (2 + 64 * bl_base b) "n" b = false.
Proof.
  split; [vm_compute; reflexivity|].
  apply (bans_expire 3 600 2 [EStrike 0 "n"; EStrike 1 "n"; EStrike 2 "n"]).
  - split; vm_compute; reflexivity.
  - repeat constructor; vm_compute; discriminate.
  - vm_compute. reflexivity.
  - apply Z.le_refl.
Defined.

(** ** Peers *)

#[global] Instance peer_le_trans : Transitive peer_le.
Proof. intros p q r. unfold peer_le. apply str_le_trans. Qed.
#[global] Instance peer_le_total : base.Total peer_le.
Proof. intros p q. unfold peer_le. apply str_le_total. Qed.

(** Entries are filed under their ids, and none is the node itself. *)
Definition store_ok (ps : Peerstore) : Prop :=
  ∀ k p, ps_m ps !! k = Some p → p_ID p = k ∧ k ≠ "" ∧ k ≠ p_ID (ps_self ps) ∧ p_Control p ≠ "".

(** Peers worth recording. *)
Definition usable (self : Peer) (p : Peer) : Prop := p_ID p ≠ "" ∧ p_ID p ≠ p_ID self ∧ p_Control p ≠ "".

Lemma Add_spec p ps : store_ok ps → let ps' := (Add p ps).2 in
  store_ok ps' ∧ ps_self ps' = ps_self ps ∧
  (∀ k, is_Some (ps_m ps' !! k) ↔ is_Some (ps_m ps !! k) ∨ (k = p_ID p ∧ usable (ps_self ps) p)) ∧
  Count ps' = Count ps + (if (Add p ps).1 : bool then 1 else 0).
Proof.
  intros Hok. unfold Add, usable, Count. destruct (bool_decide (p_ID p = "") || _ || _) eqn:E; simpl.
  - split_and!; [done..| |lia]. intros k. split; [by left|]. intros [?|(-> & ? & ? & ?)]; [done|].
    repeat rewrite bool_decide_false in E by done. done.
  - apply orb_false_iff in E as [[E1 E2]%orb_false_iff E3]. apply bool_decide_eq_false in E1, E2, E3.
    split_and!; [|done| |].
    + intros k q. simpl. rewrite lookup_insert_Some. intros [[<- <-]|[_ H]]; [done|by apply Hok].
    + intros k. destruct (decide (k = p_ID p)) as [->|Hk].
      * rewrite lookup_insert_eq. split; [|by eauto]. intros _. right. auto.
      * rewrite lookup_insert_ne by done. naive_solver.
    + case_bool_decide as Hn; [rewrite map_size_insert_None by done; lia|].
      rewrite map_size_insert_Some by by apply not_eq_None_Some. lia.
Qed.

Lemma Merge_spec l : ∀ ps, store_ok ps → let ps' := (Merge l ps).2 in
  store_ok ps' ∧ ps_self ps' = ps_self ps ∧
  (∀ k, is_Some (ps_m ps' !! k) ↔ is_Some (ps_m ps !! k) ∨ ∃ p, p ∈ l ∧ k = p_ID p ∧ usable (ps_self ps) p) ∧
  Count ps' = Count ps + (Merge l ps).1.
Proof.
  induction l as [|p r IH]; intros ps Hok; simpl.
  { split_and!; [done..| |lia]. intros k. split; [by left|]. intros [?|(? & []%elem_of_nil & _)]. done. }
  destruct (Add_spec p ps Hok) as (Hok' & Es & Hm & Hc). destruct (Add p ps) as [new ps1] eqn:EA. simpl in Hok', Es, Hm, Hc.
  destruct (IH ps1 Hok') as (Hok2 & Es2 & Hm2 & Hc2). destruct (Merge r ps1) as [n ps2]. simpl in *.
  split_and!; [done|congruence| |lia]. intros k. rewrite Hm2, Hm, Es. split.
  - intros [[?|[-> ?]]|(q & ? & ? & ?)]; [by left|right; exists p; split_and!; auto using list_elem_of_here|].
    right. exists q. split_and!; auto using list_elem_of_further.
  - intros [?|(q & [->|?]%elem_of_cons & ? & ?)]; [by left; left|left; right; done|right; eauto].
Qed.

Lemma MemberIDs_perm ps : MemberIDs ps ≡ₚ p_ID (ps_self ps) :: (map_to_list (ps_m ps)).*1.
Proof. apply merge_sort_Permutation. Qed.

Lemma elem_of_MemberIDs ps k : k ∈ MemberIDs ps ↔ k = p_ID (ps_self ps) ∨ is_Some (ps_m ps !! k).
Proof.
  rewrite MemberIDs_perm, elem_of_cons. f_equiv. rewrite list_elem_of_fmap. split.
  - intros ([k' p] & -> & Hp). apply elem_of_map_to_list in Hp. by eexists.
  - intros [p Hp]. exists (k, p). split; [done|]. by apply elem_of_map_to_list.
Qed.

Lemma MemberIDs_NoDup ps : store_ok ps → NoDup (MemberIDs ps).
Proof.
  intros Hok. rewrite MemberIDs_perm. constructor; [|apply NoDup_fst_map_to_list].
  rewrite list_elem_of_fmap. intros ([k p] & E & Hp). simpl in E. apply elem_of_map_to_list in Hp.
  apply Hok in Hp. naive_solver.
Qed.

Lemma MemberIDs_sorted ps : StronglySorted str_le (MemberIDs ps).
Proof. apply (StronglySorted_merge_sort str_le); apply _. Qed.

Lemma length_MemberIDs ps : zlen (MemberIDs ps) = Count ps.
Proof.
  unfold zlen, Count. rewrite MemberIDs_perm. simpl. rewrite length_fmap, length_map_to_list. lia.
Qed.

Lemma NewPeerstore_ok self : store_ok (NewPeerstore self).
Proof. intros k p. simpl. by rewrite lookup_empty. Qed.

(** Sorted lists without duplicates are determined by their elements. *)
Lemma MemberIDs_ext a b : store_ok a → store_ok b → (∀ k, k ∈ MemberIDs a ↔ k ∈ MemberIDs b) → MemberIDs a = MemberIDs b.
Proof.
  intros Ha Hb He. apply (StronglySorted_unique str_le); [apply MemberIDs_sorted..|].
  by apply NoDup_Permutation; [apply MemberIDs_NoDup..|].
Qed.

(** The ids a node knows: its own and those of the complete descriptors it heard. *)
Definition known (self : Peer) (heard : list Peer) (k : string) : Prop :=
  k = p_ID self ∨ ∃ p, p ∈ heard ∧ k = p_ID p ∧ usable self p.

Lemma elem_of_learned self heard k : k ∈ MemberIDs (Merge heard (NewPeerstore self)).2 ↔ known self heard k.
Proof.
  destruct (Merge_spec heard _ (NewPeerstore_ok self)) as (_ & Es & Hm & _).
  rewrite elem_of_MemberIDs, Hm, Es. simpl. rewrite lookup_empty. unfold known. split.
  - intros [?|[[? ?]|?]]; [by left|done|by right].
  - intros [?|?]; [by left|by right; right].
Qed.

(** Discovery converges without a directory.  A node's member list has its own id and
    the ids of the complete descriptors it heard of, each once, in increasing order,
    whatever the order and the repetitions in which they arrived; [Count] is its length,
    and [Merge] reports how many were new.  So two nodes that know the same ids have the
    same list, and they place every shard of every block on the same holders. *)
Theorem members_agree (a b : Peer) (la lb : list Peer)
  (Hsame : ∀ k, known a la k ↔ known b lb k) :
  let '(n, A) := Merge la (NewPeerstore a) in let B := (Merge lb (NewPeerstore b)).2 in
  (∀ k, k ∈ MemberIDs A ↔ known a la k) ∧ NoDup (MemberIDs A) ∧ StronglySorted str_le (MemberIDs A) ∧
  zlen (MemberIDs A) = Count A ∧ Count A = n + 1 ∧
  MemberIDs A = MemberIDs B ∧ Count A = Count B ∧
  ∀ id i, Holders (MemberIDs A) id i (Replication (Count A)) = Holders (MemberIDs B) id i (Replication (Count B)).
Proof.
  pose proof (elem_of_learned a la) as Ha. pose proof (elem_of_learned b lb) as Hb.
  destruct (Merge_spec la _ (NewPeerstore_ok a)) as (Aok & _ & _ & Hc).
  destruct (Merge_spec lb _ (NewPeerstore_ok b)) as (Bok & _).
  destruct (Merge la (NewPeerstore a)) as [n A]. cbv zeta. simpl in Ha, Aok, Hc.
  assert (MemberIDs A = MemberIDs (Merge lb (NewPeerstore b)).2) as E.
  { apply MemberIDs_ext; [done..|]. intros k. by rewrite Ha, Hb. }
  assert (Count A = Count (Merge lb (NewPeerstore b)).2) as Ec by (by rewrite <- !length_MemberIDs, E).
  split_and!; [done|by apply MemberIDs_NoDup|apply MemberIDs_sorted|apply length_MemberIDs| |done|done|by rewrite E, Ec].
  rewrite Hc. unfold Count, NewPeerstore. simpl. rewrite map_size_empty. lia.
Qed.

(** Two nodes that met through a third, in different orders. *)
Lemma members_agree_witness :
  let p s := MkPeer s "http://h" "http://h:4005" in
  MemberIDs (Merge [p "b"; p "c"; p "b"] (NewPeerstore (p "a"))).2 =
  MemberIDs (Merge [p "a"; MkPeer "d" "" ""; p "b"] (NewPeerstore (p "c"))).2.
Proof.
  intros p. pose proof (members_agree (p "a") (p "c") [p "b"; p "c"; p "b"] [p "a"; MkPeer "d" "" ""; p "b"]) as H.
  destruct (Merge [p "b"; p "c"; p "b"] (NewPeerstore (p "a"))) as [n A]. apply H. clear H. intros k. unfold known, usable.
  split.
  - intros [->|(q & [->|[->|[->|[]%elem_of_nil]%elem_of_cons]%elem_of_cons]%elem_of_cons & -> & _)].
    + right. exists (p "a"). split_and!; [apply list_elem_of_here|done..].
    + right. exists (p "b"). split_and!; [do 2 apply list_elem_of_further; apply list_elem_of_here|done..].
    + by left.
    + right. exists (p "b"). split_and!; [do 2 apply list_elem_of_further; apply list_elem_of_here|done..].
  - intros [->|(q & [->|[->|[->|[]%elem_of_nil]%elem_of_cons]%elem_of_cons]%elem_of_cons & -> & H)].
    + right. exists (p "c"). split_and!; [apply list_elem_of_further; apply list_elem_of_here|done..].
    + by left.
    + destruct H as (_ & _ & []). done.
    + right. exists (p "b"). split_and!; [apply list_elem_of_here|done..].
Defined.
