(* ===== verification/P2p.v ===== *)
(** * The network layer ([internal/p2p/server.go], [internal/p2p/client.go])

    The handlers of the control and shard channels and the client that discovers,
    broadcasts, fetches shards, audits and syncs, as programs of [M Server].  What is
    outside the node is a [World]: the answer to each request, the clock, the random
    nonces, the resolver and the order of a map's [range], each a function of how many
    observations the node has made ([sv_clock]), so nothing is assumed of two answers to
    the same question.  A request carries the path and query values as text; bodies are
    JSON values, [None] when they do not decode (or exceed 64 MiB).  The goroutine of
    [POST /tx] runs before the reply; two handlers do not interleave. *)

From S2P Require Import Prelude Sha256 Crypto Merkle Netparams Types Pos Rendezvous Consensus Erasure Bloom State Mempool StateStore Strconv Chain Peers.

(** ** The wire *)

Inductive request :=
  | RHealth | RHead | RAccount (addr : string) | RSupply | RScores | RValidators | RPeers
  | RHello (body : option Peer)
  | RBlock (height : string) | RHeaders (from to : string) | RLogs (height : string)
  | RSnapshot | RVerify (height : string) | RReconstruct (height : string)
  | RCall (body : option (string * string * string * Z))
  | RTx (body : option Transaction) | RGossipTx (body : option Transaction)
  | RGossipBlock (body : option Block)
  | RBans
  | RShard (block index : string) | RProve (block index nonce : string) | RHave (block : string).

(** The value in the body of a successful answer. *)
Definition answer (r : request) : Set :=
  match r with
  | RHealth => string * Z
  | RHead => Header
  | RAccount _ => Z * Z
  | RSupply => Z * Z
  | RScores => gmap string Score
  | RValidators => gmap Address Validator
  | RPeers => Peer * list Peer * Z
  | RHello _ => Peer * list Peer
  | RBlock _ => Header * ShardSet
  | RHeaders _ _ => list (Header * ShardSet)
  | RLogs _ => option (list Log)
  | RSnapshot => State
  | RVerify _ => bool
  | RReconstruct _ => list Transaction
  | RCall _ => option (Z * bytes)
  | RTx _ => Hash
  | RGossipTx _ | RGossipBlock _ => unit
  | RBans => gmap string Z
  | RShard _ _ => bytes
  | RProve _ _ _ => bytes
  | RHave _ => list Z
  end.

(** A status code and the decoded body, if it decodes. *)
Definition reply (r : request) : Set := Z * option (answer r).

Definition StatusOK : Z := 200.
Definition StatusAccepted : Z := 202.
Definition StatusBadRequest : Z := 400.
Definition StatusForbidden : Z := 403.
Definition StatusNotFound : Z := 404.
Definition StatusConflict : Z := 409.
Definition StatusInternalServerError : Z := 500.
Definition StatusServiceUnavailable : Z := 503.

(** An address of [net.LookupHost], with the family [isIPv6] finds. *)
Inductive ip := IPv4 (a : string) | IPv6 (a : string).

Record World := MkWorld {
  w_net : nat → string → ∀ r, option (reply r);   (* None: no response *)
  w_now : nat → Z;                                (* time.Now, in nanoseconds *)
  w_nonce : nat → Hash;                           (* rand.Read *)
  w_dns : nat → string → option (list ip);        (* net.LookupHost *)
  w_range : nat → gset string → list string;      (* the order of range over a map *)
}.

(** ** The server *)

Record Server := MkServer {
  sv_store : Peerstore; sv_chain : Chain; sv_pool : Pool;
  sv_scores : Scoreboard; sv_bans : Banlist; sv_clock : nat;
}.

Definition set_store x s := MkServer x (sv_chain s) (sv_pool s) (sv_scores s) (sv_bans s) (sv_clock s).
Definition set_chain x s := MkServer (sv_store s) x (sv_pool s) (sv_scores s) (sv_bans s) (sv_clock s).
Definition set_pool x s := MkServer (sv_store s) (sv_chain s) x (sv_scores s) (sv_bans s) (sv_clock s).
Definition set_scores x s := MkServer (sv_store s) (sv_chain s) (sv_pool s) x (sv_bans s) (sv_clock s).
Definition set_bans x s := MkServer (sv_store s) (sv_chain s) (sv_pool s) (sv_scores s) x (sv_clock s).
Definition set_clock x s := MkServer (sv_store s) (sv_chain s) (sv_pool s) (sv_scores s) (sv_bans s) x.

Definition NewServer (store : Peerstore) (ch : Chain) (pool : Pool) : Server :=
  MkServer store ch pool NewScoreboard (NewBanlist 3 600000000000) 0.

Abbreviation MS := (Prelude.M Server).

(** One observation of the world. *)
Definition observe {A} (f : nat → A) : MS A := λ s, OK (set_clock (S (sv_clock s)) s) (f (sv_clock s)).

(** An operation of a component, on its part of the server. *)
Definition with_store {A} (f : Peerstore → A * Peerstore) : MS A := λ s,
  OK (set_store (f (sv_store s)).2 s) (f (sv_store s)).1.
Definition with_bans {A} (f : Banlist → A * Banlist) : MS A := λ s,
  OK (set_bans (f (sv_bans s)).2 s) (f (sv_bans s)).1.
Definition with_scores (f : Scoreboard → Scoreboard) : MS unit := λ s, OK (set_scores (f (sv_scores s)) s) tt.
Definition with_chain {A} (m : Prelude.M Chain A) : MS A := λ s,
  match m (sv_chain s) with
  | OK c a => OK (set_chain c s) a | ERR c e => ERR (set_chain c s) e | PANIC c => PANIC (set_chain c s)
  end.
Definition with_pool {A} (m : Prelude.M Pool A) : MS A := λ s,
  match m (sv_pool s) with
  | OK p a => OK (set_pool p s) a | ERR p e => ERR (set_pool p s) e | PANIC p => PANIC (set_pool p s)
  end.

(** The ledger as the pool and the handlers read it. *)
Definition ledger (s : Server) : State := resolve (ch_store (sv_chain s)) (ch_state (sv_chain s)).
Definition store_of (s : Server) : Store := ch_store (sv_chain s).

Section server.
Context (w : World).

(** ** Client primitives *)

(** [Server.get] and the decoding of its callers. *)
Definition http_get (url : string) (r : request) : MS (answer r) :=
  resp ← observe (λ n, w_net w n url r);
  match resp with
  | Some (code, Some a) => if code =? StatusOK then mret a else throw ErrNetwork
  | _ => throw ErrNetwork
  end.

(** [Server.postJSON] with an [out] argument, and without. *)
Definition postJSON (url : string) (r : request) : MS (answer r) :=
  resp ← observe (λ n, w_net w n url r);
  match resp with
  | Some (code, Some a) => if Z.quot code 100 =? 2 then mret a else throw ErrNetwork
  | _ => throw ErrNetwork
  end.
Definition postJSON_ (url : string) (r : request) : MS unit :=
  resp ← observe (λ n, w_net w n url r);
  match resp with
  | Some (code, _) => require (Z.quot code 100 =? 2) ErrNetwork
  | None => throw ErrNetwork
  end.

Definition is_banned_now (key : string) : MS bool := now ← observe (w_now w); with_bans (Banned now key).
Definition strike_now (key : string) : MS bool := now ← observe (w_now w); with_bans (Strike now key).

(** ** Shards *)

Fixpoint fetch_from (blockHex : string) (index : Z) (set : ShardSet) (holders : list string)
    (lastErr : option error) : MS bytes :=
  match holders with
  | [] => throw (default ErrNoHolder lastErr)
  | h :: r =>
      banned ← is_banned_now h;
      if banned : bool then fetch_from blockHex index set r lastErr else
      s ← get;
      let url := shardURLFor h (sv_store s) in
      if bool_decide (url = "") then fetch_from blockHex index set r lastErr else
      data ← try_ (http_get url (RShard blockHex (Itoa index)));
      match data with
      | inl e => fetch_from blockHex index set r (Some e)
      | inr data =>
          if VerifyShard set index data then mret data
          else strike_now h ≫= λ _, fetch_from blockHex index set r (Some ErrInvalidShard)
      end
  end.

Definition FetchShard (blockID : Hash) (index : Z) (set : ShardSet) : MS bytes :=
  s ← get;
  let members := MemberIDs (sv_store s) in
  fetch_from (string_of (hex_encode blockID)) index set
    (Holders members blockID index (Replication (zlen members))) None.

(** The fetching loop of [Chain.reconstructShards] with this server as its source. *)
Fixpoint fetch_live (id : Hash) (set : ShardSet) (i have : Z) (slots : list (option bytes)) : MS (list (option bytes)) :=
  match slots with
  | [] => mret []
  | s :: r =>
      if K (ss_Spec set) <=? have then mret slots else
      match s with
      | Some _ => r' ← fetch_live id set (i + 1) have r; mret (s :: r')
      | None =>
          data ← try_ (FetchShard id i set);
          match data with
          | inr d =>
              if VerifyShard set i d then r' ← fetch_live id set (i + 1) (have + 1) r; mret (Some d :: r')
              else r' ← fetch_live id set (i + 1) have r; mret (None :: r')
          | inl _ => r' ← fetch_live id set (i + 1) have r; mret (None :: r')
          end
      end
  end.

(** What the peers answered in this run, as the source of the chain's functions. *)
Definition live_source (id : Hash) (set : ShardSet) : MS (Hash → Z → ShardSet → option bytes) :=
  s ← get;
  let slots := local_shards (store_of s) id set in
  slots ← fetch_live id set 0 (present slots) slots;
  mret (λ _ i _, mjoin (slots !! Z.to_nat i)).

(** ** Gossip and discovery *)

Fixpoint broadcast (r : request) (path : Peer → string) (peers : list Peer) : MS unit :=
  match peers with
  | [] => mret tt
  | p :: rest =>
      banned ← is_banned_now (p_ID p);
      (if banned : bool then mret tt else try_ (postJSON_ (path p) r) ≫= λ _, mret tt) ≫= λ _,
      broadcast r path rest
  end.

Definition BroadcastBlock (b : Block) : MS unit :=
  s ← get; broadcast (RGossipBlock (Some b)) p_Control (Peers (sv_store s)).
Definition BroadcastTx (tx : Transaction) : MS unit :=
  s ← get; broadcast (RGossipTx (Some tx)) p_Control (Peers (sv_store s)).

Definition sayHello (controlURL : string) : MS Z :=
  s ← get;
  reply ← postJSON controlURL (RHello (Some (ps_self (sv_store s))));
  new ← with_store (Add reply.1);
  learned ← with_store (Merge reply.2);
  mret ((if new : bool then 1 else 0) + learned).

Context (seeds dnsSeeds : list string) (dnsPort : string).

Definition str (l : list string) : string := string_of (l ≫= bytes_of).

Definition url_of_ip (a : ip) : string :=
  match a with IPv4 a => str ["http://"; a; dnsPort] | IPv6 a => str ["http://["; a; "]"; dnsPort] end.

Fixpoint resolveDNSSeeds (hosts : list string) : MS (list string) :=
  match hosts with
  | [] => mret []
  | h :: r =>
      ips ← observe (λ n, w_dns w n h);
      urls ← resolveDNSSeeds r;
      mret ((url_of_ip <$> default [] ips) ++ urls)
  end.

(** The control URLs of the peers that are not banned. *)
Fixpoint peer_targets (peers : list Peer) : MS (list string) :=
  match peers with
  | [] => mret []
  | p :: r =>
      banned ← is_banned_now (p_ID p);
      rest ← peer_targets r;
      mret (if banned : bool then rest else p_Control p :: rest)
  end.

Fixpoint say_all (urls : list string) (total : Z) : MS Z :=
  match urls with
  | [] => mret total
  | u :: r =>
      n ← try_ (sayHello u);
      say_all r (match n with inr n => total + n | inl _ => total end)
  end.

Definition Discover : MS Z :=
  urls ← resolveDNSSeeds dnsSeeds;
  s ← get;
  known ← peer_targets (Peers (sv_store s));
  order ← observe (λ n, w_range w n (list_to_set (seeds ++ urls ++ known)));
  say_all order 0.

(** ** Heads and sync *)

Definition remoteHead (controlURL : string) : MS Header := http_get controlURL RHead.
Definition fetchHeaders (controlURL : string) (to : Z) : MS (list (Header * ShardSet)) :=
  http_get controlURL (RHeaders "0" (FormatUint to)).
Definition fetchSnapshot (controlURL : string) : MS State := http_get controlURL RSnapshot.

Fixpoint best_height (peers : list Peer) (best : Z) : MS Z :=
  match peers with
  | [] => mret best
  | p :: r =>
      h ← try_ (remoteHead (p_Control p));
      best_height r (match h with inr h => if best <? hd_Height h then hd_Height h else best | inl _ => best end)
  end.
Definition BestPeerHeight : MS Z := s ← get; best_height (Peers (sv_store s)) 0.

(** The last peer of greatest height; [""] is no peer. *)
Fixpoint best_peer (peers : list Peer) (best : string) (bestHeight : Z) : MS (string * Z) :=
  match peers with
  | [] => mret (best, bestHeight)
  | p :: r =>
      h ← try_ (remoteHead (p_Control p));
      match h with
      | inl _ => best_peer r best bestHeight
      | inr h => if bestHeight <=? hd_Height h then best_peer r (p_Control p) (hd_Height h) else best_peer r best bestHeight
      end
  end.

(** ** Audits *)

Definition proveShard (shardURL blockHex : string) (index : Z) (nonce : Hash) : MS Hash :=
  b ← http_get shardURL (RProve blockHex (Itoa index) (string_of (hex_encode nonce)));
  match hex_decode (TrimSpace b) with
  | Some raw => if zlen raw =? 32 then mret raw else throw ErrBadProof
  | None => throw ErrBadProof
  end.

(** Whether the holder was challenged, and passed. *)
Definition challenge (blockID : Hash) (idx : Z) (data : bytes) (holder : string) : MS (option bool) :=
  s ← get;
  if bool_decide (holder = p_ID (ps_self (sv_store s))) then mret None else
  let url := shardURLFor holder (sv_store s) in
  if bool_decide (url = "") then mret None else
  nonce ← observe (w_nonce w);
  got ← try_ (proveShard url (string_of (hex_encode blockID)) idx nonce);
  if match got with inr got => bool_decide (got = Challenge nonce data) | inl _ => false end then
    now ← observe (w_now w); with_scores (Pass (now / 1000000000) holder) ≫= λ _, mret (Some true)
  else with_scores (Miss holder) ≫= λ _, mret (Some false).

Definition count (r : option bool) (n : Z * Z) : Z * Z :=
  match r with Some true => (n.1 + 1, n.2) | Some false => (n.1, n.2 + 1) | None => n end.

Fixpoint audit_holders (blockID : Hash) (idx : Z) (data : bytes) (holders : list string) (n : Z * Z) : MS (Z * Z) :=
  match holders with
  | [] => mret n
  | h :: r => c ← challenge blockID idx data h; audit_holders blockID idx data r (count c n)
  end.

Fixpoint audit_shards (blockID : Hash) (members : list string) (held : list Z) (n : Z * Z) : MS (Z * Z) :=
  match held with
  | [] => mret n
  | idx :: r =>
      s ← get;
      match GetShard blockID idx (store_of s) with
      | None => audit_shards blockID members r n
      | Some data =>
          n ← audit_holders blockID idx data (Holders members blockID idx (Replication (zlen members))) n;
          audit_shards blockID members r n
      end
  end.

Definition AuditRound : MS (Z * Z) :=
  s ← get;
  match Chain_Head (sv_chain s) with
  | None => mret (0, 0)
  | Some head => audit_shards (ID head) (MemberIDs (sv_store s)) (HeldShards (ID head) (store_of s)) (0, 0)
  end.

(** ** With the chain *)

Context `{Platform} `{ReedSolomon} (engine : State → Engine).
Context (blockTime finalityDepth : Z) (fuel : nat) (reorg : bool).

Definition SyncFrom (localHeight : Z) (hasGenesis : bool) : MS Z :=
  s ← get;
  best ← best_peer (Peers (sv_store s)) "" 0;
  if bool_decide (best.1 = "") then mret 0 else
  if hasGenesis && (best.2 <=? localHeight) then mret 0 else
  recs ← fetchHeaders best.1 best.2;
  snap ← fetchSnapshot best.1;
  with_chain (SyncInstall engine recs snap) ≫= λ _, mret best.2.

(** ** Control channel *)

(** [http.Error] *)
Definition fail {A} (code : Z) : MS (Z * option A) := mret (code, None).
Definition writeJSON {A} (a : A) : MS (Z * option A) := mret (StatusOK, Some a).

Definition handle_head : MS (Z * option Header) :=
  s ← get; match Chain_Head (sv_chain s) with Some h => writeJSON h | None => fail StatusServiceUnavailable end.

Definition handle_hello (body : option Peer) : MS (Z * option (Peer * list Peer)) :=
  match body with
  | None => fail StatusBadRequest
  | Some p =>
      with_store (Add p) ≫= λ _,
      s ← get; writeJSON (ps_self (sv_store s), Peers (sv_store s))
  end.

Definition handle_block (height : string) : MS (Z * option (Header * ShardSet)) :=
  s ← get;
  match ParseUint height with
  | None => fail StatusBadRequest
  | Some h => match GetHeader h (store_of s) with Ok r => writeJSON r | _ => fail StatusNotFound end
  end.

(** The records from [h] to [to], up to the first one missing; [n] bounds their number. *)
Fixpoint header_range (n : nat) (h to : Z) (st : Store) : list (Header * ShardSet) :=
  match n with
  | O => []
  | S n' =>
      if to <? h then [] else
      match GetHeader h st with Ok r => r :: header_range n' (u64 (h + 1)) to st | _ => [] end
  end.

Definition handle_headers (from to : string) : MS (Z * option (list (Header * ShardSet))) :=
  s ← get;
  let st := store_of s in
  writeJSON (header_range (S (size (st_headers st))) (ParseUint_value from)
    (default (Chain_Height (sv_chain s)) (ParseUint to)) st).

Definition handle_snapshot : MS (Z * option State) :=
  s ← get; writeJSON (json_state (ch_state (sv_chain s))).

(** The three handlers that put a payload together from shards. *)
Definition handle_logs (height : string) : MS (Z * option (option (list Log))) :=
  s ← get;
  match ParseUint height with
  | None => fail StatusBadRequest
  | Some h =>
      match GetLogsSet h (store_of s), GetHeader h (store_of s) with
      | Some set, Ok (hdr, _) =>
          src ← live_source (logsID (ID hdr)) set;
          lift (Chain_Logs (Some src) (store_of s) h) ≫= writeJSON
      | _, _ => writeJSON None
      end
  end.

Definition handle_verify (height : string) : MS (Z * option bool) :=
  s ← get;
  match ParseUint height with
  | None => fail StatusBadRequest
  | Some h =>
      match GetHeader h (store_of s) with
      | Ok (hdr, set) =>
          src ← live_source (ID hdr) set;
          lift (VerifyAvailable (Some src) (store_of s) h) ≫= writeJSON
      | _ => fail StatusNotFound
      end
  end.

Definition handle_reconstruct (height : string) : MS (Z * option (list Transaction)) :=
  s ← get;
  match ParseUint height with
  | None => fail StatusBadRequest
  | Some h =>
      match GetHeader h (store_of s) with
      | Ok (hdr, set) =>
          src ← live_source (ID hdr) set;
          r ← try_ (lift (ReconstructBody (Some src) (store_of s) h));
          match r with inr txs => writeJSON txs | inl _ => fail StatusInternalServerError end
      | _ => fail StatusInternalServerError
      end
  end.

(** [hex.DecodeString] keeps what it decoded before the error; an odd or bad digit ends it. *)
Fixpoint hex_prefix (l : bytes) : bytes :=
  match l with
  | a :: b :: r =>
      match hex_val a, hex_val b with Some h, Some o => zb (h * 16 + o) :: hex_prefix r | _, _ => [] end
  | _ => []
  end.

Definition handle_call (body : option (string * string * string * Z)) : MS (Z * option (option (Z * bytes))) :=
  match body with
  | None => fail StatusBadRequest
  | Some (to, data, caller, gas) =>
      s ← get;
      lift (QueryContractRaw (ch_state (sv_chain s)) to
              (if bool_decide (caller = "") then 0 else AddrDigest caller) (hex_prefix (bytes_of data)) gas) ≫= writeJSON
  end.

Definition handle_tx (body : option Transaction) : MS (Z * option Hash) :=
  match body with
  | None => fail StatusBadRequest
  | Some tx =>
      s ← get;
      r ← try_ (with_pool (Submit (ledger s) tx));
      match r with
      | inl _ => fail StatusBadRequest
      | inr _ => BroadcastTx tx ≫= λ _, writeJSON (tx_Hash tx)
      end
  end.

Definition handle_gossip_tx (body : option Transaction) : MS (Z * option unit) :=
  match body with
  | None => fail StatusBadRequest
  | Some tx => s ← get; try_ (with_pool (Submit (ledger s) tx)) ≫= λ _, fail StatusAccepted
  end.

(** [apply]: the fork-choice path under proof of storage, head + 1 otherwise. *)
Definition apply_block (now : Z) (blk : Block) : MS unit :=
  s ← get;
  let selfID := p_ID (ps_self (sv_store s)) in
  let members := MemberIDs (sv_store s) in
  with_chain (if reorg then AcceptBlock engine selfID members blockTime finalityDepth fuel blk
              else ApplyExternalBlock engine selfID members blockTime finalityDepth fuel now blk).

Definition handle_gossip_block (clientIP : string) (body : option Block) : MS (Z * option unit) :=
  match body with
  | None => fail StatusBadRequest
  | Some blk =>
      now ← observe (w_now w);
      r ← try_ (apply_block (now / 1000000000) blk);
      match r with
      | inr _ => with_pool (modify (Remove (b_Txs blk))) ≫= λ _, fail StatusAccepted
      | inl e =>
          if IsForgery e then
            banned ← strike_now clientIP;
            if banned : bool then fail StatusForbidden else fail StatusConflict
          else fail StatusConflict
      end
  end.

Definition handle_bans : MS (Z * option (gmap string Z)) :=
  s ← get; now ← observe (w_now w); writeJSON (Peers.Snapshot now (sv_bans s)).

(** ** Shard channel *)

(** [len(raw) != 32] *)
Definition block_param (blockHex : string) : option Hash :=
  raw ← hex_decode (bytes_of blockHex); if zlen raw =? 32 then Some raw else None.

Definition handle_shard (block index : string) : MS (Z * option bytes) :=
  s ← get;
  match block_param block with
  | None => fail StatusBadRequest
  | Some id =>
      match Atoi index with
      | (_, false) => fail StatusBadRequest
      | (i, true) => match GetShard id i (store_of s) with Some d => writeJSON d | None => fail StatusNotFound end
      end
  end.

Definition handle_prove (block index nonce : string) : MS (Z * option bytes) :=
  s ← get;
  match block_param block with
  | None => fail StatusBadRequest
  | Some id =>
      match Atoi index with
      | (_, false) => fail StatusBadRequest
      | (i, true) =>
          match block_param nonce with
          | None => fail StatusBadRequest
          | Some nonce =>
              match GetShard id i (store_of s) with
              | Some d => writeJSON (hex_encode (Challenge nonce d))
              | None => fail StatusNotFound
              end
          end
      end
  end.

Definition handle_have (block : string) : MS (Z * option (list Z)) :=
  s ← get;
  match block_param block with None => fail StatusBadRequest | Some id => writeJSON (HeldShards id (store_of s)) end.

(** ** Dispatch, behind the ban gate *)

Definition handle (clientIP : string) (r : request) : MS (reply r) :=
  match r with
  | RHealth => s ← get; writeJSON (p_ID (ps_self (sv_store s)), Count (sv_store s) - 1)
  | RHead => handle_head
  | RAccount a => s ← get; let ac := Get (ch_state (sv_chain s)) a in writeJSON (ac_Balance ac, ac_Nonce ac)
  | RSupply => s ← get; let st := ch_state (sv_chain s) in
      writeJSON (Supply st, NextReward st (u64 (Chain_Height (sv_chain s) + 1)))
  | RScores => s ← get; writeJSON (Pos.Snapshot (sv_scores s))
  | RValidators => s ← get; let st := ch_state (sv_chain s) in
      writeJSON (list_to_map ((λ a, (a, default (MkValidator 0 false 0 false 0 0) (ValidatorInfo st a))) <$> ActiveValidators st))
  | RPeers => s ← get; writeJSON (ps_self (sv_store s), Peers (sv_store s), Count (sv_store s))
  | RHello body => handle_hello body
  | RBlock h => handle_block h
  | RHeaders from to => handle_headers from to
  | RLogs h => handle_logs h
  | RSnapshot => handle_snapshot
  | RVerify h => handle_verify h
  | RReconstruct h => handle_reconstruct h
  | RCall body => handle_call body
  | RTx body => handle_tx body
  | RGossipTx body => handle_gossip_tx body
  | RGossipBlock body => handle_gossip_block clientIP body
  | RBans => handle_bans
  | RShard b i => handle_shard b i
  | RProve b i n => handle_prove b i n
  | RHave b => handle_have b
  end.

Definition banGate {A} (clientIP : string) (h : MS (Z * option A)) : MS (Z * option A) :=
  banned ← is_banned_now clientIP;
  if banned : bool then fail StatusForbidden else h.

Definition ServeHTTP (clientIP : string) (r : request) : MS (reply r) := banGate clientIP (handle clientIP r).
End server.
