(* ===== verification/NetDemo.v ===== *)
(** * Concrete networks

    Worlds and servers used to evaluate the network layer and to apply its theorems. *)

From S2P Require Import Prelude Sha256 Crypto Economy Merkle Netparams Types Pos Forkchoice Rendezvous Consensus Erasure Bloom State Demo Mempool Strconv Chain ChainProps ChainShards Peers P2p.

(** Nobody answers; the clock stands at 100 seconds. *)
Definition silent : nat → string → ∀ r, option (reply r) := λ _ _ _, None.
Definition world_of (net : nat → string → ∀ r, option (reply r)) (now : nat → Z) : World := MkWorld net now
  (λ _, hash0) (λ _ _, None) (λ _ urls, elements urls).
Definition noon : nat → Z := λ _, 100000000000.
Definition quiet : World := world_of silent noon.

Definition me : Peer := MkPeer "me" "http://me:4004" "http://me:4005".
Definition good : Peer := MkPeer "good" "http://good:4004" "http://good:4005".
Definition bad : Peer := MkPeer "bad" "http://bad:4004" "http://bad:4005".

Definition peers0 : Peerstore := (Merge [good; bad] (NewPeerstore me)).2.

Definition server_of (c : Chain) : Server := NewServer peers0 c (Mempool.New 100).

(** The chain of [ChainShards.w_store], with nothing on disk. *)
Definition w_chain : Chain := MkChain w_store ledger0 None w_hdr true Forkchoice.New ∅ None Zero 0.

(** [good] serves shard 0 of [w_blk] and no other, everybody else garbage. *)
Definition shard_net : nat → string → ∀ r, option (reply r) := λ _ url r,
  match r return option (reply r) with
  | RShard b i =>
      if bool_decide (url = p_Shard good)
      then if bool_decide (i = "0") then Some (StatusOK, w_built.1 !! 0%nat) else Some (StatusNotFound, None)
      else Some (StatusOK, Some [zb 9])
  | _ => None
  end.
Definition shard_world : World := world_of shard_net noon.

(** A node that holds shard 0 of [w_blk], and a network in which [good] runs this program
    and holds it too. *)
Definition held_chain : Chain := Chain.set_store (PutShard (ID w_hdr) 0 (default [] (w_built.1 !! 0%nat)) w_store) w_chain.
Definition prover_net : nat → string → ∀ r, option (reply r) := λ _ url r,
  match r return option (reply r) with
  | RProve b i x =>
      if bool_decide (url = p_Shard good)
      then match handle_prove b i x (server_of held_chain) with OK _ a => Some a | _ => None end else None
  | _ => None
  end.
Definition prover_world : World := world_of prover_net noon.

(** [good] announces a block of height 9 and serves one unsigned header; nobody else answers. *)
Definition head_net : nat → string → ∀ r, option (reply r) := λ _ url r,
  match r return option (reply r) with
  | RHead => if bool_decide (url = p_Control good) then Some (StatusOK, Some (header_at 9 bob)) else None
  | RHeaders _ _ => if bool_decide (url = p_Control good) then Some (StatusOK, Some [(w_hdr, w_built.2)]) else None
  | _ => None
  end.
Definition head_world : World := world_of head_net noon.

Lemma good_is_peer : good ∈ Peers peers0.
Proof. vm_compute. apply list_elem_of_further, list_elem_of_here. Qed.
Lemma peers0_two q : q ∈ Peers peers0 → q = good ∨ q = bad.
Proof.
  assert (Peers peers0 = [bad; good]) as -> by (vm_compute; reflexivity).
  intros [->|Hq]%elem_of_cons; [by right|]. apply list_elem_of_singleton in Hq. by left.
Qed.

(** A gossiping client with two strikes. *)
Definition struck_server : Server := P2p.set_bans (MkBanlist {["1.2.3.4" := 2]} ∅ 3 600000000000) (server_of chain0).

(** The order in which a producer's pool is visited. *)
Definition pool_order : nat → Server → list Transaction * list Address :=
  λ _ s, ((map_to_list (p_byID (sv_pool s))).*2, [alice; bob]).
