(* ===== verification/P2pProps.v ===== *)
(** * The network layer: shards from an untrusted network

    What a fetch, a reconstruction and an audit can and cannot be made to do by the
    peers that answer them. *)

From S2P Require Import Prelude Sha256 Crypto Merkle Netparams Types Pos Rendezvous Consensus Erasure Bloom State Mempool StateStore Strconv Chain ChainShards Peers P2p NetDemo.

(** ** One step of a run *)

Definition bump (s : Server) : Server := P2p.set_clock (S (sv_clock s)) s.

Section client.
Context (w : World).

Lemma http_get_run url r s : http_get w url r s =
  match w_net w (sv_clock s) url r with
  | Some (code, Some a) => if code =? StatusOK then OK (bump s) a else ERR (bump s) ErrNetwork
  | _ => ERR (bump s) ErrNetwork
  end.
Proof.
  unfold http_get, observe, mbind, M_bind. simpl. destruct (w_net w (sv_clock s) url r) as [[code [a|]]|]; try done.
  by destruct (code =? StatusOK).
Qed.

Lemma is_banned_now_run k s : is_banned_now w k s =
  OK (P2p.set_bans (Banned (w_now w (sv_clock s)) k (sv_bans s)).2 (bump s)) (Banned (w_now w (sv_clock s)) k (sv_bans s)).1.
Proof. done. Qed.

Lemma strike_now_run k s : strike_now w k s =
  OK (P2p.set_bans (Strike (w_now w (sv_clock s)) k (sv_bans s)).2 (bump s)) (Strike (w_now w (sv_clock s)) k (sv_bans s)).1.
Proof. done. Qed.

(** Everything but the bans and the count of observations. *)
Definition kept (s : Server) := (sv_store s, sv_chain s, sv_pool s, sv_scores s).

(** No ban is on record. *)
Definition free (k : string) (b : Banlist) : Prop := bl_until b !! k = None.

Lemma Banned_free t k b : free k b → Banned t k b = (false, b).
Proof. unfold free, Banned. intros ->. by case_bool_decide. Qed.

Lemma Banned_free_other t k k' b : free k b → free k (Banned t k' b).2.
Proof.
  unfold free, Banned. intros Hk. case_bool_decide; [done|]. destruct (bl_until b !! k') eqn:E; [|done].
  case_match; [done|]. simpl. apply lookup_delete_None. by right.
Qed.

Lemma Strike_free_other t k k' b : k' ≠ k → free k b → free k (Strike t k' b).2.
Proof.
  unfold free, Strike. intros Hne Hk. case_bool_decide; [done|]. case_match; [done|]. simpl. by rewrite lookup_insert_ne.
Qed.

(** The strikes counted against a key: forgotten by [Banned], counted by [Strike]. *)
Lemma Banned_strikes t k k' b : strikes_of (Banned t k' b).2 k = strikes_of b k ∨ strikes_of (Banned t k' b).2 k = 0.
Proof.
  unfold Banned, strikes_of. case_bool_decide; [by left|]. destruct (bl_until b !! k'); [|by left].
  case_match; [by left|]. simpl. destruct (decide (k' = k)) as [->|]; [right; by rewrite lookup_delete_eq|left; by rewrite lookup_delete_ne].
Qed.

Lemma Strike_strikes_other t k k' b : k' ≠ k → strikes_of (Strike t k' b).2 k = strikes_of b k.
Proof.
  unfold Strike, strikes_of. intros Hne. case_bool_decide; [done|]. case_match; simpl; by rewrite lookup_insert_ne.
Qed.

(** ** Fetching one shard *)

Section fetch.
Context (blockHex : string) (index : Z) (set : ShardSet).

Definition shard_reply (n : nat) (url : string) : option bytes :=
  match w_net w n url (RShard blockHex (Itoa index)) with
  | Some (code, Some d) => if code =? StatusOK then Some d else None
  | _ => None
  end.

(** What was sent by [url] from observation [a] to [b]. *)
Definition sent (url : string) (a b : nat) (d : bytes) : Prop :=
  ∃ n, (a <= n < b)%nat ∧ shard_reply n url = Some d.

(** The node that serves garbage in this run. *)
Definition liar (ps : Peerstore) (a b : nat) (k : string) : Prop :=
  shardURLFor k ps ≠ "" ∧ ∃ d, sent (shardURLFor k ps) a b d ∧ VerifyShard set index d = false.

Record fetched (holders : list string) (s s' : Server) (r : option bytes) : Prop := {
  f_kept : kept s' = kept s;
  f_clock : (sv_clock s <= sv_clock s')%nat;
  f_data : ∀ d, r = Some d → VerifyShard set index d = true ∧
    ∃ h, h ∈ holders ∧ shardURLFor h (sv_store s) ≠ "" ∧ sent (shardURLFor h (sv_store s)) (sv_clock s) (sv_clock s') d;
  f_free : ∀ k, free k (sv_bans s) → ¬ liar (sv_store s) (sv_clock s) (sv_clock s') k → free k (sv_bans s');
  f_strikes : ∀ k, ¬ (k ∈ holders ∧ liar (sv_store s) (sv_clock s) (sv_clock s') k) →
    strikes_of (sv_bans s') k = strikes_of (sv_bans s) k ∨ strikes_of (sv_bans s') k = 0;
}.

Lemma sent_mono url a a' b b' d : (a' <= a)%nat → (b <= b')%nat → sent url a b d → sent url a' b' d.
Proof. intros Ha Hb (n & Hn & E). exists n. split; [lia|done]. Qed.

Lemma liar_mono ps a a' b b' k : (a' <= a)%nat → (b <= b')%nat → liar ps a b k → liar ps a' b' k.
Proof. intros Ha Hb (Hu & d & Hd & Hv). split; [done|]. exists d. split; [by eapply sent_mono|done]. Qed.

(** One more holder in front of a run that goes on from [s1]. *)
Lemma fetched_cons h r s s1 s' res :
  kept s1 = kept s → (sv_clock s <= sv_clock s1)%nat →
  (∀ k, free k (sv_bans s) → ¬ (k = h ∧ liar (sv_store s) (sv_clock s) (sv_clock s1) k) → free k (sv_bans s1)) →
  (∀ k, ¬ (k = h ∧ liar (sv_store s) (sv_clock s) (sv_clock s1) k) →
     strikes_of (sv_bans s1) k = strikes_of (sv_bans s) k ∨ strikes_of (sv_bans s1) k = 0) →
  fetched r s1 s' res → fetched (h :: r) s s' res.
Proof.
  intros Hk Hc Hf Hs [K1 C1 D1 F1 S1]. assert (sv_store s1 = sv_store s) as Est by (by injection Hk).
  rewrite Est in *. split; [congruence|lia| | |].
  - intros d Hd. destruct (D1 d Hd) as (Hv & k & Hin & Hu & Hsent). split; [done|]. exists k.
    split_and!; [by apply list_elem_of_further|done|by eapply sent_mono; [|reflexivity|done]].
  - intros k Hk0 Hnl. apply F1.
    + apply Hf; [done|]. intros [-> Hl]. apply Hnl. by eapply liar_mono; [reflexivity|done|].
    + intros Hl. apply Hnl. by eapply liar_mono; [done|reflexivity|].
  - intros k Hnl. destruct (Hs k) as [E|E].
    + intros [-> Hl]. apply Hnl. split; [apply list_elem_of_here|]. by eapply liar_mono; [reflexivity|done|].
    + rewrite <- E. apply S1. intros [Hin Hl]. apply Hnl. split; [by apply list_elem_of_further|]. by eapply liar_mono; [done|reflexivity|].
    + right. destruct (S1 k) as [E'|E']; [|by rewrite E'|done].
      intros [Hin Hl]. apply Hnl. split; [by apply list_elem_of_further|]. by eapply liar_mono; [done|reflexivity|].
Qed.

Lemma fetched_one h s s1 :
  kept s1 = kept s → (sv_clock s <= sv_clock s1)%nat →
  (∀ k, free k (sv_bans s) → free k (sv_bans s1)) →
  (∀ k, strikes_of (sv_bans s1) k = strikes_of (sv_bans s) k ∨ strikes_of (sv_bans s1) k = 0) →
  ∀ r s' res, fetched r s1 s' res → fetched (h :: r) s s' res.
Proof. intros Hk Hc Hf Hs r s' res. apply fetched_cons; auto. Qed.

(** A holder that always hands out a shard that verifies. *)
Definition reliable (ps : Peerstore) (h : string) : Prop :=
  shardURLFor h ps ≠ "" ∧ ∀ n, ∃ d, shard_reply n (shardURLFor h ps) = Some d ∧ VerifyShard set index d = true.

(** The answer of one holder, as [http_get] gives it. *)
Lemma shard_get_run url s : http_get w url (RShard blockHex (Itoa index)) s =
  match shard_reply (sv_clock s) url with Some d => OK (bump s) d | None => ERR (bump s) ErrNetwork end.
Proof.
  rewrite http_get_run. unfold shard_reply. destruct (w_net w (sv_clock s) url _) as [[code [a|]]|]; try done.
  by destruct (code =? StatusOK).
Qed.

Lemma fetch_from_spec holders : ∀ s last,
  match fetch_from w blockHex index set holders last s with
  | OK s' d => fetched holders s s' (Some d)
  | ERR s' _ => fetched holders s s' None ∧ ∀ h, h ∈ holders → free h (sv_bans s) → ¬ reliable (sv_store s) h
  | PANIC _ => False
  end.
Proof.
  induction holders as [|h r IH]; intros s last; cbn [fetch_from].
  { split; [split; auto; done|]. by intros ? ?%elem_of_nil. }
  rewrite (bind_ok _ _ _ _ _ (is_banned_now_run h s)).
  set (t := w_now w (sv_clock s)). set (s1 := P2p.set_bans (Banned t h (sv_bans s)).2 (bump s)).
  assert (∀ r s' res, fetched r s1 s' res → fetched (h :: r) s s' res) as H1.
  { apply fetched_one; [done|simpl; lia|intros k; apply Banned_free_other|intros k; apply Banned_strikes]. }
  assert (∀ s2, (s2 = s1 ∨ kept s2 = kept s ∧ ∀ k, free k (sv_bans s) → k ≠ h → free k (sv_bans s2)) → ∀ last,
    (∀ r' s' res, fetched r' s2 s' res → fetched (h :: r') s s' res) → (free h (sv_bans s) → ¬ reliable (sv_store s) h) →
    match fetch_from w blockHex index set r last s2 with
    | OK s' d => fetched (h :: r) s s' (Some d)
    | ERR s' _ => fetched (h :: r) s s' None ∧ ∀ k, k ∈ h :: r → free k (sv_bans s) → ¬ reliable (sv_store s) k
    | PANIC _ => False
    end) as Hgo.
  { intros s2 Hs2 l2 H2 Hh. specialize (IH s2 l2). destruct (fetch_from w blockHex index set r l2 s2) as [s' d|s' e|]; [auto| |done].
    destruct IH as [Hf Hn]. split; [auto|]. intros k [->|Hk]%elem_of_cons Hfree; [auto|].
    destruct (decide (k = h)) as [->|Hne]; [auto|]. destruct Hs2 as [->|[Hst Hs2]].
    - apply (Hn k Hk). by apply Banned_free_other.
    - assert (sv_store s2 = sv_store s) as <- by (by injection Hst). apply (Hn k Hk). auto. }
  destruct (Banned t h (sv_bans s)).1 eqn:Eb.
  { apply Hgo; [by left|done|]. intros Hf _. rewrite Banned_free in Eb by done. done. }
  rewrite (bind_ok get _ _ _ _ eq_refl). change (sv_store s1) with (sv_store s).
  case_bool_decide as Hu. { apply Hgo; [by left|done|]. by intros _ [? _]. }
  unfold mbind at 1, M_bind at 1, try_. rewrite shard_get_run. change (sv_clock s1) with (S (sv_clock s)).
  destruct (shard_reply (S (sv_clock s)) (shardURLFor h (sv_store s))) as [d|] eqn:Er.
  - destruct (VerifyShard set index d) eqn:Ev.
    + unfold mret, M_ret. split.
      * done.
      * simpl; lia.
      * intros d' [= <-]. split; [done|]. exists h. split_and!; [apply list_elem_of_here|done|].
        exists (S (sv_clock s)). split; [simpl; lia|done].
      * intros k Hf _. by apply Banned_free_other.
      * intros k _. apply Banned_strikes.
    + rewrite (bind_ok _ _ _ _ _ (strike_now_run h (bump s1))). set (s2 := P2p.set_bans _ _).
      assert (liar (sv_store s) (sv_clock s) (sv_clock s2) h) as Hliar.
      { split; [done|]. exists d. split; [|done]. exists (S (sv_clock s)). split; [simpl; lia|done]. }
      apply Hgo.
      * right. split; [done|]. intros k Hf Hne. by apply Strike_free_other, Banned_free_other.
      * intros r' s' res. apply fetched_cons; [done|simpl; lia| |].
        -- intros k Hf Hn. apply Strike_free_other; [|by apply Banned_free_other]. intros <-. apply Hn. done.
        -- intros k Hn. destruct (decide (k = h)) as [->|Hne]; [by destruct Hn|]. simpl.
           rewrite Strike_strikes_other by done. apply Banned_strikes.
      * intros _ [_ Hall]. destruct (Hall (S (sv_clock s))) as (d' & Ed & Hv). congruence.
  - apply Hgo.
    + right. split; [done|]. intros k Hf _. by apply Banned_free_other.
    + apply fetched_one; [done|simpl; lia|intros k; apply Banned_free_other|intros k; apply Banned_strikes].
    + intros _ [_ Hall]. destruct (Hall (S (sv_clock s))) as (d' & Ed & _). congruence.
Qed.
End fetch.

(** ** Fetching what is missing *)

Section live.
Context (id : Hash) (set : ShardSet).
Local Abbreviation hex := (string_of (hex_encode id)).

(** A node that never serves garbage, that hands out shard [i]. *)
Definition honest (ps : Peerstore) (h : string) : Prop :=
  shardURLFor h ps ≠ "" ∧ ∀ i n d, shard_reply hex i n (shardURLFor h ps) = Some d → VerifyShard set i d = true.
Definition hands (ps : Peerstore) (h : string) (i : Z) : Prop :=
  ∀ n, is_Some (shard_reply hex i n (shardURLFor h ps)).

Lemma honest_not_liar ps h i a b : honest ps h → ¬ liar hex i set ps a b h.
Proof. intros [_ Hh] (_ & d & (n & _ & E) & Hv). rewrite (Hh i n d E) in Hv. done. Qed.

Lemma honest_reliable ps h i : honest ps h → hands ps h i → reliable hex i set ps h.
Proof. intros [Hu Hh] Hi. split; [done|]. intros n. destruct (Hi n) as [d Ed]. eauto. Qed.

Definition holders_of (ps : Peerstore) (i : Z) : list string :=
  Holders (MemberIDs ps) id i (Replication (Count ps)).

(** Somebody a node asks for shard [i] will send it. *)
Definition reachable (s : Server) (i : Z) : Prop :=
  ∃ h, h ∈ holders_of (sv_store s) i ∧ free h (sv_bans s) ∧ honest (sv_store s) h ∧ hands (sv_store s) h i.

Lemma FetchShard_run i s : match FetchShard w id i set s with
  | OK s' d => fetched hex i set (holders_of (sv_store s) i) s s' (Some d)
  | ERR s' _ => fetched hex i set (holders_of (sv_store s) i) s s' None ∧
      ∀ h, h ∈ holders_of (sv_store s) i → free h (sv_bans s) → ¬ reliable hex i set (sv_store s) h
  | PANIC _ => False
  end.
Proof.
  unfold FetchShard. rewrite (bind_ok get _ _ _ _ eq_refl), length_MemberIDs. apply fetch_from_spec.
Qed.

Lemma fetched_honest i holders s s' r h : fetched hex i set holders s s' r →
  honest (sv_store s) h → free h (sv_bans s) → free h (sv_bans s').
Proof. intros Hf Hh Hfr. apply (f_free _ _ _ _ _ _ _ Hf); [done|]. by apply honest_not_liar. Qed.

Lemma reachable_kept i j holders s s' r : fetched hex i set holders s s' r → reachable s j → reachable s' j.
Proof.
  intros Hf (h & Hin & Hfr & Hh & Hd). pose proof (f_kept _ _ _ _ _ _ _ Hf) as Hk. injection Hk as Est _ _ _.
  exists h. rewrite Est. split_and!; [done|by eapply fetched_honest|done..].
Qed.

(** The shards fetched in a run: verified, and sent by somebody. *)
Record filled (i : Z) (have : Z) (slots slots' : list (option bytes)) (s s' : Server) : Prop := {
  l_kept : kept s' = kept s;
  l_length : length slots' = length slots;
  l_slot : ∀ j d, slots' !! j = Some (Some d) → slots !! j = Some (Some d) ∨
    VerifyShard set (i + Z.of_nat j) d = true ∧ ∃ n url, shard_reply hex (i + Z.of_nat j) n url = Some d;
  l_pure : ∀ src, (∀ j, (j < length slots)%nat → src id (i + Z.of_nat j) set = mjoin (slots' !! j)) →
    fetch_shards src id set i have slots = slots';
  l_enough : K (ss_Spec set) <= have + present slots' - present slots ∨
    ∀ j, (j < length slots)%nat → (∃ d, slots !! j = Some (Some d)) ∨ reachable s (i + Z.of_nat j) →
      ∃ d, slots' !! j = Some (Some d);
}.

(** One more slot in front. *)
Lemma filled_cons i have x x' r r' s s1 s' gain :
  kept s1 = kept s → (∀ j, reachable s j → reachable s1 j) →
  gain = present [x'] - present [x] →
  (∀ d, x' = Some d → x = Some d ∨ VerifyShard set i d = true ∧ ∃ n url, shard_reply hex i n url = Some d) →
  (∀ src, src id i set = x' → fetch_shards src id set i have (x :: r) = x' :: fetch_shards src id set (i + 1) (have + gain) r) →
  ((∃ d, x = Some d) ∨ reachable s i → ∃ d, x' = Some d) →
  filled (i + 1) (have + gain) r r' s1 s' → filled i have (x :: r) (x' :: r') s s'.
Proof.
  intros Hk Hr Hg Hx Hp Hen [K1 L1 S1 P1 E1].
  assert (∀ j, i + 1 + Z.of_nat j = i + Z.of_nat (S j)) as Ej by lia.
  split; [congruence|simpl; congruence| | |].
  - intros [|j] d; simpl; [rewrite Z.add_0_r; intros [= E]; destruct (Hx d E) as [->|]; [by left|by right]|].
    rewrite <- Ej. apply S1.
  - intros src Hsrc. rewrite Hp; [f_equal; apply P1|].
    + intros j Hj. rewrite Ej. apply (Hsrc (S j)). simpl. lia.
    + specialize (Hsrc 0%nat). simpl in Hsrc. rewrite Z.add_0_r in Hsrc. apply Hsrc. lia.
  - rewrite (present_cons x), (present_cons x'). subst gain.
    rewrite (present_cons x []), (present_cons x' []) in E1. destruct E1 as [E1|E1]; [left; lia|right].
    intros [|j] Hj Hor; simpl in *.
    + rewrite Z.add_0_r in Hor. destruct Hen as [d ->]; [|by eexists]. destruct Hor as [(d & [= ->])|]; eauto.
    + apply E1; [lia|]. rewrite Ej. destruct Hor; auto.
Qed.

Lemma fetch_live_run slots : ∀ i have s, ∃ slots' s',
  fetch_live w id set i have slots s = OK s' slots' ∧ filled i have slots slots' s s'.
Proof.
  induction slots as [|x r IH]; intros i have s; cbn [fetch_live].
  { exists [], s. split; [done|]. split; [done..| |]; simpl; [done|]. right. simpl. lia. }
  destruct (Z.leb_spec (K (ss_Spec set)) have) as [Hk|Hk].
  { exists (x :: r), s. split; [done|]. split; [done|done|by left| |left; lia].
    intros src _. cbn [fetch_shards]. by rewrite (proj2 (Z.leb_le _ _)). }
  destruct x as [d|].
  - destruct (IH (i + 1) have s) as (r' & s' & E & Hf). exists (Some d :: r'), s'.
    rewrite (bind_ok _ _ _ _ _ E). split; [done|]. apply (filled_cons _ _ _ _ _ _ s s s' 0); [done..|by left| |by eauto|by rewrite Z.add_0_r].
    intros src _. cbn [fetch_shards]. by rewrite (proj2 (Z.leb_gt _ _)), Z.add_0_r.
  - pose proof (FetchShard_run i s) as HF. unfold mbind at 1, M_bind at 1, try_ at 1.
    destruct (FetchShard w id i set s) as [s1 d|s1 e|] eqn:EF; [| |done].
    + destruct (f_data _ _ _ _ _ _ _ HF d eq_refl) as (Hv & h & _ & _ & Hsent). rewrite Hv.
      destruct (IH (i + 1) (have + 1) s1) as (r' & s' & E & Hf). exists (Some d :: r'), s'.
      rewrite (bind_ok _ _ _ _ _ E). split; [done|].
      apply (filled_cons _ _ _ _ _ _ s s1 s' 1); [by apply HF|intros j; by eapply reachable_kept|done| | |by eauto|done].
      * intros d' [= <-]. right. split; [done|]. destruct Hsent as (n & _ & En). eauto.
      * intros src Hsrc. cbn [fetch_shards]. by rewrite (proj2 (Z.leb_gt _ _)), Hsrc, Hv by done.
    + destruct HF as [HF Hno]. destruct (IH (i + 1) have s1) as (r' & s' & E & Hf). exists (None :: r'), s'.
      rewrite (bind_ok _ _ _ _ _ E). split; [done|].
      apply (filled_cons _ _ _ _ _ _ s s1 s' 0); [by apply HF|intros j; by eapply reachable_kept|done|done| | |by rewrite Z.add_0_r].
      * intros src Hsrc. cbn [fetch_shards]. by rewrite (proj2 (Z.leb_gt _ _)), Hsrc, Z.add_0_r by done.
      * intros [[? ?]|(h & Hin & Hfr & Hh & Hd)]; [done|]. exfalso. eapply Hno; [done|done|]. by apply honest_reliable.
Qed.
End live.
End client.

(** ** Properties *)

(** A peer that runs this program: its answers on the shard channel are the handlers'. *)
Definition runs_shards (w : World) (url : string) (peer : nat → Server) : Prop :=
  ∀ n b i, w_net w n url (RShard b i) = match handle_shard b i (peer n) with OK _ r => Some r | _ => None end.

Lemma block_param_encode id : length id = 32%nat → block_param (string_of (hex_encode id)) = Some id.
Proof. intros Hl. unfold block_param. rewrite bytes_of_string_of, hex_decode_encode. simpl. unfold zlen. by rewrite Hl. Qed.

Lemma runs_shards_reply w url peer id i n : runs_shards w url peer → length id = 32%nat → - maxInt - 1 <= i <= maxInt →
  shard_reply w (string_of (hex_encode id)) i n url = GetShard id i (store_of (peer n)).
Proof.
  intros Hr Hl Hi. unfold shard_reply. rewrite Hr. unfold handle_shard. rewrite (bind_ok get _ _ _ _ eq_refl).
  rewrite block_param_encode, Atoi_Itoa by done. by destruct (GetShard id i (store_of (peer n))).
Qed.

(** [C26] Fetching a shard from peers that lie.  Whatever the network answers, [FetchShard]
    ends; the bytes it returns verify against the committed hash and came from one of
    the shard's holders; it fails only if no holder that it knows, with no ban on
    record, hands out a shard that verifies, and a holder that runs this program and
    has the shard is such a holder.  Nothing changes but the bans and the count of
    requests, and only holders that served garbage in this very run are struck. *)
Theorem FetchShard_verified (w : World) (id : Hash) (i : Z) (set : ShardSet) (s : Server)
  (Hid : length id = 32%nat) (Hi : - maxInt - 1 <= i <= maxInt) :
  let hex := string_of (hex_encode id) in
  let holders := Holders (MemberIDs (sv_store s)) id i (Replication (Count (sv_store s))) in
  let o := FetchShard w id i set s in let s' := out_state o in
  match o with
  | OK _ d => VerifyShard set i d = true ∧
      ∃ h, h ∈ holders ∧ shardURLFor h (sv_store s) ≠ "" ∧
           sent w hex i (shardURLFor h (sv_store s)) (sv_clock s) (sv_clock s') d
  | ERR _ _ => ∀ h, h ∈ holders → free h (sv_bans s) → ¬ reliable w hex i set (sv_store s) h
  | PANIC _ => False
  end ∧
  (∀ h peer d, shardURLFor h (sv_store s) ≠ "" → runs_shards w (shardURLFor h (sv_store s)) peer →
     (∀ n, GetShard id i (store_of (peer n)) = Some d) → VerifyShard set i d = true → reliable w hex i set (sv_store s) h) ∧
  kept s' = kept s ∧
  (∀ k, free k (sv_bans s) → ¬ liar w hex i set (sv_store s) (sv_clock s) (sv_clock s') k → free k (sv_bans s')) ∧
  (∀ k, ¬ (k ∈ holders ∧ liar w hex i set (sv_store s) (sv_clock s) (sv_clock s') k) →
     strikes_of (sv_bans s') k = strikes_of (sv_bans s) k ∨ strikes_of (sv_bans s') k = 0).
Proof.
  cbv zeta. pose proof (FetchShard_run w id set i s) as HF. unfold holders_of in HF.
  set (hex := string_of (hex_encode id)) in *. set (holders := Holders _ _ _ _) in *.
  assert (∃ r, fetched w hex i set holders s (out_state (FetchShard w id i set s)) r) as [r Hf].
  { destruct (FetchShard w id i set s); [by eexists|by destruct HF; eexists|done]. }
  split_and!; [| |by apply Hf|intros k; apply (f_free _ _ _ _ _ _ _ _ Hf)|intros k; apply (f_strikes _ _ _ _ _ _ _ _ Hf)].
  - destruct (FetchShard w id i set s) as [s' d|s' e|]; [|by apply HF|done]. by apply (f_data _ _ _ _ _ _ _ _ HF).
  - intros h peer d Hu Hr Hd Hv. split; [done|]. intros n. exists d. subst hex. by rewrite (runs_shards_reply _ _ peer).
Qed.

(** *** Reconstruction over the network *)

(** The slots a run filled hold at least the shards that were sure to be found. *)
Lemma filled_present w id set i have slots slots' s s' (av : nat → bool) : filled w id set i have slots slots' s s' →
  have = present slots →
  (∀ j, (j < length slots)%nat → av j = true → (∃ d, slots !! j = Some (Some d)) ∨ reachable w id set s (i + Z.of_nat j)) →
  K (ss_Spec set) <= zlen (filter (λ j, av j = true) (seq 0 (length slots))) → K (ss_Spec set) <= present slots'.
Proof.
  intros Hf Hh Hav Hk. destruct (l_enough _ _ _ _ _ _ _ _ _ Hf) as [He|He]; [lia|].
  pose proof (l_length _ _ _ _ _ _ _ _ _ Hf) as Hl.
  pose proof (present_lower av slots' 0) as Hp. rewrite Hl in Hp. etransitivity; [exact Hk|]. apply Hp.
  intros j Hj Ha. rewrite Nat.add_0_l in Ha. apply He; [done|]. by apply Hav.
Qed.

Lemma live_source_run w id set s : ∃ slots s', let src := (λ (_ : Hash) (i : Z) (_ : ShardSet), mjoin (slots !! Z.to_nat i)) in
  live_source w id set s = OK s' src ∧
  filled w id set 0 (present (local_shards (store_of s) id set)) (local_shards (store_of s) id set) slots s s' ∧
  gather (Some src) (store_of s) id set = slots.
Proof.
  destruct (fetch_live_run w id set (local_shards (store_of s) id set) 0 (present (local_shards (store_of s) id set)) s)
    as (slots & s' & E & Hf). exists slots, s'. split_and!; [|done|].
  - unfold live_source. rewrite (bind_ok get _ _ _ _ eq_refl). by rewrite (bind_ok _ _ _ _ _ E).
  - unfold gather. apply (l_pure _ _ _ _ _ _ _ _ _ Hf). intros j Hj. by rewrite Z.add_0_l, Nat2Z.id.
Qed.

(** [C25] Reconstruction over a network of liars.  A node holds the commitment of a block,
    some shards on disk, a list of bans, and peers that answer what they like.  Unless
    somebody sends bytes that collide with a committed shard under the shard hash,
    [GET /reconstruct] ends and answers either exactly the block's transactions or
    500; it answers the transactions as soon as K committed shards are on disk or each
    handed out by some holder that serves no garbage and is not banned, whatever all
    others send.  Nothing changes but bans and the count of requests. *)
Theorem network_reconstruction `{ReedSolomon} (w : World) (s : Server) (hdr : Header) (blk : Block)
  (shards : list bytes) (set : ShardSet) (av : nat → bool)
  (HK : 1 <= K (hd_Spec hdr)) (HM : 1 <= M (hd_Spec hdr))
  (HL : rs_laws (Z.to_nat (K (hd_Spec hdr))) (Z.to_nat (M (hd_Spec hdr))))
  (Hlen : zlen (Body blk) < W32) (Hwf : Forall tx_wf (b_Txs blk))
  (Hcan : Forall (λ t, zlen (canonical t) < W64) (b_Txs blk)) (Hn : zlen (b_Txs blk) < W32)
  (Hh : is_u64 (hd_Height hdr))
  (Hset : BuildShardSet (ID hdr) (Body blk) (hd_Spec hdr) = Ok (shards, set))
  (Hget : GetHeader (hd_Height hdr) (store_of s) = Ok (hdr, set))
  (Hcoll : ∀ i d g, GetShard (ID hdr) (Z.of_nat i) (store_of s) = Some d ∨
       (∃ n url, shard_reply w (string_of (hex_encode (ID hdr))) (Z.of_nat i) n url = Some d) →
     shards !! i = Some g → ShardHash (ID hdr) (Z.of_nat i) d = ShardHash (ID hdr) (Z.of_nat i) g → d = g)
  (Hav : ∀ i, (i < length shards)%nat → av i = true → GetShard (ID hdr) (Z.of_nat i) (store_of s) = shards !! i ∨
     reachable w (ID hdr) set s (Z.of_nat i)) :
  ∃ s' r, handle_reconstruct w (FormatUint (hd_Height hdr)) s = OK s' r ∧ kept s' = kept s ∧
    (r = (StatusOK, Some (b_Txs blk)) ∨ r = (StatusInternalServerError, None)) ∧
    (K (hd_Spec hdr) <= zlen (filter (λ i, av i = true) (seq 0 (length shards))) → r = (StatusOK, Some (b_Txs blk))).
Proof.
  unfold handle_reconstruct. rewrite (bind_ok get _ _ _ _ eq_refl), Parse_Format, Hget by done.
  destruct (live_source_run w (ID hdr) set s) as (slots & s' & E & Hf & Hg). rewrite (bind_ok _ _ _ _ _ E).
  set (src := λ (_ : Hash) (i : Z) (_ : ShardSet), mjoin (slots !! Z.to_nat i)) in *.
  destruct (reconstruct_genuine (Some src) (store_of s) hdr blk shards set) as (Espec & Et & Hgen & Hok & Hno); [done..| |].
  { intros i d g Ho. apply Hcoll. destruct Ho as [Ho|(src' & [= <-] & Ho)]; [by left|]. unfold src in Ho. rewrite Nat2Z.id in Ho.
    destruct (slots !! i) as [[d'|]|] eqn:Ei; simpl in Ho; [|done..]. injection Ho as ->.
    destruct (l_slot _ _ _ _ _ _ _ _ _ Hf i d Ei) as [El|(_ & n & url & En)]; [left|right; rewrite Z.add_0_l in En; eauto].
    unfold local_shards in El. apply list_lookup_fmap_Some in El as (z & Ed & Hz). apply lookup_seqZ in Hz as [-> _].
    rewrite Z.add_0_l in Ed. destruct (GetShard (ID hdr) (Z.of_nat i) (store_of s)) as [d0|]; simpl in Ed; [|done].
    by destruct (VerifyShard set (Z.of_nat i) d0). }
  rewrite Hg in Hok, Hno.
  assert (present slots < K (hd_Spec hdr) → ReconstructBody (Some src) (store_of s) (hd_Height hdr) = Err ErrReconstruct) as Hno'.
  { intros Hp. unfold ReconstructBody. rewrite Hget. simpl. by rewrite Hno. }
  assert (K (hd_Spec hdr) <= present slots → ReconstructBody (Some src) (store_of s) (hd_Height hdr) = Ok (b_Txs blk)) as Hok'.
  { intros Hp. unfold ReconstructBody. rewrite Hget. simpl. rewrite Hok by done. simpl. by apply DecodeTxs_EncodeTxs. }
  destruct (Z.lt_ge_cases (present slots) (K (hd_Spec hdr))) as [Hp|Hp].
  - exists s', (StatusInternalServerError, None). unfold mbind, M_bind, try_, lift. rewrite Hno' by done.
    split_and!; [done|by apply Hf|by right|]. intros Hk. exfalso.
    assert (length (local_shards (store_of s) (ID hdr) set) = length shards) as El.
    { unfold local_shards. rewrite length_fmap, length_seqZ, Espec, Et. unfold zlen. lia. }
    assert (K (ss_Spec set) <= present slots); [|rewrite Espec in *; lia].
    apply (filled_present _ _ _ _ _ _ _ _ _ av Hf eq_refl); rewrite El; [|by rewrite Espec].
    intros j Hj Ha. destruct (Hav j Hj Ha) as [Ho|Hr]; [left|right; by rewrite Z.add_0_l].
    destruct (lookup_lt_is_Some_2 shards j Hj) as [g Hgj]. exists g. rewrite Hgj in Ho.
    apply (local_genuine set (ID hdr) shards Hgen); [by rewrite Espec|done|done].
  - exists s', (StatusOK, Some (b_Txs blk)). unfold mbind, M_bind, try_, lift. rewrite Hok' by done.
    split_and!; [done|by apply Hf|by left|done].
Qed.

(** ** On the demo network: [good] serves shards, the others garbage *)

Definition w_server : Server := server_of w_chain.

Lemma FetchShard_verified_witness : ∃ s d,
  FetchShard shard_world (ID w_hdr) 0 w_built.2 w_server = OK s d ∧ VerifyShard w_built.2 0 d = true ∧ kept s = kept w_server.
Proof.
  destruct (FetchShard_verified shard_world (ID w_hdr) 0 w_built.2 w_server) as (Ho & _ & Hk & _).
  - vm_compute. reflexivity.
  - unfold maxInt. lia.
  - assert (is_OK (FetchShard shard_world (ID w_hdr) 0 w_built.2 w_server) = true) as E by (vm_compute; reflexivity).
    destruct (FetchShard shard_world (ID w_hdr) 0 w_built.2 w_server) as [s d| |]; [|discriminate E..].
    exists s, d. destruct Ho as [Hv _]. split; [reflexivity|]. split; [exact Hv|exact Hk].
Defined.

Lemma w_shard_reply i n url d : shard_reply shard_world (string_of (hex_encode (ID w_hdr))) i n url = Some d →
  d = [zb 9] ∨ (i = 0 ∧ w_built.1 !! 0%nat = Some d).
Proof.
  intros E. unfold shard_reply in E. cbn [shard_world world_of w_net shard_net] in E.
  case_bool_decide as Hu; [|left; cbn in E; congruence]. case_bool_decide as Hi; [|discriminate E].
  right. apply Itoa_0 in Hi. split; [done|]. exact E.
Qed.

Lemma w_good_honest : honest shard_world (ID w_hdr) w_built.2 peers0 "good" ∧ hands shard_world (ID w_hdr) peers0 "good" 0.
Proof.
  assert (shardURLFor "good" peers0 = p_Shard good) as E by (vm_compute; reflexivity).
  unfold honest, hands. rewrite E. split; [split; [done|]|].
  - intros i n d Hd. pose proof (w_shard_reply i n _ d Hd) as [->|[-> Hg]].
    + unfold shard_reply in Hd. cbn [shard_world world_of w_net shard_net] in Hd. rewrite bool_decide_true in Hd by done.
      case_bool_decide; [|discriminate Hd]. vm_compute in Hd. discriminate Hd.
    + injection Hg as <-. vm_compute. reflexivity.
  - intros n. eexists. reflexivity.
Qed.

Lemma network_reconstruction_witness : ∃ s,
  @handle_reconstruct shard_world copy_code "1" w_server = OK s (StatusOK, Some [sample_tx]) ∧ kept s = kept w_server.
Proof.
  destruct (@network_reconstruction copy_code shard_world w_server w_hdr w_blk w_built.1 w_built.2 (λ i, Nat.eqb i 0)) as (s & r & E & Hk & _ & Hr).
  - simpl. lia.
  - simpl. lia.
  - apply copy_code_laws.
  - vm_compute. reflexivity.
  - repeat constructor; apply sample_tx_wf.
  - repeat constructor; vm_compute; reflexivity.
  - vm_compute. reflexivity.
  - split; vm_compute; discriminate || reflexivity.
  - vm_compute. reflexivity.
  - reflexivity.
  - intros i d g [Ho|(n & url & Ho)] Hg; [discriminate Ho|].
    destruct (w_shard_reply (Z.of_nat i) n url d Ho) as [->|[Ei Hd]].
    + destruct i as [|[|[|i]]]; [..|discriminate Hg]; injection Hg as <-; intros Hc; vm_compute in Hc; discriminate Hc.
    + destruct i; [congruence|discriminate Ei].
  - intros i Hi Hav. apply Nat.eqb_eq in Hav as ->. right. exists "good". destruct w_good_honest as [Hg Hh].
    split; [vm_compute; apply list_elem_of_here|]. split; [reflexivity|]. split; [exact Hg|exact Hh].
  - exists s. split; [|exact Hk]. change (FormatUint (hd_Height w_hdr)) with "1" in E. rewrite Hr in E by (vm_compute; discriminate). exact E.
Defined.
