(* ===== verification/P2pAudit.v ===== *)
(** * The network layer: proof-of-storage audits

    Who is challenged in a round, and what the scoreboard says afterwards. *)

From S2P Require Import Prelude Sha256 Crypto Merkle Netparams Types Pos Rendezvous Consensus Erasure Bloom State Mempool StateStore Strconv Chain ChainShards Peers P2p NetDemo P2pProps.

Section audit.
Context (w : World).

(** Everything but the scores and the count of observations. *)
Definition unscored (s : Server) := (sv_store s, sv_chain s, sv_pool s, sv_bans s).

Section block.
Context (id : Hash).
Local Abbreviation hex := (string_of (hex_encode id)).

(** The answer to one challenge, decoded. *)
Definition proof_reply (n : nat) (url : string) (idx : Z) (nonce : Hash) : option Hash :=
  match w_net w n url (RProve hex (Itoa idx) (string_of (hex_encode nonce))) with
  | Some (code, Some b) =>
      if code =? StatusOK then raw ← hex_decode (TrimSpace b); if zlen raw =? 32 then Some raw else None else None
  | _ => None
  end.

Lemma proveShard_run url idx nonce s : proveShard w url hex idx nonce s =
  match proof_reply (sv_clock s) url idx nonce with
  | Some h => OK (bump s) h
  | None => ERR (bump s) (match w_net w (sv_clock s) url (RProve hex (Itoa idx) (string_of (hex_encode nonce))) with
      | Some (code, Some _) => if code =? StatusOK then ErrBadProof else ErrNetwork | _ => ErrNetwork end)
  end.
Proof.
  unfold proveShard, proof_reply. unfold mbind at 1, M_bind at 1. rewrite http_get_run.
  destruct (w_net w (sv_clock s) url _) as [[code [b|]]|]; [|done..]. destruct (code =? StatusOK); [|done].
  destruct (hex_decode (TrimSpace b)) as [raw|]; [|done]. simpl. by destruct (zlen raw =? 32).
Qed.

(** Nodes that are challenged. *)
Definition challengeable (ps : Peerstore) (h : string) : Prop := h ≠ p_ID (ps_self ps) ∧ shardURLFor h ps ≠ "".
#[global] Instance challengeable_dec ps h : Decision (challengeable ps h).
Proof. unfold challengeable. apply _. Defined.

(** [h] answers every challenge for what [st] holds correctly, or none. *)
Definition verdict (b : bool) (st : Store) (url : string) : Prop :=
  ∀ n idx data, GetShard id idx st = Some data →
    bool_decide (proof_reply (S n) url idx (w_nonce w n) = Some (Challenge (w_nonce w n) data)) = b.

(** The score of [e'] is that of [e] and [k] more passes, or misses (on 64 bits). *)
Definition scored (b : bool) (k : nat) (e e' : Score) : Prop :=
  u64 (sc_Pass e') = u64 (sc_Pass e + if b then Z.of_nat k else 0) ∧
  u64 (sc_Miss e') = u64 (sc_Miss e + if b then 0 else Z.of_nat k).

Lemma scored_0 b e : scored b 0 e e.
Proof. split; f_equal; destruct b; lia. Qed.

Lemma scored_add b k k' e e1 e' : scored b k e e1 → scored b k' e1 e' → scored b (k + k') e e'.
Proof.
  assert (∀ a c c1 d d1, u64 a = u64 (c + d) → u64 c1 = u64 (a + d1) → u64 c1 = u64 (c + (d + d1))) as Hu.
  { intros a c c1 d d1 H1 H2. unfold u64 in *. rewrite H2, <- Zplus_mod_idemp_l, H1, Zplus_mod_idemp_l. f_equal. lia. }
  intros [P1 M1] [P2 M2]. unfold scored. rewrite Nat2Z.inj_add. destruct b; split.
  - eapply Hu; eassumption.
  - exact (Hu _ _ _ _ _ M1 M2).
  - exact (Hu _ _ _ _ _ P1 P2).
  - eapply Hu; eassumption.
Qed.

Lemma entry_insert k h e (b : gmap string Score) : entry h (<[k:=e]> b) = if decide (k = h) then e else entry h b.
Proof.
  unfold entry, Scoreboard. case_decide as E; [subst; by rewrite (lookup_insert_eq b)|by rewrite (lookup_insert_ne b)].
Qed.

Lemma Pass_entry now k h b : scored true (if decide (k = h) then 1 else 0) (entry h b) (entry h (Pass now k b)).
Proof.
  unfold Pass. rewrite entry_insert. case_decide as E; [subst|apply (scored_0 true)].
  split; simpl; [apply Zmod_mod|by rewrite Z.add_0_r].
Qed.

Lemma Miss_entry k h b : scored false (if decide (k = h) then 1 else 0) (entry h b) (entry h (Miss k b)).
Proof.
  unfold Miss. rewrite entry_insert. case_decide as E; [subst|apply (scored_0 false)].
  split; simpl; [by rewrite Z.add_0_r|apply Zmod_mod].
Qed.

Lemma score_other (r : bool) now k h b v : k ≠ h →
  scored v 0 (entry h b) (entry h (if r then Pass now k b else Miss k b)).
Proof.
  intros Hne. assert (entry h (if r then Pass now k b else Miss k b) = entry h b) as ->; [|apply scored_0].
  unfold Pass, Miss. destruct r; rewrite entry_insert; by rewrite decide_False.
Qed.

(** The outcome of a list of challenges. *)
Record audited (D : list string) (s s' : Server) (n n' : Z * Z) : Prop := {
  a_kept : unscored s' = unscored s;
  a_count : n'.1 + n'.2 = n.1 + n.2 + zlen D;
  a_score : ∀ h b, verdict b (store_of s) (shardURLFor h (sv_store s)) →
    scored b (length (filter (λ x, x = h) D)) (entry h (sv_scores s)) (entry h (sv_scores s'));
  a_clean : (∀ h, h ∈ D → verdict true (store_of s) (shardURLFor h (sv_store s))) → n'.2 = n.2;
}.

Lemma audited_nil s n : audited [] s s n n.
Proof. split; [done|unfold zlen; simpl; lia| |done]. intros h b _. apply scored_0. Qed.

Lemma audited_app D D' s s1 s' n n1 n' : audited D s s1 n n1 → audited D' s1 s' n1 n' → audited (D ++ D') s s' n n'.
Proof.
  intros [K1 C1 S1 E1] [K2 C2 S2 E2]. injection K1 as Est Ech Epl Ebn. unfold store_of in *. rewrite Est, Ech in *. split.
  - unfold unscored in *. congruence.
  - unfold zlen in *. rewrite length_app. lia.
  - intros h b Hv. rewrite filter_app, length_app. eapply scored_add; eauto.
  - intros Hv. rewrite E2, E1; [done|intros h ?; apply Hv; set_solver..].
Qed.

Lemma challenge_run idx data h s n : GetShard id idx (store_of s) = Some data → ∃ s' r,
  challenge w id idx data h s = OK s' r ∧
  audited (if decide (challengeable (sv_store s) h) then [h] else []) s s' n (count r n).
Proof.
  intros Hd. unfold challenge. rewrite (bind_ok get _ _ _ _ eq_refl). unfold challengeable.
  case_bool_decide as Hself; [rewrite decide_False by (by intros [? ?]); do 2 eexists; split; [done|apply audited_nil]|].
  case_bool_decide as Hurl; [rewrite decide_False by (by intros [? ?]); do 2 eexists; split; [done|apply audited_nil]|].
  rewrite decide_True by done. rewrite (bind_ok (observe (w_nonce w)) _ s (bump s) (w_nonce w (sv_clock s)) eq_refl).
  set (nonce := w_nonce w (sv_clock s)). set (url := shardURLFor h (sv_store s)) in *.
  set (got := proof_reply (S (sv_clock s)) url idx nonce).
  assert (∃ s2, (try_ (proveShard w url hex idx nonce) ≫= λ got, if match got with inr got => bool_decide (got = Challenge nonce data)
      | inl _ => false end then now ← observe (w_now w); with_scores (Pass (now / 1000000000) h) ≫= λ _, mret (Some true)
      else with_scores (Miss h) ≫= λ _, mret (Some false)) (bump s) = OK s2 (Some (bool_decide (got = Some (Challenge nonce data)))) ∧
      unscored s2 = unscored s ∧ ∃ now, sv_scores s2 = if bool_decide (got = Some (Challenge nonce data)) then Pass now h (sv_scores s)
        else Miss h (sv_scores s)) as (s2 & E & Hk & now & Hs).
  { unfold mbind at 1, M_bind at 1, try_. rewrite proveShard_run. change (sv_clock (bump s)) with (S (sv_clock s)). fold got.
    destruct got as [g|].
    - destruct (bool_decide (g = Challenge nonce data)) eqn:Eg.
      + apply bool_decide_eq_true in Eg as ->. rewrite bool_decide_true by done. eexists. split_and!; [done..|]. by eexists.
      + apply bool_decide_eq_false in Eg. rewrite bool_decide_false by congruence. eexists. split_and!; [done..|]. by exists 0.
    - rewrite bool_decide_false by done. eexists. split_and!; [done..|]. by exists 0. }
  exists s2, (Some (bool_decide (got = Some (Challenge nonce data)))). split; [exact E|].
  assert (∀ b, verdict b (store_of s) url → bool_decide (got = Some (Challenge nonce data)) = b) as Hb.
  { intros b Hv. apply (Hv (sv_clock s) idx data Hd). }
  split; [done| | |].
  - unfold count, zlen. destruct (bool_decide _); simpl; lia.
  - intros k b Hv. rewrite Hs, filter_cons, filter_nil. destruct (decide (h = k)) as [<-|Hne]; simpl length.
    + rewrite (Hb b Hv). destruct b; [pose proof (Pass_entry now h h (sv_scores s)) as Hp|pose proof (Miss_entry h h (sv_scores s)) as Hp];
        by rewrite decide_True in Hp.
    + by apply score_other.
  - intros Hv. rewrite (Hb true); [done|]. apply Hv, list_elem_of_here.
Qed.

Lemma audit_holders_run idx data hs : ∀ s n, GetShard id idx (store_of s) = Some data → ∃ s' n',
  audit_holders w id idx data hs n s = OK s' n' ∧ audited (filter (challengeable (sv_store s)) hs) s s' n n'.
Proof.
  induction hs as [|h r IH]; intros s n Hd; cbn [audit_holders]; [do 2 eexists; split; [done|apply audited_nil]|].
  destruct (challenge_run idx data h s n Hd) as (s1 & c & E & Ha). rewrite (bind_ok _ _ _ _ _ E).
  pose proof (a_kept _ _ _ _ _ Ha) as Hk. injection Hk as Est Ech _ _.
  destruct (IH s1 (count c n)) as (s' & n' & E' & Ha'); [unfold store_of; by rewrite Ech|].
  exists s', n'. split; [done|]. rewrite Est in Ha'. rewrite filter_cons.
  pose proof (audited_app _ _ _ _ _ _ _ _ Ha Ha') as Hr. by case_decide.
Qed.

Lemma audit_shards_run members held : ∀ s n, (∀ i, i ∈ held → is_Some (GetShard id i (store_of s))) → ∃ s' n',
  audit_shards w id members held n s = OK s' n' ∧
  audited (held ≫= λ i, filter (challengeable (sv_store s)) (Holders members id i (Replication (zlen members)))) s s' n n'.
Proof.
  induction held as [|i r IH]; intros s n Hh; cbn [audit_shards]; [do 2 eexists; split; [done|apply audited_nil]|].
  rewrite (bind_ok get _ _ _ _ eq_refl). destruct (Hh i (list_elem_of_here _ _)) as [data Hd]. rewrite Hd.
  destruct (audit_holders_run i data (Holders members id i (Replication (zlen members))) s n Hd) as (s1 & n1 & E & Ha).
  rewrite (bind_ok _ _ _ _ _ E). pose proof (a_kept _ _ _ _ _ Ha) as Hk. injection Hk as Est Ech _ _.
  destruct (IH s1 n1) as (s' & n' & E' & Ha'); [intros j Hj; unfold store_of; rewrite Ech; apply Hh; by apply list_elem_of_further|].
  exists s', n'. split; [done|]. rewrite Est in Ha'. rewrite bind_cons. by eapply audited_app.
Qed.
End block.
End audit.

Lemma HeldShards_held id st i : i ∈ HeldShards id st ↔ is_Some (GetShard id i st).
Proof.
  unfold HeldShards. rewrite merge_sort_Permutation, list_elem_of_fmap. unfold GetShard. split.
  - intros ([id' j] & -> & [Hid Hj]%list_elem_of_filter). simpl in *. subst id'.
    apply list_elem_of_fmap in Hj as ([k d] & -> & Hk). apply elem_of_map_to_list in Hk. by eexists.
  - intros [d Hd]. exists (id, i). split; [done|]. apply list_elem_of_filter. split; [done|].
    apply list_elem_of_fmap. exists ((id, i), d). split; [done|]. by apply elem_of_map_to_list.
Qed.

(** ** Property *)

(** A peer that runs this program, on the proving endpoint. *)
Definition runs_prover (w : World) (url : string) (peer : nat → Server) : Prop :=
  ∀ n b i x, w_net w n url (RProve b i x) = match handle_prove b i x (peer n) with OK _ r => Some r | _ => None end.

Lemma runs_prover_reply w url peer id n i x : runs_prover w url peer → length id = 32%nat → length x = 32%nat →
  - maxInt - 1 <= i <= maxInt →
  proof_reply w id n url i x = (λ d, Challenge x d) <$> GetShard id i (store_of (peer n)).
Proof.
  intros Hr Hl Hx Hi. unfold proof_reply. rewrite Hr. unfold handle_prove. rewrite (bind_ok get _ _ _ _ eq_refl).
  rewrite !block_param_encode, Atoi_Itoa by done. destruct (GetShard id i (store_of (peer n))) as [d|]; [|done]. simpl.
  rewrite TrimSpace_hex_encode, hex_decode_encode. simpl. unfold zlen, Challenge. by rewrite length_sha256.
Qed.

(** [C32] Audits score what peers store.  A round at head [head] challenges, for each shard
    of the head block this node holds, every other holder whose shard channel it
    knows; it ends, and changes nothing but the scoreboard.  Passes and misses add up to
    the challenges.  A node whose answers are all right gets one pass per challenge and
    never a miss, one whose answers are all wrong only misses; a peer that runs this
    program and has the shards is of the first kind, through the text of the request and
    of the reply, and one that runs it without them of the second. *)
Theorem audit_round (w : World) (s : Server) (head : Header) (Hhead : Chain_Head (sv_chain s) = Some head)
  (Hnonce : ∀ n, length (w_nonce w n) = 32%nat)
  (Hint : ∀ i, i ∈ HeldShards (ID head) (store_of s) → - maxInt - 1 <= i <= maxInt) :
  let id := ID head in let ps := sv_store s in
  let duties := HeldShards id (store_of s) ≫= λ i,
    filter (challengeable ps) (Holders (MemberIDs ps) id i (Replication (Count ps))) in
  ∃ s' p m, AuditRound w s = OK s' (p, m) ∧ unscored s' = unscored s ∧ p + m = zlen duties ∧
    (∀ h b, verdict w id b (store_of s) (shardURLFor h ps) →
       scored b (length (filter (λ x, x = h) duties)) (entry h (sv_scores s)) (entry h (sv_scores s'))) ∧
    ((∀ h, h ∈ duties → verdict w id true (store_of s) (shardURLFor h ps)) → m = 0) ∧
    (∀ url peer, runs_prover w url peer →
       ((∀ n i d, GetShard id i (store_of s) = Some d → GetShard id i (store_of (peer n)) = Some d) →
        verdict w id true (store_of s) url) ∧
       ((∀ n i d, GetShard id i (store_of s) = Some d → GetShard id i (store_of (peer n)) = None) →
        verdict w id false (store_of s) url)).
Proof.
  cbv zeta. destruct (audit_shards_run w (ID head) (MemberIDs (sv_store s)) (HeldShards (ID head) (store_of s)) s (0, 0))
    as (s' & [p m] & E & [Hk Hc Hs Hm]); [intros i; apply HeldShards_held|].
  rewrite length_MemberIDs in Hc, Hs, Hm. exists s', p, m. split_and!; [|done|exact Hc|exact Hs|exact Hm|].
  - unfold AuditRound. rewrite (bind_ok get _ _ _ _ eq_refl), Hhead. exact E.
  - intros url peer Hr.
    assert (∀ n i d, GetShard (ID head) i (store_of s) = Some d →
      proof_reply w (ID head) (S n) url i (w_nonce w n) = (λ d, Challenge (w_nonce w n) d) <$> GetShard (ID head) i (store_of (peer (S n)))) as Hreply.
    { intros n i d Hd. apply runs_prover_reply; [done|apply length_ID|apply Hnonce|]. apply Hint, HeldShards_held. by eexists. }
    split; intros Hp n i d Hd; rewrite (Hreply n i d Hd), (Hp (S n) i d Hd); [by apply bool_decide_eq_true|done].
Qed.

(** [good] is challenged for shard 0, has it, and passes. *)
Lemma audit_round_witness : ∃ s, AuditRound prover_world (server_of held_chain) = OK s (1, 0).
Proof.
  assert (HeldShards (ID w_hdr) (store_of (server_of held_chain)) = [0]) as Eh by (vm_compute; reflexivity).
  destruct (audit_round prover_world (server_of held_chain) w_hdr) as (s & p & m & E & _ & Hsum & _ & Hgood & Hruns).
  - reflexivity.
  - intros n. reflexivity.
  - intros i. rewrite Eh. intros ->%list_elem_of_singleton. unfold maxInt. lia.
  - assert (m = 0) as ->.
    { apply Hgood. intros h Hh. apply list_elem_of_bind in Hh as (i & Hh & Hi). rewrite Eh in Hi. apply list_elem_of_singleton in Hi as ->.
      apply list_elem_of_filter in Hh as [Hc Hh]. assert (h ∈ ["good"; "me"]) as Hin by (revert Hh; vm_compute; exact (λ x, x)).
      apply elem_of_cons in Hin as [->|Hin]; [|apply list_elem_of_singleton in Hin as ->; by destruct Hc as [[] _]].
      apply (Hruns (shardURLFor "good" peers0) (λ _, server_of held_chain)); [|done].
      intros n b i x. cbn [prover_world world_of w_net prover_net]. rewrite bool_decide_true by (vm_compute; reflexivity). reflexivity. }
    assert (p = 1) as -> by (rewrite Eh in Hsum; rewrite Z.add_0_r in Hsum; rewrite Hsum; vm_compute; reflexivity).
    exists s. exact E.
Defined.
