(* ===== verification/P2pGossip.v ===== *)
(** * The network layer: gossip and sync

    When a sender is struck, and what a node adopts from its peers. *)

From S2P Require Import Prelude Sha256 Crypto Economy Merkle Netparams Types Pos Forkchoice Rendezvous Consensus Erasure Bloom State Mempool StateStore Demo Strconv Chain ChainProps ChainShards ChainReorg Peers P2p NetDemo P2pProps.

Local Abbreviation M := Prelude.M.

Lemma try_ok {S A} (m : M S A) s s' a : m s = OK s' a → try_ m s = OK s' (inr a).
Proof. unfold try_. by intros ->. Qed.
Lemma try_err {S A} (m : M S A) s s' e : m s = ERR s' e → try_ m s = OK s' (inl e).
Proof. unfold try_. by intros ->. Qed.

(** ** Gossip *)

Section gossip.
Context (w : World) `{Platform} `{ReedSolomon} (engine : State → Engine).
Context (blockTime finalityDepth : Z) (fuel : nat) (reorg : bool).
Local Abbreviation apply := (apply_block engine blockTime finalityDepth fuel reorg).
Local Abbreviation gossip := (handle_gossip_block w engine blockTime finalityDepth fuel reorg).
Local Abbreviation serve := (ServeHTTP w engine blockTime finalityDepth fuel reorg).

Lemma with_chain_frame {A} (m : M Chain A) s : let s' := out_state (with_chain m s) in
  sv_store s' = sv_store s ∧ sv_pool s' = sv_pool s ∧ sv_scores s' = sv_scores s ∧ sv_bans s' = sv_bans s ∧
  sv_clock s' = sv_clock s ∧ sv_chain s' = out_state (m (sv_chain s)).
Proof. unfold with_chain. by destruct (m (sv_chain s)). Qed.

Lemma apply_frame now blk s : let s' := out_state (apply now blk s) in
  sv_store s' = sv_store s ∧ sv_pool s' = sv_pool s ∧ sv_bans s' = sv_bans s ∧ sv_clock s' = sv_clock s.
Proof.
  unfold apply_block. rewrite (bind_ok get _ _ _ _ eq_refl).
  by destruct (with_chain_frame (if reorg then AcceptBlock engine (p_ID (ps_self (sv_store s))) (MemberIDs (sv_store s)) blockTime finalityDepth fuel blk
    else ApplyExternalBlock engine (p_ID (ps_self (sv_store s))) (MemberIDs (sv_store s)) blockTime finalityDepth fuel now blk) s)
    as (? & ? & _ & ? & ? & _).
Qed.

Lemma remove_lookup txs : ∀ m h, foldl (λ m tx, delete (tx_Hash tx) m) m txs !! h =
  if decide (h ∈ tx_Hash <$> txs) then None else (m : gmap Hash Transaction) !! h.
Proof.
  induction txs as [|t r IH]; intros m h; cbn [foldl]; [done|].
  rewrite IH. assert (h ∈ tx_Hash <$> t :: r ↔ h = tx_Hash t ∨ h ∈ tx_Hash <$> r) as Hc by (rewrite fmap_cons; apply elem_of_cons).
  destruct (decide (h = tx_Hash t)) as [->|Hne]; [rewrite lookup_delete_eq|rewrite lookup_delete_ne by done];
    repeat case_decide; tauto.
Qed.

End gossip.

(** ** Heads *)

Section sync.
Context (w : World).

Definition head_reply (n : nat) (url : string) : option Header :=
  match w_net w n url RHead with Some (code, Some h) => if code =? StatusOK then Some h else None | _ => None end.

Lemma remoteHead_run url s : remoteHead w url s =
  match head_reply (sv_clock s) url with Some h => OK (bump s) h | None => ERR (bump s) ErrNetwork end.
Proof.
  unfold remoteHead. rewrite http_get_run. unfold head_reply. destruct (w_net w (sv_clock s) url RHead) as [[code [h|]]|]; try done.
  by destruct (code =? StatusOK).
Qed.

(** Only the count of observations moved. *)
Definition watched (s s' : Server) : Prop := ∃ n, s' = P2p.set_clock n s.

Lemma watched_refl s : watched s s.
Proof. exists (sv_clock s). by destruct s. Qed.
Lemma watched_bump s s' : watched (bump s) s' → watched s s'.
Proof. intros [n ->]. by exists n. Qed.

(** A node that always announces the header [h]. *)
Definition announces (url : string) (h : Header) : Prop := ∀ n, head_reply n url = Some h.

Lemma best_height_run peers : ∀ best s, ∃ s' b, best_height w peers best s = OK s' b ∧ watched s s' ∧ best <= b ∧
  (∀ p h, p ∈ peers → announces (p_Control p) h → hd_Height h <= b) ∧
  (b = best ∨ ∃ p n h, p ∈ peers ∧ head_reply n (p_Control p) = Some h ∧ b = hd_Height h).
Proof.
  induction peers as [|q r IH]; intros best s; cbn [best_height].
  { exists s, best. split_and!; [done|apply watched_refl|lia|by intros p h ?%elem_of_nil|by left]. }
  pose proof (remoteHead_run (p_Control q) s) as Hr. destruct (head_reply (sv_clock s) (p_Control q)) as [h|] eqn:Eh.
  - rewrite (bind_ok _ _ _ _ _ (try_ok _ _ _ _ Hr)). set (best' := if best <? hd_Height h then hd_Height h else best).
    assert (best <= best' ∧ hd_Height h <= best' ∧ (best' = best ∨ best' = hd_Height h)) as (H1 & H2 & H3).
    { unfold best'. destruct (Z.ltb_spec best (hd_Height h)); lia. }
    destruct (IH best' (bump s)) as (s' & b & E & Hw & Hb & Ha & Ho). exists s', b.
    split_and!; [done|by apply watched_bump|lia| |].
    + intros p h' [->|Hp]%elem_of_cons Han; [|by apply (Ha p)]. rewrite (Han (sv_clock s)) in Eh. injection Eh as <-. lia.
    + destruct Ho as [->|(p & n & h' & Hp & En & ->)].
      * destruct H3 as [->| ->]; [by left|right]. exists q, (sv_clock s), h. split_and!; [apply list_elem_of_here|done..].
      * right. exists p, n, h'. split_and!; [by apply list_elem_of_further|done..].
  - rewrite (bind_ok _ _ _ _ _ (try_err _ _ _ _ Hr)).
    destruct (IH best (bump s)) as (s' & b & E & Hw & Hb & Ha & Ho). exists s', b.
    split_and!; [done|by apply watched_bump|done| |].
    + intros p h' [->|Hp]%elem_of_cons Han; [|by apply (Ha p)]. by rewrite (Han (sv_clock s)) in Eh.
    + destruct Ho as [->|(p & n & h' & Hp & En & ->)]; [by left|right].
      exists p, n, h'. split_and!; [by apply list_elem_of_further|done..].
Qed.

Lemma best_peer_run peers : ∀ best bh s, ∃ s' r, best_peer w peers best bh s = OK s' r ∧ watched s s' ∧ bh <= r.2 ∧
  (∀ p h, p ∈ peers → announces (p_Control p) h → hd_Height h <= r.2) ∧
  (r = (best, bh) ∨ ∃ p n h, p ∈ peers ∧ head_reply n (p_Control p) = Some h ∧ r = (p_Control p, hd_Height h)).
Proof.
  induction peers as [|q l IH]; intros best bh s; cbn [best_peer].
  { exists s, (best, bh). split_and!; [done|apply watched_refl|simpl; lia|by intros p h ?%elem_of_nil|by left]. }
  assert (∀ best' bh', bh <= bh' → (∀ h, head_reply (sv_clock s) (p_Control q) = Some h → hd_Height h <= bh') →
    ((best', bh') = (best, bh) ∨ ∃ p n h, p ∈ q :: l ∧ head_reply n (p_Control p) = Some h ∧ (best', bh') = (p_Control p, hd_Height h)) →
    ∃ s' r, best_peer w l best' bh' (bump s) = OK s' r ∧ watched s s' ∧ bh <= r.2 ∧
    (∀ p h, p ∈ q :: l → announces (p_Control p) h → hd_Height h <= r.2) ∧
    (r = (best, bh) ∨ ∃ p n h, p ∈ q :: l ∧ head_reply n (p_Control p) = Some h ∧ r = (p_Control p, hd_Height h))) as Hgo.
  { intros best' bh' Hle Hq Hor. destruct (IH best' bh' (bump s)) as (s' & r & E & Hw & Hb & Ha & Ho). exists s', r.
    split_and!; [done|by apply watched_bump|lia| |].
    - intros p h' [->|Hp]%elem_of_cons Han; [|by apply (Ha p)]. specialize (Hq h' (Han _)). lia.
    - destruct Ho as [->|(p & n & h' & Hp & En & ->)]; [done|right]. exists p, n, h'. split_and!; [by apply list_elem_of_further|done..]. }
  pose proof (remoteHead_run (p_Control q) s) as Hr. destruct (head_reply (sv_clock s) (p_Control q)) as [h|] eqn:Eh.
  - rewrite (bind_ok _ _ _ _ _ (try_ok _ _ _ _ Hr)). cbv beta iota.
    destruct (Z.leb_spec bh (hd_Height h)).
    + apply Hgo; [done|by intros ? [= <-]|]. right. exists q, (sv_clock s), h. split_and!; [apply list_elem_of_here|done..].
    + apply Hgo; [done|intros ? [= <-]; lia|by left].
  - rewrite (bind_ok _ _ _ _ _ (try_err _ _ _ _ Hr)). apply Hgo; [done|done|by left].
Qed.

(** The peer [p] announces [h], the others less; several descriptors may share its URL. *)
Definition leads (ps : Peerstore) (p : Peer) (h : Header) : Prop :=
  p ∈ Peers ps ∧ p_Control p ≠ "" ∧ 0 < hd_Height h ∧ announces (p_Control p) h ∧
  ∀ q n h', q ∈ Peers ps → p_Control q ≠ p_Control p → head_reply n (p_Control q) = Some h' → hd_Height h' < hd_Height h.

Lemma leads_best ps p h s : leads ps p h → ∃ s', best_peer w (Peers ps) "" 0 s = OK s' (p_Control p, hd_Height h) ∧ watched s s'.
Proof.
  intros (Hp & Hu & Hh & Ha & Hlow). destruct (best_peer_run (Peers ps) "" 0 s) as (s' & r & E & Hw & _ & Hge & Ho).
  exists s'. split; [|done]. rewrite E. f_equal. specialize (Hge p h Hp Ha).
  destruct Ho as [->|(q & n & h' & Hq & En & ->)]; [simpl in Hge; lia|]. simpl in Hge.
  destruct (decide (p_Control q = p_Control p)) as [Eq|Hne].
  - rewrite Eq in En |- *. rewrite (Ha n) in En. by injection En as ->.
  - specialize (Hlow q n h' Hq Hne En). lia.
Qed.

Lemma leads_height p h s : leads (sv_store s) p h → ∃ s' b, BestPeerHeight w s = OK s' b ∧ watched s s' ∧ hd_Height h <= b.
Proof.
  intros (Hp & _ & _ & Ha & _). unfold BestPeerHeight. rewrite (bind_ok get _ _ _ _ eq_refl).
  destruct (best_height_run (Peers (sv_store s)) 0 s) as (s' & b & E & Hw & _ & Hge & _).
  exists s', b. split_and!; [done|done|]. by apply (Hge p h).
Qed.
End sync.

(** ** Sync *)

Section records.
Context `{Platform} (engine : State → Engine).

Lemma sync_records_authorized records : ∀ i prev c,
  wp (sync_records engine i prev records)
    (λ _ _, Forall (λ r, @AuthorizeHeader _ (engine (ch_state c)) r.1 = Ok tt) records)
    (λ _ _, True) (λ _, ∃ h, @AuthorizeHeader _ (engine (ch_state c)) h = Panic) c.
Proof.
  induction records as [|[h set] r IH]; intros i prev c; cbn [sync_records]; [by constructor|].
  apply wp_bind, wp_get, wp_bind, wp_require; [|done]. intros _.
  apply wp_bind, wp_require; [|done]. intros _.
  apply wp_bind, wp_lift; [|done|by eauto]. intros [] Ea.
  apply wp_bind, wp_modify. eapply wp_mono; [..|apply IH]; [|done|done].
  intros [] c' Hr. by constructor.
Qed.

(** Every header is authorized by the registry the node had before, or nothing but
    headers is stored. *)
Lemma SyncInstall_authorized records snap c : (∀ st h, @AuthorizeHeader _ (engine st) h ≠ Panic) →
  match SyncInstall engine records snap c with
  | OK _ _ => Forall (λ r, @AuthorizeHeader _ (engine (ch_state c)) r.1 = Ok tt) records
  | ERR c' _ => frame c' = frame c ∧ ch_state c' = ch_state c
  | PANIC _ => False
  end.
Proof.
  intros Hnp. unfold SyncInstall. destruct (last records) as [[tip set]|]; [|done].
  pose proof (sync_records_run engine records 0 Zero c) as Hw. pose proof (sync_records_authorized records 0 Zero c) as Ha.
  unfold wp in Hw, Ha. unfold mbind, M_bind.
  destruct (sync_records engine 0 Zero records c) as [c1 []|c1 e|c1]; [done|done|]. destruct Ha as [h Hh]. by apply Hnp in Hh.
Qed.
End records.

Lemma postorage_no_panic `{Ed25519} vs wt h : PoStorage.authorize vs wt h ≠ Panic.
Proof.
  assert (Header_VerifySig h ≠ Panic) as Hs by (unfold Header_VerifySig; by repeat case_match).
  unfold PoStorage.authorize. destruct (Header_VerifySig h) as [[]|e|]; [|done..]. simpl. by repeat case_match.
Qed.

(** The genesis header a node derives by itself carries no signature, unless the node
    holds the genesis validator's key. *)
Lemma genesis_unsigned `{Platform} ts funding val kp :
  Header_VerifySig (genesis_header ts funding val kp) = Ok tt → ∃ k, kp = Some k ∧ KeyPair_Address k = val.
Proof.
  intros E. unfold genesis_header in E. destruct kp as [k|].
  - case_bool_decide as Ek; [by exists k|]. exfalso. revert E. unfold Header_VerifySig. destruct (negb _); [done|]. done.
  - exfalso. revert E. unfold Header_VerifySig. destruct (negb _); [done|]. done.
Qed.

Section refuse.
Context (w : World) `{Platform} `{ReedSolomon}.
Context (weights : State → option (gmap Address Z)) (self : Address) (scores : option Scoreboard) (ratio : Floats.SpecFloat.spec_float).

(** The storage consensus over the registry of the ledger. *)
Definition registry_engine (st : State) : Engine := PoStorage.engine (ActiveValidators st) (weights st) self scores ratio.

(** Fast sync refuses honest chains.  Under the storage consensus every downloaded
    header is checked against the registry the node has before the sync.  When the
    leading peer serves a chain in which some header is by a validator that is not
    active in this registry, or is not signed, [SyncFrom] reports an error, however
    often it is repeated, and the ledger, the tip and the tree stay.  A header a node
    derives itself as genesis is not signed, unless the node has the key of the genesis
    validator, and a node that runs this program serves it first. *)
Theorem sync_refuses_honest_chains (s : Server) (p : Peer) (h : Header) (recs : list (Header * ShardSet))
  (localHeight : Z) (hasGenesis : bool)
  (Hlead : leads w (sv_store s) p h) (Hbehind : hasGenesis = false ∨ localHeight < hd_Height h)
  (Hrecs : ∀ n, w_net w n (p_Control p) (RHeaders "0" (FormatUint (hd_Height h))) = Some (StatusOK, Some recs))
  (Hbad : ∃ r, r ∈ recs ∧ (hd_Validator r.1 ∉ ActiveValidators (ch_state (sv_chain s)) ∨ Header_VerifySig r.1 ≠ Ok tt)) :
  (∃ s' e, SyncFrom w registry_engine localHeight hasGenesis s = ERR s' e ∧
     frame (sv_chain s') = frame (sv_chain s) ∧ ch_state (sv_chain s') = ch_state (sv_chain s) ∧
     sv_store s' = sv_store s ∧ sv_bans s' = sv_bans s ∧ sv_pool s' = sv_pool s) ∧
  (∀ ts funding val kp, Header_VerifySig (genesis_header ts funding val kp) = Ok tt →
     ∃ k, kp = Some k ∧ KeyPair_Address k = val) ∧
  (∀ peer g set to, is_u64 to → GetHeader 0 (store_of peer) = Ok (g, set) →
     ∃ rest, handle_headers "0" (FormatUint to) peer = OK peer (StatusOK, Some ((g, set) :: rest))).
Proof.
  split; [|split; [intros ts funding val kp; apply genesis_unsigned|]].
  - destruct (leads_best w (sv_store s) p h s Hlead) as (s1 & E & [n1 ->]).
    unfold SyncFrom. rewrite (bind_ok get _ _ _ _ eq_refl), (bind_ok _ _ _ _ _ E). cbn [fst snd].
    destruct Hlead as (_ & Hu & _). rewrite bool_decide_false by done.
    assert (hasGenesis && (hd_Height h <=? localHeight) = false) as ->.
    { destruct Hbehind as [->|Hlt]; [done|]. by rewrite (proj2 (Z.leb_gt _ _)), andb_false_r. }
    unfold fetchHeaders, fetchSnapshot.
    set (s1 := P2p.set_clock n1 s). assert (http_get w (p_Control p) (RHeaders "0" (FormatUint (hd_Height h))) s1 = OK (bump s1) recs) as E1
      by (by rewrite http_get_run, Hrecs).
    rewrite (bind_ok _ _ _ _ _ E1). pose proof (http_get_run w (p_Control p) RSnapshot (bump s1)) as E2.
    assert (∃ s2, (∃ n, s2 = P2p.set_clock n s) ∧ ((∃ e, http_get w (p_Control p) RSnapshot (bump s1) = ERR s2 e) ∨
      ∃ snap, http_get w (p_Control p) RSnapshot (bump s1) = OK s2 snap)) as (s2 & [n ->] & [[e Es]|[snap Es]]).
    { exists (bump (bump s1)). split; [by eexists|]. rewrite E2.
      destruct (w_net w (sv_clock (bump s1)) (p_Control p) RSnapshot) as [[code [a|]]|]; eauto. destruct (code =? StatusOK); eauto. }
    + unfold mbind, M_bind. rewrite Es. eexists _, _. split_and!; done.
    + rewrite (bind_ok _ _ _ _ _ Es).
      pose proof (SyncInstall_authorized registry_engine recs snap (sv_chain s)) as Hi.
      unfold mbind, M_bind, with_chain. simpl sv_chain.
      destruct (SyncInstall registry_engine recs snap (sv_chain s)) as [c []|c e|c].
      * exfalso. destruct Hbad as (r & Hr & Hor). specialize (Hi (λ st x, postorage_no_panic _ _ _)).
        rewrite Forall_forall in Hi. specialize (Hi r Hr). destruct Hor as [Hna|Hns].
        -- revert Hi. simpl. unfold PoStorage.authorize. destruct (Header_VerifySig r.1) as [[]| |]; [|done..]. simpl.
           unfold validator_map. rewrite (bool_decide_false (_ ∈ _)); [done|]. by rewrite elem_of_list_to_set.
        -- apply Hns. by apply (@auth_signed _ (registry_engine (ch_state (sv_chain s)))).
      * destruct Hi as [Hf Hst]; [intros st x; apply postorage_no_panic|]. eexists _, _. split_and!; done.
      * exfalso. apply Hi. intros st x; apply postorage_no_panic.
  - intros peer g set to Ht Hg. unfold handle_headers. rewrite (bind_ok get _ _ _ _ eq_refl), Parse_Format by done.
    change (ParseUint_value "0") with 0. cbn [header_range]. change (default (Chain_Height (sv_chain peer)) (Some to)) with to. rewrite (proj2 (Z.ltb_ge _ _)) by (unfold is_u64 in Ht; lia).
    rewrite Hg. by eexists.
Qed.
End refuse.

(** ** On the demo network *)


Lemma head_world_leads : leads head_world peers0 good (header_at 9 bob).
Proof.
  split_and!; [apply good_is_peer|discriminate|reflexivity|by intros n|].
  intros q n h' Hq Hne Hr. destruct (peers0_two q Hq) as [->| ->]; [done|discriminate Hr].
Qed.

(** The demo ledger has no validators, and the header served is not signed. *)
Lemma sync_refuses_honest_chains_witness : ∃ s' e,
  @SyncFrom head_world demo_platform (registry_engine (λ _, None) "me" None Pos.f0_8) 4 true (server_of chain0) = ERR s' e ∧
  sv_store s' = peers0.
Proof.
  destruct (@sync_refuses_honest_chains head_world demo_platform (λ _, None) "me" None Pos.f0_8 (server_of chain0) good
    (header_at 9 bob) [(w_hdr, w_built.2)] 4 true) as [(s' & e & E & _ & _ & Hs & _) _].
  - exact head_world_leads.
  - right. reflexivity.
  - intros n. reflexivity.
  - exists (w_hdr, w_built.2). split; [apply list_elem_of_here|]. right. vm_compute. discriminate.
  - exists s', e. split; [exact E|exact Hs].
Defined.
