(* ===== verification/Node.v ===== *)
(** * The node ([internal/node/node.go], [internal/node/config.go],
    [internal/chainparams/chainparams.go])

    The daemon that ties the components together: its configuration, how it is built
    from what is on disk, and its loop as a machine.  One event is one tick of a timer
    or one request; the select loop runs the ticks one after the other, and a request is
    served between two of them ([Interleave] serves requests inside a tick).  A panic in a
    handler is recovered by [net/http] and the node goes on; a panic in the loop ends it. *)

From S2P Require Import Prelude Sha256 Crypto Economy Merkle Netparams Types Pos Forkchoice Rendezvous Consensus Erasure Bloom State Mempool StateStore Strconv Chain Peers P2p.

Local Abbreviation M := Prelude.M.

(** ** Network parameters *)

Record Params := MkParams {
  cp_Network : string; cp_ChainID : Z; cp_GenesisTime : Z; cp_RegPoWBits : Z; cp_Consensus : string;
  cp_FinalityDepth : Z; cp_FaucetAmount : Z; cp_FaucetBits : Z; cp_FaucetCooldown : Z; cp_FaucetDepth : Z;
  cp_StorageWindow : Z; cp_StorageMinDepth : Z; cp_StorageCap : Z; cp_Genesis : gmap Address Z;
  cp_Validators : list Address; cp_Seeds : list string; cp_DNSSeeds : list string;
  cp_ControlAddr : string; cp_ShardAddr : string; cp_BlockTimeMS : Z;
}.

Definition founder : Address := "sl0fa7cc3eacafa2ab32381ac11b4836d31229ddf2".

Definition Mainnet : Params := {|
  cp_Network := "shadowledger-mainnet"; cp_ChainID := 1; cp_GenesisTime := 1780000000; cp_RegPoWBits := 20;
  cp_Consensus := "postorage"; cp_FinalityDepth := 16; cp_FaucetAmount := 200000000; cp_FaucetBits := 18;
  cp_FaucetCooldown := 50; cp_FaucetDepth := 4; cp_StorageWindow := 256; cp_StorageMinDepth := 4; cp_StorageCap := 64;
  cp_Genesis := {[ founder := 100000000000000 ]}; cp_Validators := [founder];
  cp_Seeds := ["http://136.248.77.107:4004"]; cp_DNSSeeds := [];
  cp_ControlAddr := ":4004"; cp_ShardAddr := ":4005"; cp_BlockTimeMS := 5000;
|}.

(** ** Configuration *)

Record NodeConfig := MkNodeConfig {
  nc_DataDir : string; nc_ControlAddr : string; nc_ShardAddr : string; nc_Advertise : string; nc_NodeKey : string;
  nc_Validators : list Address; nc_Seeds : list string; nc_DNSSeeds : list string; nc_Consensus : string;
  nc_BlockTimeMS : Z; nc_Genesis : gmap string Z;
}.

Definition str_cat (l : list string) : string := string_of (l ≫= bytes_of).
(** [if x == "" { x = d }], and for slices. *)
Definition or_string (d x : string) : string := if bool_decide (x = "") then d else x.
Definition or_list {A} (d x : list A) : list A := match x with [] => d | _ => x end.

Section config.
(** [os.UserHomeDir]; [""] or an error give the local directory.  [filepath.Join] of a
    clean home directory. *)
Context (home : option string).

Definition defaultDataDir : string :=
  match home with
  | Some h => if bool_decide (h = "") then "./sl-data" else str_cat [h; "/.shadowledger"]
  | None => "./sl-data"
  end.

Definition applyDefaults (c : NodeConfig) : NodeConfig :=
  let dataDir := or_string defaultDataDir (nc_DataDir c) in
  MkNodeConfig dataDir (or_string ":4004" (nc_ControlAddr c)) (or_string ":4005" (nc_ShardAddr c))
    (or_string "localhost" (nc_Advertise c)) (or_string (str_cat [dataDir; "/keys/node.json"]) (nc_NodeKey c))
    (nc_Validators c) (nc_Seeds c) (nc_DNSSeeds c) (nc_Consensus c)
    (if nc_BlockTimeMS c =? 0 then 5000 else nc_BlockTimeMS c) (nc_Genesis c).

Definition mergeMainnet (c : NodeConfig) : NodeConfig :=
  let p := Mainnet in
  applyDefaults (MkNodeConfig (nc_DataDir c) (or_string (cp_ControlAddr p) (nc_ControlAddr c))
    (or_string (cp_ShardAddr p) (nc_ShardAddr c)) (nc_Advertise c) (nc_NodeKey c)
    (or_list (cp_Validators p) (nc_Validators c)) (or_list (cp_Seeds p) (nc_Seeds c))
    (or_list (cp_DNSSeeds p) (nc_DNSSeeds c)) (or_string (cp_Consensus p) (nc_Consensus c))
    (if nc_BlockTimeMS c =? 0 then cp_BlockTimeMS p else nc_BlockTimeMS c)
    (if bool_decide (nc_Genesis c = ∅) then cp_Genesis p else nc_Genesis c)).

Definition emptyConfig : NodeConfig := MkNodeConfig "" "" "" "" "" [] [] [] "" 0 ∅.

Definition MainnetConfig : NodeConfig := applyDefaults (mergeMainnet emptyConfig).

(** [None]: no file at the path; a file that does not parse is an error. *)
Definition LoadConfig (file : option NodeConfig) : res NodeConfig :=
  match file with Some c => Ok (applyDefaults c) | None => Err ErrNotExist end.
Definition LoadConfigOrMainnet (file : option (option NodeConfig)) : res NodeConfig :=
  match file with None => Ok MainnetConfig | Some f => c ← LoadConfig f; Ok (mergeMainnet c) end.
End config.

(** ** The node *)

(** The running server, and the files [state.json] and [bloom.dat] as they are on disk. *)
Record Node := MkNode { nd_srv : Server; nd_saved : option State; nd_filter : option Filter }.

Definition set_srv x n := MkNode x (nd_saved n) (nd_filter n).

Definition on_srv {A} (m : MS A) : M Node A := λ n,
  match m (nd_srv n) with
  | OK s a => OK (set_srv s n) a | ERR s e => ERR (set_srv s n) e | PANIC s => PANIC (set_srv s n)
  end.

(** [n.state.Save(n.statePath)] *)
Definition save_state : M Node unit :=
  modify (λ n, MkNode (nd_srv n) (State_Save (ch_state (sv_chain (nd_srv n)))) (nd_filter n)).
(** [n.bloom.Save(...)]; a nil filter cannot occur after [New]. *)
Definition save_filter : M Node unit :=
  modify (λ n, MkNode (nd_srv n) (nd_saved n)
    (match ch_bloom (sv_chain (nd_srv n)) with Some f => Filter_Save f | None => nd_filter n end)).
Definition persist : M Node unit := save_state ≫= λ _, save_filter.

Section node.
Context `{Platform} `{ReedSolomon} (w : World) (cfg : NodeConfig) (kp : KeyPair).
(** The orders in which [Reap] visits the pool and the senders. *)
Context (order : nat → Server → list Transaction * list Address).
Context (fuel : nat).

Definition self : Address := KeyPair_Address kp.

Definition node_engine (s : State) : Engine :=
  if bool_decide (nc_Consensus cfg = "postorage")
  then PoStorage.engine (ActiveValidators s) (Some (StorageWeights s)) self None f0_8
  else Authority.engine (nc_Validators cfg) self.

(** [int64(cfg.BlockTimeMS / 1000)], at least one second. *)
Definition block_time : Z :=
  let bt := Z.quot (nc_BlockTimeMS cfg) 1000 in if bt <? 1 then 1 else bt.

Definition is_postorage : bool := bool_decide (nc_Consensus cfg = "postorage").

(** [bloom.New(100000, 0.01)]: the two sizes [math.Log] gives for these arguments. *)
Definition fresh_filter : Filter := Bloom.New 958506 7.

(** [New]: the ledger of the last save, the parameters of the main network, the chain
    over the store, an empty pool and an empty peer table. *)
Definition New (st : Store) (saved : option State) (filter : option Filter) : Node :=
  let ledger := match State_Load saved with Ok s => s | _ => State.New end in
  let bf := match Filter_Load filter with Ok f => f | _ => fresh_filter end in
  let ledger := SetRegPoWBits (cp_RegPoWBits Mainnet) (SetChainID (cp_ChainID Mainnet) ledger) in
  let ledger := SetFaucet (cp_FaucetBits Mainnet) (cp_FaucetAmount Mainnet) (cp_FaucetCooldown Mainnet) (cp_FaucetDepth Mainnet)
                  (default "" (head (cp_Validators Mainnet))) (Some (BodyHashAt st)) ledger in
  let ledger := SetStorageProof (cp_StorageWindow Mainnet) (cp_StorageMinDepth Mainnet) (cp_StorageCap Mainnet)
                  (Some (Chain.ShardAt st)) (Some (Chain.ShardProofOK st)) ledger in
  let peer := MkPeer self (str_cat ["http://"; nc_Advertise cfg; nc_ControlAddr cfg])
                (str_cat ["http://"; nc_Advertise cfg; nc_ShardAddr cfg]) in
  MkNode (NewServer (NewPeerstore peer) (Chain.New st ledger (Some bf)) (Mempool.New 50000)) saved filter.

Definition with_members {A} (f : list string → M Chain A) : M Node A :=
  n ← get; on_srv (with_chain (f (MemberIDs (sv_store (nd_srv n))))).

Definition bootstrapGenesis : M Node unit :=
  n ← get;
  let c := sv_chain (nd_srv n) in
  if HasHeaders (ch_store c) || bool_decide (nc_Genesis cfg = ∅) then mret tt else
  match nc_Validators cfg with
  | [] => throw ErrNoValidators
  | v :: _ =>
      with_members (λ members, Genesis self members (cp_GenesisTime Mainnet) (nc_Genesis cfg) v (Some kp)) ≫= λ _,
      save_state
  end.

Definition trySync : M Node unit :=
  n ← get;
  let c := sv_chain (nd_srv n) in
  to ← try_ (on_srv (SyncFrom w node_engine (Chain_Height c) (ch_hasGen c)));
  match to with inl _ => mret tt | inr to => if 0 <? to then save_state else mret tt end.

(** The round: how many block times have passed since the head. *)
Definition round_at (now : Z) (head : Header) : Z :=
  let elapsed := i64 (now - hd_Timestamp head) in
  let elapsed := if elapsed <? 0 then 0 else elapsed in
  u32 (Z.quot elapsed block_time).

Definition maybeProduce : M Node unit :=
  n ← get;
  match Chain_Head (sv_chain (nd_srv n)) with
  | None => mret tt
  | Some head =>
      best ← on_srv (BestPeerHeight w);
      if hd_Height head <? best then mret tt else
      now ← on_srv (observe (w_now w));
      let round := round_at (now / 1000000000) head in
      n ← get;
      let ledger := P2p.ledger (nd_srv n) in
      let height := u64 (hd_Height head + 1) in
      if negb (@CanProduce _ (node_engine ledger) height (ID head) round) then mret tt else
      o ← on_srv (observe (λ k, order k (nd_srv n)));
      let txs := Reap ledger o.1 o.2 1000 in
      let reward := NextReward ledger height in
      if bool_decide (txs = []) && (reward =? 0) then mret tt else
      now ← on_srv (observe (w_now w));
      r ← try_ (with_members (λ members, ProduceBlock self members (cp_FinalityDepth Mainnet) fuel txs kp round (now / 1000000000)));
      match r with
      | inl _ => mret tt
      | inr (blk, _) =>
          on_srv (with_pool (modify (Remove txs))) ≫= λ _,
          save_state ≫= λ _, on_srv (BroadcastBlock w blk)
      end
  end.

(** [chain.ShardBytes] with the node's own server as the source. *)
Definition shard_bytes (target index : Z) : MS (option bytes) :=
  s ← get;
  let st := store_of s in
  match GetHeader target st with
  | Ok (hdr, set) =>
      let held := match GetShard (ID hdr) index st with Some d => VerifyShard set index d | None => false end in
      src ← (if held then mret None else s ← live_source w (ID hdr) set; mret (Some s));
      lift (ShardBytes src st target index)
  | _ => mret None
  end.

Definition storage_tx (target : Z) (shard : bytes) (nonce : Z) : Transaction :=
  tx_Sign (MkTx "" "" 0 0 nonce (cp_ChainID Mainnet) KindStorageProof 0 (be_bytes 8 target ++ shard) [] []) kp.

Definition maybeProveStorage : M Node unit :=
  n ← get;
  let ledger := P2p.ledger (nd_srv n) in
  if negb is_postorage || negb (@IsValidator _ (node_engine ledger)) then mret tt else
  match Chain_Head (sv_chain (nd_srv n)) with
  | None => mret tt
  | Some head =>
      let H := hd_Height head in
      if H <=? u64 (cp_StorageMinDepth Mainnet + 1) then mret tt else
      let target := u64 (H - cp_StorageMinDepth Mainnet - 1) in
      if u64 (target + cp_StorageWindow Mainnet) <? H then mret tt else
      match Chain.ShardAt (store_of (nd_srv n)) target with
      | None => mret tt
      | Some (blockID, total) =>
          if total <=? 0 then mret tt else
          shard ← on_srv (shard_bytes target (assigned_index self blockID total));
          match shard with
          | None => mret tt
          | Some shard =>
              let tx := storage_tx target shard (ac_Nonce (Get ledger self)) in
              r ← try_ (on_srv (with_pool (Submit ledger tx)));
              match r with inl _ => mret tt | inr _ => on_srv (BroadcastTx w tx) end
          end
      end
  end.

(** ** The loop *)

Inductive event :=
  | EDiscover | ESave | EProve | EAudit | EBlock
  | ERequest (clientIP : string) (r : request).

Definition on_tick (e : event) : M Node unit :=
  match e with
  | EDiscover => on_srv (Discover w (nc_Seeds cfg) (nc_DNSSeeds cfg) (nc_ControlAddr cfg)) ≫= λ _, trySync
  | ESave => persist
  | EProve => maybeProveStorage
  | EAudit => on_srv (AuditRound w) ≫= λ _, mret tt
  | EBlock => maybeProduce
  | ERequest ip r =>
      on_srv (ServeHTTP w node_engine block_time (cp_FinalityDepth Mainnet) fuel is_postorage ip r) ≫= λ _, mret tt
  end.

(** One turn of the loop.  What a tick returns is dropped; a panic in a request is
    recovered, a panic in a tick ends the process. *)
Definition step (e : event) : M Node unit := λ n,
  match on_tick e n with
  | OK n' _ | ERR n' _ => OK n' tt
  | PANIC n' => match e with ERequest _ _ => OK n' tt | _ => PANIC n' end
  end.

(** The loop, until [ctx] is done. *)
Fixpoint run (es : list event) : M Node unit :=
  match es with [] => mret tt | e :: r => step e ≫= λ _, run r end.

(** [time.NewTicker] panics on a period that is not positive; the period is
    [time.Duration(cfg.BlockTimeMS) * time.Millisecond]. *)
Definition loops (es : list event) : M Node unit :=
  if i64 (nc_BlockTimeMS cfg * 1000000) <=? 0 then panic else run es.

(** [Run]: genesis, discovery when there is somebody to ask, sync, the loop, and the
    last save. *)
Definition Run (es : list event) : M Node unit :=
  bootstrapGenesis ≫= λ _,
  (match nc_Seeds cfg, nc_DNSSeeds cfg with
   | [], [] => mret tt
   | _, _ => on_srv (Discover w (nc_Seeds cfg) (nc_DNSSeeds cfg) (nc_ControlAddr cfg)) ≫= λ _, mret tt
   end) ≫= λ _,
  trySync ≫= λ _, loops es ≫= λ _, persist.
End node.
