(* ===== verification/NodeFrame.v ===== *)
(** * The node: what a predicate of its chain and pool survives

    Most of the node's operations leave the chain alone and touch the pool only through
    [Submit].  A predicate of a server that depends on the chain and the pool alone, and that
    [Submit] keeps, is kept by all of them: discovery, heads, broadcasts, audits, storage
    proofs, the last save, and every request but a gossiped block. *)

From S2P Require Import Prelude Sha256 Crypto Economy Merkle Netparams Types Pos Forkchoice Rendezvous Consensus Erasure Bloom Vm State StateInv Mempool Chain Peers P2p Node.

Local Abbreviation M := Prelude.M.

(** The interface: what a predicate promises to the operations of this file. *)
Class Framed (I : Server → Prop) := {
  (** The transactions it lets into the pool. *)
  admits : Transaction → Prop;
  framed_ext s s' : sv_chain s' = sv_chain s → sv_pool s' = sv_pool s → I s → I s';
  framed_submit `{Platform} st tx : admits tx → keeps I (with_pool (Submit st tx));
}.

(** Being at a given chain is such a predicate. *)
#[export, refine] Instance framed_chain (c : Chain) : Framed (λ s, sv_chain s = c) := {| admits := λ _, True |}.
Proof.
  - intros s s' E _ <-. exact E.
  - intros P st tx _ s Hs. unfold wp, with_pool. by destruct (Submit st tx (sv_pool s)).
Defined.

Section framed.
Context (I : Server → Prop) `{!Framed I} (w : World).

(** ** The server *)

Lemma keeps_apart {A} (m : MS A) :
  (∀ s, sv_chain (out_state (m s)) = sv_chain s ∧ sv_pool (out_state (m s)) = sv_pool s) → keeps I m.
Proof.
  intros Hm s Hs. destruct (Hm s) as [Hc Hp]. pose proof (framed_ext s _ Hc Hp Hs). unfold wp. by destruct (m s).
Qed.
Lemma keeps_observe {A} (f : nat → A) : keeps I (observe f).
Proof. by apply keeps_apart. Qed.
Lemma keeps_with_store {A} (f : Peerstore → A * Peerstore) : keeps I (with_store f).
Proof. by apply keeps_apart. Qed.
Lemma keeps_with_bans {A} (f : Banlist → A * Banlist) : keeps I (with_bans f).
Proof. by apply keeps_apart. Qed.
Lemma keeps_with_scores f : keeps I (with_scores f).
Proof. by apply keeps_apart. Qed.
Hint Resolve keeps_observe keeps_with_store keeps_with_bans keeps_with_scores : keeps.

Lemma keeps_http_get url r : keeps I (http_get w url r).
Proof. unfold http_get. keeps_tac. Qed.
Lemma keeps_postJSON url r : keeps I (postJSON w url r).
Proof. unfold postJSON. keeps_tac. Qed.
Lemma keeps_postJSON_ url r : keeps I (postJSON_ w url r).
Proof. unfold postJSON_. keeps_tac. Qed.
Lemma keeps_banned k : keeps I (is_banned_now w k).
Proof. unfold is_banned_now. keeps_tac. Qed.
Lemma keeps_strike k : keeps I (strike_now w k).
Proof. unfold strike_now. keeps_tac. Qed.
Hint Resolve keeps_http_get keeps_postJSON keeps_postJSON_ keeps_banned keeps_strike : keeps.

Lemma keeps_fetch_from hex i set holders : ∀ last, keeps I (fetch_from w hex i set holders last).
Proof. induction holders as [|h r IH]; intros last; cbn [fetch_from]; keeps_tac; apply IH. Qed.

Lemma keeps_FetchShard id i set : keeps I (FetchShard w id i set).
Proof. unfold FetchShard. keeps_tac. apply keeps_fetch_from. Qed.
Hint Resolve keeps_FetchShard : keeps.

Lemma keeps_fetch_live id set slots : ∀ i have, keeps I (fetch_live w id set i have slots).
Proof. induction slots as [|x r IH]; intros i have; cbn [fetch_live]; keeps_tac; apply IH. Qed.
Hint Resolve keeps_fetch_live : keeps.

Lemma keeps_live_source id set : keeps I (live_source w id set).
Proof. unfold live_source. keeps_tac. Qed.
Hint Resolve keeps_live_source : keeps.

Lemma keeps_broadcast r path peers : keeps I (broadcast w r path peers).
Proof. induction peers as [|p l IH]; cbn [broadcast]; keeps_tac. Qed.
Hint Resolve keeps_broadcast : keeps.

Lemma keeps_BroadcastBlock b : keeps I (BroadcastBlock w b).
Proof. unfold BroadcastBlock. keeps_tac. Qed.
Lemma keeps_BroadcastTx t : keeps I (BroadcastTx w t).
Proof. unfold BroadcastTx. keeps_tac. Qed.
Hint Resolve keeps_BroadcastBlock keeps_BroadcastTx : keeps.

Lemma keeps_sayHello url : keeps I (sayHello w url).
Proof. unfold sayHello. keeps_tac; exact (keeps_postJSON url (RHello _)). Qed.
Hint Resolve keeps_sayHello : keeps.

Lemma keeps_Discover seeds dns port : keeps I (Discover w seeds dns port).
Proof.
  assert (∀ hosts, keeps I (resolveDNSSeeds w port hosts)) as Hk1 by (induction hosts; cbn [resolveDNSSeeds]; keeps_tac).
  assert (∀ peers, keeps I (peer_targets w peers)) as Hk2 by (induction peers; cbn [peer_targets]; keeps_tac).
  assert (∀ urls n, keeps I (say_all w urls n)) as Hk3 by (induction urls; intros n; cbn [say_all]; keeps_tac).
  unfold Discover. keeps_tac.
Qed.

Lemma keeps_remoteHead url : keeps I (remoteHead w url).
Proof. exact (keeps_http_get url RHead). Qed.
Lemma keeps_proveShard url hex i x : keeps I (proveShard w url hex i x).
Proof. unfold proveShard. apply keeps_bind; [exact (keeps_http_get url (RProve _ _ _))|]. intros b. keeps_tac. Qed.
Hint Resolve keeps_remoteHead keeps_proveShard : keeps.

Lemma keeps_heads peers : (∀ best, keeps I (best_height w peers best)) ∧ ∀ best bh, keeps I (best_peer w peers best bh).
Proof.
  induction peers as [|p r [IH1 IH2]]; (split; [intros best|intros best bh]); cbn [best_height best_peer]; keeps_tac.
Qed.

Lemma keeps_BestPeerHeight : keeps I (BestPeerHeight w).
Proof. unfold BestPeerHeight. keeps_tac. apply keeps_heads. Qed.

Lemma keeps_AuditRound : keeps I (AuditRound w).
Proof.
  assert (∀ id idx d h, keeps I (challenge w id idx d h)) as Hk1 by (intros; unfold challenge; keeps_tac).
  assert (∀ id idx d hs n, keeps I (audit_holders w id idx d hs n)) as Hk2
    by (intros id idx d; induction hs; intros n; cbn [audit_holders]; keeps_tac).
  assert (∀ id ms held n, keeps I (audit_shards w id ms held n)) as Hk3
    by (intros id ms; induction held; intros n; cbn [audit_shards]; keeps_tac).
  unfold AuditRound. keeps_tac.
Qed.
Hint Resolve keeps_Discover keeps_BestPeerHeight keeps_AuditRound : keeps.

Lemma keeps_fail {A} code : keeps I (fail (A:=A) code).
Proof. apply keeps_ret. Qed.
Lemma keeps_writeJSON {A} (a : A) : keeps I (writeJSON a).
Proof. apply keeps_ret. Qed.
Hint Resolve keeps_fail keeps_writeJSON framed_submit : keeps.

(** Every request but a gossiped block. *)
Definition plain (r : request) : Prop :=
  match r with
  | RGossipBlock (Some _) => False
  | RTx (Some t) | RGossipTx (Some t) => admits t
  | _ => True
  end.

Context `{Platform} `{ReedSolomon} (engine : State → Engine) (blockTime finalityDepth : Z) (fuel : nat) (reorg : bool).

Lemma keeps_handle_plain ip r : plain r → keeps I (handle w engine blockTime finalityDepth fuel reorg ip r).
Proof.
  intros Hr. destruct r; simpl in Hr; cbn [handle]; keeps_tac.
  all: try (unfold handle_head, handle_hello, handle_block, handle_headers, handle_logs, handle_snapshot, handle_verify,
    handle_reconstruct, handle_call, handle_bans, handle_shard, handle_prove, handle_have; keeps_tac; fail).
  - unfold handle_tx. destruct body as [t|]; keeps_tac.
  - unfold handle_gossip_tx. destruct body as [t|]; keeps_tac.
  - unfold handle_gossip_block. destruct body as [b|]; [done|apply keeps_fail].
Qed.

Lemma keeps_banGate {A} ip (h : MS (Z * option A)) : keeps I h → keeps I (banGate w ip h).
Proof. intros Hh. unfold banGate. apply keeps_bind; [apply keeps_banned|intros b]. destruct b; [apply keeps_fail|done]. Qed.

(** ** The node *)

Context (cfg : NodeConfig) (kp : KeyPair).
Definition framed_node (n : Node) : Prop := I (nd_srv n).

Lemma keeps_on_srv {A} (m : MS A) : keeps I m → keeps framed_node (on_srv m).
Proof. intros Hm n Hn. specialize (Hm _ Hn). unfold wp, on_srv in *. by destruct (m (nd_srv n)). Qed.
Lemma keeps_save : keeps framed_node save_state.
Proof. by apply keeps_modify. Qed.
Lemma keeps_persist : keeps framed_node persist.
Proof. unfold persist. apply keeps_bind; [apply keeps_save|intros _]. by apply keeps_modify. Qed.
Hint Resolve keeps_on_srv keeps_save : keeps.

Lemma keeps_maybeProveStorage : (∀ h d k, admits (storage_tx kp h d k)) → keeps framed_node (maybeProveStorage w cfg kp).
Proof.
  intros Hadm.
  unfold maybeProveStorage. apply keeps_read. intros n Hn. cbv zeta. destruct (_ || _); [apply keeps_ret|].
  destruct (Chain_Head _) as [head|]; [|apply keeps_ret]. destruct (_ <=? _); [apply keeps_ret|].
  destruct (_ <? _); [apply keeps_ret|]. destruct (Chain.ShardAt _ _) as [[id total]|]; [|apply keeps_ret].
  destruct (_ <=? _); [apply keeps_ret|].
  apply keeps_bind; [apply keeps_on_srv; unfold shard_bytes; keeps_tac|intros [sh|]; [|apply keeps_ret]].
  apply keeps_bind; [|intros [e|[]]; keeps_tac].
  apply keeps_try, keeps_on_srv, framed_submit, Hadm.
Qed.
End framed.

#[export] Hint Extern 0 (Framed _) => apply _ : keeps.
#[export] Hint Resolve framed_submit keeps_observe keeps_with_store keeps_with_bans keeps_with_scores keeps_http_get
  keeps_postJSON keeps_postJSON_ keeps_banned keeps_strike keeps_fetch_from keeps_FetchShard keeps_fetch_live
  keeps_live_source keeps_broadcast keeps_BroadcastBlock keeps_BroadcastTx keeps_sayHello keeps_Discover
  keeps_remoteHead keeps_proveShard keeps_BestPeerHeight keeps_AuditRound keeps_fail keeps_writeJSON keeps_on_srv
  keeps_save keeps_persist : keeps.
