(* ===== verification/NodeSupply.v ===== *)
(** * The node: no inflation, whatever arrives

    The books of the ledger and of the replay base balance after every event of the
    loop: requests, ticks, reorganisations, and fast syncs from peers whose snapshots
    balance.  The components' invariants are carried through every layer, from the
    chain to the server to the node. *)

From S2P Require Import Prelude Sha256 Crypto Economy Merkle Netparams Types Pos Forkchoice Rendezvous Consensus Erasure Bloom Vm State StateInv StateBlock StateSupply StateAtomic Demo Mempool Chain ChainProps ChainShards ChainReorg Peers P2p NetDemo Node NodeFrame.

Local Abbreviation M := Prelude.M.

(** ** The ledger *)

Lemma supply_ok_ext s s' : Accounts s' = Accounts s → Validators s' = Validators s → Minted s' = Minted s →
  0 <= FaucetAmount (cfg s') → supply_ok s → supply_ok s'.
Proof. intros Ea Ev Em Hf [H1 H2 H3 H4 _]. split; unfold total in *; simpl in *; rewrite ?Ea, ?Ev, ?Em; auto. Qed.

Lemma supply_ok_bounds s : supply_ok s → total s <= Minted s <= MaxSupply ∧ ∀ a, 0 <= ac_Balance (Get s a) <= MaxSupply.
Proof.
  intros Hs. split; [destruct Hs as [_ _ B3 B4 _]; simpl in *; lia|].
  intros a. pose proof (supply_acc _ _ a Hs) as Ha. simpl in Ha. rewrite <- (acc_xst0 s). simpl. lia.
Qed.

Lemma supply_ok_faucet s : supply_ok s → 0 <= FaucetAmount (cfg s).
Proof. by intros []. Qed.

(** Balances with empty accounts left out. *)
Lemma msum_omap {K A} `{Countable K} (f : A → Z) (m : gmap K A) :
  msum f (omap (λ x, if f x =? 0 then None else Some x) m) = msum f m.
Proof.
  induction m as [|i x m Hi IH] using map_ind; [by rewrite omap_empty|].
  rewrite msum_insert_new by done. destruct (Z.eqb_spec (f x) 0) as [E|E].
  - rewrite omap_insert_None; [|by rewrite (proj2 (Z.eqb_eq _ _))]. rewrite delete_id by (by rewrite lookup_omap, Hi). lia.
  - rewrite (omap_insert_Some _ _ _ _ x); [|by rewrite (proj2 (Z.eqb_neq _ _))].
    rewrite msum_insert_new by (by rewrite lookup_omap, Hi). lia.
Qed.

Lemma msum_get (m m' : gmap Address Account) : (∀ a, acct_of m' a = acct_of m a) → msum ac_Balance m' = msum ac_Balance m.
Proof.
  intros E. rewrite <- (msum_omap _ m), <- (msum_omap _ m'). f_equal. apply map_eq. intros a. rewrite !lookup_omap.
  specialize (E a). unfold acct_of in E. destruct (m' !! a) as [x|], (m !! a) as [y|]; simpl in *; subst; done.
Qed.

Section chain.
Context `{Platform} `{ReedSolomon}.

Lemma ApplyBlock_keeps b s : supply_ok s → block_words b →
  match ApplyBlock b s with OK s' _ => supply_ok s' | ERR s' _ => supply_ok s' | PANIC _ => True end.
Proof.
  intros Hs Hw. destruct (ApplyBlock b s) as [s' []|s' e|s'] eqn:E; [by eapply ApplyBlock_supply| |done].
  apply ApplyBlock_undone in E as (Ha & Hv & _ & Hm & _ & Hc & _). destruct Hs as [B1 B2 B3 B4 B5].
  split; unfold total in *; simpl in *; rewrite ?Hv, ?Hm, ?Hc, ?(msum_get (Accounts s) (Accounts s')); auto.
  intros a c Ec. specialize (Ha a). unfold Get, acct_of in Ha. rewrite Ec in Ha. simpl in Ha. subst c.
  destruct (Accounts s !! a) as [c0|] eqn:E0; [by apply (B1 a)|done].
Qed.

(** ** The chain *)

Record sound (c : Chain) : Prop := {
  so_ledger : supply_ok (ch_state c);
  so_base : ∀ s, ch_replayBase c = Some s → supply_ok s;
  so_blocks : ∀ id b, lookup_block c id = Some b → block_words b;
}.

Lemma resolve_supply st s : supply_ok s → supply_ok (resolve st s).
Proof. intros Hs. apply (supply_ok_ext s); [done..|by apply (supply_ok_faucet s)|done]. Qed.
Lemma Clone_supply s : supply_ok s → supply_ok (Clone s).
Proof. intros Hs. apply (supply_ok_ext s); [done..|by apply (supply_ok_faucet s)|done]. Qed.
Lemma Inherit_supply src s : supply_ok src → supply_ok s → supply_ok (InheritConfig src s).
Proof. intros Hsrc Hs. apply (supply_ok_ext s); [done..|by apply (supply_ok_faucet src)|done]. Qed.
Lemma Replace_supply other s : supply_ok other → supply_ok s → supply_ok (ReplaceWith other s).
Proof. intros Ho Hs. apply (supply_ok_ext other); [done..|by apply (supply_ok_faucet s)|done]. Qed.

Local Hint Resolve resolve_supply Clone_supply Inherit_supply Replace_supply so_ledger so_base : keeps.

(** Changes of the other parts of a chain. *)
Lemma sound_ext c c' : ch_state c' = ch_state c → ch_replayBase c' = ch_replayBase c →
  (∀ id b, lookup_block c' id = Some b → lookup_block c id = Some b ∨ block_words b) → sound c → sound c'.
Proof.
  intros Es Eb Hl [S1 S2 S3]. split; [by rewrite Es|by rewrite Eb|]. intros id b Hb. destruct (Hl id b Hb); eauto.
Qed.

Lemma sound_ledger s c : supply_ok s → sound c → sound (set_ledger s c).
Proof. intros Hs [S1 S2 S3]. by split. Qed.
Lemma sound_base s id h c : supply_ok s → sound c → sound (set_base (Some s) id h c).
Proof. intros Hs [S1 S2 S3]. split; [done| |done]. simpl. by intros ? [= <-]. Qed.

Lemma keeps_chain f : (∀ c, ch_state (f c) = ch_state c) → (∀ c, ch_replayBase (f c) = ch_replayBase c) →
  (∀ c id, lookup_block (f c) id = lookup_block c id) → keeps sound (modify f).
Proof.
  intros E1 E2 E3. apply keeps_modify. intros c. apply sound_ext; [done..|]. intros id b. rewrite E3. by left.
Qed.

(** Walks along parents only fill the cache. *)
Lemma sound_same c c' : same_blocks c c' → sound c → sound c'.
Proof.
  intros (Hv & Hl & Hb). apply sound_ext; [by injection Hv|by injection Hb|]. intros id b. rewrite Hl. by left.
Qed.

Lemma keeps_block id : keeps sound (block id).
Proof. intros c Hc. unfold wp. destruct (block_run id c) as (c' & -> & Hs). by eapply sound_same. Qed.

Lemma walk_words c n keep : sound c → ∀ id stop rev r, Forall block_words rev →
  walk_pure (lookup_block c) n keep id stop rev = Some (Some r) → Forall block_words r.
Proof.
  intros Hc. induction n as [|n IH]; intros id stop rev r Hrev; cbn [walk_pure]; case_bool_decide; [by intros [= <-]|done|by intros [= <-]|].
  destruct (lookup_block c id) as [b|] eqn:Eb; [|done]. case_bool_decide; [done|]. apply IH.
  destruct (keep b); [|done]. apply Forall_app. split; [done|]. constructor; [by apply (so_blocks c Hc id)|done].
Qed.

Definition words_opt (r : option (list Block)) : Prop := match r with Some bs => Forall block_words bs | None => True end.

Lemma walk_gives n keep id stop c : sound c → wp (walk n keep id stop []) (λ r c', sound c' ∧ words_opt r) (λ _, sound) (λ _, True) c.
Proof.
  intros Hc. destruct (walk_run n keep id stop [] c) as (c' & Hs & E). unfold wp. rewrite E.
  destruct (walk_pure _ n keep id stop []) as [r|] eqn:Ew; [|done]. split; [by eapply sound_same|].
  destruct r; [|done]. by eapply walk_words.
Qed.

Lemma walkDown_gives n tip stop c : sound c → wp (walkDown n tip stop) (λ r c', sound c' ∧ words_opt r) (λ _, sound) (λ _, True) c.
Proof.
  intros Hc. unfold walkDown. apply wp_bind. eapply wp_mono; [..|by apply walk_gives]; [|done|done].
  intros r c' [Hc' Hr]. split; [done|]. destruct r; [|done]. simpl. by apply Forall_reverse.
Qed.

(** *** Persistence *)

Lemma keeps_bloom_add h : keeps sound (bloom_add h).
Proof. unfold bloom_add. keeps_tac; by apply keeps_chain. Qed.
Local Hint Resolve keeps_block keeps_bloom_add : keeps.

Context (selfID : string) (members : list string) (finalityDepth : Z) (fuel : nat).

Lemma keeps_store id i shards set : keeps sound (storeAssignedShards selfID members id i shards set).
Proof.
  revert i. induction shards as [|d r IH]; intros i; cbn [storeAssignedShards]; keeps_tac; try (by apply keeps_chain); apply IH.
Qed.
Local Hint Resolve keeps_store : keeps.

Lemma keeps_persistBlockSet hdr body : keeps sound (persistBlockSet selfID members hdr body).
Proof. unfold persistBlockSet. keeps_tac; by apply keeps_chain. Qed.
Lemma keeps_persistLogs hdr : keeps sound (persistLogs selfID members hdr).
Proof. unfold persistLogs. keeps_tac; by apply keeps_chain. Qed.
Local Hint Resolve keeps_persistBlockSet keeps_persistLogs : keeps.

Lemma keeps_recordBlock b : block_words b → keeps sound (recordBlock b).
Proof.
  intros Hb. apply keeps_modify. intros c. apply sound_ext; [done..|]. intros id b'. unfold lookup_block. simpl.
  destruct (decide (id = ID (b_Header b))) as [->|]; [rewrite lookup_insert_eq; intros [= <-]; by right|].
  rewrite !lookup_insert_ne by done. by left.
Qed.

(** *** Execution *)

Lemma keeps_apply_state b : block_words b → keeps sound (apply_state b).
Proof.
  intros Hb c Hc. unfold wp, apply_state. pose proof (ApplyBlock_keeps b (resolve (ch_store c) (ch_state c)) (resolve_supply _ _ (so_ledger c Hc)) Hb) as Hk.
  destruct (ApplyBlock b _) as [s' []|s' e|]; [by apply sound_ledger..|done].
Qed.

Lemma replay_supply bs : Forall block_words bs → ∀ s, supply_ok s →
  match replay bs s with OK s' _ => supply_ok s' | _ => True end.
Proof.
  induction 1 as [|b r Hb _ IH]; intros s Hs; cbn [replay]; [done|]. pose proof (ApplyBlock_keeps b s Hs Hb) as Hk.
  unfold mbind, M_bind. destruct (ApplyBlock b s) as [s' []| |]; [by apply IH|done..].
Qed.

Lemma fresh_supply c base : sound c → supply_ok base → supply_ok (fresh_base c base).
Proof. intros Hc Hb. unfold fresh_base. eauto with keeps. Qed.

Lemma keeps_saveReplayBase : keeps sound saveReplayBase.
Proof. apply keeps_modify. intros c Hc. destruct (ch_replayBase c) eqn:E; [|done]. by apply (sound_ext c); [done|done|left|]. Qed.

Lemma keeps_advanceFinality : keeps sound (advanceFinality finalityDepth fuel).
Proof.
  unfold advanceFinality. apply keeps_read. intros c Hc. destruct (ch_replayBase c) as [base|] eqn:Eb; [|apply keeps_ret].
  destruct (_ || _); [apply keeps_ret|]. cbv zeta. destruct (_ <=? _); [apply keeps_ret|].
  eapply (keeps_gives _ words_opt); [intros c1; apply walk_gives|]. intros [rev|] Hrev; [|apply keeps_ret].
  pose proof (replay_supply (reverse rev) (proj2 (Forall_reverse _ _) Hrev) (fresh_base c base)) as Hr.
  destruct (replay (reverse rev) (fresh_base c base)) as [ns []| |]; [|apply keeps_ret|apply keeps_panic].
  assert (supply_ok ns) as Hns by (apply Hr, fresh_supply; [done|by apply (so_base c Hc)]).
  apply keeps_bind; [|intros; apply keeps_saveReplayBase]. apply keeps_modify. intros c1 Hc1. destruct rev; by apply sound_base.
Qed.
Local Hint Resolve keeps_saveReplayBase keeps_advanceFinality keeps_recordBlock keeps_apply_state : keeps.

Lemma keeps_set_tip h : keeps sound (modify (set_tip h)).
Proof. by apply keeps_chain. Qed.
Local Hint Resolve keeps_set_tip : keeps.

(** *** Production and ingestion *)

Lemma coinbase_words to amount txs : is_u64 amount → Forall tx_words txs → Forall tx_words (with_coinbase to amount txs).
Proof.
  intros Ha Ht. unfold with_coinbase. apply Forall_app. split; [|done]. destruct (0 <? amount); [|done].
  constructor; [|done]. split; simpl; [done|]. unfold is_u64, W64. lia.
Qed.

Lemma keeps_ProduceBlock txs kp round now : Forall tx_words txs →
  keeps sound (ProduceBlock selfID members finalityDepth fuel txs kp round now).
Proof.
  intros Ht. unfold ProduceBlock. cbv zeta. apply keeps_read. intros c Hc. apply keeps_bind; [apply keeps_require|intros _].
  assert (∀ hdr h, hd_Height hdr = u64 h → block_words (MkBlock hdr
    (with_coinbase (KeyPair_Address kp) (u64 (NextReward (ch_state c) (u64 (hd_Height (ch_head c) + 1)) + total_fees txs)) txs))) as Hw.
  { intros hdr h Eh. split; simpl; [apply coinbase_words; [apply u64_range|done]|]. rewrite Eh. apply u64_range. }
  apply keeps_bind; [eapply keeps_apply_state, Hw; done|intros _]. apply keeps_read. intros c1 Hc1.
  keeps_tac.
Qed.

Context (engine : State → Engine) (blockTime : Z).

Lemma keeps_check_external now blk : keeps sound (check_external engine blockTime now blk).
Proof. unfold check_external. keeps_tac. Qed.
Local Hint Resolve keeps_check_external : keeps.

Lemma keeps_ApplyExternalBlock now blk : block_words blk →
  keeps sound (ApplyExternalBlock engine selfID members blockTime finalityDepth fuel now blk).
Proof. intros Hb. unfold ApplyExternalBlock. keeps_tac. Qed.

Lemma keeps_commitCanonical b : keeps sound (commitCanonical selfID members b).
Proof. unfold commitCanonical. keeps_tac. Qed.
Local Hint Resolve keeps_commitCanonical : keeps.

Lemma keeps_fast_forward bs : Forall block_words bs → keeps sound (fast_forward selfID members bs).
Proof.
  induction 1 as [|b r Hb _ IH]; cbn [fast_forward]; [apply keeps_ret|].
  apply keeps_bind; [unfold or_replay; keeps_tac|intros _]. apply keeps_bind; [apply keeps_commitCanonical|intros _]. apply IH.
Qed.

Lemma keeps_commit_all bs : keeps sound (commit_all selfID members bs).
Proof. induction bs as [|b r IH]; cbn [commit_all]; [apply keeps_ret|]. apply keeps_bind; [apply keeps_commitCanonical|intros _]. apply IH. Qed.

Lemma keeps_follow bs : keeps sound (follow finalityDepth fuel bs).
Proof. unfold follow. keeps_tac. Qed.
Local Hint Resolve keeps_commit_all keeps_follow keeps_fast_forward : keeps.

Lemma keeps_reorg best : keeps sound (reorg selfID members finalityDepth fuel best).
Proof.
  unfold reorg. apply keeps_read. intros c Hc. destruct (ch_replayBase c) as [base|] eqn:Eb; [|apply keeps_ret].
  eapply (keeps_gives _ words_opt); [intros c1; apply walkDown_gives|]. intros [bs|] Hbs; [|apply keeps_ret].
  pose proof (replay_supply bs Hbs (fresh_base c base) (fresh_supply c base Hc (so_base c Hc base Eb))) as Hr.
  destruct (replay bs (fresh_base c base)) as [ns []| |]; [|apply keeps_throw|apply keeps_panic].
  apply keeps_bind; [|intros _; keeps_tac]. apply keeps_modify. intros c1 Hc1. apply sound_ledger; [|done]. eauto with keeps.
Qed.
Local Hint Resolve keeps_reorg : keeps.

Lemma keeps_reorgToBest : keeps sound (reorgToBest selfID members finalityDepth fuel).
Proof.
  unfold reorgToBest. apply keeps_read. intros c Hc. cbv zeta. destruct (bool_decide _); [apply keeps_ret|].
  eapply (keeps_gives _ words_opt); [intros c1; apply walkDown_gives|]. intros [bs|] Hbs; [|apply keeps_reorg].
  simpl in Hbs. keeps_tac.
Qed.
Local Hint Resolve keeps_reorgToBest : keeps.

Lemma keeps_AcceptBlock blk : block_words blk →
  keeps sound (AcceptBlock engine selfID members blockTime finalityDepth fuel blk).
Proof. intros Hb. unfold AcceptBlock. keeps_tac. Qed.

(** *** Sync *)

Lemma keeps_sync_records records : ∀ i prev, keeps sound (sync_records engine i prev records).
Proof.
  induction records as [|[h set] r IH]; intros i prev; cbn [sync_records]; keeps_tac; by apply keeps_chain.
Qed.
Local Hint Resolve keeps_sync_records : keeps.

Lemma keeps_SyncInstall records snap : supply_ok snap → Forall (λ r, 0 <= hd_Height r.1) records →
  keeps sound (SyncInstall engine records snap).
Proof.
  intros Hs Hr. unfold SyncInstall. destruct (last records) as [[tip set]|] eqn:El; [|apply keeps_throw].
  assert (0 <= hd_Height tip) as Ht. { rewrite Forall_forall in Hr. apply (Hr (tip, set)). by apply last_Some_elem_of. }
  keeps_tac.
  - apply keeps_modify. intros c Hc. apply (sound_ext (set_ledger (ReplaceWith snap (ch_state c)) c)); [done..|by left|].
    apply sound_ledger; [|done]. eauto with keeps.
  - apply keeps_modify. intros c Hc. apply sound_base; [eauto with keeps|]. apply (sound_ext c); [done..| |done].
    intros id b. unfold lookup_block. simpl. destruct (decide (id = ID tip)) as [->|].
    + rewrite lookup_insert_eq. intros [= <-]. right. split; [done|exact Ht].
    + rewrite lookup_insert_ne by done. by left.
Qed.
End chain.

(** ** The server *)

Record fair (s : Server) : Prop := {
  fa_chain : sound (sv_chain s);
  fa_pool : map_Forall (λ _ t, tx_words t) (p_byID (sv_pool s));
}.

(** What JSON values of the code's types are, and snapshots that balance. *)
Record world_ok (w : World) : Prop := {
  wo_snapshot : ∀ n url code st, w_net w n url RSnapshot = Some (code, Some st) → supply_ok st;
  wo_headers : ∀ n url from to code recs, w_net w n url (RHeaders from to) = Some (code, Some recs) →
    Forall (λ r : Header * ShardSet, 0 <= hd_Height r.1) recs;
}.

Definition request_ok (r : request) : Prop :=
  match r with
  | RTx (Some t) | RGossipTx (Some t) => tx_words t
  | RGossipBlock (Some b) => block_words b
  | _ => True
  end.

Lemma fair_ext s s' : sv_chain s' = sv_chain s → sv_pool s' = sv_pool s → fair s → fair s'.
Proof. intros Ec Ep [F1 F2]. split; [by rewrite Ec|by rewrite Ep]. Qed.

Lemma keeps_with_chain {A} (m : M Chain A) : keeps sound m → keeps fair (with_chain m).
Proof.
  intros Hm s [F1 F2]. specialize (Hm _ F1). unfold wp, with_chain in *. destruct (m (sv_chain s)); [by split..|done].
Qed.

Lemma keeps_with_pool {A} (m : M Pool A) :
  keeps (λ p, map_Forall (λ _ t, tx_words t) (p_byID p)) m → keeps fair (with_pool m).
Proof.
  intros Hm s [F1 F2]. specialize (Hm _ F2). unfold wp, with_pool in *. destruct (m (sv_pool s)); [by split..|done].
Qed.

Lemma keeps_Submit `{Platform} st tx : tx_words tx → keeps fair (with_pool (Submit st tx)).
Proof.
  intros Ht. apply keeps_with_pool. unfold Submit. keeps_tac. apply keeps_modify. intros p Hp. simpl. by apply map_Forall_insert_2.
Qed.

Lemma remove_words txs : ∀ m : gmap Hash Transaction, map_Forall (λ _ t, tx_words t) m →
  map_Forall (λ _ t, tx_words t) (foldl (λ m tx, delete (tx_Hash tx) m) m txs).
Proof. induction txs as [|t r IH]; intros m Hm; simpl; [done|]. apply IH. by apply map_Forall_delete. Qed.

Lemma keeps_Remove txs : keeps fair (with_pool (modify (Remove txs))).
Proof. apply keeps_with_pool, keeps_modify. intros p Hp. by apply remove_words. Qed.

#[export] Instance fair_framed : Framed fair := {| admits := tx_words; framed_ext := fair_ext; framed_submit := @keeps_Submit |}.

Section server.
Context (w : World).
Hint Resolve keeps_with_chain keeps_Remove : keeps.

Lemma http_get_gives url r (P : answer r → Prop) :
  (∀ n code a, w_net w n url r = Some (code, Some a) → P a) →
  ∀ s, fair s → wp (http_get w url r) (λ a s', fair s' ∧ P a) (λ _, fair) (λ _, True) s.
Proof.
  intros HP s Hs. unfold wp, http_get, observe, mbind, M_bind.
  assert (fair (P2p.set_clock (S (sv_clock s)) s)) as Hs' by (by apply (fair_ext s)).
  destruct (w_net w (sv_clock s) url r) as [[code [a|]]|] eqn:E; [|exact Hs'..].
  destruct (code =? StatusOK); [|exact Hs']. split; [exact Hs'|]. by eapply HP.
Qed.

(** *** Handlers *)

Context (Hw : world_ok w) `{Platform} `{ReedSolomon} (engine : State → Engine).
Context (blockTime finalityDepth : Z) (fuel : nat) (reorg : bool).

Lemma keeps_SyncFrom lh hg : keeps fair (SyncFrom w engine lh hg).
Proof.
  unfold SyncFrom. apply keeps_read. intros s Hs. apply keeps_bind; [apply (keeps_heads fair)|intros best].
  destruct (bool_decide _); [apply keeps_ret|]. destruct (_ && _); [apply keeps_ret|].
  eapply (keeps_gives _ (λ recs : list (Header * ShardSet), Forall (λ r, 0 <= hd_Height r.1) recs)).
  { apply (http_get_gives _ (RHeaders _ _)). intros n code a. apply (wo_headers w Hw). }
  intros recs Hr. eapply (keeps_gives _ supply_ok).
  { apply (http_get_gives _ RSnapshot). intros n code a. apply (wo_snapshot w Hw). }
  intros snap Hsnap. keeps_tac. by apply keeps_with_chain, keeps_SyncInstall.
Qed.

Hint Resolve keeps_SyncFrom : keeps.

Lemma keeps_apply_block now b : block_words b → keeps fair (apply_block engine blockTime finalityDepth fuel reorg now b).
Proof.
  intros Hb. unfold apply_block. apply keeps_read. intros s Hs. cbv zeta. apply keeps_with_chain.
  destruct reorg; [by apply keeps_AcceptBlock|by apply keeps_ApplyExternalBlock].
Qed.

Lemma keeps_handle ip r : request_ok r → keeps fair (handle w engine blockTime finalityDepth fuel reorg ip r).
Proof.
  intros Hr. assert (plain fair r ∨ ∃ b, r = RGossipBlock (Some b)) as [Hp|[b ->]].
  { destruct r as [| | | | | | | | | | | | | | | |?|[b|]| | | |]; simpl; eauto. }
  - by apply (keeps_handle_plain fair).
  - cbn [handle]. unfold handle_gossip_block. apply keeps_bind; [eauto with keeps|intros now].
    apply keeps_bind; [apply keeps_try; by apply keeps_apply_block|intros [e|[]]]; keeps_tac.
Qed.

Lemma keeps_ServeHTTP ip r : request_ok r → keeps fair (ServeHTTP w engine blockTime finalityDepth fuel reorg ip r).
Proof. intros Hr. apply (keeps_banGate fair), keeps_handle, Hr. Qed.
End server.

(** ** The node *)

Section node.
Context `{Platform} `{ReedSolomon} (w : World) (Hw : world_ok w) (cfg : NodeConfig) (kp : KeyPair).
Context (order : nat → Server → list Transaction * list Address) (fuel : nat).
(** The order visits the pool. *)
Context (Horder : ∀ k s t, t ∈ (order k s).1 → ∃ h, p_byID (sv_pool s) !! h = Some t).

Abbreviation fair_node := (framed_node fair).
Hint Resolve keeps_Remove keeps_SyncFrom : keeps.

Lemma keeps_with_members {A} (f : list string → M Chain A) : (∀ l, keeps sound (f l)) → keeps fair_node (with_members f).
Proof. intros Hf. unfold with_members. apply keeps_read. intros n Hn. by apply (keeps_on_srv fair), keeps_with_chain. Qed.

Lemma keeps_trySync : keeps fair_node (trySync w cfg kp).
Proof. unfold trySync. keeps_tac. Qed.

(** What [Reap] selects is among what it is given. *)
Lemma reap_run_in max next txs : ∀ out t, t ∈ (reap_run max next txs out).2 → t ∈ out ∨ t ∈ txs.
Proof.
  revert next. induction txs as [|tx r IH]; intros next out t; cbn [reap_run]; [by left|].
  destruct (negb _); [by left|]. cbv zeta. destruct (max <=? _); [intros Ht|intros [Ht|Ht]%IH; [|right; by apply list_elem_of_further]];
    apply elem_of_app in Ht as [?|Ht%list_elem_of_singleton]; subst; auto using list_elem_of_here.
Qed.

Lemma reap_in s max vals senders : ∀ out t, t ∈ reap_senders s max vals senders out → t ∈ out ∨ t ∈ vals.
Proof.
  induction senders as [|a r IH]; intros out t; cbn [reap_senders]; [by left|].
  pose proof (reap_run_in max (ac_Nonce (Get s a)) (merge_sort nonce_le (filter (λ t, tx_From t = a) vals)) out) as Hr.
  destruct (reap_run _ _ _ out) as [full out']. simpl in Hr.
  assert (∀ t, t ∈ out' → t ∈ out ∨ t ∈ vals) as Hr'.
  { intros u Hu. destruct (Hr u Hu) as [|Hi]; [by left|right]. rewrite merge_sort_Permutation in Hi. by apply list_elem_of_filter in Hi as [_ ?]. }
  destruct full; [apply Hr'|]. intros [Ht|]%IH; auto.
Qed.

Lemma keeps_maybeProduce : keeps fair_node (maybeProduce w cfg kp order fuel).
Proof.
  unfold maybeProduce. apply keeps_read. intros n0 _. destruct (Chain_Head _) as [head|]; [|apply keeps_ret].
  apply keeps_bind; [apply (keeps_on_srv fair), (keeps_BestPeerHeight fair)|intros best]. destruct (_ <? _); [apply keeps_ret|].
  apply keeps_bind; [apply (keeps_on_srv fair), (keeps_observe fair)|intros now]. cbv zeta. apply keeps_read. intros n Hn.
  destruct (negb _); [apply keeps_ret|].
  eapply (keeps_gives _ (λ o : list Transaction * list Address, Forall tx_words o.1)).
  { intros n1 Hn1. split; [by apply (fair_ext (nd_srv n1))|]. apply Forall_forall. intros t Ht. destruct (Horder _ _ _ Ht) as [h Hh].
    exact (fa_pool _ Hn h t Hh). }
  intros o Ho. destruct (_ && _); [apply keeps_ret|].
  assert (Forall tx_words (Reap (P2p.ledger (nd_srv n)) o.1 o.2 1000)) as Hr.
  { apply Forall_forall. intros t [?%elem_of_nil|Ht]%reap_in; [done|]. rewrite Forall_forall in Ho. auto. }
  apply keeps_bind; [apply (keeps_on_srv fair), (keeps_observe fair)|intros now'].
  apply keeps_bind; [apply keeps_try, keeps_with_members; intros; by apply keeps_ProduceBlock|].
  intros [e|[blk set]]; keeps_tac.
Qed.

Lemma keeps_tick e : (match e with ERequest _ r => request_ok r | _ => True end) → keeps fair_node (on_tick w cfg kp order fuel e).
Proof.
  intros He. pose proof keeps_trySync. pose proof keeps_maybeProduce.
  assert (keeps fair_node (maybeProveStorage w cfg kp)).
  { apply (keeps_maybeProveStorage fair). intros h d k. split; simpl; unfold is_u64, W64; lia. }
  destruct e; cbn [on_tick]; keeps_tac. apply (keeps_on_srv fair). by apply keeps_ServeHTTP.
Qed.

(** A run in which nothing panics. *)
Fixpoint calm_run (es : list event) (n : Node) : option Node :=
  match es with
  | [] => Some n
  | e :: r => match on_tick w cfg kp order fuel e n with OK n' _ | ERR n' _ => calm_run r n' | PANIC _ => None end
  end.

Lemma calm_run_run es : ∀ n n', calm_run es n = Some n' → run w cfg kp order fuel es n = OK n' tt.
Proof.
  induction es as [|e r IH]; intros n n'; cbn [calm_run run]; [by intros [= ->]|]. unfold step, mbind, M_bind.
  destruct (on_tick w cfg kp order fuel e n); [apply IH..|done].
Qed.

Lemma calm_run_fair es : Forall (λ e, match e with ERequest _ r => request_ok r | _ => True end) es →
  ∀ n n', fair_node n → calm_run es n = Some n' → fair_node n'.
Proof.
  induction 1 as [|e r He _ IH]; intros n n' Hn; cbn [calm_run]; [by intros [= <-]|].
  pose proof (keeps_tick e He n Hn) as Hk. unfold wp in Hk.
  destruct (on_tick w cfg kp order fuel e n) as [n1 []|n1 e1|]; [by apply IH..|done].
Qed.

(** The 21M cap, for a node on an open network.  Take a node whose books balance: the
    ledger and the finality base, with blocks and pooled transactions of 64-bit
    amounts.  Whatever sequence of ticks and requests follows, whatever the peers
    answer (provided a downloaded snapshot itself balances: fast sync trusts it) and
    however blocks arrive, are produced, reorganised or refused, as long as no
    operation panics: the balances and bonds of the ledger never exceed what was
    minted, the minted total never exceeds [MaxSupply], and no balance wraps. *)
Theorem node_no_inflation (es : list event) (n n' : Node) (Hn : fair_node n)
  (He : Forall (λ e, match e with ERequest _ r => request_ok r | _ => True end) es)
  (Hrun : calm_run es n = Some n') :
  let s := ch_state (sv_chain (nd_srv n')) in
  run w cfg kp order fuel es n = OK n' tt ∧ fair_node n' ∧ total s <= Minted s <= MaxSupply ∧
  ∀ a, 0 <= ac_Balance (Get s a) <= MaxSupply.
Proof.
  pose proof (calm_run_fair es He n n' Hn Hrun) as Hn'. cbv zeta. split; [by apply calm_run_run|]. split; [done|].
  apply supply_ok_bounds, so_ledger, Hn'.
Qed.
End node.

(** ** A producer on the demo ledger *)

Definition authority_cfg : NodeConfig := MkNodeConfig "data" ":4004" ":4005" "localhost" "key" [bob] [] [] "authority" 5000 ∅.
Definition demo_node : Node := MkNode (server_of chain0) None None.
(** Alice's payment arrives by gossip, a block is due, the ledger is saved. *)
Definition pay_tx : Transaction := by_alice bob KindTransfer (3 * Coin) Coin 0 0 [].
Definition demo_events : list event := [ERequest "1.2.3.4" (RGossipTx (Some pay_tx)); EBlock; ESave].

Lemma chain0_sound : sound chain0.
Proof.
  split; [exact ledger0_supply|done|]. intros id b E. by vm_compute in E.
Qed.

Lemma node_no_inflation_witness : ∃ n',
  @run demo_platform plain_code quiet authority_cfg bob_key pool_order 0 demo_events demo_node = OK n' tt ∧
  hd_Height (ch_head (sv_chain (nd_srv n'))) = 5 ∧
  total (ch_state (sv_chain (nd_srv n'))) <= Minted (ch_state (sv_chain (nd_srv n'))) <= MaxSupply.
Proof.
  assert ((λ n, hd_Height (ch_head (sv_chain (nd_srv n)))) <$> @calm_run demo_platform plain_code quiet authority_cfg bob_key pool_order 0 demo_events demo_node
    = Some 5) as Hh by (vm_compute; reflexivity).
  destruct (@calm_run demo_platform plain_code quiet authority_cfg bob_key pool_order 0 demo_events demo_node) as [n'|] eqn:E; [|discriminate Hh].
  injection Hh as Hh. destruct (@node_no_inflation demo_platform plain_code quiet) with (cfg:=authority_cfg) (kp:=bob_key) (order:=pool_order) (fuel:=0%nat)
    (es:=demo_events) (n:=demo_node) (n':=n') as (Hr & _ & Ht & _).
  - split; by intros.
  - intros k s t Ht. apply list_elem_of_fmap in Ht as ([h t'] & -> & Hp). apply elem_of_map_to_list in Hp. by exists h.
  - split; [exact chain0_sound|apply map_Forall_empty].
  - repeat constructor; vm_compute; discriminate || reflexivity.
  - exact E.
  - exists n'. split; [exact Hr|]. split; [exact Hh|exact Ht].
Defined.
