(* ===== verification/ChainAccept.v ===== *)
(** * The chain: blocks that extend the tip, on the gossip path

    What [AcceptBlock] does with a block on top of the heaviest branch, and what it
    does after a block from the future. *)

From S2P Require Import Prelude Sha256 Crypto Economy Merkle Netparams Types Forkchoice Rendezvous Consensus Erasure Bloom Vm State Demo Chain ChainProps ChainReorg.

(** ** The heaviest tip *)

Definition heaviest (t : Tree) (tip : Hash) : Prop :=
  tree_ids t ∧ ∃ e, t !! tip = Some e ∧ 0 <= e_cum e ∧ e_cum e + 1 < W64 ∧ ∀ id' e', t !! id' = Some e' → e_cum e' <= e_cum e.

Lemma Best_child t tip id h : heaviest t tip → hash_len id → t !! id = None →
  (Best (Forkchoice.Add id tip h 1 t)).1 = id.
Proof.
  intros (Hids & e & He & H0 & Hw & Hmax) Hid Hn.
  assert (Forkchoice.Add id tip h 1 t = <[id := MkEntry tip h (1 + e_cum e)]> t) as ->.
  { unfold Forkchoice.Add. rewrite Hn, He, u64_small; [done|]. unfold is_u64. lia. }
  set (t' := <[id:=_]> t). assert (tree_ids t') as Hids' by (by apply map_Forall_insert_2).
  assert (t' !! id = Some (MkEntry tip h (1 + e_cum e))) as Hnew by apply lookup_insert_eq.
  destruct (best_over_spec (map_to_list t') (tree_ids_list t' Hids')) as [([id1 e1] & Hp & Eb) Hb].
  { intros E%map_to_list_empty_iff. rewrite E in Hnew. discriminate Hnew. }
  fold (Best t') in Eb, Hb. rewrite Eb. simpl. apply elem_of_map_to_list in Hp.
  destruct (decide (id1 = id)) as [|Hne]; [done|exfalso]. unfold t' in Hp. rewrite (lookup_insert_ne t) in Hp by done.
  specialize (Hmax _ _ Hp). pose proof (Hb (id, MkEntry tip h (1 + e_cum e)) (proj2 (elem_of_map_to_list _ _ _) Hnew)) as Hbb.
  rewrite Eb in Hbb. unfold better, cand in Hbb. simpl in Hbb. rewrite (proj2 (Z.ltb_lt _ _)) in Hbb by lia. done.
Qed.

(** Finality has nothing to do for a tip of height [h]. *)
Definition idle (finalityDepth h : Z) (c : Chain) : Prop :=
  finalityDepth = 0 ∨ h < finalityDepth ∨ ch_replayBase c = None ∨ h - finalityDepth <= ch_replayBaseHeight c.

Lemma advanceFinality_idle `{Platform} fd fuel c : idle fd (hd_Height (ch_head c)) c → advanceFinality fd fuel c = OK c tt.
Proof.
  intros Hi. unfold advanceFinality. rewrite (bind_ok get _ _ _ _ eq_refl). destruct (ch_replayBase c) as [base|] eqn:E; [|done].
  destruct (_ || _) eqn:Eo; [done|]. cbv zeta. apply orb_false_iff in Eo as [H1%Z.eqb_neq H2%Z.ltb_ge].
  destruct Hi as [|[|[|Hi]]]; [done|lia|congruence|]. by rewrite (proj2 (Z.leb_le _ _)).
Qed.

Section accept.
Context `{Platform} `{ReedSolomon} (engine : State → Engine) (selfID : string) (members : list string)
  (blockTime finalityDepth : Z) (fuel : nat).
Local Abbreviation accept := (AcceptBlock engine selfID members blockTime finalityDepth fuel).

(** The block is new, authorized, consistent, and extends the tip, which is heaviest. *)
Record extends_tip (blk : Block) (c : Chain) : Prop := {
  ex_gen : ch_hasGen c = true;
  ex_new : ch_tree c !! ID (b_Header blk) = None;
  ex_auth : @AuthorizeHeader _ (engine (ch_state c)) (b_Header blk) = Ok tt;
  ex_merkle : MerkleRootOf (b_Txs blk) = hd_MerkleRoot (b_Header blk);
  ex_body : BodyHash (Body blk) = hd_BodyHash (b_Header blk);
  ex_prev : hd_PrevHash (b_Header blk) = ID (ch_head c);
  ex_prev_nonzero : ID (ch_head c) ≠ Zero;
  ex_parent : ∃ p, lookup_block c (ID (ch_head c)) = Some p ∧ b_Header p = ch_head c;
  ex_height : hd_Height (b_Header blk) = u64 (hd_Height (ch_head c) + 1);
  ex_time : i64 (hd_Timestamp (ch_head c) + i64 (hd_Round (b_Header blk) * blockTime)) <= hd_Timestamp (b_Header blk);
  ex_heaviest : heaviest (ch_tree c) (ID (ch_head c));
}.

(** What a chain is after it has taken a block on its tip. *)
Record taken (blk : Block) (set : ShardSet) (s : State) (c c' : Chain) : Prop := {
  tk_head : ch_head c' = b_Header blk;
  tk_gen : ch_hasGen c' = true;
  tk_state : ch_state c' = s;
  tk_tree : ch_tree c' = Forkchoice.Add (ID (b_Header blk)) (hd_PrevHash (b_Header blk)) (hd_Height (b_Header blk)) 1 (ch_tree c);
  tk_headers : st_headers (ch_store c') = <[hd_Height (b_Header blk) := (b_Header blk, set)]> (st_headers (ch_store c));
  tk_bodies : st_bodies (ch_store c') = <[ID (b_Header blk) := blk]> (st_bodies (ch_store c));
  tk_lookup : ∀ id, lookup_block c' id = if decide (id = ID (b_Header blk)) then Some blk else lookup_block c id;
  tk_bloom : bloom_ok c';
}.

(** Finality leaves what is visible, and every block a lookup finds. *)
Definition unmoved (c c' : Chain) : Prop := visible c' = visible c ∧ ∀ id, lookup_block c' id = lookup_block c id.

Lemma advanceFinality_unmoved fd n c : wp (advanceFinality fd n) (λ _, unmoved c) (λ _ _, False) (unmoved c) c.
Proof.
  unfold advanceFinality. apply wp_bind, wp_get. destruct (ch_replayBase c) as [base|]; [|done].
  destruct (_ || _); [done|]. cbv zeta. destruct (_ <=? _); [done|]. apply wp_bind.
  match goal with |- context [walk ?n ?k ?i ?t ?r] => destruct (walk_run n k i t r c) as (c1 & (Hv & Hl & _) & E) end. unfold wp at 1. rewrite E.
  assert (unmoved c c1) as Hu by done. destruct (walk_pure _ _ _ _ _ _) as [[rev|]|]; [|exact Hu..].
  destruct (replay _ _) as [ns u|ns e|ns]; [|exact Hu..].
  unfold saveReplayBase. destruct rev as [|b rev]; apply wp_bind, wp_modify, wp_modify; exact Hu.
Qed.

Lemma commitCanonical_ok b c : bloom_ok c → BuildShardSet (ID (b_Header b)) (Body b) (hd_Spec (b_Header b)) ≠ Panic →
  logs_cut (b_Header b) (ch_state c) →
  ∃ c', commitCanonical selfID members b c = OK c' tt ∧ core c' = core c ∧ bloom_ok c' ∧
    ∀ shards set, BuildShardSet (ID (b_Header b)) (Body b) (hd_Spec (b_Header b)) = Ok (shards, set) →
      st_headers (ch_store c') = <[hd_Height (b_Header b) := (b_Header b, set)]> (st_headers (ch_store c)).
Proof.
  intros Hb Hp Hl. pose proof (persistBlockSet_run selfID members (b_Header b) (Body b) c Hb) as Hr.
  assert (∃ c1 r, try_ (persistBlockSet selfID members (b_Header b) (Body b)) c = OK c1 r ∧ core c1 = core c ∧ bloom_ok c1 ∧
    ∀ shards set, BuildShardSet (ID (b_Header b)) (Body b) (hd_Spec (b_Header b)) = Ok (shards, set) →
      st_headers (ch_store c1) = <[hd_Height (b_Header b) := (b_Header b, set)]> (st_headers (ch_store c))) as (c1 & r & E1 & Hc1 & Hb1 & Hh1).
  { unfold try_. destruct (BuildShardSet _ _ _) as [[shards set]|e|]; [|rewrite Hr; eexists c, _; split; [done|]; split; [done|]; split; [done|]; intros ? ? [=]|done].
    destruct Hr as (c1 & E & Hc & Hb1 & Hh & _). rewrite E. eexists c1, _. split; [done|]. split; [done|]. split; [done|].
    by intros ? ? [= <- <-]. }
  unfold commitCanonical. rewrite (bind_ok _ _ _ _ _ E1).
  assert (ch_state c1 = ch_state c) as Es by (by injection Hc1).
  destruct (persistLogs_run selfID members (b_Header b) c1 Hb1) as [(_ & c2 & E2 & Hc2 & Hb2 & Hh2 & _)|[Hn _]]; [|by rewrite Es in Hn].
  exists c2. split; [done|]. split; [congruence|]. split; [done|]. intros shards set Eset. rewrite Hh2. by eapply Hh1.
Qed.

(** Once recorded, the block is the best tip, one step above the head. *)
Lemma forward_walk blk c : ch_tree c !! ID (b_Header blk) = None → hd_PrevHash (b_Header blk) = ID (ch_head c) →
  ID (ch_head c) ≠ Zero → heaviest (ch_tree c) (ID (ch_head c)) → (0 < fuel)%nat →
  let c2 := out_state (recordBlock blk c) in
  ∃ c3, same_blocks c2 c3 ∧ reorgToBest selfID members finalityDepth fuel c2 =
    (fast_forward selfID members [blk] ≫= λ _, follow finalityDepth fuel [blk]) c3.
Proof.
  intros Hnew Hprev Hnz Hheavy Hfuel. cbv zeta. rewrite recordBlock_run. simpl out_state. set (c2 := set_store _ _).
  assert ((Best (ch_tree c2)).1 = ID (b_Header blk)) as Hbest.
  { simpl. rewrite Hprev. apply Best_child; [done|apply length_sha256|done]. }
  assert (ID (b_Header blk) ≠ ID (ch_head c)) as Hne.
  { intros E. destruct Hheavy as (_ & e & He & _). congruence. }
  destruct (walkDown_run fuel (ID (b_Header blk)) (ID (ch_head c)) c2) as (c3 & Hs3 & Ew). exists c3. split; [done|].
  assert (walkDown fuel (ID (b_Header blk)) (ID (ch_head c)) c2 = OK c3 (Some [blk])) as Ew'.
  { rewrite Ew. destruct fuel as [|n]; [lia|]. cbn [walk_pure]. rewrite bool_decide_false by done.
    assert (lookup_block c2 (ID (b_Header blk)) = Some blk) as -> by (unfold lookup_block; simpl; by rewrite lookup_insert_eq).
    rewrite Hprev, bool_decide_false by done. destruct n; cbn [walk_pure]; by rewrite bool_decide_true. }
  unfold reorgToBest. rewrite (bind_ok get _ _ _ _ eq_refl), Hbest. change (ch_head c2) with (ch_head c).
  rewrite bool_decide_false by done. by rewrite (bind_ok _ _ _ _ _ Ew').
Qed.

Lemma lookup_recorded blk c id : lookup_block (out_state (recordBlock blk c)) id =
  if decide (id = ID (b_Header blk)) then Some blk else lookup_block c id.
Proof.
  rewrite recordBlock_run. unfold lookup_block. simpl. case_decide as E; [by rewrite E, lookup_insert_eq|by rewrite !lookup_insert_ne].
Qed.

Lemma recorded_resolve blk c c3 : same_blocks (out_state (recordBlock blk c)) c3 →
  resolve (ch_store c3) (ch_state c3) = resolve (ch_store c) (ch_state c) ∧ ch_head c3 = ch_head c ∧ ch_bloom c3 = ch_bloom c ∧
  st_headers (ch_store c3) = st_headers (ch_store c) ∧ st_bodies (ch_store c3) = <[ID (b_Header blk) := blk]> (st_bodies (ch_store c)).
Proof.
  intros (Hv3 & _). unfold visible in Hv3. injection Hv3 as V1 V2 V3 V4 V5 V6 V7 V8 V9; simpl in *.
  split; [|by split_and!]. rewrite V1. unfold resolve, resolve_cfg, BodyHashAt, Chain.ShardAt, Chain.ShardProofOK, GetHeader. by rewrite V5.
Qed.

(** From the recorded block to the new tip. *)
Lemma forward_one blk c s : bloom_ok c → ch_tree c !! ID (b_Header blk) = None → hd_PrevHash (b_Header blk) = ID (ch_head c) →
  ID (ch_head c) ≠ Zero → heaviest (ch_tree c) (ID (ch_head c)) → (0 < fuel)%nat →
  ApplyBlock blk (resolve (ch_store c) (ch_state c)) = OK s tt →
  let c2 := out_state (recordBlock blk c) in
  wp (reorgToBest selfID members finalityDepth fuel) (λ _ c', ch_state c' = s ∧ ch_head c' = b_Header blk) (λ _ _, False) (λ _, True) c2 ∧
  (idle finalityDepth (hd_Height (b_Header blk)) c → logs_cut (b_Header blk) s → BuildShardSet (ID (b_Header blk)) (Body blk) (hd_Spec (b_Header blk)) ≠ Panic →
     is_OK (reorgToBest selfID members finalityDepth fuel c2) = true) ∧
  (∀ shards set, logs_cut (b_Header blk) s → BuildShardSet (ID (b_Header blk)) (Body blk) (hd_Spec (b_Header blk)) = Ok (shards, set) →
     wp (reorgToBest selfID members finalityDepth fuel) (λ _, taken blk set s c) (λ _ _, False) (taken blk set s c) c2).
Proof.
  intros Hb Hnew Hprev Hnz Hheavy Hfuel Hrun. cbv zeta.
  destruct (forward_walk blk c Hnew Hprev Hnz Hheavy Hfuel) as (c3 & Hs3 & Ereorg). cbv zeta in Ereorg.
  pose proof (recorded_resolve blk c c3 Hs3) as (Er & _ & V9 & Hh & Hbd).
  assert (apply_state blk c3 = OK (set_ledger s c3) tt) as Ea by (by rewrite apply_state_run, Er, Hrun).
  assert (or_replay (apply_state blk) c3 = OK (set_ledger s c3) tt) as Eo.
  { unfold or_replay, try_, mbind, M_bind. by rewrite Ea. }
  assert (bloom_ok (set_ledger s c3)) as Hb3 by (unfold bloom_ok; simpl; by rewrite V9).
  assert (∀ Q E P, wp (commitCanonical selfID members blk ≫= λ _, follow finalityDepth fuel [blk]) Q E P (set_ledger s c3) →
    wp (reorgToBest selfID members finalityDepth fuel) Q E P (out_state (recordBlock blk c))) as Hwp.
  { intros Q E P Hwp. unfold wp. rewrite Ereorg. cbn [fast_forward]. unfold mbind at 1 2, M_bind at 1 2. rewrite Eo.
    unfold wp, mbind, M_bind in Hwp. unfold mbind, M_bind. by destruct (commitCanonical selfID members blk (set_ledger s c3)). }
  split; [|split].
  - apply Hwp, wp_bind. eapply wp_mono; [..|apply (commitCanonical_run selfID members blk (set_ledger s c3) Hb3)]; [|done..].
    intros [] c4 [Hc4 _]. eapply wp_mono; [..|apply follow_run]; [|done..].
    intros [] c5 (E1 & E2 & _). simpl in E2. split; [|done]. rewrite E1. by injection Hc4.
  - intros Hfd Hcut Hset. destruct (commitCanonical_ok blk (set_ledger s c3) Hb3 Hset Hcut) as (c4 & E4 & Hc4 & _).
    assert (ch_replayBase c4 = ch_replayBase c ∧ ch_replayBaseHeight c4 = ch_replayBaseHeight c) as [R1 R2].
    { destruct Hs3 as (_ & _ & Hr3). injection Hr3 as Y1 Y2 Y3 Y4. simpl in Y1, Y3.
      unfold core in Hc4. injection Hc4 as X1 X2 X3 X4 X5 X6 X7 X8 X9 X10. simpl in *. split; congruence. }
    specialize (Hwp (λ _ _, True) (λ _ _, False) (λ _, False)). unfold wp in Hwp.
    rewrite (bind_ok _ _ _ _ _ E4) in Hwp. unfold follow in Hwp. change (last [blk]) with (Some blk) in Hwp. cbv beta iota in Hwp.
    rewrite (bind_ok (modify _) _ _ _ _ eq_refl), advanceFinality_idle in Hwp by (unfold idle; simpl; by rewrite R1, R2). specialize (Hwp I).
    by destruct (reorgToBest selfID members finalityDepth fuel (out_state (recordBlock blk c))).
  - intros shards set Hcut Hset. apply Hwp. assert (BuildShardSet (ID (b_Header blk)) (Body blk) (hd_Spec (b_Header blk)) ≠ Panic) as Hnp by (by rewrite Hset).
    destruct (commitCanonical_ok blk (set_ledger s c3) Hb3 Hnp Hcut) as (c4 & E4 & Hc4 & Hb4 & Hh4).
    specialize (Hh4 _ _ Hset). simpl in Hh4. injection Hc4 as X1 _ _ X4 X5 X6 _ _ _ _. simpl in X1, X4, X5, X6.
    unfold wp. rewrite (bind_ok _ _ _ _ _ E4). unfold follow. change (last [blk]) with (Some blk). cbv beta iota.
    rewrite (bind_ok (modify _) _ _ _ _ eq_refl). pose proof (advanceFinality_unmoved finalityDepth fuel (set_tip (b_Header blk) c4)) as Hq.
    unfold wp in Hq. assert (∀ c5, unmoved (set_tip (b_Header blk) c4) c5 → taken blk set s c c5) as Hgo.
    { intros c5 [Hv5 Hl5]. unfold visible in Hv5. injection Hv5 as W1 W2 W3 W4 W5 _ W7 _ W9. simpl in *. destruct Hs3 as (Hv3 & Hl3 & _).
      unfold visible in Hv3. injection Hv3 as _ _ _ Y4 _ _ _ _ _. simpl in Y4.
      split; [by rewrite W2|by rewrite W3|by rewrite W1, X1|by rewrite W4, X4, Y4|by rewrite W5, Hh4, Hh|by rewrite W7, X6, Hbd| |unfold bloom_ok; by rewrite W9].
      intros id. rewrite Hl5, <- lookup_recorded, <- Hl3. unfold lookup_block. simpl. by rewrite X5, X6. }
    destruct (advanceFinality finalityDepth fuel (set_tip (b_Header blk) c4)); auto.
Qed.

(** A block that fails to execute is refused; the tip stays. *)
Lemma forward_refused blk c s e : ch_tree c !! ID (b_Header blk) = None → hd_PrevHash (b_Header blk) = ID (ch_head c) →
  ID (ch_head c) ≠ Zero → heaviest (ch_tree c) (ID (ch_head c)) → (0 < fuel)%nat →
  ApplyBlock blk (resolve (ch_store c) (ch_state c)) = ERR s e →
  ∃ c', reorgToBest selfID members finalityDepth fuel (out_state (recordBlock blk c)) = ERR c' ErrReorgReplay ∧ ch_head c' = ch_head c ∧ ch_state c' = s.
Proof.
  intros Hnew Hprev Hnz Hheavy Hfuel Hrun.
  destruct (forward_walk blk c Hnew Hprev Hnz Hheavy Hfuel) as (c3 & Hs3 & Ereorg). cbv zeta in Ereorg.
  pose proof (recorded_resolve blk c c3 Hs3) as (Er & Hhd & _). exists (set_ledger s c3). split; [|done].
  rewrite Ereorg. cbn [fast_forward]. unfold mbind at 1 2, M_bind at 1 2.
  assert (or_replay (apply_state blk) c3 = ERR (set_ledger s c3) ErrReorgReplay) as ->; [|done].
  unfold or_replay, try_, mbind, M_bind. by rewrite apply_state_run, Er, Hrun.
Qed.

Lemma same_visible c c1 : same_blocks c c1 → ch_state c1 = ch_state c ∧ ch_head c1 = ch_head c ∧ ch_hasGen c1 = ch_hasGen c ∧
  ch_tree c1 = ch_tree c ∧ st_headers (ch_store c1) = st_headers (ch_store c) ∧ ch_bloom c1 = ch_bloom c.
Proof. intros (Hv & _). unfold visible in Hv. by injection Hv. Qed.

(** Up to the block's recording. *)
Lemma accept_run blk c : extends_tip blk c → ∃ c1, same_blocks c c1 ∧
  accept blk c = (recordBlock blk ≫= λ _, reorgToBest selfID members finalityDepth fuel) c1.
Proof.
  intros [E1 E2 E3 E4 E5 E6 E7 (p & E8 & E9) E10 E11 _].
  destruct (block_run (ID (ch_head c)) c) as (c1 & Eb & Hs). exists c1. split; [done|].
  unfold AcceptBlock. rewrite (bind_ok get _ _ _ _ eq_refl), bind_require, E1. cbv zeta.
  unfold Forkchoice.Height. rewrite E2. cbn [fmap option_fmap option_map].
  unfold mbind at 1, M_bind at 1, lift. rewrite E3. rewrite !bind_require, E4, E5, !bool_decide_true by done.
  rewrite E6, (bind_ok _ _ _ _ _ Eb), E8, E9, !bind_require, E10, Z.eqb_refl.
  by rewrite (proj2 (Z.ltb_ge _ _)) by done.
Qed.

Lemma accept_extends blk c s : bloom_ok c → extends_tip blk c → (0 < fuel)%nat →
  ApplyBlock blk (resolve (ch_store c) (ch_state c)) = OK s tt →
  wp (accept blk) (λ _ c', ch_state c' = s ∧ ch_head c' = b_Header blk) (λ _ _, False) (λ _, True) c ∧
  (idle finalityDepth (hd_Height (b_Header blk)) c → logs_cut (b_Header blk) s → BuildShardSet (ID (b_Header blk)) (Body blk) (hd_Spec (b_Header blk)) ≠ Panic →
     is_OK (accept blk c) = true).
Proof.
  intros Hb Hx Hfuel Hrun.
  destruct (accept_run blk c Hx) as (c1 & Hs & E). destruct (same_visible c c1 Hs) as (V1 & V2 & V3 & V4 & V5 & V6).
  destruct Hx as [_ E2 _ _ _ E6 E7 _ _ _ E12].
  destruct (forward_one blk c1 s) as [Hw Hok]; rewrite ?V2, ?V4; [unfold bloom_ok; by rewrite V6|done..| |].
  { rewrite <- Hrun. f_equal. rewrite V1. unfold resolve, resolve_cfg, BodyHashAt, Chain.ShardAt, Chain.ShardProofOK, GetHeader. by rewrite V5. }
  rewrite recordBlock_run in Hw, Hok. simpl in Hw, Hok. unfold wp in *. rewrite E. unfold mbind, M_bind. rewrite recordBlock_run.
  split; [exact Hw|]. intros Hi. apply Hok. destruct Hs as (_ & _ & Hr). injection Hr as Y1 _ Y3 _. unfold idle. by rewrite Y1, Y3.
Qed.

(** Whether finality lets it end or not, the block has been taken. *)
Lemma accept_taken blk c s shards set : bloom_ok c → extends_tip blk c → (0 < fuel)%nat →
  ApplyBlock blk (resolve (ch_store c) (ch_state c)) = OK s tt → logs_cut (b_Header blk) s →
  BuildShardSet (ID (b_Header blk)) (Body blk) (hd_Spec (b_Header blk)) = Ok (shards, set) →
  wp (accept blk) (λ _, taken blk set s c) (λ _ _, False) (taken blk set s c) c.
Proof.
  intros Hb Hx Hfuel Hrun Hcut Hset.
  destruct (accept_run blk c Hx) as (c1 & Hs & E). destruct (same_visible c c1 Hs) as (V1 & V2 & V3 & V4 & V5 & V6).
  destruct Hx as [_ E2 _ _ _ E6 E7 _ _ _ E12].
  destruct (forward_one blk c1 s) as (_ & _ & Hst); rewrite ?V2, ?V4; [unfold bloom_ok; by rewrite V6|done..| |].
  { rewrite <- Hrun. f_equal. rewrite V1. unfold resolve, resolve_cfg, BodyHashAt, Chain.ShardAt, Chain.ShardProofOK, GetHeader. by rewrite V5. }
  specialize (Hst shards set Hcut Hset). unfold wp in *. rewrite E. rewrite recordBlock_run in Hst. unfold mbind, M_bind. rewrite recordBlock_run.
  assert (∀ c', taken blk set s c1 c' → taken blk set s c c') as Hgo.
  { destruct Hs as (Hv & Hlk & _). unfold visible in Hv. injection Hv as _ _ _ _ _ _ W7 _ _.
    intros c' [T1 T2 T3 T4 T5 T6 T7 T8]. split; try done; [by rewrite <- V4|by rewrite <- V5|by rewrite <- W7|].
    intros id. by rewrite T7, Hlk. }
  destruct (reorgToBest _ _ _ _ _); auto.
Qed.

(** A producer takes its own block the same way. *)
Lemma ProduceBlock_taken txs kp round now c c' blk set : bloom_ok c →
  ProduceBlock selfID members finalityDepth fuel txs kp round now c = OK c' (blk, set) → taken blk set (ch_state c') c c'.
Proof.
  intros Hb. unfold ProduceBlock. rewrite (bind_ok get _ _ _ _ eq_refl), bind_require.
  destruct (ch_hasGen c) eqn:Hg; [|done]. cbv zeta. set (draft := draft_header _ _ _ _ _ _). set (full := with_coinbase _ _ _).
  intros ([] & c1 & E1 & E)%bind_OK_inv. rewrite apply_state_run in E1.
  destruct (ApplyBlock (MkBlock draft full) _) as [s []| |]; [|done..]. apply OK_inj in E1 as [<- _].
  rewrite (bind_ok get _ _ _ _ eq_refl) in E. set (hdr := Header_Sign _ _) in E. apply bind_OK_inv in E as (set' & c2 & E2 & E).
  pose proof (persistBlockSet_run selfID members hdr (EncodeTxs full) (set_ledger s c) (ledger_bloom s c Hb)) as Hp.
  destruct (BuildShardSet (ID hdr) (EncodeTxs full) (hd_Spec hdr)) as [[shards set1]|e|]; [|rewrite Hp in E2; discriminate..].
  destruct Hp as (c2' & E2' & Hc2 & Hb2 & Hh2 & _). rewrite E2' in E2. apply OK_inj in E2 as [<- <-].
  destruct (persistLogs_run selfID members hdr c2' Hb2) as [(_ & c3 & E3 & Hc3 & Hb3 & Hh3 & _)|[_ E3]];
    [|unfold mbind, M_bind in E; rewrite E3 in E; discriminate].
  rewrite (bind_ok _ _ _ _ _ E3), (bind_ok (modify _) _ _ _ _ eq_refl), (bind_ok (recordBlock _) _ _ _ _ eq_refl) in E.
  apply bind_OK_inv in E as (? & c4 & E4 & E). apply OK_inj in E as [<- [= <- <-]].
  match type of E4 with _ ?x = _ => pose proof (advanceFinality_unmoved finalityDepth fuel x) as Hq end. unfold wp in Hq. rewrite E4 in Hq.
  destruct Hq as [Hv Hl]. unfold visible in Hv. injection Hv as W1 W2 W3 W4 W5 _ W7 _ W9. simpl in *.
  injection Hc2 as _ _ _ X4 X5 X6 _ _ _ _. injection Hc3 as Y1 _ _ Y4 Y5 Y6 _ _ _ _. simpl in *.
  split; cbn [b_Header]; [by rewrite W2|by rewrite W3|done|by rewrite W4, Y4, X4|by rewrite W5, Hh3, Hh2|by rewrite W7, Y6, X6| |unfold bloom_ok; by rewrite W9].
  intros id. rewrite Hl. etransitivity; [|exact (lookup_recorded (MkBlock hdr full) c id)].
  unfold lookup_block. simpl. by rewrite Y5, X5, Y6, X6.
Qed.

(** A block that does not execute is refused; the tip stays. *)
Lemma accept_refused blk c s e : extends_tip blk c → (0 < fuel)%nat →
  ApplyBlock blk (resolve (ch_store c) (ch_state c)) = ERR s e →
  ∃ c', accept blk c = ERR c' ErrReorgReplay ∧ ch_head c' = ch_head c ∧ ch_state c' = s.
Proof.
  intros Hx Hfuel Hrun.
  destruct (accept_run blk c Hx) as (c1 & Hs & E). destruct (same_visible c c1 Hs) as (V1 & V2 & V3 & V4 & V5 & V6).
  destruct Hx as [_ E2 _ _ _ E6 E7 _ _ _ E12].
  destruct (forward_refused blk c1 s e) as (c' & Er & Eh & Es); rewrite ?V2, ?V4; try done.
  { rewrite <- Hrun. f_equal. rewrite V1. unfold resolve, resolve_cfg, BodyHashAt, Chain.ShardAt, Chain.ShardProofOK, GetHeader. by rewrite V5. }
  exists c'. split; [|by rewrite Eh]. rewrite E. rewrite recordBlock_run in Er. unfold mbind, M_bind. rewrite recordBlock_run. exact Er.
Qed.

(** [C23] Gossip accepts what extends the heaviest tip.  A new block, authorized by the
    engine, with the right roots, one above the tip at a time its round allows, whose
    transactions execute, is never refused by [AcceptBlock]: it becomes the tip and its
    transactions are executed on the ledger; and when finality has nothing to do and its
    shards can be cut, nothing stops it.  Two things are not among the conditions: the header's
    logs root may be anything, and its timestamp may be any time in the future. *)
Theorem AcceptBlock_extends_tip (blk : Block) (c : Chain) (s : State)
  (Hb : bloom_ok c) (Hx : extends_tip blk c) (Hfuel : (0 < fuel)%nat)
  (Hrun : ApplyBlock blk (resolve (ch_store c) (ch_state c)) = OK s tt) :
  wp (accept blk) (λ _ c', ch_state c' = s ∧ ch_head c' = b_Header blk) (λ _ _, False) (λ _, True) c ∧
  (idle finalityDepth (hd_Height (b_Header blk)) c → logs_cut (b_Header blk) s → BuildShardSet (ID (b_Header blk)) (Body blk) (hd_Spec (b_Header blk)) ≠ Panic →
     is_OK (accept blk c) = true).
Proof. by apply accept_extends. Qed.

(** A block whose timestamp is before its parent's plus its rounds is refused, and the
    blocks, the ledger and the tip stay. *)
Lemma accept_early blk c p : Forkchoice.Height (ch_tree c) (ID (b_Header blk)) = None →
  lookup_block c (hd_PrevHash (b_Header blk)) = Some p →
  hd_Timestamp (b_Header blk) < i64 (hd_Timestamp (b_Header p) + i64 (hd_Round (b_Header blk) * blockTime)) →
  (∀ h, @AuthorizeHeader _ (engine (ch_state c)) h ≠ Panic) →
  ∃ c' e, accept blk c = ERR c' e ∧ same_blocks c c' ∧
    (ch_hasGen c = true → @AuthorizeHeader _ (engine (ch_state c)) (b_Header blk) = Ok tt →
     MerkleRootOf (b_Txs blk) = hd_MerkleRoot (b_Header blk) → BodyHash (Body blk) = hd_BodyHash (b_Header blk) →
     hd_Height (b_Header blk) = u64 (hd_Height (b_Header p) + 1) → e = ErrBadRound).
Proof.
  intros Hnew Hp Ht Hnp. unfold AcceptBlock. rewrite (bind_ok get _ _ _ _ eq_refl), bind_require.
  destruct (ch_hasGen c); [|by exists c, ErrNoGenesis]. cbv zeta. rewrite Hnew.
  unfold mbind at 1, M_bind at 1, lift. destruct (AuthorizeHeader (b_Header blk)) as [[]|e|] eqn:Ea; [|by exists c, e|by apply Hnp in Ea].
  rewrite !bind_require. case_bool_decide as Hm; [|by exists c, ErrBadMerkle]. case_bool_decide as Hb; [|by exists c, ErrBadBodyHash].
  destruct (block_run (hd_PrevHash (b_Header blk)) c) as (c1 & Eb & Hs). rewrite (bind_ok _ _ _ _ _ Eb), Hp, !bind_require.
  destruct (Z.eqb_spec (hd_Height (b_Header blk)) (u64 (hd_Height (b_Header p) + 1))) as [Eh|Eh];
    [|exists c1, ErrBadHeight; split_and!; [done|done|by intros]].
  rewrite (proj2 (Z.ltb_lt _ _) Ht). by exists c1, ErrBadRound.
Qed.
End accept.

Section future.
Context `{Platform} `{ReedSolomon} (engine : State → Engine) (blockTime : Z).
Context (selfP selfR : string) (membersP membersR : list string) (fdP fdR : Z) (fuelP fuelR : nat).

(** A tip from the future stops the network.  [AcceptBlock] puts no upper bound on a
    timestamp (the theorem before this one), so the tip may carry a time still to come.
    Until then every block an honest producer makes on it, whatever its round, is
    refused by every node that has the tip, the ledger, the tip and the tree stay as
    they are, and when the block is otherwise in order the error counts as a forgery,
    for which the sender is struck. *)
Theorem future_tip_halts (P P' R : Chain) (txs : list Transaction) (kp : KeyPair) (round now : Z)
  (blk : Block) (set : ShardSet) (p : Block)
  (HbP : bloom_ok P) (Hprod : ProduceBlock selfP membersP fdP fuelP txs kp round now P = OK P' (blk, set))
  (Hnow : now < hd_Timestamp (ch_head P))
  (Hround : 0 <= round * blockTime ∧ 0 <= hd_Timestamp (ch_head P) + round * blockTime < 9223372036854775808)
  (Hp : lookup_block R (ID (ch_head P)) = Some p) (Hph : b_Header p = ch_head P)
  (Hnew : Forkchoice.Height (ch_tree R) (ID (b_Header blk)) = None) (Hgen : ch_hasGen R = true)
  (Hnp : ∀ h, @AuthorizeHeader _ (engine (ch_state R)) h ≠ Panic) :
  ∃ R' e, AcceptBlock engine selfR membersR blockTime fdR fuelR blk R = ERR R' e ∧
    ch_state R' = ch_state R ∧ ch_head R' = ch_head R ∧ ch_tree R' = ch_tree R ∧
    (@AuthorizeHeader _ (engine (ch_state R)) (b_Header blk) = Ok tt → e = ErrBadRound ∧ IsForgery e = true).
Proof.
  apply ProduceBlock_inv in Hprod as (s & shards & _ & Hh & Hpr & Ht & Hr & Hm & Hbody & _); [|done].
  destruct (accept_early engine selfR membersR blockTime fdR fuelR blk R p) as (R' & e & E & Hs & He); [done|by rewrite Hpr| |done|].
  - assert (∀ z, 0 <= z < 9223372036854775808 → i64 z = z) as Hi.
    { intros z Hz. unfold i64, int_of_u64. rewrite u64_small by (unfold is_u64, W64; lia). by rewrite (proj2 (Z.ltb_lt _ _)) by lia. }
    assert (∀ a b, i64 (a + i64 b) = i64 (a + b)) as Hii.
    { intros a b. unfold i64, int_of_u64. assert (u64 (a + (if u64 b <? 9223372036854775808 then u64 b else u64 b - W64)) = u64 (a + b)) as ->; [|done].
      unfold u64. destruct (_ <? _); [apply Zplus_mod_idemp_r|].
      replace (a + (b mod W64 - W64)) with (a + b mod W64 + (-1) * W64) by lia. by rewrite Z_mod_plus_full, Zplus_mod_idemp_r. }
    rewrite Ht, Hr, Hph, Hii, Hi; lia.
  - exists R', e. destruct (same_visible R R' Hs) as (V1 & V2 & _ & V4 & _). split_and!; [done..|].
    intros Ha. rewrite He; [done|done|done|done|done|]. by rewrite Hph.
Qed.
End future.

(** ** On concrete chains *)

Lemma chain1_tree : ch_tree chain1 = {[ ID (ch_head chain1) := MkEntry Zero 4 1 ]}.
Proof.
  change (ch_head chain1) with (header_at 4 bob). rewrite tip_id_eq.
  change (ch_tree chain1) with (Forkchoice.Add tip_id Zero 4 1 ∅). unfold Forkchoice.Add.
  assert (∀ k, (∅ : Tree) !! k = None) as En by (intros k; apply lookup_empty). by rewrite !En.
Qed.

Lemma chain1_heaviest : heaviest (ch_tree chain1) (ID (ch_head chain1)).
Proof.
  rewrite chain1_tree. split; [apply map_Forall_singleton, length_sha256|].
  exists (MkEntry Zero 4 1). split; [apply lookup_singleton_eq|]. split; [simpl; lia|]. split; [simpl; unfold W64; lia|].
  intros id' e' [<- <-]%lookup_singleton_Some. simpl. lia.
Qed.

(** The forged block of [bob] on the chain with its tip on file. *)
Lemma AcceptBlock_extends_tip_witness : ∃ c',
  @AcceptBlock demo_platform plain_code bob_engine "n2" ["n2"] 1 0 5 forged_block chain1 = OK c' tt ∧
  ch_state c' = after_pay ∧ ch_head c' = b_Header forged_block.
Proof.
  destruct (@AcceptBlock_extends_tip demo_platform plain_code bob_engine "n2" ["n2"] 1 0 5 forged_block chain1 after_pay) as [Hw Hok].
  - by apply no_bloom.
  - split; [reflexivity|vm_compute; reflexivity..|vm_compute; discriminate| |vm_compute; reflexivity|vm_compute; discriminate|apply chain1_heaviest].
    exists tip_block. split; vm_compute; reflexivity.
  - lia.
  - rewrite <- pay_block_run. change (resolve (ch_store chain1) (ch_state chain1)) with ledger0. by apply ApplyBlock_header.
  - assert (is_OK (@AcceptBlock demo_platform plain_code bob_engine "n2" ["n2"] 1 0 5 forged_block chain1) = true) as Eo.
    { apply Hok.
      { left. reflexivity. }
      { left. vm_compute. reflexivity. }
      intros Ep. apply (f_equal (λ r, match r with Panic => true | _ => false end)) in Ep. vm_compute in Ep. discriminate Ep. }
    clear Hok. unfold wp in Hw. destruct (@AcceptBlock demo_platform plain_code bob_engine "n2" ["n2"] 1 0 5 forged_block chain1) as [c' []| |];
      [|discriminate Eo..]. exists c'. split; [reflexivity|exact Hw].
Defined.

(** A tip that is 900 seconds ahead of the clock. *)
Definition future_head : Header :=
  MkHeader 4 hash0 hash0 1000 bob 0 0 GenesisSpec hash0 hash0 [] [].
Definition future_chain : Chain :=
  set_cache {[ID future_head := MkBlock future_head []]} (set_tree (Forkchoice.Add (ID future_head) Zero 4 1 Forkchoice.New)
    (MkChain store0 ledger0 None future_head true Forkchoice.New ∅ None Zero 0)).

Lemma future_tip_halts_witness : ∃ blk R',
  @AcceptBlock demo_platform plain_code bob_engine "n2" ["n2"] 1 0 5 blk future_chain = ERR R' ErrBadRound ∧
  ch_head R' = future_head.
Proof.
  assert (match @ProduceBlock demo_platform plain_code "n1" ["n1"] 0 0 [] bob_key 3 100 future_chain with
    | OK _ (blk, _) => bool_decide (@AuthorizeHeader _ (bob_engine ledger0) (b_Header blk) = Ok tt) &&
        bool_decide (Forkchoice.Height (ch_tree future_chain) (ID (b_Header blk)) = None)
    | _ => false end = true) as Hok by (vm_compute; reflexivity).
  destruct (@ProduceBlock demo_platform plain_code "n1" ["n1"] 0 0 [] bob_key 3 100 future_chain) as [P' [blk set]| |] eqn:E; [|discriminate Hok..].
  apply andb_prop in Hok as [Ha%bool_decide_eq_true Hn%bool_decide_eq_true].
  destruct (@future_tip_halts demo_platform plain_code bob_engine 1 "n1" "n2" ["n1"] ["n2"] 0 0 0 5 future_chain P' future_chain [] bob_key 3 100
    blk set (MkBlock future_head [])) as (R' & e & Er & _ & Eh & _ & He).
  - by apply no_bloom.
  - exact E.
  - reflexivity.
  - simpl. lia.
  - vm_compute. reflexivity.
  - reflexivity.
  - exact Hn.
  - reflexivity.
  - intros h. simpl. unfold Authority.authorize. destruct (Header_VerifySig h) as [[]| |] eqn:Ev; simpl; [by case_bool_decide|done|].
    revert Ev. unfold Header_VerifySig. by repeat case_match.
  - exists blk, R'. destruct (He Ha) as [-> _]. split; [exact Er|exact Eh].
Defined.
