(* ===== verification/NodeProps.v ===== *)
(** * The node: what it produces and what stops it

    What an honest producer makes reaches every peer with the same tip; one peer that
    announces a high block stops a producer. *)

From S2P Require Import Prelude Sha256 Crypto Economy Merkle Netparams Types Pos Forkchoice Rendezvous Consensus Erasure Bloom Vm State StateInv Demo Mempool Strconv Chain ChainProps ChainShards ChainReorg Peers P2p NetDemo P2pProps P2pGossip Node ChainAccept.

Local Abbreviation M := Prelude.M.

(** ** Steps that leave the chain alone *)

Definition chain_of (n : Node) : Chain := sv_chain (nd_srv n).

Lemma keeps_broadcast_kept W r path peers x : keeps (λ s, kept s = x) (broadcast W r path peers).
Proof.
  induction peers as [|p l IH]; cbn [broadcast]; [apply keeps_ret|].
  apply keeps_bind; [by intros s Hs|intros b]. apply keeps_bind; [|done]. destruct b; [apply keeps_ret|].
  apply keeps_bind; [apply keeps_try|intros; apply keeps_ret]. apply keeps_bind; [by intros s Hs|intros resp].
  destruct resp as [[code a]|]; [apply keeps_require|apply keeps_throw].
Qed.

(** Broadcasting always ends well. *)
Lemma broadcast_total W r path peers : ∀ s, ∃ s', broadcast W r path peers s = OK s' tt.
Proof.
  induction peers as [|p l IH]; intros s; cbn [broadcast]; [by exists s|].
  rewrite (bind_ok _ _ _ _ _ (is_banned_now_run W (p_ID p) s)). set (s1 := P2p.set_bans _ _).
  assert (∃ s2, (if (Banned (w_now W (sv_clock s)) (p_ID p) (sv_bans s)).1 then mret tt else try_ (postJSON_ W (path p) r) ≫= λ _, mret tt) s1 = OK s2 tt) as [s2 E].
  { destruct (Banned _ _ _).1; [by exists s1|]. unfold try_, postJSON_, observe, mbind, M_bind. simpl.
    match goal with |- context [w_net W ?n ?u r] => destruct (w_net W n u r) as [[code a]|] end; [|by eexists].
    cbn. destruct (Z.quot code 100 =? 2); by eexists. }
  rewrite (bind_ok _ _ _ _ _ E). apply IH.
Qed.

Lemma address_nonempty kp : KeyPair_Address kp ≠ "".
Proof. intros E. apply (f_equal bytes_of) in E. unfold KeyPair_Address, AddressFromPub in E. by rewrite bytes_of_string_of in E. Qed.

Lemma on_srv_watched {A} (m : MS A) n s' a : m (nd_srv n) = OK s' a → watched (nd_srv n) s' →
  ∃ k, on_srv m n = OK (set_srv (P2p.set_clock k (nd_srv n)) n) a.
Proof. intros E [k ->]. exists k. unfold on_srv. by rewrite E. Qed.

(** ** Production *)

Section produce.
Context `{Platform} `{ReedSolomon} (w : World) (cfg : NodeConfig) (kp : KeyPair).
Context (order : nat → Server → list Transaction * list Address) (fuel : nat).

(** What a tick of the block timer does.  It either leaves the node as it is, but for the
    clock, or runs [ProduceBlock] once, on what [Reap] finds in the pool. *)
Lemma maybeProduce_tick n :
  (∃ k, maybeProduce w cfg kp order fuel n = OK (set_srv (P2p.set_clock k (nd_srv n)) n) tt) ∨
  ∃ k1 k0 k2, (k1 <= k2)%nat ∧
    let head := ch_head (chain_of n) in
    let round := round_at cfg (w_now w k1 / 1000000000) head in
    let o := order k0 (P2p.set_clock k0 (nd_srv n)) in
    let txs := Reap (P2p.ledger (nd_srv n)) o.1 o.2 1000 in
    let left c pool n' := kept (nd_srv n') = (sv_store (nd_srv n), c, pool, sv_scores (nd_srv n)) in
    CanProduce (Engine := node_engine cfg kp (P2p.ledger (nd_srv n))) (u64 (hd_Height head + 1)) (ID head) round = true ∧
    match ProduceBlock (Node.self kp) (MemberIDs (sv_store (nd_srv n))) (cp_FinalityDepth Mainnet) fuel txs kp round
            (w_now w k2 / 1000000000) (chain_of n) with
    | OK c (blk, _) => ∃ n', maybeProduce w cfg kp order fuel n = OK n' tt ∧ left c (Remove txs (sv_pool (nd_srv n))) n' ∧
        nd_saved n' = State_Save (ch_state c)
    | ERR c e => ∃ n', maybeProduce w cfg kp order fuel n = OK n' tt ∧ left c (sv_pool (nd_srv n)) n' ∧ nd_saved n' = nd_saved n
    | PANIC c => ∃ n', maybeProduce w cfg kp order fuel n = PANIC n'
    end.
Proof.
  unfold maybeProduce. rewrite (bind_ok get _ _ _ _ eq_refl). unfold Chain_Head. fold (chain_of n).
  destruct (ch_hasGen (chain_of n)); [|left; by exists (sv_clock (nd_srv n)); destruct n as [[]]].
  assert (∃ k b, on_srv (BestPeerHeight w) n = OK (set_srv (P2p.set_clock k (nd_srv n)) n) b) as (k & b & E1).
  { destruct (best_height_run w (Peers (sv_store (nd_srv n))) 0 (nd_srv n)) as (s' & b & E1 & Hw & _).
    destruct (on_srv_watched (BestPeerHeight w) n s' b) as [k Ek]; [|done|eauto].
    unfold BestPeerHeight. by rewrite (bind_ok get _ _ _ _ eq_refl). }
  rewrite (bind_ok _ _ _ _ _ E1). set (n1 := set_srv _ n).
  destruct (_ <? b); [left; by exists k|].
  match goal with |- context [on_srv (observe ?f) ≫= ?g] => rewrite (bind_ok (on_srv (observe f)) g n1 (set_srv (P2p.set_clock (S k) (nd_srv n)) n) _ eq_refl) end.
  cbv zeta. rewrite (bind_ok get _ _ _ _ eq_refl). cbn [nd_srv set_srv]. set (n2 := set_srv _ n).
  change (P2p.ledger (P2p.set_clock (S k) (nd_srv n))) with (P2p.ledger (nd_srv n)).
  destruct (CanProduce _ _ _) eqn:Ec; cbn [negb]; [|left; by exists (S k)].
  match goal with |- context [on_srv (observe ?f) ≫= ?g] => rewrite (bind_ok (on_srv (observe f)) g n2 (set_srv (P2p.set_clock (S (S k)) (nd_srv n)) n) _ eq_refl) end.
  set (txs := Reap _ _ _ _). destruct (_ && _); [left; by exists (S (S k))|].
  match goal with |- context [on_srv (observe ?f) ≫= ?g] => rewrite (bind_ok (on_srv (observe f)) g (set_srv (P2p.set_clock (S (S k)) (nd_srv n)) n) (set_srv (P2p.set_clock (S (S (S k))) (nd_srv n)) n) _ eq_refl) end.
  right. exists k, (S k), (S (S k)). split; [lia|]. split; [exact Ec|].
  set (n3 := set_srv (P2p.set_clock (S (S (S k))) (nd_srv n)) n). set (round := round_at cfg _ _) in *.
  change (w_now w (sv_clock (nd_srv (set_srv (P2p.set_clock (S (S k)) (nd_srv n)) n)))) with (w_now w (S (S k))). set (now := w_now w (S (S k)) / _).
  match goal with |- context [try_ ?m ≫= ?g] => set (prod := m); set (rest := g) end.
  assert ((try_ prod ≫= rest) n3 = match ProduceBlock (Node.self kp) (MemberIDs (sv_store (nd_srv n))) (cp_FinalityDepth Mainnet) fuel txs kp round
            now (chain_of n) with
    | OK c a => rest (inr a) (set_srv (P2p.set_chain c (nd_srv n3)) n3) | ERR c e => rest (inl e) (set_srv (P2p.set_chain c (nd_srv n3)) n3)
    | PANIC c => PANIC (set_srv (P2p.set_chain c (nd_srv n3)) n3) end) as ->.
  { unfold mbind at 1, M_bind at 1, try_, prod, with_members. rewrite (bind_ok get _ _ _ _ eq_refl). unfold on_srv at 1, with_chain at 1. cbn [nd_srv set_srv n3].
    change (sv_chain (P2p.set_clock (S (S (S k))) (nd_srv n))) with (chain_of n).
    change (sv_store (P2p.set_clock (S (S (S k))) (nd_srv n))) with (sv_store (nd_srv n)).
    by destruct (ProduceBlock _ _ _ _ _ _ _ _ (chain_of n)). }
  destruct (ProduceBlock _ _ _ _ _ _ _ _ (chain_of n)) as [c [blk set]|c e|c]; [| |by eexists].
  - unfold rest. match goal with |- context [(on_srv (with_pool ?m) ≫= ?f) ?x] => change ((on_srv (with_pool m) ≫= f) x) with (f tt (set_srv (P2p.set_pool (Remove txs (sv_pool (nd_srv n))) (nd_srv x)) x)) end.
    cbv beta. rewrite (bind_ok save_state _ _ _ _ eq_refl). unfold on_srv, BroadcastBlock. cbn [nd_srv].
    match goal with |- context [(get ≫= ?f) ?x] => rewrite (bind_ok get f x x x eq_refl); set (s4 := x);
      pose proof (keeps_broadcast_kept w (RGossipBlock (Some blk)) p_Control (Peers (sv_store s4)) (kept s4) s4 eq_refl) as Hk;
      destruct (broadcast_total w (RGossipBlock (Some blk)) p_Control (Peers (sv_store s4)) s4) as [s5 E5] end.
    rewrite E5. unfold wp in Hk. rewrite E5 in Hk. eexists. split; [done|]. split; [exact Hk|done].
  - unfold rest. eexists. split; [done|]. done.
Qed.

(** Where the tip moved: the clock was read twice and [ProduceBlock] ran once. *)
Lemma maybeProduce_inv n n' : bloom_ok (chain_of n) → maybeProduce w cfg kp order fuel n = OK n' tt →
  ch_head (chain_of n') ≠ ch_head (chain_of n) →
  ∃ k1 k2 txs blk set, (k1 <= k2)%nat ∧
    let round := round_at cfg (w_now w k1 / 1000000000) (ch_head (chain_of n)) in
    CanProduce (Engine := node_engine cfg kp (P2p.ledger (nd_srv n))) (u64 (hd_Height (ch_head (chain_of n)) + 1)) (ID (ch_head (chain_of n))) round = true ∧
    ProduceBlock (Node.self kp) (MemberIDs (sv_store (nd_srv n))) (cp_FinalityDepth Mainnet) fuel txs kp round (w_now w k2 / 1000000000)
      (chain_of n) = OK (chain_of n') (blk, set).
Proof.
  intros Hb E Hne. destruct (maybeProduce_tick n) as [[k Ek]|(k1 & k0 & k2 & Hk & Hc & Hp)].
  { rewrite Ek in E. apply OK_inj in E as [<- _]. by destruct Hne. }
  match type of Hp with context [ProduceBlock ?a ?b ?c ?d ?t ?e ?f ?g ?h] =>
    pose proof (ProduceBlock_fails a b c d t e f g h Hb) as Hf; unfold wp in Hf; destruct (ProduceBlock a b c d t e f g h) as [c' [blk set]|c' er|c'] eqn:Ep end.
  - destruct Hp as (n2 & E2 & Hl & _). rewrite E in E2. apply OK_inj in E2 as [-> _].
    eexists k1, k2, _, blk, set. split; [done|]. split; [exact Hc|]. injection Hl as _ Hl _ _. assert (chain_of n2 = c') as -> by exact Hl. exact Ep.
  - destruct Hp as (n2 & E2 & Hl & _). rewrite E in E2. apply OK_inj in E2 as [-> _]. injection Hl as _ Hl _ _.
    destruct Hne. assert (chain_of n2 = c') as -> by exact Hl. exact Hf.
  - destruct Hp as [n2 E2]. congruence.
Qed.

(** An elected producer signs headers that the same registry authorizes. *)
Lemma elected_authorized vs wt self scores ratio h kp' : key_ok (kp_Priv kp') (kp_Pub kp') → self = KeyPair_Address kp' →
  let hdr := Header_Sign h kp' in
  PoStorage.can_produce vs wt self scores ratio (hd_Height hdr) (hd_PrevHash hdr) (hd_Round hdr) = true →
  PoStorage.authorize vs wt hdr = Ok tt.
Proof.
  intros Hk -> hdr Hc. pose proof (Header_Sign_verifies h kp' Hk) as Hv. fold hdr in Hv.
  assert (hd_Validator hdr = KeyPair_Address kp') as Ev by done. clearbody hdr.
  unfold PoStorage.authorize, PoStorage.can_produce in *. rewrite Hv, Ev. cbn [mbind].
  destruct (bool_decide (KeyPair_Address kp' = "") || _) eqn:E; [done|]. apply orb_false_iff in E as [_ E].
  change (Ok tt ≫= ?f) with (f tt). cbv beta. rewrite E. destruct (_ =? 0); [done|]. destruct (bool_decide (PoStorage.leader _ _ _ _ _ = _)) eqn:El; [|done].
  apply bool_decide_eq_true in El. by rewrite bool_decide_true.
Qed.

Lemma round_fits now head : 0 <= hd_Timestamp head <= now → now < 4294967296 →
  0 <= round_at cfg now head * block_time cfg <= now - hd_Timestamp head.
Proof.
  intros Ht Hn. unfold round_at. assert (1 <= block_time cfg) as Hbt by (unfold block_time; destruct (Z.ltb_spec (Z.quot (nc_BlockTimeMS cfg) 1000) 1); lia).
  rewrite i64_small by lia. rewrite (proj2 (Z.ltb_ge _ _)) by lia.
  rewrite Z.quot_div_nonneg by lia. set (d := now - _). pose proof (Z.mul_div_le d (block_time cfg) ltac:(lia)).
  assert (0 <= d / block_time cfg) by (apply Z.div_pos; lia). assert (d / block_time cfg <= d) by (apply Z.div_le_upper_bound; nia).
  unfold u32, W32. rewrite Z.mod_small by lia. lia.
Qed.

(** What an honest validator makes spreads.  A node under the storage consensus, with a
    clock that does not run backwards and reads a time before the year 2106, not before
    that of its tip, ticks and its tip moves.  Then every node under the same consensus
    and block time that has the same tip as the heaviest of its tree, the same ledger
    and committed headers, and does not know the block yet, takes it when it arrives:
    [AcceptBlock] reports no error and ends with the same tip and the same ledger,
    whatever the node's id, peers and shards; and it cannot panic when finality has nothing to do. *)
Theorem produced_block_spreads (n n' : Node) (R : Chain) (p : Block) (wR : World) (cfgR : NodeConfig) (kpR : KeyPair)
  (selfR : string) (membersR : list string) (fdR : Z) (fuelR : nat)
  (Hmode : nc_Consensus cfg = "postorage" ∧ nc_Consensus cfgR = "postorage" ∧ nc_BlockTimeMS cfgR = nc_BlockTimeMS cfg)
  (Hkey : key_ok (kp_Priv kp) (kp_Pub kp))
  (Hclock : ∀ i j, (i <= j)%nat → w_now w i <= w_now w j)
  (Htime : 0 <= hd_Timestamp (ch_head (chain_of n)) ∧
    ∀ i, hd_Timestamp (ch_head (chain_of n)) <= w_now w i / 1000000000 < 4294967296)
  (Hb : bloom_ok (chain_of n)) (HbR : bloom_ok R)
  (E : maybeProduce w cfg kp order fuel n = OK n' tt) (Hmoved : ch_head (chain_of n') ≠ ch_head (chain_of n))
  (Hgen : ch_hasGen R = true) (Hhead : ch_head R = ch_head (chain_of n)) (Hnz : ID (ch_head R) ≠ Zero)
  (Hstate : resolve (ch_store R) (ch_state R) = P2p.ledger (nd_srv n))
  (Hp : lookup_block R (ID (ch_head R)) = Some p) (Hph : b_Header p = ch_head R)
  (Hheavy : heaviest (ch_tree R) (ID (ch_head R))) (Hfuel : (0 < fuelR)%nat) :
  ∃ blk, ch_head (chain_of n') = b_Header blk ∧
    (ch_tree R !! ID (b_Header blk) = None →
     let accept := AcceptBlock (node_engine cfgR kpR) selfR membersR (block_time cfgR) fdR fuelR blk R in
     (∀ c e, accept ≠ ERR c e) ∧
     (∀ R' u, accept = OK R' u → ch_head R' = ch_head (chain_of n') ∧ ch_state R' = ch_state (chain_of n')) ∧
     (idle fdR (hd_Height (b_Header blk)) R → is_OK accept = true)).
Proof.
  destruct Hmode as (Hpo & HpoR & Hbt). destruct Htime as [Ht0 Ht].
  destruct (maybeProduce_inv n n' Hb E Hmoved) as (k1 & k2 & txs & blk & set & Hk & Hc & Hprod). cbv zeta in Hc, Hprod.
  apply ProduceBlock_inv in Hprod as (s & shards & _ & Hh & Hpr & Hts & Hrd & Hm & Hbody & Hrun & Hroot & Hset & Hcut & Es & Eh & hd & Esig); [|done].
  exists blk. rewrite Eh, Es. split; [done|]. intros Hnew. cbv zeta.
  pose proof (round_fits (w_now w k1 / 1000000000) (ch_head (chain_of n)) ltac:(specialize (Ht k1); lia) ltac:(apply Ht)) as Hr.
  assert (w_now w k1 / 1000000000 <= w_now w k2 / 1000000000) as Hle by (apply Z.div_le_mono; [lia|by apply Hclock]).
  assert (block_time cfgR = block_time cfg) as Ebt by (unfold block_time; by rewrite Hbt).
  assert (extends_tip (node_engine cfgR kpR) (block_time cfgR) blk R) as Hx.
  { split; try done; [|congruence| |congruence|].
    - revert Hc. unfold node_engine. rewrite HpoR, Hpo, !bool_decide_true, <- Hstate by done. intros Hc.
      pose proof (elected_authorized (ActiveValidators (ch_state R)) (Some (StorageWeights (ch_state R))) (Node.self kp) None f0_8 hd kp Hkey eq_refl) as Ha.
      cbv zeta in Ha. rewrite <- Esig, Hh, Hpr, Hrd in Ha. exact (Ha Hc).
    - by exists p.
    - rewrite Hts, Hrd, Hhead, Ebt. pose proof (Ht k1). pose proof (Ht k2).
      rewrite (i64_small (_ * _)) by lia. rewrite i64_small by lia. lia. }
  destruct (accept_extends (node_engine cfgR kpR) selfR membersR (block_time cfgR) fdR fuelR blk R s HbR Hx Hfuel) as [Hw Hok].
  { rewrite Hstate. exact Hrun. }
  unfold wp in Hw. split_and!.
  - intros c e Ea. by rewrite Ea in Hw.
  - intros R' u Ea. rewrite Ea in Hw. tauto.
  - intros Hi. apply Hok; [done|done|]. by rewrite Hset.
Qed.
End produce.

(** ** One peer that announces a high block *)

Section stall.
Context `{Platform} `{ReedSolomon} (w : World) (cfg : NodeConfig) (kp : KeyPair).
Context (order : nat → Server → list Transaction * list Address) (fuel : nat).

(** Only observations were made. *)
Definition waited (n n' : Node) : Prop := ∃ k, n' = set_srv (P2p.set_clock k (nd_srv n)) n.

Lemma waited_refl n : waited n n.
Proof. exists (sv_clock (nd_srv n)). by destruct n as [[] ?]. Qed.
Lemma waited_trans a b c : waited a b → waited b c → waited a c.
Proof. intros [k ->] [l ->]. by exists l. Qed.

Lemma behind_waits n p h : p ∈ Peers (sv_store (nd_srv n)) → announces w (p_Control p) h →
  hd_Height (ch_head (chain_of n)) < hd_Height h → ∃ n', maybeProduce w cfg kp order fuel n = OK n' tt ∧ waited n n'.
Proof.
  intros Hp Ha Hlt. unfold maybeProduce. rewrite (bind_ok get _ _ _ _ eq_refl). unfold Chain_Head. fold (chain_of n).
  destruct (ch_hasGen (chain_of n)); [|exists n; split; [done|apply waited_refl]].
  destruct (best_height_run w (Peers (sv_store (nd_srv n))) 0 (nd_srv n)) as (s' & b & E & Hw & _ & Hge & _).
  destruct (on_srv_watched (BestPeerHeight w) n s' b) as [k Ek]; [|done|].
  { unfold BestPeerHeight. by rewrite (bind_ok get _ _ _ _ eq_refl). }
  rewrite (bind_ok _ _ _ _ _ Ek), (proj2 (Z.ltb_lt _ _)) by (specialize (Hge p h Hp Ha); lia).
  eexists. split; [reflexivity|by exists k].
Qed.

(** One peer stops a producer.  Nothing checks the height a peer announces, and the
    table of bans is not asked.  A node that knows one peer which answers every request
    for its head with a header above the node's own tip, banned or not, never produces:
    after any number of block ticks nothing has changed but the clock.  Nor does fast
    sync help when that peer leads and does not deliver: it fails each time, and the
    peer stays in the table. *)
Theorem one_peer_stalls (n : Node) (p : Peer) (h : Header)
  (Hp : p ∈ Peers (sv_store (nd_srv n))) (Ha : announces w (p_Control p) h)
  (Hlt : hd_Height (ch_head (chain_of n)) < hd_Height h) :
  (∀ k, ∃ n', run w cfg kp order fuel (replicate k EBlock) n = OK n' tt ∧ waited n n') ∧
  (leads w (sv_store (nd_srv n)) p h → (∀ i, w_net w i (p_Control p) (RHeaders "0" (FormatUint (hd_Height h))) = None) →
   ∃ n', trySync w cfg kp n = OK n' tt ∧ waited n n').
Proof.
  split.
  - intros k. assert (∀ m, waited n m → ∃ n', run w cfg kp order fuel (replicate k EBlock) m = OK n' tt ∧ waited n n') as Hgo.
    { induction k as [|k IH]; intros m Hm; cbn [replicate run]; [by exists m|].
      destruct (behind_waits m p h) as (m' & E & Hm'); [by destruct Hm as [? ->]|done|by destruct Hm as [? ->]|].
      unfold step, on_tick, mbind, M_bind. rewrite E. apply IH. by eapply waited_trans. }
    apply Hgo, waited_refl.
  - intros Hlead Hnone. unfold trySync. rewrite (bind_ok get _ _ _ _ eq_refl). cbv zeta. fold (chain_of n).
    destruct (leads_best w (sv_store (nd_srv n)) p h (nd_srv n) Hlead) as (s1 & E & [i1 ->]).
    assert (SyncFrom w (node_engine cfg kp) (Chain_Height (chain_of n)) (ch_hasGen (chain_of n)) (nd_srv n) =
      ERR (P2p.set_clock (S i1) (nd_srv n)) ErrNetwork) as Es.
    { unfold SyncFrom. rewrite (bind_ok get _ _ _ _ eq_refl), (bind_ok _ _ _ _ _ E). cbn [fst snd].
      destruct Hlead as (_ & Hu & _). rewrite bool_decide_false by done.
      unfold Chain_Height. rewrite (proj2 (Z.leb_gt _ _)), andb_false_r by lia.
      unfold fetchHeaders, mbind, M_bind. rewrite http_get_run, Hnone. done. }
    assert (try_ (on_srv (SyncFrom w (node_engine cfg kp) (Chain_Height (chain_of n)) (ch_hasGen (chain_of n)))) n =
      OK (set_srv (P2p.set_clock (S i1) (nd_srv n)) n) (inl ErrNetwork)) as Et.
    { unfold try_, on_srv. by rewrite Es. }
    rewrite (bind_ok _ _ _ _ _ Et). eexists. split; [reflexivity|by exists (S i1)].
Qed.
End stall.

(** [good] announces height 9 to a node at height 4. *)
Lemma one_peer_stalls_witness : ∃ n',
  @run demo_platform plain_code head_world (MainnetConfig None) bob_key (λ _ _, ([], [])) 0 (replicate 3 EBlock) (MkNode (server_of chain0) None None) = OK n' tt ∧
  waited (MkNode (server_of chain0) None None) n'.
Proof.
  destruct (@one_peer_stalls demo_platform plain_code head_world (MainnetConfig None) bob_key (λ _ _, ([], [])) 0 (MkNode (server_of chain0) None None)
    good (header_at 9 bob)) as [Hrun _].
  - exact good_is_peer.
  - intros n. reflexivity.
  - reflexivity.
  - exact (Hrun 3%nat).
Defined.

(** [bob], the only registered validator, makes a block at 100 seconds on a tip of time 0. *)
Definition bob_ledger : State := set_Validators {[ bob := MkValidator 0 true 0 false 0 0 ]} ledger0.
Definition bob_chain : Chain := set_ledger bob_ledger chain1.
Definition postorage_cfg : NodeConfig := MkNodeConfig "data" ":4004" ":4005" "localhost" "key" [] [] [] "postorage" 5000 ∅.
Definition bob_node : Node := MkNode (server_of bob_chain) None None.

Lemma produced_block_spreads_witness : ∃ n' blk R',
  @maybeProduce demo_platform plain_code quiet postorage_cfg bob_key pool_order 0 bob_node = OK n' tt ∧
  @AcceptBlock demo_platform plain_code (node_engine postorage_cfg bob_key) "n2" ["n2"] (block_time postorage_cfg) 0 5 blk bob_chain = OK R' tt ∧
  ch_head R' = ch_head (chain_of n') ∧ ch_state R' = ch_state (chain_of n').
Proof.
  assert (match @maybeProduce demo_platform plain_code quiet postorage_cfg bob_key pool_order 0 bob_node with
    | OK n' _ => (hd_Height (ch_head (chain_of n')) =? 5) &&
        bool_decide (Forkchoice.Height (ch_tree bob_chain) (ID (ch_head (chain_of n'))) = None) | _ => false end = true) as Hok by (vm_compute; reflexivity).
  destruct (@maybeProduce demo_platform plain_code quiet postorage_cfg bob_key pool_order 0 bob_node) as [n' []| |] eqn:E; [|discriminate Hok..].
  apply andb_prop in Hok as [Hh%Z.eqb_eq Hn%bool_decide_eq_true].
  destruct (@produced_block_spreads demo_platform plain_code quiet postorage_cfg bob_key pool_order 0 bob_node n' bob_chain tip_block
    quiet postorage_cfg bob_key "n2" ["n2"] 0 5) as (blk & Eh & Hacc).
  - split_and!; reflexivity.
  - split; [reflexivity|]. intros msg. reflexivity.
  - intros i j _. apply Z.le_refl.
  - split; [vm_compute; discriminate|]. intros i. vm_compute. split; [discriminate|reflexivity].
  - by apply no_bloom.
  - by apply no_bloom.
  - exact E.
  - intros Eq. rewrite Eq in Hh. discriminate Hh.
  - reflexivity.
  - reflexivity.
  - vm_compute. discriminate.
  - reflexivity.
  - vm_compute. reflexivity.
  - reflexivity.
  - exact chain1_heaviest.
  - apply Nat.lt_0_succ.
  - rewrite Eh in Hn. unfold Forkchoice.Height in Hn. destruct (ch_tree bob_chain !! ID (b_Header blk)) eqn:Et; [discriminate Hn|].
    destruct (Hacc eq_refl) as (_ & Hsame & Hi). clear Hacc.
    assert (is_OK (@AcceptBlock demo_platform plain_code (node_engine postorage_cfg bob_key) "n2" ["n2"] (block_time postorage_cfg) 0 5 blk bob_chain) = true)
      as Ho by (apply Hi; left; reflexivity).
    destruct (@AcceptBlock demo_platform plain_code (node_engine postorage_cfg bob_key) "n2" ["n2"] (block_time postorage_cfg) 0 5 blk bob_chain)
      as [R' []| |] eqn:Ea; [|discriminate Ho..].
    destruct (Hsame R' tt eq_refl) as [H1 H2]. exists n', blk, R'. split; [reflexivity|]. split; [exact Ea|]. split; [exact H1|exact H2].
Defined.
