(* ===== verification/Network.v ===== *)
(** * A network of nodes

    Several nodes of the same network and the blocks they have made, as a transition
    system: a node's own events, a block made by a node that knows all the blocks, and the
    arrival of any block at any node, at any time, in any order, any number of times or never. *)

From S2P Require Import Prelude Sha256 Crypto Economy Merkle Netparams Types Pos Forkchoice Rendezvous Consensus Erasure Bloom Vm State StateInv Demo Mempool Strconv Chain ChainProps ChainShards ChainReorg Peers P2p NetDemo P2pProps P2pGossip Node NodeFrame ChainAccept NodeProps.

Local Abbreviation M := Prelude.M.

(** ** Views *)

(** What the nodes of a network have in common: the tip, the ledger and the headers. *)
Record View := MkView { vw_head : Header; vw_ledger : State; vw_headers : gmap Z (Header * ShardSet) }.
Definition view_of (c : Chain) : View := MkView (ch_head c) (ch_state c) (st_headers (ch_store c)).

(** The ledger a block is executed on: its configuration looks at the headers only. *)
Definition vw_input (v : View) : State := resolve (MkStore (vw_headers v) ∅ ∅ None ∅) (vw_ledger v).
Lemma resolve_view c : resolve (ch_store c) (ch_state c) = vw_input (view_of c).
Proof. reflexivity. Qed.

Section links.
Context `{Platform} `{ReedSolomon} (blockTime : Z).

(** The block leads from one view to the next: it is authorized by the registry of the
    first, on its tip, at its height and time, and is executed on its ledger. *)
Record links (b : Block) (v v' : View) : Prop := {
  lk_auth : PoStorage.authorize (ActiveValidators (vw_ledger v)) (Some (StorageWeights (vw_ledger v))) (b_Header b) = Ok tt;
  lk_merkle : MerkleRootOf (b_Txs b) = hd_MerkleRoot (b_Header b);
  lk_body : BodyHash (Body b) = hd_BodyHash (b_Header b);
  lk_prev : hd_PrevHash (b_Header b) = ID (vw_head v);
  lk_height : hd_Height (b_Header b) = u64 (hd_Height (vw_head v) + 1);
  lk_time : i64 (hd_Timestamp (vw_head v) + i64 (hd_Round (b_Header b) * blockTime)) <= hd_Timestamp (b_Header b);
  lk_since : 0 <= hd_Timestamp (b_Header b);
  lk_head : vw_head v' = b_Header b;
  lk_run : ApplyBlock b (vw_input v) = OK (vw_ledger v') tt;
  lk_cut : logs_cut (b_Header b) (vw_ledger v');
  lk_files : ∃ shards set, BuildShardSet (ID (b_Header b)) (Body b) (hd_Spec (b_Header b)) = Ok (shards, set) ∧
    vw_headers v' = <[hd_Height (b_Header b) := (b_Header b, set)]> (vw_headers v);
}.

Fixpoint follows (v : View) (bs : list Block) (v' : View) : Prop :=
  match bs with [] => v' = v | b :: r => ∃ u, links b v u ∧ follows u r v' end.

Lemma links_fun b v v1 v2 : links b v v1 → links b v v2 → v1 = v2.
Proof.
  intros [_ _ _ _ _ _ _ E1 R1 _ (? & ? & B1 & F1)] [_ _ _ _ _ _ _ E2 R2 _ (? & ? & B2 & F2)].
  rewrite R2 in R1. apply OK_inj in R1 as [R1 _]. rewrite B2 in B1. injection B1 as _ ->. destruct v1, v2. simpl in *. congruence.
Qed.

Lemma follows_fun bs : ∀ v v1 v2, follows v bs v1 → follows v bs v2 → v1 = v2.
Proof.
  induction bs as [|b r IH]; intros v v1 v2; simpl; [congruence|]. intros (u1 & L1 & F1) (u2 & L2 & F2).
  rewrite (links_fun _ _ _ _ L1 L2) in F1. by eapply IH.
Qed.

Lemma follows_app l1 l2 v v' : follows v (l1 ++ l2) v' ↔ ∃ u, follows v l1 u ∧ follows u l2 v'.
Proof.
  revert v. induction l1 as [|b r IH]; intros v; simpl; [split; [by exists v|by intros (u & -> & F)]|].
  split.
  - intros (w & L & (u & F1 & F2)%IH). exists u. split; [by exists w|done].
  - intros (u & (w & L & F1) & F2). exists w. split; [done|]. apply IH. by exists u.
Qed.

(** From one number of blocks of a history to another. *)
Lemma follows_between v bs i j u w : (i <= j)%nat → follows v (take i bs) u → follows v (take j bs) w →
  follows u (drop i (take j bs)) w.
Proof.
  intros Hij Fi Fj. assert (take j bs = take i bs ++ drop i (take j bs)) as E.
  { rewrite <- (take_drop i (take j bs)) at 1. f_equal. rewrite take_take. f_equal. lia. }
  rewrite E in Fj. apply follows_app in Fj as (u' & F1 & F2). by rewrite (follows_fun _ _ _ _ Fi F1).
Qed.

(** ** Chains that are ready for the next block *)

(** The tip is on the heaviest branch, with a weight of at most [m], and its block is known. *)
Record ready (m : Z) (c : Chain) : Prop := {
  rd_gen : ch_hasGen c = true;
  rd_bloom : bloom_ok c;
  rd_nonzero : ID (ch_head c) ≠ Zero;
  rd_time : 0 <= hd_Timestamp (ch_head c);
  rd_block : ∃ p, lookup_block c (ID (ch_head c)) = Some p ∧ b_Header p = ch_head c;
  rd_ids : tree_ids (ch_tree c);
  rd_heaviest : ∃ e, ch_tree c !! ID (ch_head c) = Some e ∧ 0 <= e_cum e <= m ∧ ∀ id e', ch_tree c !! id = Some e' → e_cum e' <= e_cum e;
}.

Lemma ready_heaviest m c : ready m c → m + 1 < W64 → heaviest (ch_tree c) (ID (ch_head c)).
Proof. intros [_ _ _ _ _ Hi (e & He & Hm & Hmax)] Hw. split; [done|]. exists e. split_and!; [done|lia|lia|done]. Qed.

Lemma ready_next m c c' b set s : ready m c → m + 1 < W64 → taken b set s c c' → ch_tree c !! ID (b_Header b) = None →
  hd_PrevHash (b_Header b) = ID (ch_head c) → ID (b_Header b) ≠ Zero → 0 <= hd_Timestamp (b_Header b) → ready (m + 1) c'.
Proof.
  intros [_ _ _ _ _ Hi (e & He & Hm & Hmax)] Hw [T1 T2 _ T4 _ _ T7 T8] Hnew Hp Hnz Ht.
  assert (ch_tree c' = <[ID (b_Header b) := MkEntry (ID (ch_head c)) (hd_Height (b_Header b)) (1 + e_cum e)]> (ch_tree c)) as Etree.
  { rewrite T4. unfold Forkchoice.Add. rewrite Hnew, Hp, He, u64_small; [done|]. unfold is_u64. lia. }
  split; rewrite ?T1, ?Etree; try done.
  - exists b. by rewrite ?T1, T7, decide_True.
  - apply map_Forall_insert_2; [apply length_sha256|done].
  - exists (MkEntry (ID (ch_head c)) (hd_Height (b_Header b)) (1 + e_cum e)). split; [apply lookup_insert_eq|]. simpl. split; [lia|].
    intros id e' [[_ <-]|[_ Hl]]%lookup_insert_Some; [done|]. specialize (Hmax _ _ Hl). lia.
Qed.

Lemma taken_view b set s c c' : taken b set s c c' →
  view_of c' = MkView (b_Header b) s (<[hd_Height (b_Header b) := (b_Header b, set)]> (st_headers (ch_store c))).
Proof. unfold view_of. by intros [-> _ -> _ -> _ _ _]. Qed.

(** What a view links is what [AcceptBlock] takes. *)
Lemma links_extends cfg kp m c b v : nc_Consensus cfg = "postorage" → ready m c → m + 1 < W64 → links b (view_of c) v →
  ch_tree c !! ID (b_Header b) = None → extends_tip (node_engine cfg kp) blockTime b c.
Proof.
  intros Hpo Hr Hw [L1 L2 L3 L4 L5 L6 _ _ _ _ _] Hnew. split; [by destruct Hr|done| |done|done|done|by destruct Hr|by destruct Hr|done|done|by eapply ready_heaviest].
  unfold node_engine. by rewrite bool_decide_true.
Qed.

Lemma accept_links cfg kp selfID members fd fuel m c b v : nc_Consensus cfg = "postorage" → (0 < fuel)%nat → ready m c → m + 1 < W64 →
  links b (view_of c) v → ch_tree c !! ID (b_Header b) = None →
  let c' := out_state (AcceptBlock (node_engine cfg kp) selfID members blockTime fd fuel b c) in
  view_of c' = v ∧ (∃ set s, taken b set s c c') ∧
  ∀ c1 e, AcceptBlock (node_engine cfg kp) selfID members blockTime fd fuel b c ≠ ERR c1 e.
Proof.
  intros Hpo Hfuel Hr Hw HL Hnew. pose proof (links_extends cfg kp m c b v Hpo Hr Hw HL Hnew) as Hx.
  destruct HL as [_ _ _ _ _ _ _ L8 L9 L10 (shards & set & L11 & L12)].
  pose proof (accept_taken (node_engine cfg kp) selfID members blockTime fd fuel b c (vw_ledger v) shards set (rd_bloom m c Hr) Hx Hfuel L9 L10 L11) as Ht.
  cbv zeta. unfold wp in Ht.
  assert (taken b set (vw_ledger v) c (out_state (AcceptBlock (node_engine cfg kp) selfID members blockTime fd fuel b c))) as Ht' by (by destruct (AcceptBlock _ _ _ _ _ _ _ _)).
  split; [|split; [eauto|intros c1 e E; by rewrite E in Ht]]. rewrite (taken_view _ _ _ _ _ Ht'). destruct v. simpl in *. congruence.
Qed.

(** A block it knows already is let pass; a block whose parent it does not know is refused. *)
Lemma accept_known engine selfID members fd fuel b c : ch_hasGen c = true → is_Some (ch_tree c !! ID (b_Header b)) →
  AcceptBlock engine selfID members blockTime fd fuel b c = OK c tt.
Proof.
  intros Hg [e He]. unfold AcceptBlock. rewrite (bind_ok get _ _ _ _ eq_refl), bind_require, Hg. cbv zeta.
  unfold Forkchoice.Height. by rewrite He.
Qed.

Lemma accept_orphan cfg kp selfID members fd fuel b c : nc_Consensus cfg = "postorage" →
  ch_tree c !! ID (b_Header b) = None → lookup_block c (hd_PrevHash (b_Header b)) = None →
  same_blocks c (out_state (AcceptBlock (node_engine cfg kp) selfID members blockTime fd fuel b c)).
Proof.
  intros Hpo Hnew Hp. unfold AcceptBlock. rewrite (bind_ok get _ _ _ _ eq_refl), bind_require. destruct (ch_hasGen c); [|done]. cbv zeta.
  unfold Forkchoice.Height. rewrite Hnew. cbn [fmap option_fmap option_map].
  unfold mbind at 1, M_bind at 1, lift. destruct (@AuthorizeHeader _ _ _) as [[]|e|]; [|done..].
  rewrite !bind_require. destruct (bool_decide _); [|done]. rewrite ?bind_require. destruct (bool_decide _); [|done].
  destruct (block_run (hd_PrevHash (b_Header b)) c) as (c1 & E & Hs). by rewrite (bind_ok _ _ _ _ _ E), Hp.
Qed.

Lemma same_view c c' : same_blocks c c' → view_of c' = view_of c.
Proof. intros Hs. destruct (same_visible c c' Hs) as (E1 & E2 & _ & _ & E5 & _). unfold view_of. by rewrite E1, E2, E5. Qed.

Lemma same_ready m c c' : same_blocks c c' → ready m c → ready m c'.
Proof.
  intros Hs [R1 R2 R3 R4 R5 R6 R7]. destruct (same_visible c c' Hs) as (_ & E2 & E3 & E4 & _ & E6). destruct Hs as (_ & El & _).
  split; rewrite ?E2, ?E3, ?E4, ?El; try done. intros f. rewrite E6. apply R2.
Qed.

(** *** Histories *)

Lemma follows_prev bs : ∀ v0 v j b b', follows v0 bs v → bs !! j = Some b → bs !! S j = Some b' → hd_PrevHash (b_Header b') = ID (b_Header b).
Proof.
  induction bs as [|x r IH]; intros v0 v j b b' F Hj Hs; [done|]. destruct F as (u & L & F).
  destruct j as [|j]; [|by eapply IH]. injection Hj as <-. destruct r as [|y r]; [done|]. injection Hs as <-.
  destruct F as (u' & L' & _). rewrite (lk_prev _ _ _ L'). by rewrite (lk_head _ _ _ L).
Qed.

Lemma follows_next bs v0 v k u b : follows v0 bs v → follows v0 (take k bs) u → bs !! k = Some b →
  ∃ u', links b u u' ∧ follows v0 (take (S k) bs) u'.
Proof.
  intros F Fk Hb. rewrite (take_S_r _ _ _ Hb). rewrite <- (take_drop_middle bs k b Hb) in F.
  apply follows_app in F as (u1 & F1 & (u' & L & _)). rewrite (follows_fun _ _ _ _ F1 Fk) in L.
  exists u'. split; [done|]. apply follows_app. exists u. split; [done|]. by exists u'.
Qed.

Lemma taken_knows b set s c c' : taken b set s c c' → is_Some (ch_tree c' !! ID (b_Header b)) ∧
  ∀ id, id ≠ ID (b_Header b) → ch_tree c' !! id = ch_tree c !! id ∧ lookup_block c' id = lookup_block c id.
Proof.
  intros [_ _ _ T4 _ _ T7 _]. unfold Forkchoice.Add in T4. destruct (ch_tree c !! ID (b_Header b)) as [e|] eqn:E; rewrite ?E in T4; rewrite T4.
  - split; [by rewrite E|]. intros id Hne. split; [done|]. by rewrite T7, decide_False.
  - split; [eexists; apply lookup_insert_eq|]. intros id Hne. split; [by apply lookup_insert_ne|]. by rewrite T7, decide_False.
Qed.
End links.

(** ** The steps of a node *)

Section steps.
Context `{Platform} `{ReedSolomon} (w : World) (cfg : NodeConfig) (kp : KeyPair).
Context (order : nat → Server → list Transaction * list Address) (fuel : nat).

(** What [AcceptBlock] is called with when a block arrives. *)
Definition accepts (b : Block) (n : Node) : outcome Chain unit :=
  AcceptBlock (node_engine cfg kp) (p_ID (ps_self (sv_store (nd_srv n)))) (MemberIDs (sv_store (nd_srv n))) (block_time cfg)
    (cp_FinalityDepth Mainnet) fuel b (chain_of n).

Local Abbreviation serve ip b := (ServeHTTP w (node_engine cfg kp) (block_time cfg) (cp_FinalityDepth Mainnet) fuel (is_postorage cfg) ip (RGossipBlock (Some b))).

Lemma step_request ip b n : step w cfg kp order fuel (ERequest ip (RGossipBlock (Some b))) n =
  OK (set_srv (out_state (serve ip b (nd_srv n))) n) tt.
Proof. unfold step, on_tick, on_srv, mbind, M_bind. by destruct (serve ip b (nd_srv n)). Qed.

(** The arrival of a block: nothing from a banned address, and otherwise [AcceptBlock]. *)
Lemma arrival ip b n n' : nc_Consensus cfg = "postorage" → step w cfg kp order fuel (ERequest ip (RGossipBlock (Some b))) n = OK n' tt →
  let r := Banned (w_now w (sv_clock (nd_srv n))) ip (sv_bans (nd_srv n)) in
  chain_of n' = (if r.1 then chain_of n else out_state (accepts b n)) ∧
  ((∀ c e, accepts b n ≠ ERR c e) → sv_bans (nd_srv n') = r.2).
Proof.
  intros Hpo E r. rewrite step_request in E. apply OK_inj in E as [<- _]. unfold chain_of at 1. cbn [nd_srv set_srv].
  unfold ServeHTTP, banGate. rewrite (bind_ok _ _ _ _ _ (is_banned_now_run w ip (nd_srv n))). fold r. set (s1 := P2p.set_bans r.2 (bump (nd_srv n))).
  destruct r.1; [by split|]. cbn [handle]. unfold handle_gossip_block.
  rewrite (bind_ok (observe (w_now w)) _ s1 (bump s1) (w_now w (sv_clock s1)) eq_refl). unfold mbind at 1 4, M_bind at 1 4. unfold try_, apply_block.
  rewrite (bind_ok get _ _ _ _ eq_refl). unfold is_postorage. rewrite bool_decide_true by done. unfold with_chain.
  change (AcceptBlock _ _ _ _ _ _ _ _) with (accepts b n). destruct (accepts b n) as [c []|c e|c] eqn:E.
  - by split.
  - destruct (IsForgery e).
    + rewrite (bind_ok _ _ _ _ _ (strike_now_run w ip _)). match goal with |- context [if ?x then fail _ else _] => destruct x end;
        (split; [reflexivity|]; intros Hno; by destruct (Hno c e)).
    + split; [reflexivity|]. intros Hno. by destruct (Hno c e).
  - by split.
Qed.

(** The clock does not run backwards and reads a time before the year 2106, not before
    that of the header. *)
Definition sane_clock (head : Header) : Prop :=
  (∀ i j, (i <= j)%nat → w_now w i <= w_now w j) ∧ ∀ i, hd_Timestamp head <= w_now w i / 1000000000 < 4294967296.

(** A tick that moves the tip has made a block that links the two views. *)
Lemma tick_links m n n' : nc_Consensus cfg = "postorage" → key_ok (kp_Priv kp) (kp_Pub kp) → ready m (chain_of n) →
  sane_clock (ch_head (chain_of n)) → step w cfg kp order fuel EBlock n = OK n' tt → ch_head (chain_of n') ≠ ch_head (chain_of n) →
  ∃ b set s, ch_head (chain_of n') = b_Header b ∧ links (block_time cfg) b (view_of (chain_of n)) (view_of (chain_of n')) ∧
    taken b set s (chain_of n) (chain_of n').
Proof.
  intros Hpo Hkey Hr [Hclock Ht] Estep Hmoved.
  assert (maybeProduce w cfg kp order fuel n = OK n' tt) as E.
  { unfold step, on_tick in Estep. destruct (maybeProduce_tick w cfg kp order fuel n) as [[k Ek]|(k1 & k0 & k2 & _ & _ & Hp)]; [by rewrite Ek in Estep |- *|].
    destruct (ProduceBlock _ _ _ _ _ _ _ _ _) as [c [blk set]|c e|c]; [| |by destruct Hp as [n2 E2]; rewrite E2 in Estep];
      destruct Hp as (n2 & E2 & _); by rewrite E2 in Estep |- *. }
  destruct (maybeProduce_inv w cfg kp order fuel n n' (rd_bloom m _ Hr) E Hmoved) as (k1 & k2 & txs & b & set & Hk & Hc & Hprod). cbv zeta in Hc, Hprod.
  pose proof (ProduceBlock_taken _ _ _ _ _ _ _ _ _ _ _ _ (rd_bloom m _ Hr) Hprod) as Htk.
  apply ProduceBlock_inv in Hprod as (s & shards & _ & Hh & Hpr & Hts & Hrd & Hm & Hbody & Hrun & Hroot & Hset & Hcut & Es & Eh & hd & Esig); [|by destruct Hr].
  pose proof (rd_time m _ Hr) as Ht0. pose proof (Ht k1) as Ht1. pose proof (Ht k2) as Ht2.
  pose proof (round_fits cfg (w_now w k1 / 1000000000) (ch_head (chain_of n)) ltac:(lia) ltac:(lia)) as Hfit.
  assert (w_now w k1 / 1000000000 <= w_now w k2 / 1000000000) as Hle by (apply Z.div_le_mono; [lia|by apply Hclock]).
  exists b, set, (ch_state (chain_of n')). split; [exact Eh|]. split; [|exact Htk].
  split; [|exact Hm|exact Hbody|exact Hpr|exact Hh| | |exact Eh|by subst s| |exists shards, set; split; [exact Hset|exact (tk_headers _ _ _ _ _ Htk)]].
  - revert Hc. unfold node_engine. rewrite Hpo, bool_decide_true by done. intros Hc.
    pose proof (elected_authorized (ActiveValidators (P2p.ledger (nd_srv n))) (Some (StorageWeights (P2p.ledger (nd_srv n)))) (Node.self kp) None f0_8 hd kp Hkey eq_refl) as Ha.
    cbv zeta in Ha. rewrite <- Esig, Hh, Hpr, Hrd in Ha. exact (Ha Hc).
  - change (vw_head (view_of (chain_of n))) with (ch_head (chain_of n)). rewrite Hts, Hrd.
    rewrite (i64_small (_ * _)) by lia. rewrite i64_small by lia. lia.
  - rewrite Hts. lia.
  - change (logs_cut (b_Header b) (ch_state (chain_of n'))). by rewrite Es.
Qed.
End steps.

(** ** The network *)

Section network.
Context `{Platform} `{ReedSolomon} (cfg : nat → NodeConfig) (kp : nat → KeyPair).
Context (order : nat → nat → Server → list Transaction * list Address) (fuel : nat) (blockTime : Z).

(** The nodes, and the blocks they have made, in the order in which they were made. *)
Record Net := MkNet { nt_nodes : list Node; nt_made : list Block }.

Definition knows (n : Node) (b : Block) : Prop := is_Some (ch_tree (chain_of n) !! ID (b_Header b)).
Definition unheard (id : Hash) (n : Node) : Prop := ch_tree (chain_of n) !! id = None ∧ lookup_block (chain_of n) id = None.

(** The events that do not touch the chain. *)
Definition aside (e : event) : Prop :=
  match e with ESave | EProve | EAudit => True | ERequest _ (RGossipBlock (Some _)) => False | ERequest _ _ => True | _ => False end.

(** A step of the network.  One of its nodes [i] runs, in a world [w] of its own: it saves, proves, audits or
    answers a request; it ticks or discovers peers and its chain stays; it knows every block
    made so far and its tick makes one, which nobody has heard of; or a block made earlier arrives from [ip]. *)
Inductive net_step : Net → Net → Prop :=
  | event_step w i e n n' ns bs : ns !! i = Some n → aside e →
      on_tick w (cfg i) (kp i) (order i) fuel e n = OK n' tt ∨ (∃ x, on_tick w (cfg i) (kp i) (order i) fuel e n = ERR n' x) →
      net_step (MkNet ns bs) (MkNet (<[i := n']> ns) bs)
  | idle_step w i e n n' ns bs : ns !! i = Some n → e = EBlock ∨ e = EDiscover →
      step w (cfg i) (kp i) (order i) fuel e n = OK n' tt → chain_of n' = chain_of n →
      net_step (MkNet ns bs) (MkNet (<[i := n']> ns) bs)
  | make_step w i n n' b ns bs : ns !! i = Some n → Forall (knows n) bs → sane_clock w (ch_head (chain_of n)) →
      step w (cfg i) (kp i) (order i) fuel EBlock n = OK n' tt → ch_head (chain_of n') ≠ ch_head (chain_of n) →
      lookup_block (chain_of n') (ID (ch_head (chain_of n'))) = Some b → ID (b_Header b) ≠ Zero → Forall (unheard (ID (b_Header b))) ns →
      net_step (MkNet ns bs) (MkNet (<[i := n']> ns) (bs ++ [b]))
  | arrive_step w i ip b n n' ns bs : ns !! i = Some n → b ∈ bs →
      step w (cfg i) (kp i) (order i) fuel (ERequest ip (RGossipBlock (Some b))) n = OK n' tt →
      net_step (MkNet ns bs) (MkNet (<[i := n']> ns) bs).

(** *** The invariant *)

(** The node has taken the first [k] of the blocks made, and has not heard of the others. *)
Record at_ (m : Z) (v0 : View) (bs : list Block) (k : nat) (n : Node) : Prop := {
  at_le : (k <= length bs)%nat;
  at_view : follows blockTime v0 (take k bs) (view_of (chain_of n));
  at_ready : ready (m + Z.of_nat k) (chain_of n);
  at_known : ∀ j b, bs !! j = Some b → (j < k)%nat → knows n b;
  at_unheard : ∀ j b, bs !! j = Some b → (k <= j)%nat → unheard (ID (b_Header b)) n;
}.

Record coherent (m : Z) (v0 : View) (N : Net) : Prop := {
  co_history : ∃ v, follows blockTime v0 (nt_made N) v;
  co_ids : NoDup ((λ b, ID (b_Header b)) <$> nt_made N);
  co_nonzero : Forall (λ b, ID (b_Header b) ≠ Zero) (nt_made N);
  co_nodes : ∀ i n, nt_nodes N !! i = Some n → ∃ k, at_ m v0 (nt_made N) k n;
}.

Context (Hmode : ∀ i, nc_Consensus (cfg i) = "postorage" ∧ block_time (cfg i) = blockTime).
Context (Hkey : ∀ i, key_ok (kp_Priv (kp i)) (kp_Pub (kp i))) (Hfuel : (0 < fuel)%nat).
Context (m : Z) (v0 : View).

Lemma at_same bs k n n' : same_blocks (chain_of n) (chain_of n') → at_ m v0 bs k n → at_ m v0 bs k n'.
Proof.
  intros Hs [A1 A2 A3 A4 A5]. destruct (same_visible _ _ Hs) as (_ & _ & _ & Et & _). split; [done|by rewrite (same_view _ _ Hs)|by eapply same_ready|..].
  - intros j b Hj Hl. unfold knows. rewrite Et. by eapply A4.
  - intros j b Hj Hl. unfold unheard. destruct Hs as (_ & El & _). rewrite Et, El. by eapply A5.
Qed.

Lemma at_knows bs k n j b : at_ m v0 bs k n → bs !! j = Some b → knows n b ↔ (j < k)%nat.
Proof.
  intros Ha Hj. split; [|by eapply at_known]. intros [e He]. destruct (Nat.lt_ge_cases j k) as [|Hge]; [done|].
  destruct (at_unheard _ _ _ _ _ Ha j b Hj Hge) as [Hn _]. congruence.
Qed.

Lemma at_all bs k n : at_ m v0 bs k n → Forall (knows n) bs → k = length bs.
Proof.
  intros Ha Hall. pose proof (at_le _ _ _ _ _ Ha). destruct (Nat.eq_dec k (length bs)) as [|Hne]; [done|].
  destruct (lookup_lt_is_Some_2 bs k) as [b Hb]; [lia|]. rewrite Forall_lookup in Hall. specialize (Hall k b Hb).
  apply (at_knows _ _ _ _ _ Ha Hb) in Hall. lia.
Qed.

(** The next block of the history was taken. *)
Lemma at_next bs k n n' b set s v : at_ m v0 bs k n → m + Z.of_nat (length bs) < W64 → NoDup ((λ b, ID (b_Header b)) <$> bs) →
  bs !! k = Some b → ID (b_Header b) ≠ Zero → links blockTime b (view_of (chain_of n)) v → follows blockTime v0 (take (S k) bs) v →
  taken b set s (chain_of n) (chain_of n') → view_of (chain_of n') = v → at_ m v0 bs (S k) n'.
Proof.
  intros [A1 A2 A3 A4 A5] Hw Hnd Hb Hnz HL Hf Htk Ev. destruct (taken_knows _ _ _ _ _ Htk) as [Hk Ho].
  assert (∀ j c, bs !! j = Some c → j ≠ k → ID (b_Header c) ≠ ID (b_Header b)) as Hdist.
  { intros j c Hj Hne E. apply Hne. eapply (NoDup_lookup _ j k (ID (b_Header b)) Hnd); rewrite list_lookup_fmap; [by rewrite Hj, <- E|by rewrite Hb]. }
  pose proof (lookup_lt_Some _ _ _ Hb) as Hlt. split; [lia|by rewrite Ev| | |].
  - replace (m + Z.of_nat (S k)) with (m + Z.of_nat k + 1) by lia.
    eapply ready_next; [exact A3|lia|exact Htk|by destruct (A5 k b Hb ltac:(lia))|exact (lk_prev _ _ _ _ HL)|done|exact (lk_since _ _ _ _ HL)].
  - intros j c Hj Hl. destruct (decide (j = k)) as [->|Hne]; [rewrite Hb in Hj; by injection Hj as <-|].
    destruct (Ho (ID (b_Header c))) as [E1 _]; [by eapply Hdist|]. unfold knows. rewrite E1. eapply A4; [done|lia].
  - intros j c Hj Hl. destruct (Ho (ID (b_Header c))) as [E1 E2]; [eapply Hdist; [done|lia]|]. unfold unheard. rewrite E1, E2. eapply A5; [done|lia].
Qed.

Lemma at_app bs b k n : at_ m v0 bs k n → unheard (ID (b_Header b)) n → at_ m v0 (bs ++ [b]) k n.
Proof.
  intros [A1 A2 A3 A4 A5] Hu. split; [rewrite length_app; lia|by rewrite take_app_le|done|..]; intros j c Hj Hl.
  - rewrite lookup_app_l in Hj by lia. by eapply A4.
  - apply lookup_app_Some in Hj as [Hj|[_ Hj]]; [by eapply A5|]. apply list_lookup_singleton_Some in Hj as [_ <-]. exact Hu.
Qed.

(** A block arrives: if it is the next one and its sender is not banned, it is taken;
    otherwise the node stays where it is. *)
Lemma at_arrival w i ip ns bs b k n n' : coherent m v0 (MkNet ns bs) → m + Z.of_nat (length bs) < W64 → at_ m v0 bs k n → b ∈ bs →
  step w (cfg i) (kp i) (order i) fuel (ERequest ip (RGossipBlock (Some b))) n = OK n' tt →
  let r := Banned (w_now w (sv_clock (nd_srv n))) ip (sv_bans (nd_srv n)) in
  if r.1 then at_ m v0 bs k n' else
  if decide (bs !! k = Some b) then at_ m v0 bs (S k) n' ∧ sv_bans (nd_srv n') = r.2 else at_ m v0 bs k n'.
Proof.
  intros [[v Hv] Hnd Hnz _] Hw Ha (j & Hj)%list_elem_of_lookup E r. cbn [nt_made] in *. destruct (Hmode i) as [Hpo Hbt].
  destruct (arrival w (cfg i) (kp i) (order i) fuel ip b n n' Hpo E) as [Ec Eb]. fold r in Ec, Eb.
  assert (chain_of n' = chain_of n → at_ m v0 bs k n') as Hstay by (intros Es; apply (at_same bs k n n'); [by rewrite Es|done]).
  destruct r.1; [by apply Hstay|]. pose proof Ha as [A1 A2 A3 A4 A5]. unfold accepts in *. rewrite Hbt in *. case_decide as Hk.
  - destruct (follows_next blockTime bs v0 v k _ b Hv A2 Hk) as (u & HL & HF). destruct (A5 k b Hk ltac:(lia)) as [Hnew _].
    pose proof (lookup_lt_Some _ _ _ Hk). rewrite Forall_lookup in Hnz.
    match type of Ec with _ = out_state (AcceptBlock _ ?a ?b' _ ?d _ _ _) =>
      destruct (accept_links blockTime (cfg i) (kp i) a b' d fuel (m + Z.of_nat k) (chain_of n) b u Hpo Hfuel A3 ltac:(lia) HL Hnew) as (Ev & (set & s & Ht) & Hne) end.
    rewrite <- Ec in Ev, Ht. split; [eapply (at_next bs k n n' b set s u); eauto; by eapply Hnz|exact (Eb Hne)].
  - destruct (Nat.lt_trichotomy j k) as [Hlt|[->|Hgt]]; [|done|].
    + apply Hstay. rewrite Ec, accept_known; [done|by destruct A3|by eapply A4].
    + destruct j as [|j]; [lia|]. destruct (lookup_lt_is_Some_2 bs j) as [p Hp]; [apply lookup_lt_Some in Hj; lia|].
      apply (at_same bs k n n'); [rewrite Ec; apply accept_orphan; [done|by destruct (A5 _ _ Hj ltac:(lia))|]|done].
      rewrite (follows_prev blockTime bs v0 v j p b Hv Hp Hj). by destruct (A5 _ _ Hp ltac:(lia)).
Qed.

Lemma at_aside w i e bs k n n' : aside e → at_ m v0 bs k n →
  on_tick w (cfg i) (kp i) (order i) fuel e n = OK n' tt ∨ (∃ x, on_tick w (cfg i) (kp i) (order i) fuel e n = ERR n' x) → at_ m v0 bs k n'.
Proof.
  intros He Ha E. enough (chain_of n' = chain_of n) as Ec by (apply (at_same bs k n n'); [by rewrite Ec|done]).
  set (I := λ s, sv_chain s = chain_of n). assert (keeps (framed_node I) (on_tick w (cfg i) (kp i) (order i) fuel e)) as Hk.
  { destruct e as [| | | | |ip r]; [done|exact (keeps_persist I)|by apply (keeps_maybeProveStorage I)| |done|]; cbn [on_tick].
    - apply keeps_bind; [apply (keeps_on_srv I), (keeps_AuditRound I)|intros; apply keeps_ret].
    - apply keeps_bind; [|intros; apply keeps_ret]. apply (keeps_on_srv I), (keeps_banGate I), (keeps_handle_plain I).
      by destruct r as [| | | | | | | | | | | | | | |[]|[]|[]| | | |]. }
  specialize (Hk n eq_refl). unfold wp in Hk. by destruct E as [E|[x E]]; rewrite E in Hk.
Qed.

(** Every step keeps the network coherent. *)
Lemma coherent_step N N' : net_step N N' → m + Z.of_nat (length (nt_made N')) < W64 → coherent m v0 N → coherent m v0 N'.
Proof.
  intros Hs Hw Hco. assert (∀ bs ns i n n', nt_made N = bs → nt_nodes N = ns → ns !! i = Some n →
    (∀ k, at_ m v0 bs k n → ∃ k', at_ m v0 bs k' n') → coherent m v0 (MkNet (<[i := n']> ns) bs)) as Hgo.
  { intros bs ns i n n' <- <- Hi Hn. destruct Hco as [C1 C2 C3 C4]. split; [done..|]. intros j x. cbn [nt_nodes nt_made].
    intros [(<- & <- & _)|(_ & Hj)]%list_lookup_insert_Some; [|by apply (C4 j)]. destruct (C4 i n Hi) as [k Hk]. by apply (Hn k). }
  destruct Hs as [w i e n n' ns bs Hi He E|w i e n n' ns bs Hi He E Ec|w i n n' b ns bs Hi Hall Hclock E Hmoved Hb Hnz Hnew|w i ip b n n' ns bs Hi Hb E];
    cbn [nt_made] in Hw.
  - apply (Hgo bs ns i n n'); [done..|]. intros k Ha. exists k. by eapply at_aside.
  - apply (Hgo bs ns i n n'); [done..|]. intros k Ha. exists k. apply (at_same bs k n n'); [by rewrite Ec|done].
  - destruct Hco as [[v C1] C2 C3 C4]. cbn [nt_made nt_nodes] in *. rewrite length_app in Hw. simpl in Hw. destruct (Hmode i) as [Hpo Hbt].
    destruct (C4 i n Hi) as [k Hk]. pose proof (at_all bs k n Hk Hall) as ->. pose proof Hk as [_ A2 A3 _ _].
    destruct (tick_links w (cfg i) (kp i) (order i) fuel _ n n' Hpo (Hkey i) A3 Hclock E Hmoved) as (b' & set & s & Eh & HL & Ht).
    rewrite Eh, (tk_lookup _ _ _ _ _ Ht), decide_True in Hb by done. injection Hb as ->. rewrite Hbt in HL. rewrite firstn_all in A2.
    pose proof (follows_fun _ _ _ _ _ C1 A2) as ->. rewrite Forall_lookup in Hnew.
    assert (follows blockTime v0 (bs ++ [b]) (view_of (chain_of n'))) as Hf by (apply follows_app; eexists; split; [done|]; by eexists).
    assert (NoDup ((λ b, ID (b_Header b)) <$> bs ++ [b])) as Hnd.
    { rewrite fmap_app. apply NoDup_app. split; [done|]. split; [|apply NoDup_singleton].
      intros id (c & Ec & Hc)%list_elem_of_fmap Ei%list_elem_of_singleton. rewrite Forall_forall in Hall. destruct (Hall c Hc) as [e He].
      destruct (Hnew i n Hi) as [Hn _]. cbv beta in Ei. congruence. }
    split; cbn [nt_made nt_nodes]; [by eexists|done|by apply Forall_app_2; [|apply Forall_singleton]|].
    intros j x [(<- & <- & _)|(_ & Hj)]%list_lookup_insert_Some; [|destruct (C4 j x Hj) as [k Hx]; exists k; by apply at_app; [|eapply Hnew]].
    exists (S (length bs)). eapply (at_next (bs ++ [b]) (length bs) n n' b set s (view_of (chain_of n'))); try done.
    + by apply at_app; [|eapply Hnew].
    + rewrite length_app. simpl. lia.
    + by apply list_lookup_middle.
    + by rewrite take_ge by (rewrite length_app; simpl; lia).
  - apply (Hgo bs ns i n n'); [done..|]. intros k Ha. pose proof (at_arrival w i ip ns bs b k n n' Hco Hw Ha Hb E) as Har. cbv zeta in Har.
    destruct (Banned _ _ _).1; [by exists k|]. destruct (decide _); [|by exists k]. exists (S k). tauto.
Qed.

Lemma made_grows N N' : net_step N N' → (length (nt_made N) <= length (nt_made N'))%nat.
Proof. destruct 1; cbn [nt_made]; rewrite ?length_app; lia. Qed.

(** The nodes start at the same view, each with its tip on the heaviest branch. *)
Definition start (ns : list Node) : Prop := ∀ i n, ns !! i = Some n → view_of (chain_of n) = v0 ∧ ready m (chain_of n).

Lemma coherent_reach ns N : start ns → rtc net_step (MkNet ns []) N → m + Z.of_nat (length (nt_made N)) < W64 → coherent m v0 N.
Proof.
  intros Hs Hr. refine (rtc_ind_r (λ N, m + Z.of_nat (length (nt_made N)) < W64 → coherent m v0 N) _ _ _ N Hr); clear N Hr.
  - intros _. split; [by exists v0|constructor|constructor|]. intros i n Hi. destruct (Hs i n Hi) as [Ev Hrd]. exists 0%nat.
    split; [done|done|by rewrite Z.add_0_r|..]; by intros j b Hj.
  - intros N N' _ Hst IH Hw. eapply coherent_step; [exact Hst|exact Hw|]. apply IH. pose proof (made_grows _ _ Hst). lia.
Qed.


Lemma catch_up w i ip ns bs : coherent m v0 (MkNet ns bs) → m + Z.of_nat (length bs) < W64 → ∀ d k n, (k + d)%nat = length bs →
  at_ m v0 bs k n → free ip (sv_bans (nd_srv n)) →
  ∃ n', run w (cfg i) (kp i) (order i) fuel ((λ b, ERequest ip (RGossipBlock (Some b))) <$> drop k bs) n = OK n' tt ∧ at_ m v0 bs (length bs) n'.
Proof.
  intros Hco Hw. induction d as [|d IH]; intros k n Hd Ha Hf.
  - rewrite drop_ge by lia. exists n. split; [done|]. by replace (length bs) with k by lia.
  - destruct (lookup_lt_is_Some_2 bs k) as [b Hb]; [lia|]. rewrite (drop_S _ _ _ Hb), fmap_cons. cbn [run].
    rewrite (bind_ok _ _ _ _ _ (step_request w (cfg i) (kp i) (order i) fuel ip b n)).
    pose proof (at_arrival w i ip ns bs b k n _ Hco Hw Ha (list_elem_of_lookup_2 _ _ _ Hb) (step_request _ _ _ _ _ _ _ _)) as Har. cbv zeta in Har.
    rewrite Banned_free in Har by done. cbn [fst snd] in Har. rewrite decide_True in Har by done. destruct Har as [Ha' Eb].
    apply (IH (S k)); [lia|exact Ha'|]. by rewrite Eb.
Qed.

End network.

(** ** Two nodes *)

(** [bob]'s node and a copy of it; the first makes a block, which the second hears of. *)
Lemma bob_ready : ready 1 (chain_of bob_node).
Proof.
  change (chain_of bob_node) with bob_chain. assert (ch_tree bob_chain = {[ ID (ch_head bob_chain) := MkEntry Zero 4 1 ]}) as Et by exact chain1_tree.
  split; rewrite ?Et.
  - reflexivity.
  - by apply no_bloom.
  - vm_compute. discriminate.
  - vm_compute. discriminate.
  - exists tip_block. split; vm_compute; reflexivity.
  - apply map_Forall_singleton, length_sha256.
  - exists (MkEntry Zero 4 1). split; [apply lookup_singleton_eq|]. split; [simpl; lia|].
    intros id' e' [<- <-]%lookup_singleton_Some. simpl. lia.
Qed.

Abbreviation bob_step := (@step demo_platform plain_code quiet postorage_cfg bob_key pool_order 5).
Definition maker_run : outcome Node unit := bob_step EBlock bob_node.
Definition maker : Node := out_state maker_run.
Definition made_found : option Block := lookup_block (chain_of maker) (ID (ch_head (chain_of maker))).
Definition made_block : Block := default pay_block made_found.
Definition arrived : event := ERequest "1.2.3.4" (RGossipBlock (Some made_block)).
Definition hearer_run : outcome Node unit := bob_step arrived bob_node.
Definition hearer : Node := out_state hearer_run.

Definition pair_tests : list bool :=
  [is_OK maker_run; hd_Height (ch_head (chain_of maker)) =? 5; negb (is_none made_found);
   negb (bool_decide (ID (b_Header made_block) = Zero)); is_none (ch_tree bob_chain !! ID (b_Header made_block));
   is_none (lookup_block bob_chain (ID (b_Header made_block))); is_OK hearer_run;
   negb (is_none (ch_tree (chain_of maker) !! ID (b_Header made_block)));
   negb (is_none (ch_tree (chain_of hearer) !! ID (b_Header made_block)))].

Lemma pair_runs : forallb id pair_tests = true.
Proof. vm_compute. reflexivity. Qed.

Abbreviation pair_step := (@net_step demo_platform plain_code (λ _, postorage_cfg) (λ _, bob_key) (λ _, pool_order) 5).
Definition bob_view : View := view_of bob_chain.
Definition two : Net := MkNet [bob_node; bob_node] [].
(** The first has made its block, and then the second hears of it. *)
Definition one_ahead : Net := MkNet [maker; bob_node] [made_block].
Definition both_know : Net := MkNet [maker; hearer] [made_block].

Lemma two_start : start 1 bob_view [bob_node; bob_node].
Proof.
  intros [|[|i]] n Hi; [injection Hi as <-..|discriminate Hi]; split; [reflexivity|exact bob_ready|reflexivity|exact bob_ready].
Qed.

Lemma quiet_clock h : hd_Timestamp h <= 100 → sane_clock quiet h.
Proof. intros Ht. split; [intros; apply Z.le_refl|]. intros i. change (w_now quiet i / 1000000000) with 100. lia. Qed.

Lemma pair_makes : pair_step two one_ahead.
Proof.
  pose proof (tests_pass _ pair_runs) as F. lazy delta [pair_tests passed] beta iota in F.
  destruct F as (Hok%is_OK_unit & Hh%Z.eqb_eq & [b Hf]%is_none_false & Hnz%negb_true_iff%bool_decide_eq_false & Ht%is_none_true & Hl%is_none_true & _).
  apply (make_step (λ _, postorage_cfg) (λ _, bob_key) (λ _, pool_order) 5 quiet 0 bob_node maker made_block [bob_node; bob_node] []).
  - reflexivity.
  - constructor.
  - apply quiet_clock. vm_compute. discriminate.
  - exact Hok.
  - intros E. rewrite E in Hh. discriminate Hh.
  - change (made_found = Some (default pay_block made_found)). rewrite Hf. reflexivity.
  - exact Hnz.
  - assert (unheard (ID (b_Header made_block)) bob_node) as Hu by exact (conj Ht Hl).
    constructor; [exact Hu|]. constructor; [exact Hu|constructor].
Qed.

Lemma pair_hears : pair_step one_ahead both_know.
Proof.
  pose proof (tests_pass _ pair_runs) as F. lazy delta [pair_tests passed] beta iota in F.
  destruct F as (_ & _ & _ & _ & _ & _ & Hok%is_OK_unit & _).
  apply (arrive_step (λ _, postorage_cfg) (λ _, bob_key) (λ _, pool_order) 5 quiet 1 "1.2.3.4" made_block bob_node hearer [maker; bob_node] [made_block]).
  - reflexivity.
  - apply list_elem_of_here.
  - exact Hok.
Qed.

Lemma pair_settings : (∀ i : nat, nc_Consensus postorage_cfg = "postorage" ∧ block_time postorage_cfg = 5) ∧
  (∀ i : nat, key_ok (H:=@pf_ed demo_platform) (kp_Priv bob_key) (kp_Pub bob_key)).
Proof. split; [by split|]. intros _. split; [reflexivity|]. intros msg. reflexivity. Qed.


