(* ===== verification/NodePool.v ===== *)
(** * The node: from the pool to the chain

    What a tick of the block timer takes from the pool and what becomes of it, and a
    transaction that keeps a producer from ever producing again. *)

From S2P Require Import Prelude Sha256 Crypto Economy Merkle Netparams Types Pos Forkchoice Rendezvous Consensus Erasure Bloom Vm State StateInv StateBlock StateAtomic StateRules Demo Mempool Strconv Chain ChainProps ChainShards ChainReorg Peers P2p NetDemo P2pProps P2pGossip Node ChainAccept NodeProps.

Local Abbreviation M := Prelude.M.

(** ** The block of a producer *)

Lemma with_coinbase_payload to a txs : Forall (λ t, IsCoinbase t = false) txs → (coinbase_of (with_coinbase to a txs)).2 = txs.
Proof. unfold with_coinbase. destruct (0 <? a); [done|]. intros [|t r Ht _]; [done|]. simpl. by rewrite Ht. Qed.

Section block.
Context `{Platform} `{ReedSolomon} (self : string) (members : list string) (fd : Z) (fuel : nat).
Abbreviation produce := (ProduceBlock self members fd fuel).

(** The transactions of the block [produce] makes on [P]. *)
Definition full_of (txs : list Transaction) (kp : KeyPair) (P : Chain) : list Transaction :=
  with_coinbase (KeyPair_Address kp) (u64 (NextReward (ch_state P) (u64 (hd_Height (ch_head P) + 1)) + total_fees txs)) txs.

Lemma ProduceBlock_txs txs kp round now P P' blk set : produce txs kp round now P = OK P' (blk, set) → b_Txs blk = full_of txs kp P.
Proof.
  unfold ProduceBlock. rewrite (bind_ok get _ _ _ _ eq_refl), bind_require. destruct (ch_hasGen P); [|done]. cbv zeta.
  intros (? & P1 & _ & E)%bind_OK_inv. rewrite (bind_ok get _ _ _ _ eq_refl) in E. apply bind_OK_inv in E as (? & P2 & _ & E).
  apply bind_OK_inv in E as (? & P3 & _ & E). apply bind_OK_inv in E as (? & P4 & _ & E). apply bind_OK_inv in E as (? & P5 & _ & E).
  apply bind_OK_inv in E as (? & P6 & _ & E). by apply OK_inj in E as [_ [= <- _]].
Qed.

(** When it fails, the tip has not moved; and the accounts are what they were, unless the
    block executed and its body could not be cut into shards. *)
Lemma ProduceBlock_err txs kp round now P P' e : bloom_ok P → produce txs kp round now P = ERR P' e →
  ch_head P' = ch_head P ∧ ch_bloom P' = ch_bloom P ∧
  ((∀ a, Get (ch_state P') a = Get (ch_state P) a) ∨
   ∃ blk s e', b_Txs blk = full_of txs kp P ∧ ApplyBlock blk (resolve (ch_store P) (ch_state P)) = OK s tt ∧ ch_state P' = s ∧
     BuildShardSet (ID (b_Header blk)) (Body blk) (hd_Spec (b_Header blk)) = Err e').
Proof.
  intros Hb E. pose proof (ProduceBlock_fails self members fd fuel txs kp round now P Hb) as Hf. unfold wp in Hf. rewrite E in Hf.
  split; [exact Hf|]. clear Hf. revert E. unfold ProduceBlock. rewrite (bind_ok get _ _ _ _ eq_refl), bind_require.
  destruct (ch_hasGen P); [|by intros [= -> _]; split; [|left]]. cbv zeta. fold (full_of txs kp P).
  set (draft := draft_header _ _ _ _ _ _). set (full := full_of _ _ _). unfold mbind at 1, M_bind at 1. rewrite apply_state_run.
  destruct (ApplyBlock _ _) as [s []|s er|s] eqn:Ea; [| |done].
  2: { intros [= <- _]. split; [done|]. left. intros a. apply ApplyBlock_undone in Ea as [Hg _]. exact (Hg a). }
  rewrite (bind_ok get _ _ _ _ eq_refl). set (hdr := Header_Sign _ _).
  pose proof (persistBlockSet_run self members hdr (EncodeTxs full) (set_ledger s P) (ledger_bloom s P Hb)) as Hp.
  destruct (BuildShardSet (ID hdr) (EncodeTxs full) (hd_Spec hdr)) as [[shards set]|e'|] eqn:Es.
  - destruct Hp as (c1 & E1 & _ & Hb1 & _). rewrite (bind_ok _ _ _ _ _ E1). unfold mbind at 1, M_bind at 1.
    destruct (persistLogs_run self members hdr c1 Hb1) as [(_ & c2 & -> & _)|[_ ->]]; [|done].
    rewrite (bind_ok (modify _) _ _ _ _ eq_refl), (bind_ok (recordBlock _) _ _ _ _ eq_refl). unfold mbind, M_bind.
    match goal with |- context [advanceFinality ?a ?b ?c] => pose proof (advanceFinality_quiet a b c) as Hq; unfold wp in Hq; by destruct (advanceFinality a b c) end.
  - unfold mbind, M_bind. rewrite Hp. intros [= <- _]. split; [done|]. right. exists (MkBlock hdr full), s, e'.
    split; [done|]. split; [|done]. rewrite (ApplyBlock_header hdr draft) by done. exact Ea.
  - unfold mbind, M_bind. by rewrite Hp.
Qed.

(** With a transaction no ledger executes, it does not succeed, and leaves the accounts. *)
Lemma ProduceBlock_refused t txs kp round now P : bloom_ok P → Forall (λ t, IsCoinbase t = false) txs → t ∈ txs → poison t →
  match produce txs kp round now P with
  | OK _ _ => False
  | ERR P' _ => ch_head P' = ch_head P ∧ ch_bloom P' = ch_bloom P ∧ ∀ a, Get (ch_state P') a = Get (ch_state P) a
  | PANIC _ => True
  end.
Proof.
  intros Hb Hc Ht Hp.
  assert (∀ blk s, b_Txs blk = full_of txs kp P → ApplyBlock blk (resolve (ch_store P) (ch_state P)) ≠ OK s tt) as Hno.
  { intros blk s Eb. apply (poison_refused t _ _ _ Hp). unfold payload. rewrite Eb. unfold full_of. by rewrite with_coinbase_payload. }
  destruct (produce txs kp round now P) as [P' [blk set]|P' e|P'] eqn:E; [|..|done].
  - pose proof (ProduceBlock_txs _ _ _ _ _ _ _ _ E) as Eb. apply ProduceBlock_inv in E as (s & _ & _ & _ & _ & _ & _ & _ & _ & Ea & _); [|done].
    exact (Hno blk s Eb Ea).
  - apply ProduceBlock_err in E as (Hh & Hf & [Hg|(blk & s & e' & Eb & Ea & _)]); [done| |done]. by destruct (Hno blk s Eb).
Qed.
End block.

(** ** A tick *)

Section tick.
Context `{Platform} `{ReedSolomon} (w : World) (cfg : NodeConfig) (kp : KeyPair).
Context (order : nat → Server → list Transaction * list Address) (fuel : nat).
(** Ranging over the pool visits each transaction once, and each sender once. *)
Context (Hord : ∀ k s, reap_orders (sv_pool s) (order k s).1 (order k s).2).

Definition pool_of (n : Node) : Pool := sv_pool (nd_srv n).
Definition ledger_of (n : Node) : State := P2p.ledger (nd_srv n).
Definition pooled (t : Transaction) (n : Node) : Prop := p_byID (pool_of n) !! tx_Hash t = Some t.

Lemma order_pooled n k t : pool_wf (pool_of n) →
  t ∈ (order k (P2p.set_clock k (nd_srv n))).1 ↔ pooled t n.
Proof.
  intros Hw. destruct (Hord k (P2p.set_clock k (nd_srv n))) as [Hp _]. rewrite Hp. unfold pooled. change (sv_pool (P2p.set_clock k (nd_srv n))) with (pool_of n).
  rewrite list_elem_of_fmap. split.
  - intros ([id u] & -> & Hin%elem_of_map_to_list). simpl. by destruct (Hw id u Hin) as [<- _].
  - intros Hl. exists (tx_Hash t, t). split; [done|]. by apply elem_of_map_to_list.
Qed.

(** What [Reap] hands to the producer at the [k]-th observation. *)
Definition reaped (n : Node) (k : nat) : list Transaction :=
  Reap (ledger_of n) (order k (P2p.set_clock k (nd_srv n))).1 (order k (P2p.set_clock k (nd_srv n))).2 1000.

Definition words (n : Node) : Prop := ∀ a, is_u64 (ac_Nonce (Get (ledger_of n) a)).

Lemma reaped_pooled n k : pool_wf (pool_of n) → words n →
  zlen (reaped n k) <= 1000 ∧ (∀ t, t ∈ reaped n k → pooled t n) ∧ Forall (λ t, IsCoinbase t = false) (reaped n k).
Proof.
  intros Hw Hu. destruct (Reap_contiguous (ledger_of n) _ _ _ 1000 (Hord k (P2p.set_clock k (nd_srv n))) Hu eq_refl) as (Hl & Hin & _).
  split; [exact Hl|]. assert (∀ t, t ∈ reaped n k → pooled t n) as Hp by (intros t Ht; by apply (order_pooled n k), Hin).
  split; [exact Hp|]. apply Forall_forall. intros t Ht. by destruct (Hw _ _ (Hp t Ht)).
Qed.

(** The pooled transaction is next for its sender, and its sender has no other. *)
Definition next_up (t : Transaction) (n : Node) : Prop :=
  pooled t n ∧ tx_Nonce t = ac_Nonce (Get (ledger_of n) (tx_From t)) ∧ ∀ u, pooled u n → tx_From u = tx_From t → u = t.

Lemma next_reaped n k t : pool_wf (pool_of n) → words n → Len (pool_of n) < 1000 → next_up t n → t ∈ reaped n k.
Proof.
  intros Hw Hu Hl (Hp & Hn & Hone). apply (Reap_takes (ledger_of n) _ _ _ 1000 (Hord k (P2p.set_clock k (nd_srv n))) Hu); [exact Hl| | |exact Hn].
  - by apply order_pooled.
  - intros u Hin. apply Hone. by apply (order_pooled n k).
Qed.

(** The two outcomes of a tick: the node as it was, or a block of what was reaped. *)
Lemma tick_block (n n' : Node) : bloom_ok (chain_of n) → pool_wf (pool_of n) → words n → maybeProduce w cfg kp order fuel n = OK n' tt →
  (ch_head (chain_of n') = ch_head (chain_of n) ∧ pool_of n' = pool_of n ∧
   ((∀ a, Get (ledger_of n') a = Get (ledger_of n) a) ∨
    ∃ blk e, ApplyBlock blk (ledger_of n) = OK (ch_state (chain_of n')) tt ∧
      BuildShardSet (ID (b_Header blk)) (Body blk) (hd_Spec (b_Header blk)) = Err e)) ∨
  ∃ k blk, b_Txs blk = full_of (reaped n k) kp (chain_of n) ∧ payload blk = reaped n k ∧ zlen (b_Txs blk) < W64 ∧
    hd_Height (b_Header blk) = u64 (hd_Height (ch_head (chain_of n)) + 1) ∧ hd_Validator (b_Header blk) = Node.self kp ∧
    ch_head (chain_of n') = b_Header blk ∧ ApplyBlock blk (ledger_of n) = OK (ch_state (chain_of n')) tt ∧
    nd_saved n' = State_Save (ch_state (chain_of n')) ∧ pool_of n' = Remove (reaped n k) (pool_of n).
Proof.
  intros Hb Hw Hu E. destruct (maybeProduce_tick w cfg kp order fuel n) as [[k Ek]|(k1 & k0 & k2 & _ & _ & Hp)].
  { left. rewrite Ek in E. apply OK_inj in E as [<- _]. split; [done|]. split; [done|]. by left. }
  change (Reap _ _ _ 1000) with (reaped n k0) in Hp. destruct (reaped_pooled n k0 Hw Hu) as (Hlen & Hin & Hcb).
  destruct (ProduceBlock _ _ _ _ (reaped n k0) kp _ _ (chain_of n)) as [c [blk set]|c er|c] eqn:Ep.
  - right. exists k0, blk. destruct Hp as (n2 & E2 & Hl & Hsv). rewrite E in E2. apply OK_inj in E2 as [-> _]. injection Hl as _ Hc Hpl _.
    change (sv_chain (nd_srv n2)) with (chain_of n2) in Hc. change (sv_pool (nd_srv n2)) with (pool_of n2) in Hpl. subst c.
    pose proof (ProduceBlock_txs _ _ _ _ _ _ _ _ _ _ _ _ Ep) as Et.
    apply ProduceBlock_inv in Ep as (s & shards & _ & Hh & _ & _ & _ & _ & _ & Ea & _ & _ & _ & Es & Eh & h & Esig); [|done].
    subst s. split_and!; [exact Et|unfold payload; rewrite Et; by apply with_coinbase_payload| |exact Hh|by rewrite Esig|exact Eh|exact Ea|exact Hsv|exact Hpl].
    rewrite Et. unfold full_of, with_coinbase, zlen, W64 in *. rewrite length_app. destruct (0 <? _); simpl length; lia.
  - left. destruct Hp as (n2 & E2 & Hl & _). rewrite E in E2. apply OK_inj in E2 as [-> _]. injection Hl as _ Hc Hpl _.
    change (sv_chain (nd_srv n2)) with (chain_of n2) in Hc. subst c. apply ProduceBlock_err in Ep as (Hh & _ & Hg); [|done].
    split; [exact Hh|]. split; [exact Hpl|]. destruct Hg as [Hg|(blk & s & e' & _ & Ea & <- & Es)]; [left; exact Hg|right]. by exists blk, e'.
  - destruct Hp as [n2 E2]. congruence.
Qed.


(** [C36] One transaction stops a producer for good, and costs nothing.  Let the pool of a
    node, of less than a thousand transactions, hold a registration whose bond is below
    the minimum, next for its sender and its only one: the ledger check admits it from a
    key without any account.  Then however long the loop runs, with its ticks and its saves,
    and whoever is elected, no block is made: the tip, the pool and the accounts stay as they
    are, as long as no panic ends the process. *)
Theorem poison_stops_producer (n n' : Node) (t : Transaction) (es : list event) (Hb : bloom_ok (chain_of n))
  (Hw : pool_wf (pool_of n)) (Hu : words n) (Hl : Len (pool_of n) < 1000) (Hp : poison t) (Ht : next_up t n)
  (Hes : Forall (λ e, e = EBlock ∨ e = ESave) es) (E : run w cfg kp order fuel es n = OK n' tt) :
  ch_head (chain_of n') = ch_head (chain_of n) ∧ pool_of n' = pool_of n ∧ ∀ a, Get (ledger_of n') a = Get (ledger_of n) a.
Proof.
  set (same m := ch_head (chain_of m) = ch_head (chain_of n) ∧ pool_of m = pool_of n ∧ ∀ a, Get (ledger_of m) a = Get (ledger_of n) a).
  assert (same n) as Hn by done. revert E. change (run w cfg kp order fuel es n = OK n' tt → same n').
  assert (∀ m, same m → bloom_ok (chain_of m) → run w cfg kp order fuel es m = OK n' tt → same n') as Hgo; [|by apply Hgo].
  clear Hn. induction Hes as [|e es He Hes IH]; intros m Hm Hbm E; [by apply OK_inj in E as [<- _]|].
  cbn [run] in E. apply bind_OK_inv in E as ([] & m1 & E1 & E). revert E. destruct Hm as (Hh & Hpl & Hg).
  assert (words m) as Hum by (intros a; rewrite Hg; apply Hu).
  assert (next_up t m) as Htm by (unfold next_up, pooled in *; rewrite Hpl, Hg; exact Ht).
  enough (same m1 ∧ bloom_ok (chain_of m1)) as [Hs1 Hb1] by by apply IH.
  unfold step, on_tick in E1. destruct He as [-> | ->].
  2: { apply OK_inj in E1 as [<- _]. done. }
  destruct (maybeProduce_tick w cfg kp order fuel m) as [[k Ek]|(k1 & k0 & k2 & _ & _ & Hd)].
  { rewrite Ek in E1. apply OK_inj in E1 as [<- _]. done. }
  assert (pool_wf (pool_of m)) as Hwm by by rewrite Hpl. change (Reap _ _ _ 1000) with (reaped m k0) in Hd.
  destruct (reaped_pooled m k0 Hwm Hum) as (_ & _ & Hcb).
  assert (t ∈ reaped m k0) as Hin by (apply next_reaped; [done|done|by rewrite Hpl|done]).
  match type of Hd with context [ProduceBlock ?a ?b ?c ?d ?t ?e ?f ?g ?h] =>
    pose proof (ProduceBlock_refused a b c d _ t e f g h Hbm Hcb Hin Hp) as Hr; destruct (ProduceBlock a b c d t e f g h) as [c' [blk set]|c' er|c'] end;
    [done| |by destruct Hd as [n2 E2]; rewrite E2 in E1].
  destruct Hr as (Hh' & Hf & Hg'), Hd as (n2 & E2 & Hl2 & _). rewrite E2 in E1. apply OK_inj in E1 as [<- _]. injection Hl2 as _ Hc Hpl2 _.
  change (sv_chain (nd_srv n2)) with (chain_of n2) in Hc. subst c'. split.
  - split; [by rewrite Hh'|]. split; [unfold pool_of at 1; by rewrite Hpl2|]. intros a. rewrite <- Hg. exact (Hg' a).
  - unfold bloom_ok. by rewrite Hf.
Qed.
End tick.

(** ** Concrete nodes *)

(** Ranging over the pool, and over the senders in the order of their first transaction. *)
Definition visit_order : nat → Server → list Transaction * list Address := λ _ s,
  let vals := (map_to_list (p_byID (sv_pool s))).*2 in (vals, remove_dups (tx_From <$> vals)).

Lemma visit_order_ok k s : reap_orders (sv_pool s) (visit_order k s).1 (visit_order k s).2.
Proof.
  split; [done|]. split; [apply NoDup_remove_dups|]. intros a. unfold visit_order. cbn [fst snd].
  rewrite elem_of_remove_dups, list_elem_of_fmap. split; intros (t & H1 & H2); exists t; by split.
Qed.

(** A node with one pooled transaction. *)
Definition holding (t : Transaction) (n : Node) : Node :=
  MkNode (P2p.set_pool (MkPool {[ tx_Hash t := t ]} 100) (nd_srv n)) (nd_saved n) (nd_filter n).

Lemma holding_wf t n : IsCoinbase t = false → pool_wf (pool_of (holding t n)).
Proof. intros Hc id u. unfold pool_of, holding. simpl. by intros [<- <-]%lookup_singleton_Some. Qed.

Lemma holding_next t n : pool_wf (pool_of (holding t n)) → tx_Nonce t = ac_Nonce (Get (ledger_of n) (tx_From t)) → next_up t (holding t n).
Proof.
  intros Hw Hn. unfold next_up, pooled, pool_of, holding. simpl. split; [apply lookup_singleton_eq|]. split; [exact Hn|].
  intros u [_ <-]%lookup_singleton_Some. done.
Qed.

Lemma bob_words t : words (holding t bob_node).
Proof. exact ledger0_nonces. Qed.

Abbreviation demo_produce := (@maybeProduce demo_platform plain_code quiet postorage_cfg bob_key visit_order 0).


(** A key without an account. *)
Definition mallory_pub : bytes := replicate 32 (zb 3).
Definition mallory : Address := Eval vm_compute in AddressFromPub mallory_pub.
Definition free_register : Transaction := tx_by mallory_pub mallory "" KindRegister 0 0 0 0 [].

Abbreviation demo_loop es := (@run demo_platform plain_code quiet postorage_cfg bob_key visit_order 0 es).

(** Bob makes a block at each of three ticks, and none with the registration in his pool. *)
Lemma poison_stops_producer_witness : let n := holding free_register bob_node in
  Get (ledger_of n) mallory = emptyAccount ∧ CheckTx (ledger_of n) free_register = Ok tt ∧
  hd_Height (ch_head (chain_of (out_state (demo_loop [EBlock; ESave; EBlock] bob_node)))) = 6 ∧
  ∃ n', demo_loop [EBlock; ESave; EBlock] n = OK n' tt ∧ hd_Height (ch_head (chain_of n')) = 4 ∧ pool_of n' = pool_of n.
Proof.
  cbv zeta. split; [vm_compute; reflexivity|]. split; [vm_compute; reflexivity|]. split; [vm_compute; reflexivity|].
  assert (is_OK (demo_loop [EBlock; ESave; EBlock] (holding free_register bob_node)) = true) as Hok by (vm_compute; reflexivity).
  apply is_OK_unit in Hok. exists (out_state (demo_loop [EBlock; ESave; EBlock] (holding free_register bob_node))). split; [exact Hok|].
  assert (pool_wf (pool_of (holding free_register bob_node))) as Hw by (apply holding_wf; vm_compute; reflexivity).
  destruct (@poison_stops_producer demo_platform plain_code quiet postorage_cfg bob_key visit_order 0 visit_order_ok
    (holding free_register bob_node) (out_state (demo_loop [EBlock; ESave; EBlock] (holding free_register bob_node)))
    free_register [EBlock; ESave; EBlock]) as (Hh & Hp & _).
  - by apply no_bloom.
  - exact Hw.
  - apply bob_words.
  - vm_compute. reflexivity.
  - split; [reflexivity|vm_compute; reflexivity].
  - apply holding_next; [exact Hw|]. vm_compute. reflexivity.
  - constructor; [by left|]. constructor; [by right|]. constructor; [by left|constructor].
  - exact Hok.
  - rewrite Hh. split; [vm_compute; reflexivity|exact Hp].
Defined.
