(* ===== verification/NodeRestart.v ===== *)
(** * The node: stopping and starting again

    What a node is after it was stopped and built again from its data directory: the same
    tip and the same ledger when the ledger was saved after the last block, and a tip ahead
    of its ledger when it was not. *)

From S2P Require Import Prelude Sha256 Crypto Economy Merkle Netparams Types Pos Forkchoice Rendezvous Consensus Erasure Bloom Vm State StateInv StateBlock StateFrame Demo Mempool Strconv Chain ChainProps ChainShards ChainReorg Peers P2p NetDemo P2pProps P2pGossip Node ChainAccept NodeProps.

Local Abbreviation M := Prelude.M.

(** ** What is on disk *)

(** The tip is the highest header stored, and its block is stored. *)
Record tip_stored (c : Chain) : Prop := {
  ts_gen : ch_hasGen c = true;
  ts_low : 0 <= hd_Height (ch_head c);
  ts_header : ∃ set, st_headers (ch_store c) !! hd_Height (ch_head c) = Some (ch_head c, set);
  ts_top : ∀ h r, st_headers (ch_store c) !! h = Some r → h <= hd_Height (ch_head c);
  ts_body : ∃ b, st_bodies (ch_store c) !! ID (ch_head c) = Some b ∧ b_Header b = ch_head c;
}.

Lemma Store_Height_top st h : 0 <= h → is_Some (st_headers st !! h) → (∀ k r, st_headers st !! k = Some r → k <= h) →
  Store_Height st = h.
Proof.
  intros Hlow [r Hr] Htop. unfold Store_Height. set (l := (map_to_list (st_headers st)).*1).
  assert (∀ k, k ∈ l → k <= h) as Hle.
  { intros k ([k' r'] & -> & Hk)%list_elem_of_fmap. apply elem_of_map_to_list in Hk. by eapply Htop. }
  assert (h ∈ l) as Hin by (apply list_elem_of_fmap; exists (h, r); split; [done|by apply elem_of_map_to_list]).
  apply Z.le_antisymm.
  - clear Hin. induction l as [|k l IH]; simpl; [done|]. apply Z.max_lub; [apply Hle, list_elem_of_here|].
    apply IH. intros k' Hk'. by apply Hle, list_elem_of_further.
  - clear Hle. induction l as [|k l IH]; [by apply elem_of_nil in Hin|]. simpl.
    apply elem_of_cons in Hin as [->|Hin]; [|specialize (IH Hin)]; lia.
Qed.

(** A block taken on top of the tip leaves the new tip stored. *)
Lemma tip_stored_next c c' blk set s : tip_stored c → hd_Height (b_Header blk) = hd_Height (ch_head c) + 1 →
  taken blk set s c c' → tip_stored c'.
Proof.
  intros [_ Hlow _ Htop _] Hh [Eh Eg _ _ Ehd Eb _ _]. split; rewrite ?Eh, ?Ehd, ?Eb; [done|lia| | |].
  - exists set. apply lookup_insert_eq.
  - intros h r. rewrite lookup_insert_Some. intros [[<- _]|[_ Hr]]; [lia|]. specialize (Htop h r Hr). lia.
  - exists blk. split; [apply lookup_insert_eq|done].
Qed.

Lemma New_files st s f : let c := Chain.New st s f in ch_state c = s ∧ ch_store c = st ∧ ch_bloom c = f.
Proof.
  cbv zeta. unfold Chain.New, loadReplayBase, GetBlockRaw, GetStateRaw. destruct (HasHeaders st); [destruct (GetHeader _ st) as [[hdr set]| |]; [destruct (st_bodies st !! _)|..]|];
    simpl; by destruct (st_base st) as [[[]]|].
Qed.

Section restart.
Context `{Platform} `{ReedSolomon}.

(** ** Construction from disk *)

(** The configuration [New] gives a ledger over the store [st]. *)
Definition network_cfg (st : Store) : Config :=
  MkConfig (cp_ChainID Mainnet) (cp_RegPoWBits Mainnet) (cp_FaucetBits Mainnet) (cp_FaucetAmount Mainnet)
    (cp_FaucetCooldown Mainnet) (cp_FaucetDepth Mainnet) founder (Some (BodyHashAt st))
    (cp_StorageWindow Mainnet) (cp_StorageMinDepth Mainnet) (cp_StorageCap Mainnet)
    (Some (Chain.ShardAt st)) (Some (Chain.ShardProofOK st)).

(** The ledger of a file, on the main network and over the store [st]. *)
Definition on_network (st : Store) (s : State) : State := set_cfg (network_cfg st) (relog [] s).

Context (cfg : NodeConfig) (kp : KeyPair).

(** The node, stopped and built again over what it left on disk. *)
Definition restarted (n : Node) : Node := New cfg kp (ch_store (chain_of n)) (nd_saved n) (nd_filter n).

Lemma restarted_ledger n s : nd_saved n = State_Save s →
  P2p.ledger (nd_srv (restarted n)) = on_network (ch_store (chain_of n)) s ∧
  ch_state (chain_of (restarted n)) = on_network (ch_store (chain_of n)) s.
Proof.
  intros E. unfold restarted, New. rewrite E. cbv beta iota zeta. unfold P2p.ledger. change (chain_of (MkNode ?x _ _)) with (sv_chain x).
  cbn [nd_srv NewServer sv_chain]. 
  match goal with |- context [Chain.New ?st ?s ?f] => destruct (New_files st s f) as (-> & -> & _) end. split; reflexivity.
Qed.

(** The tip a node comes back with is the highest stored header; its block is what the
    directory of blocks has. *)
Lemma restarted_head n h set : 0 <= hd_Height h → st_headers (ch_store (chain_of n)) !! hd_Height h = Some (h, set) →
  (∀ k r, st_headers (ch_store (chain_of n)) !! k = Some r → k <= hd_Height h) → let c := chain_of (restarted n) in
  ch_hasGen c = true ∧ ch_head c = h ∧ ch_store c = ch_store (chain_of n) ∧
  (∃ e, ch_tree c = {[ ID h := e ]} ∧ e_cum e = 1) ∧ lookup_block c (ID h) = st_bodies (ch_store (chain_of n)) !! ID h.
Proof.
  intros Hlow Hh Htop. unfold restarted, New. cbv beta iota zeta. unfold chain_of. cbn [nd_srv NewServer sv_chain].
  set (s0 := SetStorageProof _ _ _ _ _ _). fold (chain_of n). set (st := ch_store (chain_of n)) in *. unfold Chain.New.
  assert (HasHeaders st = true) as ->.
  { unfold HasHeaders. rewrite bool_decide_false; [done|]. intros E. by rewrite E, lookup_empty in Hh. }
  rewrite (Store_Height_top st (hd_Height h)) by eauto. unfold GetHeader. rewrite Hh. cbn [fst].
  assert (∀ x, ch_hasGen (loadReplayBase x) = ch_hasGen x ∧ ch_head (loadReplayBase x) = ch_head x ∧ ch_store (loadReplayBase x) = ch_store x ∧
    ch_blockByID (loadReplayBase x) = ch_blockByID x ∧ ch_tree (loadReplayBase x) = ch_tree x) as Hl.
  { intros x. unfold loadReplayBase, GetStateRaw. by destruct (st_base (ch_store x)) as [[[]]|]. }
  assert (∃ e, Forkchoice.Add (ID h) (hd_PrevHash h) (hd_Height h) 1 Forkchoice.New = {[ ID h := e ]} ∧ e_cum e = 1) as Ht.
  { exists (MkEntry (hd_PrevHash h) (hd_Height h) 1). split; reflexivity. }
  unfold GetBlockRaw. destruct (st_bodies st !! ID h) as [b|] eqn:Eb; unfold lookup_block;
    match goal with |- context [loadReplayBase ?c] => destruct (Hl c) as (-> & -> & -> & -> & ->) end; simpl.
  - rewrite lookup_insert_eq. by split_and!.
  - by rewrite lookup_empty.
Qed.

Lemma restarted_chain n : tip_stored (chain_of n) → let c := chain_of (restarted n) in
  ch_hasGen c = true ∧ ch_head c = ch_head (chain_of n) ∧ ch_store c = ch_store (chain_of n) ∧
  (∃ p, lookup_block c (ID (ch_head c)) = Some p ∧ b_Header p = ch_head c) ∧
  ∃ e, ch_tree c = {[ ID (ch_head c) := e ]} ∧ e_cum e = 1.
Proof.
  intros [_ Hlow [set Hh] Htop (b & Hb & Eb)]. destruct (restarted_head n _ set Hlow Hh Htop) as (R1 & R2 & R3 & R4 & R5).
  cbv zeta. rewrite R2, R5, Hb. split_and!; [done|done|done|by exists b|exact R4].
Qed.

Lemma restarted_stored n : tip_stored (chain_of n) → tip_stored (chain_of (restarted n)).
Proof.
  intros Hst. destruct (restarted_chain n Hst) as (R1 & R2 & R3 & _). destruct Hst as [_ T2 T3 T4 T5]. by split; rewrite ?R2, ?R3.
Qed.

Lemma restarted_bloom n : (∀ f, nd_filter n = Some f → filter_wf f) → bloom_ok (chain_of (restarted n)).
Proof.
  intros Hf f. unfold restarted, New. cbv beta iota zeta. unfold chain_of at 1. cbn [nd_srv NewServer sv_chain].
  match goal with |- context [Chain.New ?st ?s ?f] => destruct (New_files st s f) as (_ & _ & ->) end. intros [= <-].
  destruct (nd_filter n); simpl; [by apply Hf|apply New_wf].
Qed.

Context (fuel : nat) (selfID : string) (members : list string).

Local Abbreviation takes := (AcceptBlock (node_engine cfg kp) selfID members (block_time cfg) (cp_FinalityDepth Mainnet) fuel).
Local Abbreviation on_tip := (extends_tip (node_engine cfg kp) (block_time cfg)).

(** ** A stop before the save *)

(** The node killed after its chain became [c], before anything else was written. *)
Definition killed (n : Node) (c : Chain) : Node := MkNode (P2p.set_chain c (nd_srv n)) (nd_saved n) (nd_filter n).

Lemma on_network_fields st s : let s' := on_network st s in
  Accounts s' = Accounts s ∧ Validators s' = Validators s ∧ Minted s' = Minted s ∧ State.cfg s' = network_cfg st.
Proof. done. Qed.

Lemma CheckTx_same (s s' : State) t : Accounts s' = Accounts s → ChainID (State.cfg s') = ChainID (State.cfg s) → CheckTx s' t = CheckTx s t.
Proof. intros Ea Ec. unfold CheckTx, Get. by rewrite Ea, Ec. Qed.

(** A payload that starts with a transaction the ledger refuses for its nonce. *)
Lemma ApplyBlock_bad_nonce b s t r : payload b = t :: r → tx_VerifySig t = Ok tt → IsCoinbase t = false →
  tx_ChainID t = ChainID (State.cfg s) → tx_Nonce t ≠ ac_Nonce (Get s (tx_From t)) → ∃ s', ApplyBlock b s = ERR s' ErrBadNonce.
Proof.
  unfold payload. intros Hp Hv Hc Hid Hn. unfold ApplyBlock, applyBody. destruct (coinbase_of (b_Txs b)) as [cb txs]. simpl in Hp. subst txs.
  cbn [applyTxs]. unfold applyTx, mbind, M_bind. rewrite (debit_bad_nonce t (Xst s ∅ [])) by done. by eexists.
Qed.

(** [C38] A stop before the save loses a block for good.  A node of the main network has saved
    its ledger; then it takes a block by gossip and is killed before the next save.  Built
    again, it has the block as its tip, and the ledger from before the block: nothing
    replays it.  So it admits again every transaction the block has spent.  The next block
    of the network, if it starts with a transaction of a sender of the lost block, is
    refused, and the tip stays; any block its own ledger can execute is taken, and the
    nonces it then holds are still short of those the lost block used. *)
Theorem crash_loses_block (n : Node) (blk : Block) (s : State) (shards : list bytes) (set : ShardSet) (c : Chain) (u : unit)
  (Hst : tip_stored (chain_of n)) (Hcfg : State.cfg (P2p.ledger (nd_srv n)) = network_cfg (ch_store (chain_of n)))
  (Hsaved : nd_saved n = State_Save (ch_state (chain_of n))) (Hb : bloom_ok (chain_of n))
  (Hf : ∀ f, nd_filter n = Some f → filter_wf f) (Hh : Chain_Height (chain_of n) + 1 < W64) (Hfuel : (0 < fuel)%nat)
  (Hn : ∀ a, is_u64 (ac_Nonce (Get (P2p.ledger (nd_srv n)) a))) (Hlen : zlen (b_Txs blk) < W64)
  (Hx : on_tip blk (chain_of n)) (Hrun : ApplyBlock blk (P2p.ledger (nd_srv n)) = OK s tt) (Hcut : logs_cut (b_Header blk) s)
  (Hset : BuildShardSet (ID (b_Header blk)) (Body blk) (hd_Spec (b_Header blk)) = Ok (shards, set))
  (E : takes blk (chain_of n) = OK c u) :
  let n' := restarted (killed n c) in
  let ledger' := P2p.ledger (nd_srv n') in
  ch_state c = s ∧ tip_stored c ∧ ch_head (chain_of n') = b_Header blk ∧
  (∀ a, Get ledger' a = Get (P2p.ledger (nd_srv n)) a) ∧ Minted ledger' = Minted (P2p.ledger (nd_srv n)) ∧
  (∀ t, CheckTx ledger' t = CheckTx (P2p.ledger (nd_srv n)) t) ∧
  (∀ next t r, on_tip next (chain_of n') → payload next = t :: r → 0 < StateInv.sent (tx_From t) (payload blk) → CheckTx s t = Ok tt →
     ∃ c', takes next (chain_of n') = ERR c' ErrReorgReplay ∧ ch_head c' = b_Header blk) ∧
  (∀ next s', on_tip next (chain_of n') → ApplyBlock next ledger' = OK s' tt →
     (∀ c' e, takes next (chain_of n') ≠ ERR c' e) ∧
     (∀ c' v, takes next (chain_of n') = OK c' v → ch_head c' = b_Header next ∧ ch_state c' = s') ∧
     ∀ a, ac_Nonce (Get s' a) = u64 (ac_Nonce (Get (P2p.ledger (nd_srv n)) a) + StateInv.sent a (payload next))).
Proof.
  cbv zeta. pose proof (accept_taken _ selfID members (block_time cfg) (cp_FinalityDepth Mainnet) fuel blk _ s shards set Hb Hx Hfuel Hrun Hcut Hset) as Hw2.
  destruct (accept_extends _ selfID members (block_time cfg) (cp_FinalityDepth Mainnet) fuel blk _ s Hb Hx Hfuel Hrun) as [Hw _].
  unfold wp in Hw, Hw2. rewrite E in Hw, Hw2. destruct Hw as [W1 W2].
  assert (tip_stored c) as Htc.
  { eapply tip_stored_next; [exact Hst| |exact Hw2]. destruct Hst as [_ Hlow _ _ _]. rewrite (ex_height _ _ _ _ Hx).
    apply u64_small. unfold Chain_Height, is_u64 in *. lia. }
  assert (chain_of (killed n c) = c) as Ek by done.
  destruct (restarted_chain (killed n c)) as (R1 & R2 & R3 & _); [by rewrite Ek|]. rewrite Ek in *.
  destruct (restarted_ledger (killed n c) _ Hsaved) as [Rl Rs]. rewrite Ek in *.
  set (n' := restarted (killed n c)) in *.
  assert (bloom_ok (chain_of n')) as Hbn by (by apply restarted_bloom).
  assert (∀ a, Get (P2p.ledger (nd_srv n')) a = Get (P2p.ledger (nd_srv n)) a) as Hget by (intros a; by rewrite Rl).
  assert (State.cfg (P2p.ledger (nd_srv n')) = network_cfg (ch_store c)) as Hcfg' by (by rewrite Rl).
  assert (ChainID (State.cfg (P2p.ledger (nd_srv n'))) = ChainID (State.cfg (P2p.ledger (nd_srv n)))) as Hid by (by rewrite Hcfg, Hcfg').
  split; [done|]. split; [done|]. split; [by rewrite R2|]. split; [done|]. split; [by rewrite Rl|].
  split; [intros t; apply CheckTx_same; [by rewrite Rl|done]|]. split.
  - intros next t r Hnx Hp Hsent Hck. apply CheckTx_fields in Hck as (Hv & Hcb & Hcid & Hnon).
    pose proof (ApplyBlock_nonces blk _ s Hrun Hn) as [Hnn _]. pose proof (sent_bound (tx_From t) blk) as Hsb.
    destruct (ApplyBlock_bad_nonce next (P2p.ledger (nd_srv n')) t r Hp Hv Hcb) as [s' Es].
    + rewrite Hcid, (ApplyBlock_cfg _ _ _ Hrun). by rewrite Hid.
    + rewrite Hnon, Hnn, Hget. specialize (Hn (tx_From t)). unfold is_u64, u64 in *. set (x := ac_Nonce _) in *. set (k := StateInv.sent _ _) in *.
      intros Eq. assert (x mod W64 = x) as Ex by (apply Z.mod_small; lia). assert ((x + k - x) mod W64 = 0) as Hz.
      { rewrite Zminus_mod, Eq, Ex, Z.sub_diag. done. }
      replace (x + k - x) with k in Hz by lia. rewrite Z.mod_small in Hz by lia. lia.
    + destruct (accept_refused _ selfID members (block_time cfg) (cp_FinalityDepth Mainnet) fuel next _ _ _ Hnx Hfuel Es) as (c' & Ec & Eh & _).
      exists c'. split; [exact Ec|]. by rewrite Eh, R2.
  - intros next s' Hnx Es. pose proof (accept_extends _ selfID members (block_time cfg) (cp_FinalityDepth Mainnet) fuel next _ s' Hbn Hnx Hfuel Es) as [Hw _].
    unfold wp in Hw. split; [intros c' e Ec; by rewrite Ec in Hw|]. split.
    + intros c' v Ec. rewrite Ec in Hw. tauto.
    + intros a. pose proof (ApplyBlock_nonces next _ s' Es) as [Hnn _]; [intros b; rewrite Hget; apply Hn|]. by rewrite Hnn, Hget.
Qed.
(** ** A clean stop *)

Context (w : World) (order : nat → Server → list Transaction * list Address).

Lemma persist_saves n n' u : persist n = OK n' u → nd_saved n' = State_Save (ch_state (chain_of n')).
Proof. unfold persist. rewrite (bind_ok save_state _ n _ tt eq_refl). by intros [<- _]%OK_inj. Qed.

Lemma Run_saves es n n' u : Run w cfg kp order fuel es n = OK n' u → nd_saved n' = State_Save (ch_state (chain_of n')).
Proof.
  unfold Run. intros (? & n1 & _ & E)%bind_OK_inv. apply bind_OK_inv in E as (? & n2 & _ & E).
  apply bind_OK_inv in E as (? & n3 & _ & E). apply bind_OK_inv in E as (? & n4 & _ & E). by eapply persist_saves.
Qed.

(** The ledger of a node built for the main network, saved and loaded again. *)
Lemma saved_ledger n : State.cfg (P2p.ledger (nd_srv n)) = network_cfg (ch_store (chain_of n)) →
  on_network (ch_store (chain_of n)) (ch_state (chain_of n)) = relog [] (P2p.ledger (nd_srv n)).
Proof.
  unfold on_network, P2p.ledger, resolve. fold (chain_of n). intros E. rewrite <- E. reflexivity.
Qed.

(** What extends the tip of a node extends it after the restart. *)
Lemma restarted_extends n blk : tip_stored (chain_of n) → nd_saved n = State_Save (ch_state (chain_of n)) →
  State.cfg (P2p.ledger (nd_srv n)) = network_cfg (ch_store (chain_of n)) →
  on_tip blk (chain_of n) → on_tip blk (chain_of (restarted n)).
Proof.
  intros Hst Hs Hc [E1 E2 E3 E4 E5 E6 E7 _ E9 E10 E11].
  destruct (restarted_chain n Hst) as (R1 & R2 & R3 & R4 & e & R5 & R6). destruct (restarted_ledger n _ Hs) as [_ Rs].
  split; rewrite ?R2 in *; try done.
  - rewrite R5. apply (lookup_singleton_ne (M:=gmap Hash)). intros Eid. destruct E11 as (_ & e' & He' & _). congruence.
  - rewrite Rs, saved_ledger by done. exact E3.
  - rewrite R5, <- R2. split; [by apply (map_Forall_singleton (M:=gmap Hash)), length_sha256|].
    exists e. rewrite R6. split; [apply (lookup_singleton_eq (M:=gmap Hash))|]. split; [done|]. split; [done|].
    intros id' e' Hl. apply (lookup_singleton_Some (M:=gmap Hash)) in Hl as [_ <-]. by rewrite R6.
Qed.

(** ** A stop after fast sync *)

(** A synced node that restarts cannot follow gossip.  Fast sync keeps the tip's block in
    memory only.  A node syncs to a tip it had no block of, is stopped and built again: it
    has the same tip, but for every block on that tip [AcceptBlock] ends without taking it, and says so with
    [ErrUnknownParent] when the block is otherwise in order; the chain stays as it is. *)
Theorem synced_restart_deaf (records : list (Header * ShardSet)) (snap : State) (c0 : Chain) (n : Node)
  (Hbehind : ∀ h r, st_headers (ch_store c0) !! h = Some r → h < zlen records)
  (Hnew : st_bodies (ch_store c0) !! ID (ch_head (chain_of n)) = None)
  (E : SyncInstall (node_engine cfg kp) records snap c0 = OK (chain_of n) tt) :
  let c := chain_of (restarted n) in
  ch_head c = ch_head (chain_of n) ∧ ch_hasGen c = true ∧
  ∀ blk, hd_PrevHash (b_Header blk) = ID (ch_head c) → ID (b_Header blk) ≠ ID (ch_head c) →
    ((∃ e, takes blk c = ERR c e) ∨ takes blk c = PANIC c) ∧
    (@AuthorizeHeader _ (node_engine cfg kp (ch_state c)) (b_Header blk) = Ok tt →
     MerkleRootOf (b_Txs blk) = hd_MerkleRoot (b_Header blk) → BodyHash (Body blk) = hd_BodyHash (b_Header blk) →
     takes blk c = ERR c ErrUnknownParent).
Proof.
  cbv zeta. destruct (SyncInstall_files _ _ _ _ _ _ E) as (_ & Hb & Hlow & Hz & [set Hset] & Hhi).
  destruct (restarted_head n _ set Hlow Hset) as (R1 & R2 & R3 & (e & R4 & _) & R5).
  { intros k r Hk. destruct (Z.leb_spec k (hd_Height (ch_head (chain_of n)))); [done|]. rewrite Hhi in Hk by lia. apply Hbehind in Hk. lia. }
  split; [done|]. split; [done|]. intros blk Hp Hne. set (c := chain_of (restarted n)) in *. rewrite R2 in Hp, Hne.
  rewrite Hb, Hnew in R5.
  assert (∀ B (k : option Block → M Chain B), (block (hd_PrevHash (b_Header blk)) ≫= k) c = k None c) as Hblk.
  { intros B k. rewrite Hp. unfold block. unfold lookup_block in R5. unfold mbind, M_bind, get.
    destruct (ch_blockByID c !! ID (ch_head (chain_of n))); [done|]. by unfold GetBlockRaw; rewrite R5. }
  assert (takes blk c = (lift (@AuthorizeHeader _ (node_engine cfg kp (ch_state c)) (b_Header blk)) ≫= λ _,
    require (bool_decide (MerkleRootOf (b_Txs blk) = hd_MerkleRoot (b_Header blk))) ErrBadMerkle ≫= λ _,
    require (bool_decide (BodyHash (Body blk) = hd_BodyHash (b_Header blk))) ErrBadBodyHash ≫= λ _, throw ErrUnknownParent) c) as ->.
  { unfold AcceptBlock. rewrite (bind_ok get _ _ _ _ eq_refl), bind_require, R1. cbv zeta.
    assert (Forkchoice.Height (ch_tree c) (ID (b_Header blk)) = None) as ->.
    { unfold Forkchoice.Height. assert (ch_tree c !! ID (b_Header blk) = None) as ->; [|done].
      rewrite R4. apply (lookup_singleton_ne (M:=gmap Hash)). congruence. }
    destruct (@AuthorizeHeader _ _ (b_Header blk)) as [[]| |]; [|done..].
    rewrite !(bind_ok (lift (Ok tt)) _ c c tt eq_refl). cbv beta. rewrite !bind_require. destruct (bool_decide _); [|done]. rewrite ?bind_require. destruct (bool_decide _); [|done].
    apply Hblk. }
  split.
  - destruct (AuthorizeHeader _) as [[]| |]; [|by left; eexists|by right]. left. unfold mbind, M_bind, lift, require.
    destruct (bool_decide _); [|by eexists]. destruct (bool_decide _); by eexists.
  - intros -> -> ->. rewrite !bool_decide_true by done. done.
Qed.
End restart.

(** ** A concrete network *)

(** One validator, [bob]; the genesis gives [alice] ten coins. *)
Definition solo_cfg : NodeConfig :=
  MkNodeConfig "data" ":4004" ":4005" "localhost" "key" [bob] [] [] "postorage" 5000 {[ alice := 10 * Coin ]}.
Definition later : World := world_of silent (λ _, 1780000010000000000).
(** The filter file of an earlier, smaller installation. *)
Definition small_filter : option Filter := Some (Bloom.New 64 2).
Definition solo_run (es : list event) : outcome Node unit :=
  @Run demo_platform plain_code later solo_cfg bob_key pool_order 5 es (@New solo_cfg bob_key store0 None small_filter).
(** The node at the genesis, and after one tick of production. *)
Definition booted_run : outcome Node unit := solo_run [].
Definition booted : Node := out_state booted_run.
Definition mined_run : outcome Node unit := solo_run [EBlock].
Definition mined : Node := out_state mined_run.
Definition solo_restarted : Node → Node := @restarted solo_cfg bob_key.

(** The conditions on a stopped node, as a test. *)
Definition tip_storedb (c : Chain) : bool :=
  let h := hd_Height (ch_head c) in
  ch_hasGen c && (0 <=? h) &&
  match st_headers (ch_store c) !! h with Some r => bool_decide (r.1 = ch_head c) | None => false end &&
  bool_decide (map_Forall (λ k _, k <= h) (st_headers (ch_store c))) &&
  match st_bodies (ch_store c) !! ID (ch_head c) with Some b => bool_decide (b_Header b = ch_head c) | None => false end.

Lemma tip_storedb_ok c : tip_storedb c = true → tip_stored c.
Proof.
  unfold tip_storedb. cbv zeta. rewrite !andb_true_iff. intros ((((H1 & H2%Z.leb_le) & H3) & H4%bool_decide_eq_true) & H5).
  destruct (st_headers (ch_store c) !! hd_Height (ch_head c)) as [[hdr set]|] eqn:E3; [|done]. apply bool_decide_eq_true in H3. simpl in H3. subst hdr.
  destruct (st_bodies (ch_store c) !! ID (ch_head c)) as [b|] eqn:E5; [|done]. apply bool_decide_eq_true in H5.
  split; eauto.
Qed.

Definition heaviestb (t : Tree) (tip : Hash) : bool :=
  match t !! tip with
  | Some e => (0 <=? e_cum e) && (e_cum e + 1 <? W64) && bool_decide (map_Forall (λ id e', length id = 32%nat ∧ e_cum e' <= e_cum e) t)
  | None => false
  end.

Lemma heaviestb_ok t tip : heaviestb t tip = true → heaviest t tip.
Proof.
  unfold heaviestb. destruct (t !! tip) as [e|] eqn:E; [|done]. rewrite !andb_true_iff.
  intros ((H1%Z.leb_le & H2%Z.ltb_lt) & H3%bool_decide_eq_true). split; [intros id e' He; by apply (H3 id e' He)|].
  exists e. split_and!; try done. intros id' e' He. by apply (H3 id' e' He).
Qed.

(** [extends_tip] as a test. *)
Definition extends_tipb `{Platform} (engine : State → Engine) (blockTime : Z) (blk : Block) (c : Chain) : bool :=
  let h := b_Header blk in
  ch_hasGen c && match ch_tree c !! ID h with Some _ => false | None => true end &&
  bool_decide (@AuthorizeHeader _ (engine (ch_state c)) h = Ok tt) &&
  bool_decide (MerkleRootOf (b_Txs blk) = hd_MerkleRoot h) && bool_decide (BodyHash (Body blk) = hd_BodyHash h) &&
  bool_decide (hd_PrevHash h = ID (ch_head c)) && negb (bool_decide (ID (ch_head c) = Zero)) &&
  match lookup_block c (ID (ch_head c)) with Some p => bool_decide (b_Header p = ch_head c) | None => false end &&
  (hd_Height h =? u64 (hd_Height (ch_head c) + 1)) &&
  (i64 (hd_Timestamp (ch_head c) + i64 (hd_Round h * blockTime)) <=? hd_Timestamp h) &&
  heaviestb (ch_tree c) (ID (ch_head c)).

Lemma extends_tipb_ok `{Platform} engine blockTime blk c : extends_tipb engine blockTime blk c = true → extends_tip engine blockTime blk c.
Proof.
  unfold extends_tipb. cbv zeta. rewrite !andb_true_iff, !bool_decide_eq_true, negb_true_iff, bool_decide_eq_false, Z.eqb_eq, Z.leb_le.
  intros ((((((((((H1 & H2) & H3) & H4) & H5) & H6) & H7) & H8) & H9) & H10) & H11%heaviestb_ok).
  split; try assumption.
  - by destruct (ch_tree c !! ID (b_Header blk)).
  - destruct (lookup_block c (ID (ch_head c))) as [p|]; [|done]. apply bool_decide_eq_true in H8. by exists p.
Qed.

Definition filterb (o : option Filter) : bool :=
  match o with
  | Some f => (0 <? f_M f) && (zlen (f_Bits f) =? (f_M f + 63) / 64) && forallb is_u64b (f_Bits f)
  | None => true
  end.
Lemma filterb_ok o : filterb o = true → ∀ f, o = Some f → filter_wf f.
Proof.
  intros E f ->. simpl in E. apply andb_prop in E as [[H1%Z.ltb_lt H2%Z.eqb_eq]%andb_prop H3]. split; [done|done|].
  apply Forall_forall. intros x Hx. rewrite forallb_forall in H3. specialize (H3 x ltac:(by apply list_elem_of_In)).
  unfold is_u64b in H3. unfold is_u64. lia.
Qed.

(** The settings of the main network, whatever store the resolvers read. *)
Definition networkb (c : Config) : bool :=
  let is_set {A} (o : option A) := match o with Some _ => true | None => false end in
  (ChainID c =? 1) && (RegPoWBits c =? 20) && (FaucetBits c =? 18) && (FaucetAmount c =? 200000000) && (FaucetCooldown c =? 50) &&
  (FaucetDepth c =? 4) && bool_decide (FaucetSource c = founder) && is_set (AnchorBodyHash c) && (StorageWindow c =? 256) &&
  (StorageMinDepth c =? 4) && (StorageCap c =? 64) && is_set (State.ShardAt c) && is_set (State.ShardProofOK c).
Lemma networkb_ok s : networkb (State.cfg (ch_state (sv_chain s))) = true →
  State.cfg (P2p.ledger s) = network_cfg (ch_store (sv_chain s)).
Proof.
  unfold P2p.ledger, resolve, network_cfg. generalize (ch_store (sv_chain s)) as st. generalize (ch_state (sv_chain s)). intros [? ? ? ? ? ? c] st.
  cbn [State.cfg set_cfg]. destruct c as [f1 f2 f3 f4 f5 f6 f7 [f8|] f9 f10 f11 [f12|] [f13|]]; unfold networkb; simpl; rewrite ?andb_false_r; try done.
  rewrite !andb_true_r, !andb_true_iff, bool_decide_eq_true, !Z.eqb_eq. intros H.
  destruct_and!. by subst.
Qed.

(** [alice] pays [bob] in block 1, which [bob] makes on the genesis and a second copy of his
    node takes; that copy is killed before its save. *)
Definition pay_in_1 : Transaction := MkTx alice bob (3 * Coin) Coin 0 1 KindTransfer 0 [] alice_pub [zb 1].
Definition block_1 : outcome Chain (Block * ShardSet) :=
  @ProduceBlock demo_platform plain_code bob [bob] 16 5 [pay_in_1] bob_key 0 1780000010 (chain_of booted).
Definition block_in {S} (o : outcome S (Block * ShardSet)) : Block := match o with OK _ r => r.1 | _ => MkBlock header0 [] end.
Definition lost_block : Block := block_in block_1.
Definition solo_takes : outcome Chain unit :=
  @AcceptBlock demo_platform plain_code (@node_engine demo_platform solo_cfg bob_key) bob [bob] (block_time solo_cfg) 16 5 lost_block (chain_of booted).
Definition lost_run : outcome State unit := @ApplyBlock demo_platform lost_block (P2p.ledger (nd_srv booted)).
Definition lost_shards : res (list bytes * ShardSet) :=
  BuildShardSet (H:=plain_code) (ID (b_Header lost_block)) (Body lost_block) (hd_Spec (b_Header lost_block)).

(** A second node of the network, at the genesis, syncs to block 1 of the first. *)
Definition one_records : list (Header * ShardSet) := omap (λ h, st_headers (ch_store (chain_of mined)) !! h) [0; 1].
Definition one_sync : outcome Chain unit :=
  SyncInstall (@node_engine demo_platform solo_cfg bob_key) one_records (json_state (ch_state (chain_of mined))) (chain_of booted).
Definition synced : Node := killed booted (out_state one_sync).
Definition deaf : Chain := chain_of (solo_restarted synced).
(** The next block of the network. *)
Definition block_2 : Block :=
  block_in (@ProduceBlock demo_platform plain_code bob [bob] 16 5 [] bob_key 0 1780000015 (chain_of mined)).
Definition takes_2 : Chain → outcome Chain unit :=
  @AcceptBlock demo_platform plain_code (@node_engine demo_platform solo_cfg bob_key) bob [bob] (block_time solo_cfg) (cp_FinalityDepth Mainnet) 5 block_2.

(** What the witnesses need of these runs; one evaluation covers them all. *)
Definition booted_tests : list bool :=
  [is_OK booted_run; tip_storedb (chain_of booted); networkb (State.cfg (ch_state (sv_chain (nd_srv booted))));
   filterb (ch_bloom (chain_of booted)); filterb (nd_filter booted); Chain_Height (chain_of booted) + 1 <? W64;
   bool_decide (map_Forall (λ _ acc, ac_Nonce acc = 0) (Accounts (P2p.ledger (nd_srv booted))))].
Definition mined_tests : list bool :=
  [is_OK mined_run; tip_storedb (chain_of mined); networkb (State.cfg (ch_state (sv_chain (nd_srv mined))));
   filterb (nd_filter mined); Chain_Height (chain_of mined) + 1 <? W64;
   hd_Height (ch_head (chain_of mined)) =? 1; Minted (relog [] (P2p.ledger (nd_srv mined))) =? 60 * Coin].
Definition lost_tests : list bool :=
  [is_OK solo_takes; is_OK lost_run; match lost_shards with Ok _ => true | _ => false end; zlen (b_Txs lost_block) <? W64;
   extends_tipb (@node_engine demo_platform solo_cfg bob_key) (block_time solo_cfg) lost_block (chain_of booted);
   match lastLogs (out_state lost_run) with [] => true | _ => false end; bool_decide (CheckTx (P2p.ledger (nd_srv booted)) pay_in_1 = Ok tt);
   ac_Nonce (Get (out_state lost_run) alice) =? 1; ac_Nonce (Get (P2p.ledger (nd_srv booted)) alice) =? 0].
Definition below (m : gmap Z (Header * ShardSet)) (k : Z) : bool := bool_decide (map_Forall (λ h _, h < k) m).
Definition in_order (blk : Block) (prev : Header) (s : State) : list bool :=
  [bool_decide (hd_PrevHash (b_Header blk) = ID prev); negb (bool_decide (ID (b_Header blk) = ID prev));
   bool_decide (@AuthorizeHeader _ (@node_engine demo_platform solo_cfg bob_key s) (b_Header blk) = Ok tt);
   bool_decide (MerkleRootOf (b_Txs blk) = hd_MerkleRoot (b_Header blk)); bool_decide (BodyHash (Body blk) = hd_BodyHash (b_Header blk))].
Definition deaf_tests : list bool :=
  is_OK one_sync :: below (st_headers (ch_store (chain_of booted))) (zlen one_records) ::
   match st_bodies (ch_store (chain_of booted)) !! ID (ch_head (chain_of synced)) with None => true | _ => false end ::
   (hd_Height (ch_head (chain_of synced)) =? 1) :: is_OK (takes_2 (chain_of synced)) :: in_order block_2 (ch_head (chain_of synced)) (ch_state deaf).

Lemma solo_runs : forallb id booted_tests && (forallb id mined_tests && (forallb id lost_tests && forallb id deaf_tests)) = true.
Proof. vm_compute. reflexivity. Qed.

Lemma solo_all : passed booted_tests ∧ passed mined_tests ∧ passed lost_tests ∧ passed deaf_tests.
Proof.
  destruct (andb_prop _ _ solo_runs) as [H1 H']. destruct (andb_prop _ _ H') as [H2 H'']. destruct (andb_prop _ _ H'') as [H3 H4].
  split; [exact (tests_pass _ H1)|]. split; [exact (tests_pass _ H2)|]. split; [exact (tests_pass _ H3)|exact (tests_pass _ H4)].
Qed.


Lemma crash_loses_block_witness : ∃ c, solo_takes = OK c tt ∧
  let n' := solo_restarted (killed booted c) in
  ch_head (chain_of n') = b_Header lost_block ∧ CheckTx (P2p.ledger (nd_srv n')) pay_in_1 = Ok tt ∧
  ac_Nonce (Get (ch_state c) alice) = 1 ∧ ac_Nonce (Get (P2p.ledger (nd_srv n')) alice) = 0.
Proof.
  destruct solo_all as (F & _ & G & _). lazy delta [booted_tests passed] beta iota in F. lazy delta [lost_tests passed] beta iota in G.
  destruct F as (Hr%is_OK_unit & Hst%tip_storedb_ok & Hc%networkb_ok & Hbf & Hf & Hw%Z.ltb_lt & Hz%bool_decide_eq_true & _).
  destruct G as (Hok%is_OK_unit & Hl%is_OK_unit & Hs & Hlen%Z.ltb_lt & Hx%extends_tipb_ok & Hcut & Hck%bool_decide_eq_true & Hn1%Z.eqb_eq & Hn0%Z.eqb_eq & _).
  fold booted in Hr. exists (out_state solo_takes). split; [exact Hok|]. destruct lost_shards as [[shards set]| |] eqn:Hset; [|discriminate Hs..].
  destruct (@crash_loses_block demo_platform plain_code solo_cfg bob_key 5 bob [bob] booted lost_block (out_state lost_run) shards set
    (out_state solo_takes) tt Hst Hc (@Run_saves demo_platform plain_code solo_cfg bob_key 5 later pool_order [] _ _ _ Hr) (filterb_ok _ Hbf)
    (filterb_ok _ Hf) Hw ltac:(repeat constructor)) as (Hs' & _ & Hh & Hget & _ & Hsame & _).
  - intros a. unfold Get, acct_of. destruct (Accounts _ !! a) as [acc|] eqn:Ea; [|split; [discriminate|reflexivity]].
    simpl. rewrite (Hz a acc Ea). split; [discriminate|reflexivity].
  - exact Hlen.
  - exact Hx.
  - exact Hl.
  - left. destruct (lastLogs (out_state lost_run)); [reflexivity|discriminate Hcut].
  - exact Hset.
  - exact Hok.
  - cbv zeta. unfold solo_restarted. split; [exact Hh|]. split; [exact (eq_trans (Hsame pay_in_1) Hck)|].
    split; [exact (eq_trans (f_equal (λ s, ac_Nonce (Get s alice)) Hs') Hn1)|exact (eq_trans (f_equal ac_Nonce (Hget alice)) Hn0)].
Defined.

Lemma synced_restart_deaf_witness :
  hd_Height (ch_head deaf) = 1 ∧ is_OK (takes_2 (chain_of synced)) = true ∧ error_of (takes_2 deaf) = Some ErrUnknownParent.
Proof.
  destruct solo_all as (_ & _ & _ & F). lazy delta [deaf_tests in_order passed] beta iota in F.
  destruct F as (Hok%is_OK_unit & Hlow%bool_decide_eq_true & Hnew & Hh1%Z.eqb_eq & Hs & Hp%bool_decide_eq_true & Hne%negb_true_iff%bool_decide_eq_false & Ha%bool_decide_eq_true & Hm%bool_decide_eq_true & Hbh%bool_decide_eq_true & _).
  destruct (@synced_restart_deaf demo_platform plain_code solo_cfg bob_key 5 bob [bob] one_records (json_state (ch_state (chain_of mined)))
    (chain_of booted) synced) as (Hh & _ & Hd).
  - exact Hlow.
  - destruct (st_bodies _ !! _); [discriminate Hnew|reflexivity].
  - exact Hok.
  - split; [exact (eq_trans (f_equal hd_Height Hh) Hh1)|]. split; [exact Hs|].
    exact (f_equal error_of (proj2 (Hd block_2 (eq_trans Hp (f_equal ID (eq_sym Hh))) (λ E, Hne (eq_trans E (f_equal ID Hh)))) Ha Hm Hbh)).
Defined.
