(* ===== verification/Interleave.v ===== *)
(** * Requests served inside a tick ([node/node.go], [p2p/server.go])

    The loop of a node and its two HTTP servers run at the same time.  [chain], [state], [mempool]
    and the tables each have a lock, so an operation of one of them is atomic, but a tick is
    several of them, and requests are served in between.  Here a tick is a [prog], the list
    of its atomic actions, each depending on what the ones before returned; [whole] runs it
    alone and [weave] runs it with given work before each action.

    With nothing served inside, the ticks are those of [Node].  The books of a node balance
    whatever is served where.  Two decisions do not survive: a block that arrives after the
    node was found to be the leader is built upon without asking again, and blocks that arrive
    while a sync downloads are undone by it.  A request, a discovery round, an audit and a
    round of polling or broadcasting are one action each. *)

From S2P Require Import Prelude Sha256 Crypto Economy Merkle Netparams Types Pos Forkchoice Rendezvous Consensus Erasure Bloom Vm State StateInv StateSupply Demo Mempool Strconv Chain ChainProps ChainShards ChainReorg Peers P2p NetDemo P2pProps P2pGossip Node NodeFrame NodeSupply ChainAccept NodeProps Network NodeRestart.

Local Abbreviation M := Prelude.M.

(** ** Programs of atomic actions *)

Inductive prog (A : Type) : Type :=
  | Done (a : A)
  | Act {B : Type} (m : M Node B) (k : B → prog A).
Arguments Done {A} a.
Arguments Act {A B} m k.

(** Alone. *)
Fixpoint whole {A} (p : prog A) : M Node A :=
  match p with Done a => mret a | Act m k => m ≫= λ b, whole (k b) end.

(** With the first of [between] before the first action, the second before the second, and so
    on; what is left comes at the end. *)
Fixpoint all (l : list (M Node unit)) : M Node unit := match l with [] => mret tt | m :: r => m ≫= λ _, all r end.
Fixpoint weave {A} (p : prog A) (between : list (M Node unit)) : M Node A :=
  match p with
  | Done a => all between ≫= λ _, mret a
  | Act m k => default (mret tt) (head between) ≫= λ _, m ≫= λ b, weave (k b) (tail between)
  end.

(** Every action keeps [I], and so does what follows whatever it returned. *)
Fixpoint safe {A} (I : Node → Prop) (p : prog A) : Prop :=
  match p with
  | Done _ => True
  | Act m k => ∀ n, I n → wp m (λ b n', I n' ∧ safe I (k b)) (λ _, I) (λ _, True) n
  end.

Lemma whole_act {A B} (m : M Node B) (k : B → prog A) n : whole (Act m k) n = (m ≫= λ b, whole (k b)) n.
Proof. reflexivity. Qed.

Lemma weave_alone {A} (p : prog A) : ∀ n, weave p [] n = whole p n.
Proof.
  induction p as [a|B m k IH]; intros n; [done|]. cbn [weave whole]. change (default _ _) with (mret tt : M Node unit).
  transitivity ((m ≫= λ b, weave (k b) []) n); [done|]. unfold mbind, M_bind. destruct (m n); [apply IH|done..].
Qed.
Lemma weave_first {A} (p : prog A) x n : weave p [x] n = (x ≫= λ _, whole p) n.
Proof.
  destruct p as [a|B m k]; cbn [weave whole all]; unfold mbind, M_bind; [by destruct (x n) as [? []| |]|].
  change (default _ (head [x])) with x. destruct (x n) as [n1 []|n1 e|n1]; [|done..]. destruct (m n1); [apply weave_alone|done..].
Qed.

Section safe.
Context (I : Node → Prop).

Lemma safe_act {A B} (m : M Node B) (k : B → prog A) : keeps I m → (∀ b, safe I (k b)) → safe I (Act m k).
Proof. intros Hm Hk n Hn. eapply wp_mono; [..|by apply Hm]; [|done|done]. intros b n' Hn'. split; [done|apply Hk]. Qed.

Lemma safe_gives {A B} (P : B → Prop) (m : M Node B) (k : B → prog A) :
  (∀ n, I n → wp m (λ b n', I n' ∧ P b) (λ _, I) (λ _, True) n) → (∀ b, P b → safe I (k b)) → safe I (Act m k).
Proof. intros Hm Hk n Hn. eapply wp_mono; [..|by apply Hm]; [|done|done]. intros b n' [Hn' Hb]. split; [done|by apply Hk]. Qed.

Lemma keeps_weave {A} (p : prog A) : ∀ between, safe I p → Forall (keeps I) between → keeps I (weave p between).
Proof.
  induction p as [a|B m k IH]; intros between Hp Hl; cbn [weave].
  { apply keeps_bind; [|intros _; apply keeps_ret]. induction Hl; cbn [all]; [apply keeps_ret|]. by apply keeps_bind. }
  apply keeps_bind; [destruct Hl as [|x r Hx]; [apply keeps_ret|exact Hx]|]. intros _ n Hn. apply wp_bind.
  eapply wp_mono; [..|exact (Hp n Hn)]; [|done|done]. intros b n' [Hn' Hk]. apply IH; [done| |done]. by destruct Hl.
Qed.
End safe.

(** ** The ticks *)

Section ticks.
Context `{Platform} `{ReedSolomon} (w : World) (cfg : NodeConfig) (kp : KeyPair).
Context (order : nat → Server → list Transaction * list Address) (fuel : nat).

Local Abbreviation engine := (node_engine cfg kp).
Local Abbreviation self := (Node.self kp).

Definition looks {A} (f : Node → A) : M Node A := λ n, OK n (f n).

(** [maybeProduce] once [CanProduce] has said yes: the block that was made, if any. *)
Definition produce_elected (head : Header) (round : Z) : prog (option Block) :=
  let height := u64 (hd_Height head + 1) in
  Act (n ← get; o ← on_srv (observe (λ k, order k (nd_srv n))); mret (Reap (P2p.ledger (nd_srv n)) o.1 o.2 1000)) (λ txs,
  Act (looks (λ n, NextReward (P2p.ledger (nd_srv n)) height)) (λ reward,
  if bool_decide (txs = []) && (reward =? 0) then Done None else
  Act (now ← on_srv (observe (w_now w));
       try_ (with_members (λ members, ProduceBlock self members (cp_FinalityDepth Mainnet) fuel txs kp round (now / 1000000000)))) (λ r,
  match r with
  | inl _ => Done None
  | inr (blk, _) =>
      Act (on_srv (with_pool (modify (Remove txs)))) (λ _,
      Act save_state (λ _,
      Act (on_srv (BroadcastBlock w blk)) (λ _, Done (Some blk))))
  end))).

Definition produce_prog : prog (option Block) :=
  Act (looks (λ n, Chain_Head (sv_chain (nd_srv n)))) (λ head,
  match head with
  | None => Done None
  | Some head =>
      Act (on_srv (BestPeerHeight w)) (λ best,
      if hd_Height head <? best then Done None else
      Act (on_srv (observe (w_now w))) (λ now,
      let round := round_at cfg (now / 1000000000) head in
      Act (looks (λ n, @CanProduce _ (engine (P2p.ledger (nd_srv n))) (u64 (hd_Height head + 1)) (ID head) round)) (λ elected,
      if negb elected then Done None else produce_elected head round)))
  end).

(** [trySync] and [Server.SyncFrom]: the heads of the peers, then two downloads, then the chain. *)
Definition sync_prog : prog unit :=
  Act (looks (λ n, ch_hasGen (sv_chain (nd_srv n)))) (λ hasGen,
  Act (looks (λ n, Chain_Height (sv_chain (nd_srv n)))) (λ localHeight,
  Act (n ← get; try_ (on_srv (best_peer w (Peers (sv_store (nd_srv n))) "" 0))) (λ best,
  match best with
  | inl _ => Done tt
  | inr best =>
      if bool_decide (best.1 = "") || (hasGen && (best.2 <=? localHeight)) then Done tt else
      Act (try_ (on_srv (fetchHeaders w best.1 best.2))) (λ recs,
      match recs with
      | inl _ => Done tt
      | inr recs =>
          Act (try_ (on_srv (fetchSnapshot w best.1))) (λ snap,
          match snap with
          | inl _ => Done tt
          | inr snap =>
              Act (try_ (on_srv (with_chain (SyncInstall engine recs snap)))) (λ r,
              match r with inl _ => Done tt | inr _ => if 0 <? best.2 then Act save_state (λ _, Done tt) else Done tt end)
          end)
      end)
  end))).

Definition prove_prog : prog unit :=
  if negb (is_postorage cfg) then Done tt else
  Act (looks (λ n, @IsValidator _ (engine (P2p.ledger (nd_srv n))))) (λ active,
  if negb active then Done tt else
  Act (looks (λ n, Chain_Head (sv_chain (nd_srv n)))) (λ head,
  match head with
  | None => Done tt
  | Some head =>
      let H := hd_Height head in
      if H <=? u64 (cp_StorageMinDepth Mainnet + 1) then Done tt else
      let target := u64 (H - cp_StorageMinDepth Mainnet - 1) in
      if u64 (target + cp_StorageWindow Mainnet) <? H then Done tt else
      Act (looks (λ n, Chain.ShardAt (store_of (nd_srv n)) target)) (λ at_target,
      match at_target with
      | None => Done tt
      | Some (blockID, total) =>
          if total <=? 0 then Done tt else
          Act (on_srv (shard_bytes w target (assigned_index self blockID total))) (λ shard,
          match shard with
          | None => Done tt
          | Some shard =>
              Act (looks (λ n, ac_Nonce (Get (P2p.ledger (nd_srv n)) self))) (λ nonce,
              let tx := storage_tx kp target shard nonce in
              Act (n ← get; try_ (on_srv (with_pool (Submit (P2p.ledger (nd_srv n)) tx)))) (λ r,
              match r with inl _ => Done tt | inr _ => Act (on_srv (BroadcastTx w tx)) (λ _, Done tt) end))
          end)
      end)
  end)).

(** The branch of the loop that serves each event; a request is one action. *)
Fixpoint then_ {A B} (p : prog A) (q : prog B) : prog B :=
  match p with Done _ => q | Act m k => Act m (λ b, then_ (k b) q) end.

Definition tick_prog (e : event) : prog unit :=
  match e with
  | EDiscover => Act (on_srv (Discover w (nc_Seeds cfg) (nc_DNSSeeds cfg) (nc_ControlAddr cfg))) (λ _, sync_prog)
  | ESave => Act save_state (λ _, Act save_filter (λ _, Done tt))
  | EProve => prove_prog
  | EAudit => Act (on_srv (AuditRound w)) (λ _, Done tt)
  | EBlock => then_ produce_prog (Done tt)
  | ERequest ip r =>
      Act (on_srv (ServeHTTP w engine (block_time cfg) (cp_FinalityDepth Mainnet) fuel (is_postorage cfg) ip r)) (λ _, Done tt)
  end.

Definition served (rs : list (string * request)) : M Node unit :=
  run w cfg kp order fuel ((λ p, ERequest p.1 p.2) <$> rs).

(** A tick with the requests served before each of its actions. *)
Definition turn : Type := event * list (list (string * request)).
Definition busy_step (t : turn) : M Node unit := λ n,
  match weave (tick_prog t.1) (served <$> t.2) n with
  | OK n' _ | ERR n' _ => OK n' tt
  | PANIC n' => match t.1 with ERequest _ _ => OK n' tt | _ => PANIC n' end
  end.
Fixpoint busy_run (ts : list turn) : M Node unit :=
  match ts with [] => mret tt | t :: r => busy_step t ≫= λ _, busy_run r end.

(** *** Alone, they are the ticks of [Node] *)

Lemma whole_then {A B} (p : prog A) (q : prog B) n : whole (then_ p q) n = (whole p ≫= λ _, whole q) n.
Proof.
  revert n. induction p as [a|C m k IH]; intros n; [done|]. cbn [then_ whole]. unfold mbind, M_bind.
  destruct (m n) as [n' b|n' e|n']; [apply IH|done..].
Qed.

Lemma looks_run {A B} (f : Node → A) (k : A → M Node B) n : (looks f ≫= k) n = k (f n) n.
Proof. reflexivity. Qed.
Lemma ret_run {A B} (a : A) (k : A → M Node B) n : (mret a ≫= k) n = k a n.
Proof. reflexivity. Qed.
Lemma get_run {B} (k : Node → M Node B) n : (get ≫= k) n = k n n.
Proof. reflexivity. Qed.

Lemma bind_same {A B} (m : M Node A) (f g : A → M Node B) n : (∀ n' a, m n = OK n' a → f a n' = g a n') → (m ≫= f) n = (m ≫= g) n.
Proof. intros Hf. unfold mbind, M_bind. destruct (m n); [by apply Hf|done..]. Qed.

Definition ticked (n : Node) : Node := set_srv (P2p.set_clock (S (sv_clock (nd_srv n))) (nd_srv n)) n.
Lemma observe_run {A B} (f : nat → A) (k : A → M Node B) n : (on_srv (observe f) ≫= k) n = k (f (sv_clock (nd_srv n))) (ticked n).
Proof. reflexivity. Qed.

Lemma bind_bind {A B C} (m : M Node A) (f : A → M Node B) (g : B → M Node C) n : ((m ≫= f) ≫= g) n = (m ≫= λ a, f a ≫= g) n.
Proof. unfold mbind, M_bind. by destruct (m n). Qed.
Lemma bind_unit (m : M Node unit) n : (m ≫= λ _, mret tt) n = m n.
Proof. unfold mbind, M_bind. by destruct (m n) as [? []| |]. Qed.

Lemma whole_produce n : whole (then_ produce_prog (Done tt)) n = maybeProduce w cfg kp order fuel n.
Proof.
  unfold produce_prog, maybeProduce. cbn [then_ whole]. rewrite looks_run, get_run.
  destruct (Chain_Head _) as [head|]; [|done]. cbn [then_ whole]. apply bind_same. intros n1 best _.
  destruct (_ <? _); [done|]. cbn [then_ whole]. apply bind_same. intros n2 now _. cbv zeta. cbn [then_ whole]. rewrite looks_run, get_run.
  destruct (negb _); [done|]. unfold produce_elected. cbn [then_ whole]. rewrite observe_run.
  set (o := order _ _). set (txs := Reap _ _ _ _).
  match goal with |- ((get ≫= ?g) ≫= ?f) n2 = _ => change (((get ≫= g) ≫= f) n2) with (f txs (ticked n2)) end.
  cbv beta. cbn [whole]. rewrite looks_run. change (P2p.ledger (nd_srv (ticked n2))) with (P2p.ledger (nd_srv n2)).
  destruct (_ && _); [done|]. cbn [then_ whole].
  rewrite bind_bind. apply bind_same. intros n3 now' _. apply bind_same. intros n4 [e|[blk set]] _; [done|]. cbn [then_ whole].
  apply bind_same. intros n5 _ _. apply bind_same. intros n6 _ _. apply bind_unit.
Qed.

(** What is tried on the server, one piece at a time. *)
Lemma try_bind {A B C} (m : MS A) (f : A → MS B) (k : error + B → M Node C) n :
  (try_ (on_srv (m ≫= f)) ≫= k) n = (try_ (on_srv m) ≫= λ r, match r with inl e => k (inl e) | inr a => try_ (on_srv (f a)) ≫= k end) n.
Proof. unfold mbind, M_bind, try_, on_srv. destruct (m (nd_srv n)) as [s a|s e|s]; [|done..]. destruct n. done. Qed.

Lemma try_ret {A C} (a : A) (k : error + A → M Node C) n : (try_ (on_srv (mret a)) ≫= k) n = k (inr a) n.
Proof. by destruct n. Qed.
Lemma try_get {C} (k : error + Server → M Node C) n : (try_ (on_srv get) ≫= k) n = k (inr (nd_srv n)) n.
Proof. by destruct n. Qed.

Lemma whole_sync n : whole sync_prog n = trySync w cfg kp n.
Proof.
  unfold sync_prog, trySync. cbn [whole]. rewrite !looks_run, get_run, bind_bind, get_run. cbv zeta.
  unfold SyncFrom. rewrite try_bind.
  rewrite try_get, try_bind. apply bind_same. intros n1 [e|best] _; [done|].
  destruct (bool_decide _); [by rewrite try_ret|]. cbn [orb]. destruct (_ && _); [by rewrite try_ret|]. cbn [whole].
  rewrite try_bind. apply bind_same. intros n2 [e|recs] _; [done|]. cbn [whole].
  rewrite try_bind. apply bind_same. intros n3 [e|snap] _; [done|]. cbn [whole].
  rewrite try_bind. apply bind_same. intros n4 [e|[]] _; [done|]. 
  rewrite try_ret. destruct (0 <? best.2); [|done]. cbn [whole]. apply bind_unit.
Qed.

Lemma keeps_shard_bytes I `{!Framed I} target i : keeps I (shard_bytes w target i).
Proof. unfold shard_bytes. keeps_tac. Qed.

Lemma whole_prove n : whole prove_prog n = maybeProveStorage w cfg kp n.
Proof.
  unfold prove_prog, maybeProveStorage. rewrite get_run. cbv zeta. destruct (is_postorage cfg); [|done]. cbn [negb orb whole]. rewrite looks_run.
  destruct (IsValidator); [|done]. cbn [negb whole]. rewrite looks_run. destruct (Chain_Head _) as [head|]; [|done].
  destruct (_ <=? _); [done|]. destruct (_ <? _); [done|]. cbn [whole]. rewrite looks_run.
  destruct (Chain.ShardAt _ _) as [[id total]|]; [|done]. destruct (_ <=? _); [done|]. cbn [whole].
  apply bind_same. intros n1 [shard|] E; [|done]. cbn [whole]. rewrite looks_run. cbn [whole]. rewrite bind_bind, get_run.
  assert (P2p.ledger (nd_srv n1) = P2p.ledger (nd_srv n)) as ->.
  { set (c := sv_chain (nd_srv n)). assert (keeps (framed_node (λ s, sv_chain s = c)) (on_srv (shard_bytes w (u64 (hd_Height head - cp_StorageMinDepth Mainnet - 1))
      (assigned_index self id total)))) as Hk by (apply keeps_on_srv, keeps_shard_bytes, framed_chain).
    specialize (Hk n eq_refl). unfold wp in Hk. rewrite E in Hk. unfold framed_node in Hk. unfold P2p.ledger. by rewrite Hk. }
  apply bind_same. intros n2 [e|[]] _; [done|]. cbn [whole]. apply bind_unit.
Qed.
Lemma tick_whole e n : whole (tick_prog e) n = on_tick w cfg kp order fuel e n.
Proof.
  destruct e; cbn [tick_prog on_tick whole].
  - apply bind_same. intros n' _ _. apply whole_sync.
  - unfold persist. apply bind_same. intros n' _ _. apply bind_unit.
  - apply whole_prove.
  - done.
  - apply whole_produce.
  - done.
Qed.

Lemma served_run rs n : ∃ n', served rs n = OK n' tt.
Proof.
  unfold served. revert n. induction rs as [|[ip r] l IH]; intros n; cbn [fmap list_fmap run]; [by exists n|].
  unfold step at 1, mbind, M_bind. destruct (on_tick _ _ _ _ _ _ n); apply IH.
Qed.

Lemma run_app es es' n : run w cfg kp order fuel (es ++ es') n = (run w cfg kp order fuel es ≫= λ _, run w cfg kp order fuel es') n.
Proof.
  revert n. induction es as [|e r IH]; intros n; [done|]. cbn [app run]. unfold mbind, M_bind. destruct (step _ _ _ _ _ e n); [apply IH|done..].
Qed.

(** Serving nothing inside the ticks is the loop of [Node]: when every request is served
    before the first action of a tick, the node does exactly what the sequence of events does
    in which these requests come just before that tick. *)
Theorem busy_run_sequential (ts : list turn) (n : Node) (Hts : Forall (λ t : turn, (length t.2 <= 1)%nat) ts) :
  busy_run ts n = run w cfg kp order fuel (ts ≫= λ t, ((λ p, ERequest p.1 p.2) <$> concat t.2) ++ [t.1]) n.
Proof.
  revert n. induction Hts as [|[e rs] ts Ht _ IH]; intros n; [done|]. cbn [busy_run mbind list_bind fst snd].
  rewrite <- app_assoc, run_app. cbn [app run].
  assert (busy_step (e, rs) n = (served (concat rs) ≫= λ _, step w cfg kp order fuel e) n) as E.
  { unfold busy_step. cbn [fst snd]. destruct rs as [|x [|]]; cbn [fmap list_fmap concat]; [| |simpl in Ht; lia].
    - rewrite weave_alone, tick_whole. reflexivity.
    - rewrite weave_first, app_nil_r. destruct (served_run x n) as [n1 E]. rewrite !(bind_ok _ _ _ _ _ E), tick_whole. reflexivity. }
  transitivity ((busy_step (e, rs) ≫= λ _, busy_run ts) n); [done|]. unfold mbind at 1, M_bind at 1. rewrite E.
  change (run _ _ _ _ _ (_ <$> concat rs)) with (served (concat rs)). unfold mbind, M_bind.
  destruct (served _ n) as [n1 []|n1 e1|n1]; [|done..]. destruct (step _ _ _ _ _ e n1) as [n2 []|n2 e2|n2]; [apply IH|done..].
Qed.
(** *** Runs in which nothing panics *)

Definition calm_step (t : turn) (between : list (M Node unit)) : M Node unit := λ n,
  match weave (tick_prog t.1) between n with OK n' _ | ERR n' _ => OK n' tt | PANIC n' => PANIC n' end.
Fixpoint calm_served (rs : list (string * request)) : M Node unit :=
  match rs with [] => mret tt | p :: r => calm_step (ERequest p.1 p.2, []) [] ≫= λ _, calm_served r end.
Fixpoint calm_busy (ts : list turn) : M Node unit :=
  match ts with [] => mret tt | t :: r => calm_step t (calm_served <$> t.2) ≫= λ _, calm_busy r end.

Lemma calm_served_run rs : ∀ n n', calm_served rs n = OK n' tt → served rs n = OK n' tt.
Proof.
  unfold served. induction rs as [|[ip r] l IH]; intros n n'; [done|]. cbn [calm_served fmap list_fmap run fst snd].
  unfold calm_step, mbind, M_bind. cbn [fst]. rewrite weave_alone, tick_whole. unfold step. destruct (on_tick _ _ _ _ _ _ n); [apply IH..|done].
Qed.

Lemma calm_served_ends rs n n' e : calm_served rs n ≠ ERR n' e.
Proof.
  revert n. induction rs as [|p l IH]; intros n; [done|]. cbn [calm_served]. unfold calm_step, mbind, M_bind.
  destruct (weave _ _ n); [apply IH..|done].
Qed.

Lemma calm_bind {A} rs (f g : M Node A) n : (∀ n1, match f n1 with PANIC _ => True | o => g n1 = o end) →
  match (calm_served rs ≫= λ _, f) n with PANIC _ => True | o => (served rs ≫= λ _, g) n = o end.
Proof.
  intros Hfg. pose proof (calm_served_run rs n) as Hc. pose proof (calm_served_ends rs n) as He. unfold mbind, M_bind.
  destruct (calm_served rs n) as [n1 []|n1 e|n1]; [rewrite (Hc n1 eq_refl); apply Hfg|by destruct (He n1 e)|done].
Qed.

Lemma weave_calm {A} (p : prog A) : ∀ (rs : list (list (string * request))) n,
  match weave p (calm_served <$> rs) n with PANIC _ => True | o => weave p (served <$> rs) n = o end.
Proof.
  induction p as [a|B m k IH]; intros rs.
  - induction rs as [|r rs IHr]; intros n; [done|]. cbn [weave fmap list_fmap all] in *. rewrite !bind_bind.
    apply (calm_bind r (all (calm_served <$> rs) ≫= λ _, mret a) (all (served <$> rs) ≫= λ _, mret a)), IHr.
  - intros n. cbn [weave]. assert (∀ rs n1, match (m ≫= λ b, weave (k b) (calm_served <$> rs)) n1 with
      PANIC _ => True | o => (m ≫= λ b, weave (k b) (served <$> rs)) n1 = o end) as Hm.
    { intros l n1. unfold mbind, M_bind. destruct (m n1); [apply IH|done..]. }
    destruct rs as [|r rs]; [exact (Hm [] n)|]. exact (calm_bind r _ _ n (Hm rs)).
Qed.

Lemma calm_busy_run ts : ∀ n n', calm_busy ts n = OK n' tt → busy_run ts n = OK n' tt.
Proof.
  induction ts as [|[e rs] ts IH]; intros n n'; [done|]. cbn [calm_busy busy_run]. unfold mbind, M_bind, calm_step, busy_step. cbn [fst snd].
  pose proof (weave_calm (tick_prog e) rs n) as Hw. destruct (weave _ (calm_served <$> rs) n); [rewrite Hw; apply IH..|done].
Qed.
End ticks.

(** ** The books *)

Ltac safe_tac := repeat match goal with
  | |- safe _ (Done _) => exact Logic.I
  | |- safe _ (Act _ _) => apply safe_act; [solve [keeps_tac]|intros ?]
  | |- safe _ (if ?b then _ else _) => destruct b
  | |- safe _ (match ?x with _ => _ end) => destruct x
  | |- safe _ (let _ := _ in _) => cbv zeta
  end.

Section books.
Context `{Platform} `{ReedSolomon} (w : World) (Hw : world_ok w) (cfg : NodeConfig) (kp : KeyPair).
Context (order : nat → Server → list Transaction * list Address) (fuel : nat).
Context (Horder : ∀ k s t, t ∈ (order k s).1 → ∃ h, p_byID (sv_pool s) !! h = Some t).

Abbreviation fair_node := (framed_node fair).

Lemma keeps_looks {A} (f : Node → A) : keeps fair_node (looks f).
Proof. by intros n Hn. Qed.
Lemma keeps_get_try {A} (f : Node → MS A) : (∀ n, keeps fair (f n)) → keeps fair_node (n ← get; try_ (on_srv (f n))).
Proof. intros Hf. apply keeps_read. intros n _. by apply keeps_try, (keeps_on_srv fair). Qed.
Hint Resolve keeps_looks keeps_Remove keeps_try : keeps.

Lemma try_gives {A} (m : MS A) (P : A → Prop) : (∀ s, fair s → wp m (λ a s', fair s' ∧ P a) (λ _, fair) (λ _, True) s) →
  ∀ n, fair_node n → wp (try_ (on_srv m)) (λ r n', fair_node n' ∧ match r with inr a => P a | _ => True end) (λ _, fair_node) (λ _, True) n.
Proof. intros Hm n Hn. specialize (Hm _ Hn). unfold wp, try_, on_srv in *. by destruct (m (nd_srv n)). Qed.

Lemma safe_sync : safe fair_node (sync_prog w cfg kp).
Proof.
  unfold sync_prog. apply safe_act; [apply keeps_looks|intros g]. apply safe_act; [apply keeps_looks|intros lh].
  apply safe_act; [apply keeps_get_try; intros n; apply (keeps_heads fair)|intros [e|best]]; [done|].
  destruct (_ || _); [done|].
  eapply safe_gives.
  { apply (try_gives _ (λ recs : list (Header * ShardSet), Forall (λ r, 0 <= hd_Height r.1) recs)), (http_get_gives w _ (RHeaders _ _)).
    intros n code a. apply (wo_headers w Hw). }
  intros [e|recs] Hr; [done|]. eapply safe_gives.
  { apply (try_gives _ supply_ok), (http_get_gives w _ RSnapshot). intros n code a. apply (wo_snapshot w Hw). }
  intros [e|snap] Hsnap; [done|]. apply safe_act; [by apply keeps_try, (keeps_on_srv fair), keeps_with_chain, keeps_SyncInstall|].
  intros [e|[]]; safe_tac.
Qed.

Lemma safe_then {A B} (p : prog A) (q : prog B) : safe fair_node p → safe fair_node q → safe fair_node (then_ p q).
Proof.
  intros Hp Hq. induction p as [a|C m k IH]; [done|]. intros n Hn. eapply wp_mono; [..|exact (Hp n Hn)]; [|done|done].
  intros b n' [Hn' Hk]. split; [done|by apply IH].
Qed.

(** What [Reap] selects comes from the pool. *)
Lemma reap_gives n : fair_node n →
  wp (n ← get; o ← on_srv (observe (λ k, order k (nd_srv n))); mret (Reap (P2p.ledger (nd_srv n)) o.1 o.2 1000))
    (λ txs n', fair_node n' ∧ Forall tx_words txs) (λ _, fair_node) (λ _, True) n.
Proof.
  intros Hn. unfold wp. rewrite get_run, observe_run. split; [by apply (fair_ext (nd_srv n))|].
  apply Forall_forall. intros t [?%elem_of_nil|Ht]%reap_in; [done|]. destruct (Horder _ _ _ Ht) as [h Hh]. exact (fa_pool _ Hn h t Hh).
Qed.

Lemma safe_produce : safe fair_node (produce_prog w cfg kp order fuel).
Proof.
  unfold produce_prog. apply safe_act; [apply keeps_looks|intros [head|]]; [|done].
  apply safe_act; [apply (keeps_on_srv fair), (keeps_BestPeerHeight fair)|intros best]. destruct (_ <? _); [done|].
  apply safe_act; [apply (keeps_on_srv fair), (keeps_observe fair)|intros now]. cbv zeta.
  apply safe_act; [apply keeps_looks|intros el]. destruct (negb el); [done|]. unfold produce_elected.
  apply safe_gives with (P:=Forall tx_words); [exact reap_gives|intros txs Ht].
  apply safe_act; [apply keeps_looks|intros reward]. destruct (_ && _); [done|]. apply safe_act.
  { apply keeps_bind; [apply (keeps_on_srv fair), (keeps_observe fair)|intros now'].
    apply keeps_try, keeps_with_members. intros l. by apply keeps_ProduceBlock. }
  intros [e|[blk set]]; [done|]. safe_tac.
Qed.

Lemma safe_prove : safe fair_node (prove_prog w cfg kp).
Proof.
  unfold prove_prog. destruct (negb _); [done|]. apply safe_act; [apply keeps_looks|intros active]. destruct (negb active); [done|].
  apply safe_act; [apply keeps_looks|intros [head|]]; [|done]. cbv zeta. destruct (_ <=? _); [done|]. destruct (_ <? _); [done|].
  apply safe_act; [apply keeps_looks|intros [[id total]|]]; [|done]. destruct (_ <=? _); [done|].
  apply safe_act; [apply (keeps_on_srv fair), (keeps_shard_bytes w fair)|intros [sh|]]; [|done].
  apply safe_act; [apply keeps_looks|intros nonce]. apply safe_act.
  { apply keeps_get_try. intros n. apply keeps_Submit. split; simpl; unfold is_u64, W64; lia. }
  intros [e|[]]; safe_tac.
Qed.

Definition event_ok (e : event) : Prop := match e with ERequest _ r => request_ok r | _ => True end.

Lemma safe_tick e : event_ok e → safe fair_node (tick_prog w cfg kp order fuel e).
Proof.
  intros He. destruct e; cbn [tick_prog].
  - apply safe_act; [apply (keeps_on_srv fair), (keeps_Discover fair)|intros _; exact safe_sync].
  - apply safe_act; [apply (keeps_save fair)|intros _]. safe_tac. 
  - exact safe_prove.
  - safe_tac.
  - by apply safe_then; [exact safe_produce|].
  - apply safe_act; [by apply (keeps_on_srv fair), keeps_ServeHTTP|done].
Qed.
Definition turn_ok (t : turn) : Prop := event_ok t.1 ∧ Forall (Forall (λ p, request_ok p.2)) t.2.

Lemma keeps_calm_step t between : event_ok t.1 → Forall (keeps fair_node) between →
  keeps fair_node (calm_step w cfg kp order fuel t between).
Proof.
  intros He Hb n Hn. pose proof (keeps_weave fair_node _ between (safe_tick _ He) Hb n Hn) as Hk. unfold calm_step, wp in *.
  by destruct (weave _ between n).
Qed.

Lemma keeps_calm_served rs : Forall (λ p, request_ok p.2) rs → keeps fair_node (calm_served w cfg kp order fuel rs).
Proof.
  induction 1 as [|p l Hp _ IH]; [apply keeps_ret|]. cbn [calm_served]. apply keeps_bind; [|intros _; exact IH].
  by apply keeps_calm_step; [|constructor].
Qed.

Lemma keeps_calm_busy ts : Forall turn_ok ts → keeps fair_node (calm_busy w cfg kp order fuel ts).
Proof.
  induction 1 as [|t l [He Hs] _ IH]; [apply keeps_ret|]. cbn [calm_busy]. apply keeps_bind; [|intros _; exact IH].
  apply keeps_calm_step; [done|]. apply Forall_fmap. eapply Forall_impl; [exact Hs|]. intros rs. apply keeps_calm_served.
Qed.

(** [C2] The 21M cap, for a node on an open network whose servers run while it works.  Take a
    node whose books balance: the ledger and the finality base, with blocks and pooled
    transactions of 64-bit amounts.  Whatever sequence of ticks and requests follows, whatever
    requests are served between any two actions of a tick, whatever the peers answer (provided
    a downloaded snapshot itself balances: fast sync trusts it) and however blocks
    arrive, are produced, reorganised or refused, as long as no operation panics: the balances
    and bonds of the ledger never exceed what was minted, the minted total never exceeds
    [MaxSupply], and no balance wraps. *)
Theorem busy_node_no_inflation (ts : list turn) (n n' : Node) (Hn : fair_node n) (Hts : Forall turn_ok ts)
  (Hrun : calm_busy w cfg kp order fuel ts n = OK n' tt) :
  let s := ch_state (sv_chain (nd_srv n')) in
  busy_run w cfg kp order fuel ts n = OK n' tt ∧ fair_node n' ∧ total s <= Minted s <= MaxSupply ∧
  ∀ a, 0 <= ac_Balance (Get s a) <= MaxSupply.
Proof.
  pose proof (keeps_calm_busy ts Hts n Hn) as Hn'. unfold wp in Hn'. rewrite Hrun in Hn'. cbv zeta.
  split; [by apply calm_busy_run|]. split; [done|]. apply supply_ok_bounds, so_ledger, Hn'.
Qed.
End books.

(** ** The election is asked once *)

(** The header [ProduceBlock] signs, whatever comes after. *)
Lemma ProduceBlock_header `{Platform} `{ReedSolomon} me members fd fuel txs kp round now P P' blk set :
  ProduceBlock me members fd fuel txs kp round now P = OK P' (blk, set) → ch_head P' = b_Header blk ∧
  ∃ full root, b_Header blk = Header_Sign (with_logs_root (draft_header members (ch_head P) full (KeyPair_Address kp) now round) root) kp.
Proof.
  unfold ProduceBlock. rewrite (bind_ok get _ _ _ _ eq_refl), bind_require. destruct (ch_hasGen P); [|done]. cbv zeta.
  intros (_ & P1 & _ & E)%bind_OK_inv. rewrite (bind_ok get _ _ _ _ eq_refl) in E. set (hdr := Header_Sign _ _) in E.
  apply bind_OK_inv in E as (set' & P2 & _ & E). apply bind_OK_inv in E as (_ & P3 & _ & E).
  rewrite (bind_ok (modify _) _ _ _ _ eq_refl), (bind_ok (recordBlock _) _ _ _ _ eq_refl) in E.
  apply bind_OK_inv in E as (? & P4 & E4 & E). apply OK_inj in E as [<- [= <- <-]].
  pose proof (advanceFinality_quiet fd fuel) as Hq. match type of E4 with _ ?x = _ => specialize (Hq x) end.
  unfold wp in Hq. rewrite E4 in Hq. injection Hq as _ V2 _ _ _ _ _ _ _. split; [exact V2|]. by eexists _, _.
Qed.

Section late.
Context `{Platform} `{ReedSolomon} (w : World) (cfg : NodeConfig) (kp : KeyPair).
Context (order : nat → Server → list Transaction * list Address) (fuel : nat).

Lemma weave_act_inv {A B} (m : M Node B) (k : B → prog A) x l n n' a : weave (Act m k) (x :: l) n = OK n' a →
  ∃ n1 b n2, x n = OK n1 tt ∧ m n1 = OK n2 b ∧ weave (k b) l n2 = OK n' a.
Proof. cbn [weave]. intros ([] & n1 & E1 & (b & n2 & E2 & E)%bind_OK_inv)%bind_OK_inv. by eexists _, _, _. Qed.

(** A header that is not of the elected validator is a forgery to everybody else. *)
Lemma accept_not_elected cfgR kpR me members fd fuelR blk R h : nc_Consensus cfgR = "postorage" → ch_hasGen R = true →
  ch_tree R !! ID (b_Header blk) = None → hd_Height (b_Header blk) ≠ 0 →
  key_ok (kp_Priv kp) (kp_Pub kp) → b_Header blk = Header_Sign h kp →
  PoStorage.leader (ActiveValidators (ch_state R)) (Some (StorageWeights (ch_state R))) (hd_Height (b_Header blk))
    (hd_PrevHash (b_Header blk)) (hd_Round (b_Header blk)) ≠ KeyPair_Address kp →
  ∃ e, AcceptBlock (node_engine cfgR kpR) me members (block_time cfgR) fd fuelR blk R = ERR R e ∧ IsForgery e = true.
Proof.
  intros Hpo Hg Ht Hh Hk Eh Hl. unfold AcceptBlock. rewrite (bind_ok get _ _ _ _ eq_refl), bind_require, Hg. cbv zeta.
  unfold Forkchoice.Height. rewrite Ht. cbn [fmap option_fmap option_map]. unfold mbind at 1, M_bind at 1, lift.
  unfold node_engine. rewrite bool_decide_true by done. cbn [AuthorizeHeader PoStorage.engine]. unfold PoStorage.authorize.
  pose proof (Header_Sign_verifies h kp Hk) as Hv. rewrite <- Eh in Hv. rewrite Hv. cbn [mbind].
  assert (hd_Validator (b_Header blk) = KeyPair_Address kp) as Ev by (by rewrite Eh).
  change (Ok tt ≫= ?f) with (f tt). cbv beta. destruct (negb (bool_decide (hd_Validator _ ∈ _))); [by eexists|].
  rewrite (proj2 (Z.eqb_neq _ _) Hh), Ev, bool_decide_false by congruence. by eexists.
Qed.
Local Abbreviation self := (Node.self kp).

(** [late rs]: the requests [rs] are served between the election and the rest of the tick. *)
Definition late (rs : list (string * request)) : list (M Node unit) := served w cfg kp order fuel <$> [[]; []; []; []; rs].

Lemma produce_elected_inv head round (l : list (list (string * request))) n n' blk : (length l <= 1)%nat →
  weave (produce_elected w kp order fuel head round) (served w cfg kp order fuel <$> l) n = OK n' (Some blk) →
  ∃ n1 c set members txs now, served w cfg kp order fuel (concat l) n = OK n1 tt ∧
    ProduceBlock self members (cp_FinalityDepth Mainnet) fuel txs kp round now (chain_of n1) = OK c (blk, set) ∧ chain_of n' = c.
Proof.
  intros Hl. assert (∀ m, whole (produce_elected w kp order fuel head round) m = OK n' (Some blk) →
    ∃ c set members txs now, ProduceBlock self members (cp_FinalityDepth Mainnet) fuel txs kp round now (chain_of m) = OK c (blk, set) ∧ chain_of n' = c) as Hgo.
  { intros m. unfold produce_elected. cbn [whole]. rewrite bind_bind, get_run, bind_bind, observe_run. set (txs := Reap _ _ _ _).
    rewrite ret_run. cbn [whole]. rewrite looks_run. destruct (_ && _); [done|]. cbn [whole].
    rewrite bind_bind, observe_run. intros (r & m1 & E1 & E)%bind_OK_inv.
    unfold with_members, try_ in E1. rewrite get_run in E1. unfold on_srv at 1, with_chain at 1 in E1.
    change (sv_chain (nd_srv (ticked (ticked m)))) with (chain_of m) in E1.
    destruct (ProduceBlock _ _ _ _ _ _ _ _ (chain_of m)) as [c [b set]|c e|c] eqn:Ep; apply OK_inj in E1 as [<- <-] || discriminate E1; [|discriminate E].
    cbn [whole] in E. apply bind_OK_inv in E as (? & m2 & E2 & E). apply OK_inj in E2 as [<- _].
    apply bind_OK_inv in E as (? & m3 & E3 & E). apply OK_inj in E3 as [<- _].
    apply bind_OK_inv in E as (? & m4 & E4 & E). apply OK_inj in E as [<- [= ->]].
    eexists c, set, _, txs, _. split; [exact Ep|].
    assert (keeps (framed_node (λ s, sv_chain s = c)) (on_srv (BroadcastBlock w blk))) as Hk by (apply keeps_on_srv, keeps_BroadcastBlock, framed_chain).
    match type of E4 with _ ?x = _ => specialize (Hk x eq_refl) end. unfold wp in Hk. rewrite E4 in Hk. exact Hk. }
  destruct l as [|r [|]]; cbn [fmap list_fmap concat]; [| |simpl in Hl; lia].
  - rewrite weave_alone. intros E%Hgo. exists n. destruct E as (c & set & ms & txs & now & E). by exists c, set, ms, txs, now.
  - rewrite weave_first, app_nil_r. intros (u & n1 & E1 & E%Hgo)%bind_OK_inv. destruct u, E as (c & set & ms & txs & now & E). by exists n1, c, set, ms, txs, now.
Qed.
Lemma first_quiet {A B} (m : M Node B) (k : B → prog A) l n n' a :
  weave (Act m k) (served w cfg kp order fuel [] :: l) n = OK n' a → ∃ b n2, m n = OK n2 b ∧ weave (k b) l n2 = OK n' a.
Proof. intros (n1 & b & n2 & E1 & E2 & E)%weave_act_inv. apply OK_inj in E1 as [<- _]. by eexists _, _. Qed.

Lemma done_nothing l (n n' : Node) (blk : Block) : weave (Done None) l n ≠ OK n' (Some blk).
Proof. cbn [weave]. intros ([] & n1 & _ & E)%bind_OK_inv. discriminate E. Qed.

Lemma polled n n' b : on_srv (BestPeerHeight w) n = OK n' b → waited n n'.
Proof.
  destruct (best_height_run w (Peers (sv_store (nd_srv n))) 0 (nd_srv n)) as (s' & c & E & Hs & _).
  destruct (on_srv_watched (BestPeerHeight w) n s' c) as [k Ek]; [|done|rewrite Ek; intros [<- _]%OK_inj; by exists k].
  unfold BestPeerHeight. by rewrite (bind_ok get _ _ _ _ eq_refl).
Qed.

(** [C37] The election is asked once, and the tip may move before the answer is used.  Let
    requests be served after a node was found to lead at its tip, and let the tick then make a
    block.  That block stands on whatever the tip has become, at the height after it, but with
    the round that was counted from the old tip and in which the node was elected there; the
    node takes it as its tip.  Every node under the storage consensus whose registry elects
    somebody else for the new place and that round refuses the block as a forgery, for which
    [handleGossipBlock] strikes the sender. *)
Theorem late_block_forged (n n' : Node) (rs : list (string * request)) (blk : Block)
  (Hkey : key_ok (kp_Priv kp) (kp_Pub kp))
  (E : weave (produce_prog w cfg kp order fuel) (late rs) n = OK n' (Some blk)) :
  ∃ k m n1, waited n m ∧ served w cfg kp order fuel rs m = OK n1 tt ∧
    let head := ch_head (chain_of n) in let round := round_at cfg (w_now w k / 1000000000) head in
    let tip := ch_head (chain_of n1) in let hdr := b_Header blk in
    CanProduce (Engine := node_engine cfg kp (P2p.ledger (nd_srv n))) (u64 (hd_Height head + 1)) (ID head) round = true ∧
    ch_head (chain_of n') = hdr ∧ hd_PrevHash hdr = ID tip ∧ hd_Height hdr = u64 (hd_Height tip + 1) ∧
    hd_Round hdr = round ∧ hd_Validator hdr = KeyPair_Address kp ∧
    ∀ R cfgR kpR me members fd fuelR, nc_Consensus cfgR = "postorage" → ch_hasGen R = true → ch_tree R !! ID hdr = None → hd_Height hdr ≠ 0 →
      PoStorage.leader (ActiveValidators (ch_state R)) (Some (StorageWeights (ch_state R))) (hd_Height hdr) (ID tip) round ≠ KeyPair_Address kp →
      ∃ e, AcceptBlock (node_engine cfgR kpR) me members (block_time cfgR) fd fuelR blk R = ERR R e ∧ IsForgery e = true.
Proof.
  unfold late in E. cbn [fmap list_fmap] in E. unfold produce_prog in E.
  apply first_quiet in E as (b & n2 & E1 & E). apply OK_inj in E1 as [<- <-]. unfold Chain_Head in E. fold (chain_of n) in E.
  destruct (ch_hasGen (chain_of n)); [|by apply done_nothing in E]. apply first_quiet in E as (best & n2 & [j ->]%polled & E).
  destruct (_ <? best); [by apply done_nothing in E|]. apply first_quiet in E as (now & n3 & E3 & E).
  apply OK_inj in E3 as [<- <-]. apply first_quiet in E as (b & n4 & E4 & E). apply OK_inj in E4 as [<- <-].
  destruct (CanProduce _ _ _) eqn:Hc; [|by apply done_nothing in E]. cbn [negb] in E.
  apply (produce_elected_inv _ _ [rs]) in E as (n1 & c & set & members & txs & now' & E1 & Ep & Ec); [|done].
  cbn [concat] in E1. rewrite app_nil_r in E1.
  apply ProduceBlock_header in Ep as (Eh & full & root & Es).
  eexists j, _, n1. split; [|split; [exact E1|]]; [by eexists|]. cbv zeta.
  assert (hd_PrevHash (b_Header blk) = ID (ch_head (chain_of n1)) ∧ hd_Height (b_Header blk) = u64 (hd_Height (ch_head (chain_of n1)) + 1) ∧
    hd_Round (b_Header blk) = round_at cfg (w_now w j / 1000000000) (ch_head (chain_of n)) ∧ hd_Validator (b_Header blk) = KeyPair_Address kp)
    as (F1 & F2 & F3 & F4) by (rewrite Es; by split_and!).
  split_and!; [exact Hc|by rewrite Ec|done..|]. intros R cfgR kpR me ms fd fuelR HpR HgR Hnew Hh Hl.
  apply (accept_not_elected cfgR kpR me ms fd fuelR blk R _ HpR HgR Hnew Hh Hkey Es). by rewrite F1, F3.
Qed.
End late.

(** ** What a sync overtakes *)

Section overtaken.
Context `{Platform} `{ReedSolomon} (w : World) (cfg : NodeConfig) (kp : KeyPair).
Context (order : nat → Server → list Transaction * list Address) (fuel : nat).

(** [k] observations later. *)
Definition after (k : nat) (n : Node) : Node := set_srv (P2p.set_clock (k + sv_clock (nd_srv n)) (nd_srv n)) n.

Lemma best_peer_clock peers : ∀ best bh s, ∃ r, best_peer w peers best bh s = OK (P2p.set_clock (length peers + sv_clock s) s) r.
Proof.
  induction peers as [|p l IH]; intros best bh s; cbn [best_peer]; [eexists; by destruct s|].
  unfold mbind, M_bind, try_, remoteHead. rewrite http_get_run. cbn [length].
  assert (∀ b h, ∃ r, best_peer w l b h (bump s) = OK (P2p.set_clock (S (length l) + sv_clock s) s) r) as Hl.
  { intros b h. destruct (IH b h (bump s)) as [r ->]. exists r. unfold bump, P2p.set_clock. simpl. do 2 f_equal; lia. }
  destruct (w_net w (sv_clock s) _ RHead) as [[code [a|]]|]; [|apply Hl..]. destruct (code =? StatusOK); [|apply Hl].
  destruct (bh <=? hd_Height a); apply Hl.
Qed.

Lemma fetched url r a n : (∀ i, w_net w i url r = Some (StatusOK, Some a)) → try_ (on_srv (http_get w url r)) n = OK (ticked n) (inr a).
Proof. intros Hr. unfold try_, on_srv. rewrite http_get_run, Hr. done. Qed.

Lemma weave_act {A B} (m : M Node B) (k : B → prog A) x l n n1 n2 b : x n = OK n1 tt → m n1 = OK n2 b →
  weave (Act m k) (x :: l) n = weave (k b) l n2.
Proof. intros Ex Em. cbn [weave head tail]. change (default _ (Some x)) with x. by rewrite (bind_ok _ _ _ _ _ Ex), (bind_ok _ _ _ _ _ Em). Qed.

(** Fast sync undoes what arrives while it downloads.  A node below the height of its
    best peer asks it for headers and snapshot; both come, and then requests are
    served that leave the node on the chain of [n1].  [SyncInstall] is run on that chain and never looks
    at its tip: when it succeeds the node is on the last downloaded header, however far
    the node had come, and every block it had heard of is let pass without a look
    when it comes again, the blocks above the new tip included. *)
Theorem sync_undoes_blocks (n n1 : Node) (p : Peer) (h : Header) (recs : list (Header * ShardSet)) (snap : State)
  (rs : list (string * request)) (c : Chain)
  (Hlead : leads w (sv_store (nd_srv n)) p h) (Hlt : Chain_Height (chain_of n) < hd_Height h)
  (Hrecs : ∀ i, w_net w i (p_Control p) (RHeaders "0" (FormatUint (hd_Height h))) = Some (StatusOK, Some recs))
  (Hsnap : ∀ i, w_net w i (p_Control p) RSnapshot = Some (StatusOK, Some snap))
  (E1 : served w cfg kp order fuel rs (after (2 + length (Peers (sv_store (nd_srv n)))) n) = OK n1 tt)
  (Ec : SyncInstall (node_engine cfg kp) recs snap (chain_of n1) = OK c tt) :
  ∃ n', weave (sync_prog w cfg kp) (served w cfg kp order fuel <$> [[]; []; []; []; []; rs]) n = OK n' tt ∧ chain_of n' = c ∧
    hd_Height (ch_head c) = zlen recs - 1 ∧
    ∀ blk, is_Some (ch_tree (chain_of n1) !! ID (b_Header blk)) → accepts cfg kp fuel blk n' = OK c tt.
Proof.
  destruct (SyncInstall_files _ _ _ _ _ _ Ec) as (Hg & _ & _ & Hh & _).
  assert (∀ n', chain_of n' = c → chain_of n' = c ∧ hd_Height (ch_head c) = zlen recs - 1 ∧
    ∀ blk, is_Some (ch_tree (chain_of n1) !! ID (b_Header blk)) → accepts cfg kp fuel blk n' = OK c tt) as Hend.
  { intros n' En. split_and!; [done..|]. intros blk Hk. unfold accepts. rewrite En. apply accept_known; [exact Hg|exact (SyncInstall_known _ _ _ _ _ _ _ Ec Hk)]. }
  unfold sync_prog. cbn [fmap list_fmap].
  rewrite (weave_act _ _ _ _ n n n _ eq_refl eq_refl), (weave_act _ _ _ _ n n n _ eq_refl eq_refl).
  set (len := length (Peers (sv_store (nd_srv n)))) in *.
  assert ((n ← get; try_ (on_srv (best_peer w (Peers (sv_store (nd_srv n))) "" 0))) n = OK (after len n) (inr (p_Control p, hd_Height h))) as Eb.
  { rewrite get_run. unfold try_, on_srv. destruct (leads_best w (sv_store (nd_srv n)) p h (nd_srv n) Hlead) as (s' & E & _).
    destruct (best_peer_clock (Peers (sv_store (nd_srv n))) "" 0 (nd_srv n)) as [r Er]. rewrite Er in E |- *. apply OK_inj in E as [_ ->]. done. }
  rewrite (weave_act _ _ _ _ n n _ _ eq_refl Eb). cbn [fst snd].
  destruct Hlead as (_ & Hu & Hpos & _). rewrite bool_decide_false by done. unfold chain_of in Hlt.
  rewrite (proj2 (Z.leb_gt _ _) Hlt), andb_false_r. cbn [orb].
  rewrite (weave_act _ _ _ _ _ _ _ _ eq_refl (fetched _ (RHeaders _ _) recs (after len n) Hrecs)).
  rewrite (weave_act _ _ _ _ _ _ _ _ eq_refl (fetched _ RSnapshot snap _ Hsnap)).
  change (ticked (ticked (after len n))) with (after (2 + len) n).
  assert (try_ (on_srv (with_chain (SyncInstall (node_engine cfg kp) recs snap))) n1 = OK (set_srv (P2p.set_chain c (nd_srv n1)) n1) (inr tt)) as Ei.
  { unfold try_, on_srv, with_chain. unfold chain_of in Ec. by rewrite Ec. }
  rewrite (weave_act _ _ _ _ _ _ _ _ E1 Ei). rewrite (proj2 (Z.ltb_lt _ _) Hpos). eexists. split; [reflexivity|]. by apply Hend.
Qed.
End overtaken.

(** *** A payment that arrives inside the tick *)

(** It arrives after the election and before the pool is read, so the block of this very tick has
    it; heads and health are asked for meanwhile. *)
Definition busy_turns : list turn :=
  [(EBlock, [[]; [("5.6.7.8", RHead)]; []; []; [("1.2.3.4", RGossipTx (Some pay_tx))]; []; [("5.6.7.8", RHealth)]]);
   (ESave, [[]; [("5.6.7.8", RSupply)]])].
Definition busy_done : outcome Node unit := @calm_busy demo_platform plain_code quiet authority_cfg bob_key pool_order 0 busy_turns demo_node.

Lemma busy_runs : is_OK busy_done && (hd_Height (ch_head (chain_of (out_state busy_done))) =? 5) &&
  (ac_Balance (Get (ch_state (chain_of (out_state busy_done))) bob) =? 54 * Coin) = true.
Proof. vm_compute. reflexivity. Qed.

Lemma busy_node_no_inflation_witness : ∃ n',
  @busy_run demo_platform plain_code quiet authority_cfg bob_key pool_order 0 busy_turns demo_node = OK n' tt ∧
  hd_Height (ch_head (chain_of n')) = 5 ∧ ac_Balance (Get (ch_state (chain_of n')) bob) = 54 * Coin ∧
  total (ch_state (chain_of n')) <= Minted (ch_state (chain_of n')) <= MaxSupply.
Proof.
  pose proof busy_runs as ((Hok%is_OK_unit & Hh%Z.eqb_eq)%andb_prop & Hb%Z.eqb_eq)%andb_prop.
  destruct (@busy_node_no_inflation demo_platform plain_code quiet) with (cfg:=authority_cfg) (kp:=bob_key) (order:=pool_order) (fuel:=0%nat)
    (ts:=busy_turns) (n:=demo_node) (n':=out_state busy_done) as (Hr & _ & Ht & _).
  - split; by intros.
  - intros k s t Ht. apply list_elem_of_fmap in Ht as ([h t'] & -> & Hp). apply elem_of_map_to_list in Hp. by exists h.
  - split; [exact chain0_sound|apply map_Forall_empty].
  - repeat constructor; vm_compute; discriminate || reflexivity.
  - exact Hok.
  - exists (out_state busy_done). split; [exact Hr|]. split; [exact Hh|]. split; [exact Hb|exact Ht].
Defined.

(** *** A late block *)

(** Two validators; [alice] leads in round 4 and makes a block at 23 seconds, which arrives at
    [bob]'s node at 30 seconds, in round 6, just after it found itself elected. *)
Definition at_second (t : Z) : World := world_of silent (λ _, t * 1000000000).
Definition alice_key : KeyPair := {| kp_Priv := []; kp_Pub := alice_pub |}.
Definition duo_ledger : State :=
  set_Validators {[ alice := MkValidator 0 true 0 false 0 0; bob := MkValidator 0 true 0 false 0 0 ]} ledger0.
Definition duo : Node := MkNode (server_of (set_ledger duo_ledger chain1)) None None.
Definition her_run : outcome Node (option Block) :=
  whole (@produce_prog demo_platform plain_code (at_second 23) postorage_cfg alice_key pool_order 5) duo.
Definition made_by (o : outcome Node (option Block)) : option Block := match o with OK _ b => b | _ => None end.
Definition her_block : Block := default pay_block (made_by her_run).
Definition her_chain : Chain := chain_of (out_state her_run).
Definition his_run : outcome Node (option Block) :=
  weave (@produce_prog demo_platform plain_code (at_second 30) postorage_cfg bob_key pool_order 5)
    (@late demo_platform plain_code (at_second 30) postorage_cfg bob_key pool_order 5 [("1.2.3.4", RGossipBlock (Some her_block))]) duo.
Definition his_block : Block := default pay_block (made_by his_run).

Definition late_tests : list bool :=
  [is_OK his_run; bool_decide (made_by his_run = Some his_block);
   bool_decide (hd_PrevHash (b_Header his_block) = ID (b_Header her_block)); ch_hasGen her_chain;
   is_none (ch_tree her_chain !! ID (b_Header his_block)); negb (hd_Height (b_Header his_block) =? 0);
   negb (bool_decide (PoStorage.leader (ActiveValidators (ch_state her_chain)) (Some (StorageWeights (ch_state her_chain)))
     (hd_Height (b_Header his_block)) (hd_PrevHash (b_Header his_block)) (hd_Round (b_Header his_block)) = KeyPair_Address bob_key));
   bool_decide (ch_head her_chain = b_Header her_block)].

Lemma late_runs : forallb id late_tests = true.
Proof. vm_compute. reflexivity. Qed.

Lemma late_block_forged_witness : ∃ n' e, his_run = OK n' (Some his_block) ∧ ch_head (chain_of n') = b_Header his_block ∧
  hd_PrevHash (b_Header his_block) = ID (ch_head her_chain) ∧
  @AcceptBlock demo_platform plain_code (node_engine postorage_cfg alice_key) "n2" ["n2"] (block_time postorage_cfg) 0 5 his_block her_chain = ERR her_chain e ∧
  IsForgery e = true.
Proof.
  pose proof (tests_pass _ late_runs) as F. lazy delta [late_tests passed] beta iota in F.
  destruct F as (Hok & Hb%bool_decide_eq_true & Hp%bool_decide_eq_true & Hg & Hn%is_none_true & Hh%negb_true_iff%Z.eqb_neq & Hl%negb_true_iff%bool_decide_eq_false & Ht%bool_decide_eq_true & _).
  destruct his_run as [n' r| |] eqn:E; [|discriminate Hok..]. change (r = Some his_block) in Hb. rewrite Hb in E.
  destruct (@late_block_forged demo_platform plain_code (at_second 30) postorage_cfg bob_key pool_order 5 duo n' [("1.2.3.4", RGossipBlock (Some her_block))] his_block)
    as (k & m & n1 & _ & _ & Hr).
  - split; [reflexivity|]. intros msg. reflexivity.
  - exact E.
  - cbv zeta in Hr. destruct Hr as (_ & Hd & H2 & _ & H4 & _ & HR). rewrite <- H2, <- H4 in HR.
    destruct (HR her_chain postorage_cfg alice_key "n2" ["n2"] 0 5%nat eq_refl Hg Hn Hh Hl) as (e & Ea & Hf).
    exists n', e. split; [rewrite Hb; reflexivity|]. split; [exact Hd|]. split; [rewrite Ht; exact Hp|]. split; [exact Ea|exact Hf].
Defined.

(** *** Two blocks that arrive during a sync *)

(** A node at the genesis syncs with [good], which is at block 1; blocks 1 and 2 arrive by gossip
    after the downloads, and the sync takes the node back to block 1. *)
Definition one_net : nat → string → ∀ r, option (reply r) := λ _ url r,
  if bool_decide (url = p_Control good) then
    match r return option (reply r) with
    | RHead => Some (StatusOK, Some (ch_head (chain_of mined)))
    | RHeaders _ _ => Some (StatusOK, Some one_records)
    | RSnapshot => Some (StatusOK, Some (json_state (ch_state (chain_of mined))))
    | _ => None
    end
  else None.
Definition one_world : World := world_of one_net (λ _, 1780000015000000000).
Definition starting : Node := set_srv (P2p.set_store peers0 (nd_srv booted)) booted.
Definition mined_block : Block := default pay_block (lookup_block (chain_of mined) (ID (ch_head (chain_of mined)))).
Definition both_blocks : list (string * request) := [("1.2.3.4", RGossipBlock (Some mined_block)); ("1.2.3.4", RGossipBlock (Some block_2))].
Definition met_run : outcome Node unit :=
  @served demo_platform plain_code one_world solo_cfg bob_key pool_order 5 both_blocks (after (2 + length (Peers (sv_store (nd_srv starting)))) starting).
Definition met : Node := out_state met_run.
Definition undo_run : outcome Chain unit :=
  SyncInstall (@node_engine demo_platform solo_cfg bob_key) one_records (json_state (ch_state (chain_of mined))) (chain_of met).

Definition undo_tests : list bool :=
  [is_OK met_run; hd_Height (ch_head (chain_of met)) =? 2; is_OK undo_run; negb (is_none (ch_tree (chain_of met) !! ID (b_Header block_2)));
   zlen one_records =? 2; Chain_Height (chain_of starting) =? 0; hd_Height (ch_head (chain_of mined)) =? 1].
Lemma undo_runs : forallb id undo_tests = true.
Proof. vm_compute. reflexivity. Qed.

Lemma good_leads : hd_Height (ch_head (chain_of mined)) = 1 → leads one_world (sv_store (nd_srv starting)) good (ch_head (chain_of mined)).
Proof.
  intros Hh. split; [exact good_is_peer|]. split; [discriminate|]. split; [rewrite Hh; reflexivity|]. split; [intros i; exact eq_refl|].
  intros q i h' Hq Hne Hr. destruct (peers0_two q Hq) as [->| ->]; [destruct (Hne eq_refl)|discriminate Hr].
Qed.

Lemma sync_undoes_blocks_witness : hd_Height (ch_head (chain_of met)) = 2 ∧ ∃ n',
  weave (@sync_prog demo_platform one_world solo_cfg bob_key)
    (@served demo_platform plain_code one_world solo_cfg bob_key pool_order 5 <$> [[]; []; []; []; []; both_blocks]) starting = OK n' tt ∧
  hd_Height (ch_head (chain_of n')) = 1 ∧ @accepts demo_platform plain_code solo_cfg bob_key 5 block_2 n' = OK (chain_of n') tt.
Proof.
  pose proof (tests_pass _ undo_runs) as F. lazy delta [undo_tests passed] beta iota in F.
  destruct F as (Hm%is_OK_unit & H2%Z.eqb_eq & Hu%is_OK_unit & Hk%is_none_false & Hz%Z.eqb_eq & H0%Z.eqb_eq & H1%Z.eqb_eq & _).
  split; [exact H2|].
  destruct (@sync_undoes_blocks demo_platform plain_code one_world solo_cfg bob_key pool_order 5 starting met good (ch_head (chain_of mined)) one_records
    (json_state (ch_state (chain_of mined))) both_blocks (out_state undo_run)) as (n' & E & Ec & Hh & Hp).
  - exact (good_leads H1).
  - rewrite H0, H1. reflexivity.
  - intros i. exact eq_refl.
  - intros i. exact eq_refl.
  - exact Hm.
  - exact Hu.
  - exists n'. split; [exact E|]. rewrite Ec. split; [rewrite Hh, Hz; reflexivity|exact (Hp block_2 Hk)].
Defined.
