(* ===== verification/NodeProof.v ===== *)
(** * The node: a proof of storage, end to end

    From the shard on a validator's disk to its weight in the election: the node builds
    the proof, its pool admits it, and the ledger that executes it in one of the next
    blocks raises the validator's score. *)

From S2P Require Import Prelude Sha256 Crypto Economy Merkle Netparams Types Pos Forkchoice Rendezvous Consensus Erasure Bloom Vm State StateInv StateBlock StateFrame StateValidators StateRules Demo Mempool Strconv Chain ChainProps ChainShards ChainAccept Peers P2p NetDemo P2pProps Node NodeProps NodeRestart.

Local Abbreviation M := Prelude.M.

Section proof.
Context `{Platform} `{ReedSolomon} (w : World) (cfg : NodeConfig) (kp : KeyPair).

(** The block a proof is for, below a tip of height [H]. *)
Definition proof_target (H : Z) : Z := H - cp_StorageMinDepth Mainnet - 1.

(** The shard the protocol assigns to this node in a stored block. *)
Definition own_shard (hdr : Header) (set : ShardSet) : Z := assigned_index (self kp) (ID hdr) (Total (ss_Spec set)).

(** A node that holds its shard reads it from disk, whatever the network. *)
Lemma held_shard_bytes n target hdr set d :
  GetHeader target (ch_store (chain_of n)) = Ok (hdr, set) → 0 < Total (ss_Spec set) →
  GetShard (ID hdr) (own_shard hdr set) (ch_store (chain_of n)) = Some d → VerifyShard set (own_shard hdr set) d = true →
  shard_bytes w target (own_shard hdr set) (nd_srv n) = OK (nd_srv n) (Some d).
Proof.
  intros Hh Ht Hd Hv. unfold shard_bytes. rewrite (bind_ok get _ _ _ _ eq_refl). cbv zeta. unfold store_of. fold (chain_of n).
  rewrite Hh, Hd, Hv. rewrite (bind_ok (mret None) _ _ _ _ eq_refl). unfold ShardBytes. rewrite Hh.
  pose proof (Z.mod_pos_bound (uint64_at (sha256 (bytes_of (self kp) ++ ID hdr))) (Total (ss_Spec set)) Ht) as Hr.
  fold (assigned_index (self kp) (ID hdr) (Total (ss_Spec set))) in Hr. fold (own_shard hdr set) in Hr.
  rewrite (proj2 (Z.ltb_ge _ _)), (proj2 (Z.leb_gt _ _)) by lia. cbn [orb]. by rewrite Hd, Hv.
Qed.

Lemma storage_tx_admitted (s : State) target d : key_ok (kp_Priv kp) (kp_Pub kp) → ChainID (State.cfg s) = 1 →
  0 <= ac_Balance (Get s (self kp)) → CheckTx s (storage_tx kp target d (ac_Nonce (Get s (self kp)))) = Ok tt.
Proof.
  intros Hk Hid Hb. unfold CheckTx, storage_tx. rewrite tx_Sign_verifies by done. cbn [mbind res_bind].
  unfold IsCoinbase. cbn [tx_Sign tx_with_sig tx_From tx_ChainID tx_Nonce tx_Amount tx_Fee].
  rewrite (bool_decide_false _ (address_nonempty kp)), Hid. fold (self kp). rewrite !Z.eqb_refl. cbn [negb].
  change (u64 (0 + 0)) with 0. change (0 <? 0) with false. by rewrite (proj2 (Z.ltb_ge (ac_Balance _) 0)).
Qed.

Lemma debited_keeps t x : Validators (x_s (debited t x)) = Validators (x_s x) ∧ State.cfg (x_s (debited t x)) = State.cfg (x_s x).
Proof. unfold debited, put. simpl. rewrite snapped_state. unfold touch. by destruct (Accounts (x_s x) !! tx_From t). Qed.

(** What the ledger does with it. *)
Lemma storage_tx_scores (s : State) st next target d hdr set v :
  key_ok (kp_Priv kp) (kp_Pub kp) → State.cfg s = network_cfg st → 0 <= ac_Balance (Get s (self kp)) →
  Validators s !! self kp = Some v → v_Active v = true →
  GetHeader target st = Ok (hdr, set) → 0 < Total (ss_Spec set) → VerifyShard set (own_shard hdr set) d = true →
  0 <= target < W64 - 256 → target + 4 <= hd_Height next <= target + 256 →
  ∃ x', applyTx next 0 (storage_tx kp target d (ac_Nonce (Get s (self kp)))) (xst0 s) = OK x' tt ∧
    Validators (x_s x') = <[self kp := prove_storage (cp_StorageCap Mainnet) (hd_Height next) v]> (Validators s).
Proof.
  intros Hk Hcfg Hb Hv Hact Hh Ht Hok Hlow Hhi. set (t := storage_tx _ _ _ _).
  assert (CheckTx s t = Ok tt) as Hck by (apply storage_tx_admitted; [done|by rewrite Hcfg|done]).
  assert (debit_ok (State.cfg (x_s (xst0 s))) (acc (xst0 s) (tx_From t)) t) as Hdb.
  { apply CheckTx_fields in Hck as (D1 & D2 & D3 & D4). split; [exact D2|exact D1|exact D3|exact D4|].
    change (tx_total t) with 0. change (tx_Amount t) with 0. split; [done|exact Hb]. }
  unfold applyTx. rewrite (bind_ok _ _ _ _ _ (debit_complete t (xst0 s) Hdb)). set (x := debited t (xst0 s)).
  assert (Validators (x_s x) = Validators s ∧ State.cfg (x_s x) = State.cfg s) as [Ev Ec] by exact (debited_keeps t (xst0 s)).
  change (applyKind next 0 t) with (applyStorageProof next t). unfold applyStorageProof. rewrite state_bind. cbv zeta.
  rewrite Ev, Ec, Hcfg. cbn [State.ShardAt State.ShardProofOK network_cfg]. change (tx_From t) with (self kp). rewrite Hv, Hact. cbn [negb].
  change (tx_Data t) with (be_bytes 8 target ++ d). rewrite word_at_front by (unfold is_u64; lia).
  rewrite drop_app_length' by by rewrite length_be_bytes.
  assert ((zlen (be_bytes 8 target ++ d) <? 8) = false) as ->.
  { apply Z.ltb_ge. unfold zlen. rewrite length_app, length_be_bytes. lia. }
  cbn [StorageWindow StorageMinDepth network_cfg]. change (cp_StorageWindow Mainnet) with 256. change (cp_StorageMinDepth Mainnet) with 4.
  rewrite u64_small by (unfold is_u64; lia).
  rewrite (proj2 (Z.leb_gt (hd_Height next) target)), (proj2 (Z.ltb_ge (target + 256) _)), (proj2 (Z.ltb_ge (hd_Height next - target) 4)) by lia. cbn [orb].
  unfold Chain.ShardAt at 1. rewrite Hh, (proj2 (Z.leb_gt _ 0)) by done. fold (own_shard hdr set).
  unfold Chain.ShardProofOK. rewrite Hh, Hok. unfold require.
  eexists. split; [reflexivity|]. cbn [on_state x_s set_Validators Validators]. by rewrite Ev.
Qed.

End proof.

(** ** A concrete validator *)

(** [bob] at height 6, with every shard of the block at height 1 on disk. *)
Definition proof_store : Store :=
  foldr (λ p, PutShard (ID w_hdr) (Z.of_nat p.1) p.2) w_store (imap pair w_built.1).
Definition proof_chain : Chain :=
  MkChain proof_store (on_network proof_store bob_ledger) None (header_at 6 bob) true Forkchoice.New ∅ None Zero 0.
Definition proof_node : Node := MkNode (server_of proof_chain) None None.
Definition bob_shard : Z := own_shard bob_key w_hdr w_built.2.
Definition bob_shard_bytes : bytes := default [] (w_built.1 !! Z.to_nat bob_shard).

