(* ===== verification/Version.v ===== *)
(** * Release comparison ([internal/version/check.go])

    Whether a release tag is newer than the running version.  What GitHub answers is an
    argument; a node logs the result of [checkUpdate] and does nothing else with it. *)

From S2P Require Import Prelude Strconv.

Definition dot : byte := zb 46.

(** Errors of [Atoi] are ignored, its value is kept. *)
Definition parse (v : string) : list Z :=
  (λ p, (Atoi (string_of p)).1) <$> split_on dot (trim_prefix [zb 118] (TrimSpace (bytes_of v))).

(** The loop over both slices, [n] turns from their heads; a missing component is zero. *)
Fixpoint cmp_loop (n : nat) (a b : list Z) : Z :=
  match n with
  | O => 0
  | S n =>
      let x := default 0 (head a) in
      let y := default 0 (head b) in
      if x =? y then cmp_loop n (tail a) (tail b) else if y <? x then 1 else -1
  end.
Definition cmp (a b : list Z) : Z := cmp_loop (length a `max` length b) a b.

Definition IsNewer (latest current : string) : bool :=
  if bool_decide (current = "dev") || bool_decide (latest = "") then false
  else 0 <? cmp (parse latest) (parse current).

(** ** The lookup: status code and tag of the answer of GitHub, if one came and decodes *)

Definition Version : string := "dev".
Definition Repo : string := "ArubikU/shadowledger".

Definition LatestRelease (resp : option (Z * option string)) : res string :=
  match resp with
  | None => Err ErrNetwork
  | Some (code, tag) =>
      if negb (code =? 200) then Err ErrNetwork else
      match tag with Some t => Ok t | None => Err ErrJSON end
  end.

(** [Node.checkUpdate]: the release a running [version] is told about, if any. *)
Definition checkUpdate (version : string) (resp : option (Z * option string)) : option string :=
  match LatestRelease resp with
  | Ok latest => if IsNewer latest version then Some latest else None
  | _ => None
  end.

Example newer_examples :
  IsNewer "v1.10.0" "v1.9.3" = true ∧ IsNewer "v1.2" "1.2.0" = false ∧ IsNewer "v9" "dev" = false ∧ IsNewer "v2.0-rc1" "v2.0" = false.
Proof. vm_compute. auto. Qed.

(** * Lemmas *)

(** The component at [i], zero past the end. *)
Definition comp (l : list Z) (i : nat) : Z := default 0 (l !! i).

Lemma comp_head l : comp l 0 = default 0 (head l).
Proof. by destruct l. Qed.
Lemma comp_tail l i : comp l (S i) = comp (tail l) i.
Proof. by destruct l. Qed.
Lemma comp_end l i : (length l <= i)%nat → comp l i = 0.
Proof. intros Hi. unfold comp. by rewrite lookup_ge_None_2. Qed.

(** The first difference decides. *)
Lemma cmp_loop_spec n : ∀ a b, (length a <= n)%nat → (length b <= n)%nat →
  (cmp_loop n a b = 0 ∧ ∀ i, comp a i = comp b i) ∨
  ∃ i, (∀ j, (j < i)%nat → comp a j = comp b j) ∧
    ((cmp_loop n a b = 1 ∧ comp b i < comp a i) ∨ (cmp_loop n a b = -1 ∧ comp a i < comp b i)).
Proof.
  induction n as [|n IH]; intros a b Ha Hb; cbn [cmp_loop].
  { left. split; [done|]. intros i. by rewrite !comp_end by lia. }
  cbv zeta. rewrite <- !comp_head. destruct (Z.eqb_spec (comp a 0) (comp b 0)) as [E|Hne].
  - assert (∀ l : list Z, (length l <= S n)%nat → (length (tail l) <= n)%nat) as Ht by (intros [|x l]; simpl; lia).
    destruct (IH (tail a) (tail b) (Ht a Ha) (Ht b Hb)) as [[-> Heq]|(i & Hj & Hi)].
    + left. split; [done|]. intros [|i]; [done|]. by rewrite !comp_tail.
    + right. exists (S i). rewrite !comp_tail. split; [|done]. intros [|j] Hl; [done|]. rewrite !comp_tail. apply Hj. lia.
  - right. exists 0%nat. split; [lia|]. destruct (Z.ltb_spec (comp b 0) (comp a 0)); [left|right]; split; (done || lia).
Qed.

Lemma cmp_spec a b : (cmp a b = 0 ∧ ∀ i, comp a i = comp b i) ∨
  ∃ i, (∀ j, (j < i)%nat → comp a j = comp b j) ∧
    ((cmp a b = 1 ∧ comp b i < comp a i) ∨ (cmp a b = -1 ∧ comp a i < comp b i)).
Proof. apply cmp_loop_spec; lia. Qed.

Lemma cmp_pos a b : 0 < cmp a b ↔ ∃ i, (∀ j, (j < i)%nat → comp a j = comp b j) ∧ comp b i < comp a i.
Proof.
  split.
  - intros Hp. destruct (cmp_spec a b) as [[E _]|(i & Hj & [[E Hi]|[E _]])]; [lia|by exists i|lia].
  - intros (i & Hj & Hi). destruct (cmp_spec a b) as [[E Heq]|(k & Hk & [[E Hd]|[E Hd]])]; [specialize (Heq i); lia|lia|].
    exfalso. destruct (Nat.lt_trichotomy i k) as [Hl|[->|Hl]]; [specialize (Hk i Hl); lia|lia|specialize (Hj k Hl); lia].
Qed.

(** Being newer is the lexicographic order of the components, missing ones being zero:
    it is irreflexive, never holds both ways, and is transitive. *)
Theorem newer_is_order (a b c : string) (Hdev : a ≠ "dev" ∧ b ≠ "dev" ∧ c ≠ "dev") (Hne : a ≠ "" ∧ b ≠ "" ∧ c ≠ "") :
  (IsNewer a b = true ↔ ∃ i, (∀ j, (j < i)%nat → comp (parse a) j = comp (parse b) j) ∧ comp (parse b) i < comp (parse a) i) ∧
  IsNewer a a = false ∧ (IsNewer a b = true → IsNewer b a = false) ∧
  (IsNewer a b = true → IsNewer b c = true → IsNewer a c = true).
Proof.
  destruct Hdev as (? & ? & ?), Hne as (? & ? & ?).
  assert (∀ x y, x ≠ "" → y ≠ "dev" → IsNewer x y = true ↔ ∃ i, (∀ j, (j < i)%nat → comp (parse x) j = comp (parse y) j) ∧ comp (parse y) i < comp (parse x) i) as Hiff.
  { intros x y Hx Hy. unfold IsNewer. rewrite !bool_decide_false by done. simpl. rewrite Z.ltb_lt. apply cmp_pos. }
  split_and!; [by apply Hiff| | |].
  - apply not_true_iff_false. rewrite Hiff by done. intros (i & _ & Hi). lia.
  - intros (i & Hj & Hi)%Hiff; [|done..]. apply not_true_iff_false. rewrite Hiff by done. intros (k & Hk & Hd).
    destruct (Nat.lt_trichotomy i k) as [Hl|[->|Hl]]; [specialize (Hk i Hl); lia|lia|specialize (Hj k Hl); lia].
  - intros (i & Hj & Hi)%Hiff (k & Hk & Hd)%Hiff; try done. apply Hiff; [done..|]. exists (i `min` k)%nat. split.
    + intros j Hl. rewrite Hj, Hk by lia. done.
    + destruct (Nat.lt_trichotomy i k) as [Hl|[->|Hl]].
      * rewrite Nat.min_l by lia. specialize (Hk i Hl). lia.
      * rewrite Nat.min_id. lia.
      * rewrite Nat.min_r by lia. specialize (Hj k Hl). lia.
Qed.

Lemma newer_is_order_witness : IsNewer "v1.10" "v1.9" = true ∧ IsNewer "v1.9" "v1.10" = false.
Proof.
  split; [vm_compute; reflexivity|].
  apply (newer_is_order "v1.10" "v1.9" "v1"); [split_and!; discriminate..|vm_compute; reflexivity].
Defined.
