(* ===== verification/Slctl.v ===== *)
(** * The command line ([cmd/slctl/main.go])

    The wallet and inspection tool: every command as a program over the machine it runs on
    (files, randomness), the nodes it asks over HTTP and what it prints.  [must] and
    [os.Exit] end a command with an error; [PANIC] is a panic, or a proof-of-work search
    that has not ended after [fuel] nonces.  The nodes are a [World] as in [P2p], so a
    request is answered by whatever runs at the URL. *)

From S2P Require Import Prelude Sha256 Crypto Base64 AesGcm Wallet Merkle Netparams Types Pow Shl State StateStore Strconv Chain Peers P2p Node Version.

Local Abbreviation M := Prelude.M.

(** ** The state of a run *)

(** A printed line, or the body of an answer. *)
Inductive output :=
  | Text (s : string)
  | Body (r : request) (b : option (answer r)).

Record Cli := MkCli {
  cl_machine : Machine; cl_clock : nat;
  cl_requests : list (string * request);   (* the requests made, in order *)
  cl_out : list output;
}.

Abbreviation MC := (M Cli).

Definition on_machine {A} (m : M Machine A) : MC A := λ c,
  let put x := MkCli x (cl_clock c) (cl_requests c) (cl_out c) in
  match m (cl_machine c) with OK x a => OK (put x) a | ERR x e => ERR (put x) e | PANIC x => PANIC (put x) end.

Definition print (o : output) : MC unit :=
  modify (λ c, MkCli (cl_machine c) (cl_clock c) (cl_requests c) (cl_out c ++ [o])).
Definition println (l : list string) : MC unit := print (Text (str_cat l)).

(** A search that has not ended within the fuel. *)
Definition searched (o : option Z) : MC Z := match o with Some n => mret n | None => panic end.

(** ** Flags *)

(** The value after the first [--name], if there is one. *)
Fixpoint flagVal (args : list string) (name : string) : string :=
  match args with
  | a :: r =>
      match r with
      | b :: _ => if bool_decide (a = str_cat ["--"; name]) then b else flagVal r name
      | [] => ""
      end
  | [] => ""
  end.

Definition mustU64 (s : string) : MC Z := or_error ErrBadNumber (Sscanf_d s).
Definition mustU64opt (args : list string) (name : string) (def : Z) : MC Z :=
  let v := flagVal args name in if bool_decide (v = "") then mret def else mustU64 v.

Definition decodeHex (s : bytes) : MC bytes :=
  or_error ErrBadHex (hex_decode (TrimSpace (trim_prefix (bytes_of "0x") s))).

Definition readHexArg (args : list string) (name : string) : MC bytes :=
  let path := flagVal args name in
  if bool_decide (path = "") then throw ErrNoCode else
  raw ← on_machine (read_file path); decodeHex raw.

Definition be8w (v : Z) : bytes := be_bytes 8 v.

(** The words of [--args], in order; empty parts are skipped. *)
Fixpoint words_of (parts : list bytes) (out : bytes) : MC bytes :=
  match parts with
  | [] => mret out
  | p :: r =>
      let p := TrimSpace p in
      if bool_decide (p = []) then words_of r out else
      v ← mustU64 (string_of p); words_of r (out ++ be8w v)
  end.

Definition comma : byte := zb 44.

Definition buildCalldata (args : list string) : MC bytes :=
  let d := flagVal args "data" in
  if negb (bool_decide (d = "")) then decodeHex (bytes_of d) else
  let fn := flagVal args "fn" in
  let out := if bool_decide (fn = "") then [] else be8w (Selector fn) in
  let a := flagVal args "args" in
  if bool_decide (a = "") then mret out else words_of (split_on comma (bytes_of a)) out.

Section slctl.
Context `{Platform} `{WalletCodec} (w : World).
(** The randomness of the machine, the environment variable SL_WALLET_PASS, and the bound
    on the searches. *)
Context (rand : nat → Z → option bytes) (keygen : nat → option KeyPair) (env_pass : string) (fuel : nat).

Definition passOf (args : list string) : string :=
  let p := flagVal args "pass" in if bool_decide (p = "") then env_pass else p.

(** ** HTTP *)

(** One request: what came back, if anything. *)
Definition http (url : string) (r : request) : MC (option (reply r)) := λ c,
  OK (MkCli (cl_machine c) (S (cl_clock c)) (cl_requests c ++ [(url, r)]) (cl_out c)) (w_net w (cl_clock c) url r).

(** [http.Get] or [http.Post] with [must]: no response ends the command. *)
Definition must_http (url : string) (r : request) : MC (reply r) := resp ← http url r; or_error ErrNetwork resp.

(** The body of a successful answer; another status ends the command. *)
Definition getJSON (url : string) (r : request) : MC (option (answer r)) :=
  resp ← must_http url r;
  require (Z.quot resp.1 100 =? 2) ErrRejected ≫= λ _, mret resp.2.

Definition show (url : string) (r : request) : MC unit := b ← getJSON url r; print (Body r b).

Definition nodeAlive (rpc : string) : MC bool :=
  resp ← http rpc RHealth;
  mret (match resp with Some (code, _) => code =? StatusOK | None => false end).

Definition local_rpc : string := "http://localhost:4004".

Definition rpcOf (args : list string) : MC string :=
  let rpc := flagVal args "rpc" in
  if negb (bool_decide (rpc = "")) then mret rpc else
  alive ← nodeAlive local_rpc;
  mret (if alive : bool then local_rpc else match cp_Seeds Mainnet with s :: _ => s | [] => local_rpc end).

(** ** Transactions *)

Definition signTx (tx : Transaction) (kp : KeyPair) : Transaction :=
  tx_Sign (MkTx (tx_From tx) (tx_To tx) (tx_Amount tx) (tx_Fee tx) (tx_Nonce tx) (cp_ChainID Mainnet) (tx_Kind tx)
    (tx_Gas tx) (tx_Data tx) (tx_PubKey tx) (tx_Sig tx)) kp.

(** The transaction literal of a command, the fields it does not name being zero. *)
Definition literal (to : Address) (amount fee nonce kind gas : Z) (data : bytes) : Transaction :=
  MkTx "" to amount fee nonce 0 kind gas data [] [].

Definition fetchNonce (rpc : string) (addr : Address) : MC Z :=
  b ← getJSON rpc (RAccount addr); acct ← or_error ErrJSON b; mret acct.2.

Definition submit (rpc : string) (tx : Transaction) : MC unit :=
  resp ← must_http rpc (RTx (Some tx));
  require (Z.quot resp.1 100 =? 2) ErrRejected ≫= λ _, print (Body (RTx (Some tx)) resp.2).

Definition load_wallet (args : list string) : MC KeyPair :=
  on_machine (LoadWalletAuto (flagVal args "wallet") (passOf args)).

(** [deploy] *)
Definition deploy (args : list string) : MC unit :=
  rpc ← rpcOf args;
  kp ← load_wallet args;
  code ← readHexArg args "code";
  gas ← mustU64opt args "gas" 100000;
  nonce ← fetchNonce rpc (KeyPair_Address kp);
  submit rpc (signTx (literal "" 0 0 nonce KindDeploy gas code) kp) ≫= λ _,
  println ["contract address: "; ContractAddress (KeyPair_Address kp) nonce].

Definition faucetClaim (args : list string) : MC unit :=
  rpc ← rpcOf args;
  kp ← load_wallet args;
  let p := Mainnet in
  if cp_FaucetAmount p =? 0 then throw ErrFaucetDisabled else
  b ← getJSON rpc RHead;
  head ← or_error ErrJSON b;
  if hd_Height head <? cp_FaucetDepth p then throw ErrShortChain else
  let anchorH := hd_Height head - cp_FaucetDepth p in
  b ← getJSON rpc (RBlock (FormatUint anchorH));
  blk ← or_error ErrJSON b;
  println ["mining faucet PoW: address="; KeyPair_Address kp; " anchor=block "; FormatUint anchorH; " bits=";
    FormatUint (cp_FaucetBits p); " ..."] ≫= λ _,
  nonce ← searched (Faucet.Solve fuel (cp_ChainID p) (KeyPair_Address kp) (hd_BodyHash blk.1) (cp_FaucetBits p));
  let data := be_bytes 8 anchorH ++ be_bytes 8 nonce in
  txNonce ← fetchNonce rpc (KeyPair_Address kp);
  submit rpc (signTx (literal "" 0 0 txNonce KindFaucet 0 data) kp) ≫= λ _,
  println ["solved nonce="; FormatUint nonce; " — claim submitted (+"; FormatUint (cp_FaucetAmount p); " base units after it mines)"].

Definition call (args : list string) : MC unit :=
  rpc ← rpcOf args;
  kp ← load_wallet args;
  data ← buildCalldata args;
  amount ← mustU64opt args "amount" 0;
  gas ← mustU64opt args "gas" 100000;
  nonce ← fetchNonce rpc (KeyPair_Address kp);
  submit rpc (signTx (literal (flagVal args "to") amount 0 nonce KindCall gas data) kp).

Definition send (args : list string) : MC unit :=
  rpc ← rpcOf args;
  kp ← load_wallet args;
  amount ← mustU64 (flagVal args "amount");
  fee ← mustU64opt args "fee" 0;
  nonce ← fetchNonce rpc (KeyPair_Address kp);
  submit rpc (signTx (literal (flagVal args "to") amount fee nonce KindTransfer 0 []) kp).

Definition register (args : list string) : MC unit :=
  rpc ← rpcOf args;
  kp ← load_wallet args;
  bond ← mustU64 (flagVal args "bond");
  println ["solving registration PoW ("; FormatUint (cp_RegPoWBits Mainnet); " bits)..."] ≫= λ _,
  nonce ← searched (Regpow.Solve fuel (cp_ChainID Mainnet) (KeyPair_Address kp) (cp_RegPoWBits Mainnet));
  fee ← mustU64opt args "fee" 0;
  txNonce ← fetchNonce rpc (KeyPair_Address kp);
  submit rpc (signTx (literal "" bond fee txNonce KindRegister 0 (be_bytes 8 nonce)) kp) ≫= λ _,
  println ["registering "; KeyPair_Address kp; " with bond "; FormatUint bond; " (pow nonce "; FormatUint nonce; ")"].

Definition unregister (args : list string) : MC unit :=
  rpc ← rpcOf args;
  kp ← load_wallet args;
  fee ← mustU64opt args "fee" 0;
  nonce ← fetchNonce rpc (KeyPair_Address kp);
  submit rpc (signTx (literal "" 0 fee nonce KindUnregister 0 []) kp).

Definition slash (args : list string) : MC unit :=
  rpc ← rpcOf args;
  kp ← load_wallet args;
  ev ← on_machine (read_file (flagVal args "evidence"));
  fee ← mustU64opt args "fee" 0;
  nonce ← fetchNonce rpc (KeyPair_Address kp);
  submit rpc (signTx (literal "" 0 fee nonce KindSlash 0 ev) kp).

(** ** Wallets, contracts, queries *)

Definition keygen_cmd (args : list string) : MC unit :=
  let out := flagVal args "out" in
  let out := if bool_decide (out = "") then "wallet.json" else out in
  kp ← on_machine (Generate keygen);
  on_machine (SaveWalletAuto rand kp out (passOf args)) ≫= λ _,
  println ["wallet written to "; out; " ["; if IsTok out then "encrypted (.tok)" else "plaintext"; "]"] ≫= λ _,
  println ["address: "; KeyPair_Address kp].

Definition address (args : list string) : MC unit := kp ← load_wallet args; println [KeyPair_Address kp].

Definition compileSHL (args : list string) : MC unit :=
  src ← on_machine (read_file (flagVal args "in"));
  code ← lift (Compile src);
  let h := hex_encode code in
  let out := flagVal args "out" in
  if negb (bool_decide (out = "")) then
    on_machine (write_file out h) ≫= λ _,
    println ["compiled "; FormatUint (zlen code); " bytes -> "; out]
  else println [string_of h].

Definition estimateSHL (args : list string) : MC unit :=
  src ← on_machine (read_file (flagVal args "in"));
  r ← lift (CompileAndEstimate src);
  println ["bytecode: "; FormatUint (zlen r.1); " bytes"] ≫= λ _,
  println ["approx gas (one pass): "; FormatUint r.2] ≫= λ _,
  println ["note: loops cost per-iteration; cross-contract CALL gas not included."].

(** The answer is printed whatever its status. *)
Definition query (args : list string) : MC unit :=
  rpc ← rpcOf args;
  data ← buildCalldata args;
  gas ← mustU64opt args "gas" 0;
  let r := RCall (Some (flagVal args "to", string_of (hex_encode data), flagVal args "caller", gas)) in
  resp ← must_http rpc r; print (Body r resp.2).

(** A command that prints one answer. *)
Definition inspect (args : list string) (r : request) : MC unit := rpc ← rpcOf args; show rpc r.

Definition command (name : string) (args : list string) : MC unit :=
  let named s := bool_decide (name = s) in
  if named "keygen" then keygen_cmd args
  else if named "address" then address args
  else if named "balance" then inspect args (RAccount (flagVal args "addr"))
  else if named "send" then send args
  else if named "head" then inspect args RHead
  else if named "block" then inspect args (RBlock (flagVal args "height"))
  else if named "reconstruct" then inspect args (RReconstruct (flagVal args "height"))
  else if named "verify" then inspect args (RVerify (flagVal args "height"))
  else if named "supply" then inspect args RSupply
  else if named "peers" then inspect args RPeers
  else if named "storage" then inspect args RScores
  else if named "deploy" then deploy args
  else if named "call" then call args
  else if named "query" then query args
  else if named "logs" then inspect args (RLogs (flagVal args "height"))
  else if named "compile" then compileSHL args
  else if named "estimate" then estimateSHL args
  else if named "validators" then inspect args RValidators
  else if named "bans" then inspect args RBans
  else if named "version" then println ["shadowledger "; Version.Version]
  else if named "faucet" then faucetClaim args
  else if named "register" then register args
  else if named "unregister" then unregister args
  else if named "slash" then slash args
  else throw ErrUsage.

(** [main], on [os.Args]. *)
Definition main (argv : list string) : MC unit :=
  match argv with _ :: name :: args => command name args | _ => throw ErrUsage end.
End slctl.
