(* ===== verification/SlctlProps.v ===== *)
(** * The command line against a node

    What a command that ends well has done: the transaction it signed is in the pool of
    the node it asked, bound to the network, with the nonce of the ledger, carrying what
    the flags say and the work the ledger asks for. *)

From S2P Require Import Prelude Sha256 Crypto Base64 AesGcm Wallet Economy Merkle Netparams Types Pow Shl State StateInv StateStore Demo Mempool Strconv Consensus Erasure Chain ChainProps Peers P2p NetDemo P2pProps Node NodeProps Slctl.

Local Abbreviation M := Prelude.M.

(** ** Runs of the primitives *)

(** The transactions among the requests made. *)
Definition posted (c : Cli) : list (string * Transaction) :=
  omap (λ p, match p.2 with RTx (Some tx) => Some (p.1, tx) | _ => None end) (cl_requests c).

Definition bumped (url : string) (r : request) (c : Cli) : Cli :=
  MkCli (cl_machine c) (S (cl_clock c)) (cl_requests c ++ [(url, r)]) (cl_out c).
Definition printed (o : output) (c : Cli) : Cli := MkCli (cl_machine c) (cl_clock c) (cl_requests c) (cl_out c ++ [o]).

Definition posts (r : request) : bool := match r with RTx (Some _) => true | _ => false end.

(** The machine is as it was and no transaction was posted. *)
Definition asked (c c' : Cli) : Prop := cl_machine c' = cl_machine c ∧ posted c' = posted c.

Lemma asked_refl c : asked c c.
Proof. done. Qed.
Lemma asked_trans c c1 c2 : asked c c1 → asked c1 c2 → asked c c2.
Proof. intros [E1 E2] [E3 E4]. split; congruence. Qed.
Lemma asked_printed o c : asked c (printed o c).
Proof. done. Qed.
Lemma asked_bumped url r c : posts r = false → asked c (bumped url r c).
Proof.
  intros Hr. split; [done|]. unfold posted. simpl. rewrite omap_app. simpl.
  destruct r; try (by rewrite app_nil_r). destruct body; [done|by rewrite app_nil_r].
Qed.
#[local] Hint Resolve asked_refl asked_trans asked_printed asked_bumped : core.

Section runs.
Context `{Platform} `{WalletCodec} (w : World).
Context (rand : nat → Z → option bytes) (keygen : nat → option KeyPair) (env_pass : string) (fuel : nat).

Lemma print_OK o c c' u : print o c = OK c' u → c' = printed o c.
Proof. unfold print, modify. intros E. by apply OK_inj in E as [<- _]. Qed.

Lemma must_http_OK url r c c' a : must_http w url r c = OK c' a → c' = bumped url r c ∧ w_net w (cl_clock c) url r = Some a.
Proof.
  unfold must_http. rewrite (bind_ok (http w url r) _ c (bumped url r c) _ eq_refl).
  destruct (w_net w (cl_clock c) url r); [|done]. by intros [<- <-]%OK_inj.
Qed.

Lemma getJSON_OK url r c c' b : getJSON w url r c = OK c' b →
  c' = bumped url r c ∧ ∃ code, Z.quot code 100 = 2 ∧ w_net w (cl_clock c) url r = Some (code, b).
Proof.
  unfold getJSON. intros ([code b'] & c1 & [-> E1]%must_http_OK & E)%bind_OK_inv. rewrite bind_require in E. cbn [fst snd] in E.
  destruct (Z.eqb_spec (Z.quot code 100) 2); [|done]. apply OK_inj in E as [<- <-]. split; [done|]. by exists code.
Qed.

Lemma fetchNonce_OK url a c c' n : fetchNonce w url a c = OK c' n →
  c' = bumped url (RAccount a) c ∧ ∃ code bal, Z.quot code 100 = 2 ∧ w_net w (cl_clock c) url (RAccount a) = Some (code, Some (bal, n)).
Proof.
  unfold fetchNonce. intros (b & c1 & E1 & E)%bind_OK_inv. apply (getJSON_OK url (RAccount a)) in E1 as [-> (code & Hc & E1)].
  rewrite bind_or_error in E. destruct b as [[bal n']|]; [|done]. apply OK_inj in E as [<- <-]. split; [done|]. by exists code, bal.
Qed.

(** The transaction was taken. *)
Definition taken (url : string) (tx : Transaction) : Prop :=
  ∃ n code b, Z.quot code 100 = 2 ∧ w_net w n url (RTx (Some tx)) = Some (code, b).

Lemma submit_OK url tx c c' u : submit w url tx c = OK c' u →
  cl_machine c' = cl_machine c ∧ posted c' = posted c ++ [(url, tx)] ∧ taken url tx.
Proof.
  unfold submit. intros ([code b] & c1 & [-> E1]%must_http_OK & E)%bind_OK_inv. rewrite bind_require in E. cbn [fst snd] in E.
  destruct (Z.eqb_spec (Z.quot code 100) 2); [|done]. apply print_OK in E as ->. split_and!; [done| |by eexists _, _, _].
  unfold posted. simpl. by rewrite omap_app.
Qed.

Lemma on_machine_read {A} (m : M Machine A) c c' a : (∀ x x' a, m x = OK x' a → x' = x) →
  on_machine m c = OK c' a → c' = c ∧ m (cl_machine c) = OK (cl_machine c) a.
Proof.
  intros Hm. unfold on_machine. destruct (m (cl_machine c)) as [x a'| |] eqn:E; [|done..].
  apply Hm in E as ->. intros [<- <-]%OK_inj. by destruct c.
Qed.

Lemma read_file_OK path c c' b : on_machine (read_file path) c = OK c' b → c' = c ∧ mc_files (cl_machine c) !! path = Some b.
Proof.
  intros [-> E]%on_machine_read.
  - split; [done|]. revert E. unfold read_file. rewrite (bind_ok get _ _ _ _ eq_refl). destruct (_ !! path); [|done]. by intros [= ->].
  - intros x x' a. unfold read_file. rewrite (bind_ok get _ _ _ _ eq_refl). destruct (_ !! path); [|done]. by intros [= ->].
Qed.

(** The wallet a command uses. *)
Definition wallet_of (args : list string) (m : Machine) (kp : KeyPair) : Prop :=
  LoadWalletAuto (flagVal args "wallet") (passOf env_pass args) m = OK m kp.

Lemma load_wallet_OK args c c' kp : load_wallet env_pass args c = OK c' kp → c' = c ∧ wallet_of args (cl_machine c) kp.
Proof. apply on_machine_read. intros x x' a E. by apply LoadWalletAuto_same in E as [-> _]. Qed.

Lemma mustU64_OK s c c' v : mustU64 s c = OK c' v → c' = c ∧ Sscanf_d s = Some v.
Proof. by intros [? ->]%or_error_OK. Qed.

(** The value of an optional number. *)
Definition number (args : list string) (name : string) (def : Z) : option Z :=
  if bool_decide (flagVal args name = "") then Some def else Sscanf_d (flagVal args name).

Lemma mustU64opt_OK args name def c c' v : mustU64opt args name def c = OK c' v → c' = c ∧ number args name def = Some v.
Proof. unfold mustU64opt, number. case_bool_decide; [|apply mustU64_OK]. by intros [<- <-]%OK_inj. Qed.

Lemma rpcOf_flag args url c c' u : flagVal args "rpc" = url → url ≠ "" → rpcOf w args c = OK c' u → c' = c ∧ u = url.
Proof. intros Hu Hne. unfold rpcOf. rewrite Hu, bool_decide_false by done. by intros [<- <-]%OK_inj. Qed.

Lemma searched_OK o c c' n : searched o c = OK c' n → c' = c ∧ o = Some n.
Proof. destruct o; [|done]. by intros [<- <-]%OK_inj. Qed.

Lemma readHexArg_OK args name c c' code : readHexArg args name c = OK c' code →
  c' = c ∧ ∃ raw, mc_files (cl_machine c) !! flagVal args name = Some raw ∧
    hex_decode (TrimSpace (trim_prefix (bytes_of "0x") raw)) = Some code.
Proof.
  unfold readHexArg. case_bool_decide; [done|]. intros (raw & c1 & [-> Hf]%read_file_OK & E)%bind_OK_inv.
  apply or_error_OK in E as [E ->]. split; [done|]. by exists raw.
Qed.

(** ** Call data *)

(** The numbers of an argument list. *)
Definition arg_words (parts : list bytes) : option (list Z) :=
  mapM (λ p, Sscanf_d (string_of p)) (filter (λ p, p ≠ []) (TrimSpace <$> parts)).

(** What [--data], or [--fn] and [--args], stand for: raw bytes, or the selector of the
    function and its arguments, eight bytes each. *)
Definition calldata (args : list string) : option bytes :=
  let d := flagVal args "data" in
  if negb (bool_decide (d = "")) then hex_decode (TrimSpace (trim_prefix (bytes_of "0x") (bytes_of d))) else
  let fn := flagVal args "fn" in
  let a := flagVal args "args" in
  ws ← (if bool_decide (a = "") then Some [] else arg_words (split_on comma (bytes_of a)));
  Some ((if bool_decide (fn = "") then [] else be8w (Selector fn)) ++ (ws ≫= be8w)).

Lemma words_of_OK parts : ∀ out c c' d, words_of parts out c = OK c' d →
  c' = c ∧ ∃ ws, arg_words parts = Some ws ∧ d = out ++ (ws ≫= be8w).
Proof.
  induction parts as [|p r IH]; intros out c c' d; cbn [words_of].
  - intros [<- <-]%OK_inj. split; [done|]. exists []. by rewrite app_nil_r.
  - cbv zeta. unfold arg_words. cbn [fmap list_fmap]. rewrite filter_cons. case_bool_decide as Hp.
    + rewrite decide_False by (by intros ?). apply IH.
    + rewrite decide_True by done. intros (v & c1 & [-> Hv]%mustU64_OK & E)%bind_OK_inv.
      apply IH in E as (-> & ws & Ews & ->). split; [done|]. exists (v :: ws). simpl. rewrite Hv. simpl.
      unfold arg_words in Ews. rewrite Ews. split; [done|]. by rewrite <- app_assoc.
Qed.

Lemma buildCalldata_OK args c c' d : buildCalldata args c = OK c' d → c' = c ∧ calldata args = Some d.
Proof.
  unfold buildCalldata, calldata, decodeHex. cbv zeta. destruct (negb _).
  { intros [E ->]%or_error_OK. done. }
  case_bool_decide as Ha.
  - intros [<- <-]%OK_inj. simpl. by rewrite app_nil_r.
  - intros (-> & ws & -> & ->)%words_of_OK. done.
Qed.

(** The words a contract reads from the call data of a named call: the selector first,
    then the arguments. *)
Lemma named_call_words fn (ws : list Z) i v : is_u64 v → (Selector fn :: ws) !! i = Some v →
  be_val (take 8 (drop (8 * i) (be8w (Selector fn) ++ (ws ≫= be8w)))) = v.
Proof.
  intros Hv Hi. change (be8w (Selector fn) ++ (ws ≫= be8w)) with ((Selector fn :: ws) ≫= be8w).
  revert i Hi. generalize (Selector fn :: ws). induction l as [|x l IH]; intros [|i] Hi; try done.
  - injection Hi as ->. cbn [mbind list_bind]. unfold be8w at 1. rewrite Nat.mul_0_r, drop_0, take_app_length' by by rewrite length_be_bytes.
    apply be_val_putU64. done.
  - cbn [mbind list_bind]. rewrite drop_app_ge by (unfold be8w; rewrite length_be_bytes; lia).
    replace (8 * S i - length (be8w x))%nat with (8 * i)%nat by (unfold be8w; rewrite length_be_bytes; lia). by apply IH.
Qed.
End runs.

(** ** A node behind the URL *)

(** A handler that panics, or stops, sends no answer. *)
Definition answered {r} (o : outcome Server (reply r)) : option (reply r) := match o with OK _ a => Some a | _ => None end.

Section node_at.
Context `{Platform} `{ReedSolomon} (W : World) (engine : State → Engine) (blockTime finalityDepth : Z) (nfuel : nat) (reorg : bool).
Context (clientIP : string).

Definition serve (r : request) : MS (reply r) := ServeHTTP W engine blockTime finalityDepth nfuel reorg clientIP r.

(** What the world answers for [url] is what this node answers, at some point of its own
    observations: between the requests of one command nothing else reaches it. *)
Definition runs_node (w : World) (url : string) (s : Server) : Prop :=
  ∀ n r, ∃ k, w_net w n url r = answered (serve r (P2p.set_clock k s)).

Lemma serve_open r s a : answered (serve r s) = Some a → Z.quot a.1 100 = 2 →
  ∃ s1, kept s1 = kept s ∧ answered (handle W engine blockTime finalityDepth nfuel reorg clientIP r s1) = Some a ∧
    serve r s = handle W engine blockTime finalityDepth nfuel reorg clientIP r s1.
Proof.
  unfold serve, ServeHTTP, banGate. rewrite (bind_ok _ _ _ _ _ (is_banned_now_run W clientIP s)).
  destruct (Banned _ _ _).1; [by intros [= <-]|]. intros E Hc. eexists. split; [|split; [exact E|done]]. done.
Qed.

Lemma account_answer a s code b : answered (serve (RAccount a) s) = Some (code, b) → Z.quot code 100 = 2 →
  b = Some (ac_Balance (Get (P2p.ledger s) a), ac_Nonce (Get (P2p.ledger s) a)).
Proof.
  intros E Hc. apply (serve_open (RAccount a)) in E as (s1 & Hk & E & _); [|done]. injection E as _ <-.
  injection Hk as _ Hk _ _. unfold P2p.ledger, resolve. by rewrite Hk.
Qed.

Lemma head_answer s code h : answered (serve RHead s) = Some (code, Some h) → Z.quot code 100 = 2 → h = ch_head (sv_chain s).
Proof.
  intros E Hc. apply (serve_open RHead) in E as (s1 & Hk & E & _); [|done]. injection Hk as _ Hk _ _.
  cbn [handle] in E. unfold handle_head in E. rewrite (bind_ok get _ _ _ _ eq_refl), Hk in E. unfold Chain_Head in E.
  destruct (ch_hasGen _); [|done]. by injection E as _ <-.
Qed.

Lemma block_answer h s code r : is_u64 h → answered (serve (RBlock (FormatUint h)) s) = Some (code, Some r) → Z.quot code 100 = 2 →
  GetHeader h (store_of s) = Ok r.
Proof.
  intros Hh E Hc. apply (serve_open (RBlock (FormatUint h))) in E as (s1 & Hk & E & _); [|done]. injection Hk as _ Hk _ _.
  cbn [handle] in E. unfold handle_block in E. rewrite (bind_ok get _ _ _ _ eq_refl), Parse_Format in E by done.
  unfold store_of in *. rewrite Hk in E. destruct (GetHeader h _); [|done..]. by injection E as _ ->.
Qed.

(** A transaction answered with success is in the pool; nothing else of the node changed. *)
Lemma tx_answer tx s code b : answered (serve (RTx (Some tx)) s) = Some (code, b) → Z.quot code 100 = 2 →
  CheckTx (P2p.ledger s) tx = Ok tt ∧ ∃ s', serve (RTx (Some tx)) s = OK s' (StatusOK, Some (tx_Hash tx)) ∧
    sv_chain s' = sv_chain s ∧ p_byID (sv_pool s') = <[tx_Hash tx := tx]> (p_byID (sv_pool s)).
Proof.
  intros E Hc. apply (serve_open (RTx (Some tx))) in E as (s1 & Hk & E & Es); [|done]. injection Hk as _ Hch Hpl _.
  rewrite Es. clear Es. cbn [handle] in *. unfold handle_tx in *. rewrite (bind_ok get _ _ _ _ eq_refl) in *.
  assert (P2p.ledger s1 = P2p.ledger s) as El by (unfold P2p.ledger; by rewrite Hch). rewrite El in *.
  unfold with_pool, Submit, mbind at 1, M_bind at 1, try_ in E. rewrite bind_lift in E.
  unfold with_pool, Submit, mbind at 1, M_bind at 1, try_. rewrite bind_lift.
  destruct (CheckTx (P2p.ledger s) tx) as [[]|e|]; [|injection E as <- _; done|done]. split; [done|].
  rewrite (bind_ok get _ _ _ _ eq_refl) in *. destruct (_ <=? _); [injection E as <- _; done|].
  cbn [modify] in *. unfold modify in *. set (s2 := P2p.set_pool _ s1) in *.
  pose proof (keeps_bind (λ x, kept x = kept s2) get _ (keeps_get_ _)
    (λ s, keeps_broadcast_kept W (RGossipTx (Some tx)) p_Control (Peers (sv_store s)) (kept s2)) s2 eq_refl) as Hb.
  unfold wp in Hb. fold (BroadcastTx W tx) in Hb. unfold mbind at 1, M_bind at 1. unfold mbind at 1, M_bind at 1 in E.
  change (get ≫= λ s0, broadcast W (RGossipTx (Some tx)) p_Control (Peers (sv_store s0))) with (BroadcastTx W tx) in Hb.
  destruct (BroadcastTx W tx s2) as [s' []|? ?|?]; [|done..]. exists s'. split; [done|].
  injection Hb as _ E1 E2 _. rewrite E1, E2. simpl. rewrite Hch, Hpl. done.
Qed.

(** Who is not banned gets an answer of the handler. *)
Lemma serve_unbanned r s : (∀ t, is_banned t clientIP (sv_bans s) = false) →
  ∃ s1, kept s1 = kept s ∧ serve r s = handle W engine blockTime finalityDepth nfuel reorg clientIP r s1.
Proof.
  intros Hb. unfold serve, ServeHTTP, banGate. rewrite (bind_ok _ _ _ _ _ (is_banned_now_run W clientIP s)).
  specialize (Hb (w_now W (sv_clock s))). unfold is_banned in Hb. rewrite Hb. eexists. split; [|reflexivity]. done.
Qed.

Lemma account_served a s : (∀ t, is_banned t clientIP (sv_bans s) = false) →
  answered (serve (RAccount a) s) = Some (StatusOK, Some (ac_Balance (Get (P2p.ledger s) a), ac_Nonce (Get (P2p.ledger s) a))).
Proof.
  intros Hb. destruct (serve_unbanned (RAccount a) s Hb) as (s1 & Hk & ->). injection Hk as _ Hk _ _.
  unfold P2p.ledger, resolve. rewrite <- Hk. reflexivity.
Qed.

Lemma tx_served tx s : (∀ t, is_banned t clientIP (sv_bans s) = false) → CheckTx (P2p.ledger s) tx = Ok tt →
  Len (sv_pool s) < p_limit (sv_pool s) → answered (serve (RTx (Some tx)) s) = Some (StatusOK, Some (tx_Hash tx)).
Proof.
  intros Hb Hck Hroom. destruct (serve_unbanned (RTx (Some tx)) s Hb) as (s1 & Hk & ->). injection Hk as _ Hch Hpl _.
  cbn [handle]. unfold handle_tx. rewrite (bind_ok get _ _ _ _ eq_refl).
  assert (P2p.ledger s1 = P2p.ledger s) as El by (unfold P2p.ledger; by rewrite Hch). rewrite El.
  unfold with_pool, Submit, mbind at 1, M_bind at 1, try_. rewrite bind_lift, Hck, (bind_ok get _ _ _ _ eq_refl).
  rewrite Hpl, (proj2 (Z.leb_gt _ _)) by done. cbn [modify]. unfold modify.
  match goal with |- context [BroadcastTx W tx ≫= _] => idtac end.
  destruct (broadcast_total W (RGossipTx (Some tx)) p_Control (Peers (sv_store s1))
    (P2p.set_pool (MkPool (<[tx_Hash tx:=tx]> (p_byID (sv_pool s))) (p_limit (sv_pool s))) s1)) as [s' E].
  unfold BroadcastTx. rewrite (bind_ok (get ≫= _) _ _ s' tt); [done|]. by rewrite (bind_ok get _ _ _ _ eq_refl).
Qed.
End node_at.

(** ** The commands that post a transaction *)

Inductive tx_command := CSend | CDeploy | CCall | CRegister | CUnregister | CSlash | CFaucet.

Definition command_name (k : tx_command) : string :=
  match k with
  | CSend => "send" | CDeploy => "deploy" | CCall => "call" | CRegister => "register"
  | CUnregister => "unregister" | CSlash => "slash" | CFaucet => "faucet"
  end.

(** What the transaction of a command carries, from the flags, the files and the node; a
    deployment also prints the address the code goes to. *)
Definition carries (k : tx_command) (args : list string) (files : gmap string bytes) (out : list output) (s : Server) (tx : Transaction) : Prop :=
  let kind_is kd gas := tx_Kind tx = kd ∧ gas = Some (tx_Gas tx) in
  let paid fee := fee = Some (tx_Fee tx) in
  match k with
  | CSend => kind_is KindTransfer (Some 0) ∧ tx_To tx = flagVal args "to" ∧ Sscanf_d (flagVal args "amount") = Some (tx_Amount tx) ∧
      paid (number args "fee" 0)
  | CDeploy => kind_is KindDeploy (number args "gas" 100000) ∧ paid (Some 0) ∧ tx_Amount tx = 0 ∧
      (∃ raw, files !! flagVal args "code" = Some raw ∧ hex_decode (TrimSpace (trim_prefix (bytes_of "0x") raw)) = Some (tx_Data tx)) ∧
      last out = Some (Text (str_cat ["contract address: "; ContractAddress (tx_From tx) (tx_Nonce tx)]))
  | CCall => kind_is KindCall (number args "gas" 100000) ∧ paid (Some 0) ∧ tx_To tx = flagVal args "to" ∧
      number args "amount" 0 = Some (tx_Amount tx) ∧ calldata args = Some (tx_Data tx)
  | CRegister => kind_is KindRegister (Some 0) ∧ paid (number args "fee" 0) ∧ Sscanf_d (flagVal args "bond") = Some (tx_Amount tx) ∧
      8 <= zlen (tx_Data tx) ∧ Regpow.Verify (cp_ChainID Mainnet) (tx_From tx) (uint64_at (tx_Data tx)) (cp_RegPoWBits Mainnet) = true
  | CUnregister => kind_is KindUnregister (Some 0) ∧ paid (number args "fee" 0) ∧ tx_Amount tx = 0
  | CSlash => kind_is KindSlash (Some 0) ∧ paid (number args "fee" 0) ∧ tx_Amount tx = 0 ∧ files !! flagVal args "evidence" = Some (tx_Data tx)
  | CFaucet => kind_is KindFaucet (Some 0) ∧ paid (Some 0) ∧ tx_Amount tx = 0 ∧ zlen (tx_Data tx) = 16 ∧
      let anchor := hd_Height (ch_head (sv_chain s)) - cp_FaucetDepth Mainnet in
      uint64_at (tx_Data tx) = anchor ∧ ∃ h, BodyHashAt (store_of s) anchor = Some h ∧
        Faucet.Verify (cp_ChainID Mainnet) (tx_From tx) h (uint64_at (drop 8 (tx_Data tx))) (cp_FaucetBits Mainnet) = true
  end.

Lemma search_word ok fuel : ∀ start n, is_u64 start → search ok fuel start = Some n → is_u64 n.
Proof.
  induction fuel as [|f IH]; intros start n Hs; cbn [search]; [done|]. destruct (ok start); [by intros [= <-]|].
  apply IH, u64_range.
Qed.

Lemma zero_word : is_u64 0.
Proof. done. Qed.

Section commands.
Context `{Platform} `{ReedSolomon} `{WalletCodec} (w : World).
Context (rand : nat → Z → option bytes) (keygen : nat → option KeyPair) (env_pass : string) (fuel : nat).

(** The common end of these commands: the nonce is asked for, the transaction signed and
    posted. *)
Definition signed_by (kp : KeyPair) (tx t : Transaction) : Prop := tx = signTx t kp.

Lemma nonce_and_submit url kp t c c1 c2 n u : fetchNonce w url (KeyPair_Address kp) c = OK c1 n →
  submit w url (signTx (t n) kp) c1 = OK c2 u →
  cl_machine c2 = cl_machine c ∧ posted c2 = posted c ++ [(url, signTx (t n) kp)] ∧ taken w url (signTx (t n) kp) ∧
  ∃ code bal i, Z.quot code 100 = 2 ∧ w_net w i url (RAccount (KeyPair_Address kp)) = Some (code, Some (bal, n)).
Proof.
  intros [-> (code & bal & Hc & En)]%fetchNonce_OK (Em & Ep & Ht)%submit_OK.
  rewrite Ep, (proj2 (asked_bumped url (RAccount (KeyPair_Address kp)) c eq_refl)). split_and!; try done. by exists code, bal, (cl_clock c).
Qed.

Context (W : World) (engine : State → Engine) (blockTime finalityDepth : Z) (nfuel : nat) (reorg : bool) (clientIP : string).
Abbreviation node_at := (runs_node W engine blockTime finalityDepth nfuel reorg clientIP w).
Abbreviation node_serves := (serve W engine blockTime finalityDepth nfuel reorg clientIP).

(** What the node behind the URL made of a posted transaction. *)
Definition in_pool (s : Server) (tx : Transaction) : Prop :=
  CheckTx (P2p.ledger s) tx = Ok tt ∧ ∃ k s', node_serves (RTx (Some tx)) (P2p.set_clock k s) = OK s' (StatusOK, Some (tx_Hash tx)) ∧
    sv_chain s' = sv_chain s ∧ p_byID (sv_pool s') = <[tx_Hash tx := tx]> (p_byID (sv_pool s)).

Lemma taken_in_pool url s tx : node_at url s → taken w url tx → in_pool s tx.
Proof.
  intros Hn (n & code & b & Hc & E). destruct (Hn n (RTx (Some tx))) as [k Ek]. rewrite E in Ek. symmetry in Ek.
  apply tx_answer in Ek as (Hck & s' & Es & E1 & E2); [|done]. split; [exact Hck|]. by exists k, s'.
Qed.

Lemma nonce_of_ledger url s a i code bal n : node_at url s → Z.quot code 100 = 2 →
  w_net w i url (RAccount a) = Some (code, Some (bal, n)) → n = ac_Nonce (Get (P2p.ledger s) a).
Proof.
  intros Hn Hc E. destruct (Hn i (RAccount a)) as [k Ek]. rewrite E in Ek. symmetry in Ek.
  apply account_answer in Ek; [|done]. injection Ek as _ ->. done.
Qed.

Definition run_command (k : tx_command) (args : list string) : MC unit :=
  match k with
  | CSend => send w env_pass args | CDeploy => deploy w env_pass args | CCall => call w env_pass args
  | CRegister => register w env_pass fuel args | CUnregister => unregister w env_pass args
  | CSlash => slash w env_pass args | CFaucet => faucetClaim w env_pass fuel args
  end.

Lemma command_runs k args : command w rand keygen env_pass fuel (command_name k) args = run_command k args.
Proof. by destruct k. Qed.

(** One bind of a command that ended well. *)
Ltac step_in E x E1 := let c := fresh "c" in apply bind_OK_inv in E as (x & c & E1 & E).
Ltac start_in E Hrpc Hne :=
  let E1 := fresh "E1" in
  step_in E ipattern:(?) E1; apply (rpcOf_flag w _ _ _ _ _ Hrpc Hne) in E1 as [-> ->];
  let Hw := fresh "Hw" in step_in E ipattern:(kp) Hw; apply load_wallet_OK in Hw as [-> Hw].

(** A command that ends well: its transaction [signTx t kp] is the only one posted, and it
    is in the pool of the node. *)
Definition delivered (url : string) (s : Server) (c c' : Cli) (kp : KeyPair) (t : Transaction) : Prop :=
  cl_machine c' = cl_machine c ∧ posted c' = posted c ++ [(url, signTx t kp)] ∧
  tx_Nonce t = ac_Nonce (Get (P2p.ledger s) (KeyPair_Address kp)) ∧ in_pool s (signTx t kp).

Lemma deliver url s kp t c c1 c2 n u : node_at url s → (∀ n, tx_Nonce (t n) = n) →
  fetchNonce w url (KeyPair_Address kp) c = OK c1 n → submit w url (signTx (t n) kp) c1 = OK c2 u → delivered url s c c2 kp (t n).
Proof.
  intros Hn Ht En Es. destruct (nonce_and_submit _ _ _ _ _ _ _ _ En Es) as (Em & Ep & Htk & code & bal & i & Hc & Ea).
  split_and!; [done|done| |by eapply taken_in_pool]. rewrite Ht. by eapply nonce_of_ledger.
Qed.

Lemma delivered_printed url s c c' kp t o : delivered url s c c' kp t → delivered url s c (printed o c') kp t.
Proof. done. Qed.

Lemma delivered_from url s c c' kp t o : delivered url s (printed o c) c' kp t → delivered url s c c' kp t.
Proof. done. Qed.

(** For one command: a delivered transaction that carries what it should. *)
Definition delivers (k : tx_command) : Prop := ∀ url s args c c',
  node_at url s → is_u64 (Chain_Height (sv_chain s)) → flagVal args "rpc" = url → url ≠ "" → run_command k args c = OK c' tt →
  ∃ kp t, wallet_of env_pass args (cl_machine c) kp ∧ delivered url s c c' kp t ∧ carries k args (mc_files (cl_machine c)) (cl_out c') s (signTx t kp).

Lemma deliver_send : delivers CSend.
Proof.
  intros url s args c c' Hn _ Hrpc Hne E. cbn in E. unfold send in E. start_in E Hrpc Hne.
  step_in E ipattern:(amount) Ea. apply mustU64_OK in Ea as [-> Ea]. step_in E ipattern:(fee) Ef. apply mustU64opt_OK in Ef as [-> Ef].
  step_in E ipattern:(nonce) En. exists kp, (literal (flagVal args "to") amount fee nonce KindTransfer 0 []).
  split; [done|]. split; [by eapply (deliver url s kp (λ n, literal _ _ _ n _ _ _))|]. by split_and!.
Qed.

Lemma deliver_deploy : delivers CDeploy.
Proof.
  intros url s args c c' Hn _ Hrpc Hne E. cbn in E. unfold deploy in E. start_in E Hrpc Hne.
  step_in E ipattern:(code) Ec. apply readHexArg_OK in Ec as [-> Ec]. step_in E ipattern:(gas) Eg. apply mustU64opt_OK in Eg as [-> Eg].
  step_in E ipattern:(nonce) En. step_in E ipattern:([]) Es. apply print_OK in E as ->.
  exists kp, (literal "" 0 0 nonce KindDeploy gas code). split; [done|].
  split; [apply delivered_printed; by eapply (deliver url s kp (λ n, literal _ _ _ n _ _ _))|].
  split_and!; try done. unfold printed. cbn [cl_out]. by rewrite last_snoc.
Qed.

Lemma deliver_call : delivers CCall.
Proof.
  intros url s args c c' Hn _ Hrpc Hne E. cbn in E. unfold call in E. start_in E Hrpc Hne.
  step_in E ipattern:(data) Ed. apply buildCalldata_OK in Ed as [-> Ed]. step_in E ipattern:(amount) Ea. apply mustU64opt_OK in Ea as [-> Ea].
  step_in E ipattern:(gas) Eg. apply mustU64opt_OK in Eg as [-> Eg]. step_in E ipattern:(nonce) En.
  exists kp, (literal (flagVal args "to") amount 0 nonce KindCall gas data). split; [done|].
  split; [by eapply (deliver url s kp (λ n, literal _ _ _ n _ _ _))|]. by split_and!.
Qed.

Lemma deliver_unregister : delivers CUnregister.
Proof.
  intros url s args c c' Hn _ Hrpc Hne E. cbn in E. unfold unregister in E. start_in E Hrpc Hne.
  step_in E ipattern:(fee) Ef. apply mustU64opt_OK in Ef as [-> Ef]. step_in E ipattern:(nonce) En.
  exists kp, (literal "" 0 fee nonce KindUnregister 0 []). split; [done|].
  split; [by eapply (deliver url s kp (λ n, literal _ _ _ n _ _ _))|]. by split_and!.
Qed.

Lemma deliver_slash : delivers CSlash.
Proof.
  intros url s args c c' Hn _ Hrpc Hne E. cbn in E. unfold slash in E. start_in E Hrpc Hne.
  step_in E ipattern:(ev) Ev. apply read_file_OK in Ev as [-> Ev]. step_in E ipattern:(fee) Ef. apply mustU64opt_OK in Ef as [-> Ef].
  step_in E ipattern:(nonce) En. exists kp, (literal "" 0 fee nonce KindSlash 0 ev). split; [done|].
  split; [by eapply (deliver url s kp (λ n, literal _ _ _ n _ _ _))|]. by split_and!.
Qed.

Lemma deliver_register : delivers CRegister.
Proof.
  intros url s args c c' Hn _ Hrpc Hne E. cbn in E. unfold register in E. start_in E Hrpc Hne.
  step_in E ipattern:(bond) Eb. apply mustU64_OK in Eb as [-> Eb]. step_in E ipattern:([]) Ep. apply print_OK in Ep as ->.
  step_in E ipattern:(work) Ew. apply searched_OK in Ew as [-> Ew]. step_in E ipattern:(fee) Ef. apply mustU64opt_OK in Ef as [-> Ef].
  step_in E ipattern:(nonce) En. step_in E ipattern:([]) Es. apply print_OK in E as ->.
  exists kp, (literal "" bond fee nonce KindRegister 0 (be_bytes 8 work)). split; [done|].
  split; [apply delivered_printed; eapply delivered_from; by eapply (deliver url s kp (λ n, literal _ _ _ n _ _ _))|].
  unfold Regpow.Solve in Ew. change (cp_RegPoWBits Mainnet <=? 0) with false in Ew. cbv iota in Ew.
  pose proof (search_word _ _ _ _ zero_word Ew) as Hw64. apply search_sound in Ew.
  cbv beta iota zeta delta [carries]. change (tx_Data (signTx _ kp)) with (be_bytes 8 work).
  split; [split; reflexivity|]. split; [exact Ef|]. split; [exact Eb|]. split; [unfold zlen; by rewrite length_be_bytes|].
  rewrite <- (app_nil_r (be_bytes 8 work)), word_at_front by done. exact Ew.
Qed.

Lemma deliver_faucet : delivers CFaucet.
Proof.
  intros url s args c c' Hn Hh Hrpc Hne E. cbn in E. unfold faucetClaim in E. start_in E Hrpc Hne.
  cbv zeta in E. change (cp_FaucetAmount Mainnet =? 0) with false in E. cbv iota in E.
  step_in E ipattern:(b) Eb. apply (getJSON_OK w url RHead) in Eb as [-> (code & Hc & Eb)].
  rewrite bind_or_error in E. destruct b as [head|]; [|done].
  destruct (Hn (cl_clock c) RHead) as [k1 Ek]. rewrite Eb in Ek. symmetry in Ek. apply head_answer in Ek; [|done].
  change (sv_chain (P2p.set_clock k1 s)) with (sv_chain s) in Ek. subst head.
  set (H4 := hd_Height (ch_head (sv_chain s))) in *. change (cp_FaucetDepth Mainnet) with 4 in E. destruct (Z.ltb_spec H4 4) as [|Hge]; [done|].
  assert (is_u64 (H4 - 4)) as Hu by (unfold Chain_Height in Hh; fold H4 in Hh; unfold is_u64 in *; lia).
  step_in E ipattern:(b) Ebl. apply (getJSON_OK w url (RBlock (FormatUint (H4 - 4)))) in Ebl as [-> (code2 & Hc2 & Ebl)].
  rewrite bind_or_error in E. destruct b as [blk|]; [|done].
  match type of Ebl with w_net _ ?n _ _ = _ => destruct (Hn n (RBlock (FormatUint (H4 - 4)))) as [k2 Ek] end.
  rewrite Ebl in Ek. symmetry in Ek. apply block_answer in Ek; [|done..]. change (store_of (P2p.set_clock k2 s)) with (store_of s) in Ek.
  step_in E ipattern:([]) Ep. apply print_OK in Ep as ->.
  step_in E ipattern:(work) Ew. apply searched_OK in Ew as [-> Ew]. step_in E ipattern:(nonce) En.
  step_in E ipattern:([]) Es. apply print_OK in E as ->.
  exists kp, (literal "" 0 0 nonce KindFaucet 0 (be_bytes 8 (H4 - 4) ++ be_bytes 8 work)). split; [done|].
  split.
  { apply delivered_printed. destruct (deliver url s kp (λ n, literal "" 0 0 n KindFaucet 0 (be_bytes 8 (H4 - 4) ++ be_bytes 8 work)) _ _ _ _ _ Hn (λ _, eq_refl) En Es) as (Em & Ept & Hrest).
    split; [exact Em|]. split; [|exact Hrest]. rewrite Ept. unfold posted. cbn [printed bumped cl_requests].
    by rewrite !omap_app, !app_nil_r. }
  unfold Faucet.Solve in Ew. change (cp_FaucetBits Mainnet <=? 0) with false in Ew. cbv iota in Ew.
  pose proof (search_word _ _ _ _ zero_word Ew) as Hw64. apply search_sound in Ew.
  cbv beta iota zeta delta [carries]. change (tx_Data (signTx _ kp)) with (be_bytes 8 (H4 - 4) ++ be_bytes 8 work). fold H4.
  change (cp_FaucetDepth Mainnet) with 4. split; [split; reflexivity|]. split; [reflexivity|]. split; [reflexivity|].
  split; [unfold zlen; by rewrite length_app, !length_be_bytes|]. split; [by apply word_at_front|].
  exists (hd_BodyHash blk.1). split; [unfold BodyHashAt; rewrite Ek; by destruct blk|].
  rewrite drop_app_length' by by rewrite length_be_bytes. rewrite <- (app_nil_r (be_bytes 8 work)), word_at_front by done. exact Ew.
Qed.

Lemma command_delivers k : delivers k.
Proof.
  destruct k; [apply deliver_send|apply deliver_deploy|apply deliver_call|apply deliver_register|apply deliver_unregister
    |apply deliver_slash|apply deliver_faucet].
Qed.

(** What the ledger admits: signed by a key pair, enough funds. *)
Lemma signed_admitted t kp (s : State) : key_ok (kp_Priv kp) (kp_Pub kp) → ChainID (cfg s) = 1 →
  tx_Nonce t = ac_Nonce (Get s (KeyPair_Address kp)) → 0 <= tx_Amount t → 0 <= tx_Fee t →
  tx_Amount t + tx_Fee t < W64 → tx_Amount t + tx_Fee t <= ac_Balance (Get s (KeyPair_Address kp)) →
  CheckTx s (signTx t kp) = Ok tt.
Proof.
  intros Hk Hid Hn Ha Hf Hw Hb. unfold CheckTx. unfold signTx. rewrite tx_Sign_verifies by done. cbn [mbind res_bind].
  unfold IsCoinbase. cbn [tx_Sign tx_with_sig tx_From tx_ChainID tx_Nonce tx_Amount tx_Fee].
  rewrite (bool_decide_false _ (address_nonempty kp)), Hid, Hn. change (cp_ChainID Mainnet =? 1) with true.
  rewrite Z.eqb_refl. cbn [negb]. rewrite u64_small by (unfold is_u64; lia).
  rewrite (proj2 (Z.ltb_ge _ _)) by lia. rewrite (proj2 (Z.ltb_ge _ _)) by lia. reflexivity.
Qed.

(** Nothing stands in the way of a payment: the wallet opens, the amounts are numbers, the
    sender has the funds, the node serves this client and has room.  Then [send] ends well. *)
Theorem send_succeeds (args : list string) (url : string) (s : Server) (c : Cli) (kp : KeyPair) (amount fee : Z)
  (Hnode : node_at url s) (Hb : ∀ t, is_banned t clientIP (sv_bans s) = false)
  (Hrpc : flagVal args "rpc" = url) (Hne : url ≠ "")
  (Hw : wallet_of env_pass args (cl_machine c) kp) (Hkey : key_ok (kp_Priv kp) (kp_Pub kp))
  (Ha : Sscanf_d (flagVal args "amount") = Some amount) (Hf : number args "fee" 0 = Some fee)
  (Hsum : 0 <= amount ∧ 0 <= fee ∧ amount + fee < W64)
  (Hid : ChainID (cfg (P2p.ledger s)) = 1) (Hfunds : amount + fee <= ac_Balance (Get (P2p.ledger s) (KeyPair_Address kp)))
  (Hroom : Len (sv_pool s) < p_limit (sv_pool s)) :
  ∃ c', command w rand keygen env_pass fuel "send" args c = OK c' tt.
Proof.
  change (command w rand keygen env_pass fuel "send" args) with (send w env_pass args). unfold send.
  assert (rpcOf w args c = OK c url) as E1 by (unfold rpcOf; by rewrite Hrpc, bool_decide_false by done).
  rewrite (bind_ok _ _ _ _ _ E1).
  assert (load_wallet env_pass args c = OK c kp) as E2 by (unfold load_wallet, on_machine; rewrite Hw; by destruct c).
  rewrite (bind_ok _ _ _ _ _ E2). unfold mustU64. rewrite bind_or_error, Ha.
  assert (mustU64opt args "fee" 0 c = OK c fee) as E3.
  { unfold mustU64opt, number in *. cbv zeta. case_bool_decide; [by injection Hf as ->|]. unfold mustU64. by rewrite Hf. }
  rewrite (bind_ok _ _ _ _ _ E3).
  destruct (Hnode (cl_clock c) (RAccount (KeyPair_Address kp))) as [k1 Ek1]. rewrite account_served in Ek1 by done.
  set (n := ac_Nonce (Get (P2p.ledger s) (KeyPair_Address kp))).
  assert (fetchNonce w url (KeyPair_Address kp) c = OK (bumped url (RAccount (KeyPair_Address kp)) c) n) as E4.
  { unfold fetchNonce, getJSON, must_http, http, mbind, M_bind. rewrite Ek1. done. }
  rewrite (bind_ok _ _ _ _ _ E4). set (tx := signTx _ kp).
  assert (CheckTx (P2p.ledger s) tx = Ok tt) as Hck by (apply signed_admitted; try done; simpl; lia).
  destruct (Hnode (S (cl_clock c)) (RTx (Some tx))) as [k2 Ek2]. rewrite tx_served in Ek2 by done.
  unfold submit, must_http, http, mbind, M_bind. cbn [bumped cl_clock]. rewrite Ek2. by eexists.
Qed.

(** [C15] A command of [slctl] that ends well has done what it says.  Run [send], [deploy],
    [call], [register], [unregister], [slash] or [faucet] with [--rpc] at a node: when the
    exit code is 0, exactly one transaction was posted, it is signed by the wallet's key and
    bound to the main network, its nonce is the one of the node's ledger, it carries what the
    flags and files say, with the proof of work the ledger checks, and the node has checked
    it and put it into its pool.  The files of the machine are as they were. *)
Theorem commands_reach_pool (k : tx_command) (args : list string) (url : string) (s : Server) (c c' : Cli)
  (Hnode : node_at url s) (Hh : is_u64 (Chain_Height (sv_chain s)))
  (Hrpc : flagVal args "rpc" = url) (Hne : url ≠ "")
  (E : command w rand keygen env_pass fuel (command_name k) args c = OK c' tt) :
  ∃ kp tx, wallet_of env_pass args (cl_machine c) kp ∧
    cl_machine c' = cl_machine c ∧ posted c' = posted c ++ [(url, tx)] ∧
    tx_From tx = KeyPair_Address kp ∧ tx_PubKey tx = kp_Pub kp ∧ tx_Sig tx = KeyPair_Sign kp (SigningBytes tx) ∧
    tx_ChainID tx = 1 ∧ tx_Nonce tx = ac_Nonce (Get (P2p.ledger s) (tx_From tx)) ∧
    carries k args (mc_files (cl_machine c)) (cl_out c') s tx ∧
    CheckTx (P2p.ledger s) tx = Ok tt ∧
    ∃ i s', node_serves (RTx (Some tx)) (P2p.set_clock i s) = OK s' (StatusOK, Some (tx_Hash tx)) ∧
      sv_chain s' = sv_chain s ∧ p_byID (sv_pool s') = <[tx_Hash tx := tx]> (p_byID (sv_pool s)).
Proof.
  rewrite command_runs in E. destruct (command_delivers k url s args c c' Hnode Hh Hrpc Hne E) as (kp & t & Hw & (Em & Ep & En & Hck & Hpool) & Hc).
  exists kp, (signTx t kp). split_and!; [exact Hw|exact Em|exact Ep|reflexivity|reflexivity|reflexivity|reflexivity|exact En|exact Hc|exact Hck|exact Hpool].
Qed.
End commands.

(** ** A concrete run *)

(** A node at [http://n] whose ledger gives [demo_key] ten coins. *)
Definition rich_ledger : State :=
  MkState {[ KeyPair_Address demo_key := account (10 * Coin) ]} ∅ 4 (10 * Coin) ∅ [] (MkConfig 1 0 0 0 0 0 "" None 0 0 0 None None).
Definition rich_server : Server := server_of (set_ledger rich_ledger chain0).
Definition rich_net : nat → string → ∀ r, option (reply r) := λ _ url r,
  if bool_decide (url = "http://n") then answered (@serve demo_platform plain_code quiet bob_engine 5 16 9 true "1.2.3.4" r rich_server) else None.
Definition cli_world : World := world_of rich_net noon.

Definition wallet_machine : Machine := MkMachine
  {[ "w.json" := wallet_text (MkWallet (b64_text (kp_Priv demo_key)) (b64_text (kp_Pub demo_key)) (KeyPair_Address demo_key)) ]} 0.
Definition cli0 : Cli := MkCli wallet_machine 0 [] [].
Definition send_args : list string := ["--wallet"; "w.json"; "--to"; bob; "--amount"; "3"; "--fee"; "1"; "--rpc"; "http://n"].
Lemma rich_runs : @runs_node demo_platform plain_code quiet bob_engine 5 16 9 true "1.2.3.4" cli_world "http://n" rich_server.
Proof. intros n r. exists 0%nat. reflexivity. Qed.

Lemma commands_reach_pool_witness : ∃ c' tx,
  command cli_world demo_rand demo_keygen "" 0 "send" send_args cli0 = OK c' tt ∧ posted c' = [("http://n", tx)] ∧
  tx_From tx = KeyPair_Address demo_key ∧ tx_To tx = bob ∧ tx_Amount tx = 3 ∧ tx_Nonce tx = 0 ∧ CheckTx rich_ledger tx = Ok tt.
Proof.
  assert (is_OK (command cli_world demo_rand demo_keygen "" 0 "send" send_args cli0) = true) as Hok by (vm_compute; reflexivity).
  destruct (command cli_world demo_rand demo_keygen "" 0 "send" send_args cli0) as [c' []| |] eqn:E; [|discriminate Hok..].
  destruct (@commands_reach_pool demo_platform plain_code demo_codec cli_world demo_rand demo_keygen "" 0 quiet bob_engine 5 16 9 true "1.2.3.4" CSend send_args "http://n" rich_server cli0 c')
    as (kp & tx & Hw & _ & Hp & Hf & _ & _ & _ & Hn & Hc & Hck & _).
  - exact rich_runs.
  - split; [discriminate|reflexivity].
  - reflexivity.
  - discriminate.
  - exact E.
  - assert (kp = demo_key) as ->.
    { unfold wallet_of in Hw. revert Hw. vm_compute. intros [= <-]. reflexivity. }
    destruct Hc as (_ & Hto & Ha & _). exists c', tx. split; [reflexivity|]. split; [exact Hp|]. split; [exact Hf|].
    split; [exact Hto|]. split; [revert Ha; vm_compute; intros [= <-]; reflexivity|]. split; [rewrite Hn, Hf; vm_compute; reflexivity|exact Hck].
Defined.

Lemma send_succeeds_witness : ∃ c', @command demo_platform demo_codec cli_world demo_rand demo_keygen "" 0 "send" send_args cli0 = OK c' tt.
Proof.
  apply (@send_succeeds demo_platform plain_code demo_codec cli_world demo_rand demo_keygen "" 0 quiet bob_engine 5 16 9 true "1.2.3.4"
    send_args "http://n" rich_server cli0 demo_key 3 1).
  - exact rich_runs.
  - intros t. reflexivity.
  - reflexivity.
  - discriminate.
  - vm_compute. reflexivity.
  - split; [vm_compute; reflexivity|intros msg; reflexivity].
  - vm_compute. reflexivity.
  - vm_compute. reflexivity.
  - split; [discriminate|]. split; [discriminate|reflexivity].
  - reflexivity.
  - vm_compute. discriminate.
  - vm_compute. reflexivity.
Defined.
