(* ===== verification/Payment.v ===== *)
(** * A payment, end to end

    From [slctl send] to the balances: the command leaves its transaction in the pool of
    the node it asks, the node's next block holds it, and the ledger after that block has
    moved the amount and the fee. *)

From S2P Require Import Prelude Sha256 Crypto Base64 AesGcm Wallet Economy Merkle Netparams Types Pow Bloom State StateInv StateBlock StateRules StateStore Demo Mempool Strconv Consensus Erasure Chain ChainProps ChainShards ChainReorg ChainAccept Peers P2p NetDemo P2pProps Node NodeProps NodePool Slctl SlctlProps.

Local Abbreviation M := Prelude.M.

(** What the producer of a block gets on top. *)
Definition with_income (v : Address) (income : Z) (get : Address → Account) (a : Address) : Account :=
  if decide (a = v) then (if 0 <? income then add_balance income (get a) else get a) else get a.

Section block.
Context `{Platform}.

(** A block with one transfer, made by [v]. *)
Lemma block_of_one blk s s' t v : let income := u64 (NextReward s (hd_Height (b_Header blk)) + total_fees [t]) in
  is_transfer (tx_Kind t) → IsCoinbase t = false → b_Txs blk = with_coinbase v income [t] → hd_Validator (b_Header blk) = v →
  ApplyBlock blk s = OK s' tt → ∀ a, Get s' a = with_income v income (transferred t (Get s)) a.
Proof.
  intros income Hk Hc Et Hv E a. apply ApplyBlock_inv in E as (cb & txs & x & fees & x' & Ec & Es & Hcb & ->).
  pose proof (applyTxs_fixed s _ _ _ _ _ _ _ (fixed_refl (xst0 s)) Es) as (_ & Em & _).
  assert (txs = [t] ∧ cb = if 0 <? income then Some (MkTx "" v income 0 0 0 0 0 [] [] []) else None) as [-> ->].
  { revert Ec. rewrite Et. unfold with_coinbase. destruct (0 <? income); simpl; [|rewrite Hc]; by intros [= <- <-]. }
  apply applyTxs_cons in Es as (x1 & _ & Ek & Er). apply applyTxs_nil in Er as [<- ->].
  assert (∀ b, acc x b = transferred t (Get s) b) as Hx.
  { intros b. exact (transfer_acc _ _ _ (xst0 s) x tt Hk Ek b). }
  unfold coinbase_result in Hcb. cbv zeta in Hcb. rewrite Em, Hv in Hcb.
  change (BlockReward (hd_Height (b_Header blk)) (Minted s) + u64 (0 + tx_Fee t)) with (NextReward s (hd_Height (b_Header blk)) + total_fees [t]) in Hcb.
  fold income in Hcb. change (Get (set_head (hd_Height (b_Header blk)) (x_logs x') (x_s x')) a) with (acc x' a). unfold with_income.
  destruct (Z.ltb_spec 0 income) as [Hi|Hi].
  - destruct Hcb as (_ & _ & ->). change (acc (on_state ?f (put ?p ?q ?r)) a) with (acc (put p q r) a). cbn [tx_To tx_Amount]. rewrite acc_put.
    destruct (decide (v = a)) as [->|Hne]; [rewrite decide_True by done; by rewrite Hx|]. rewrite decide_False by done. by rewrite snapped_acc.
  - destruct Hcb as [->|[Hp _]]; [|lia]. rewrite Hx. by case_decide.
Qed.
End block.

(** Adding one transaction to a pool. *)
Lemma Len_insert p id t : Len (MkPool (<[id:=t]> (p_byID p)) (p_limit p)) <= Len p + 1.
Proof.
  unfold Len. simpl. destruct (p_byID p !! id) eqn:E.
  - rewrite map_size_insert_Some by eauto. lia.
  - rewrite map_size_insert_None by done. lia.
Qed.

Section payment.
Context `{Platform} `{ReedSolomon} `{WalletCodec}.
(** The client's network and machine, and the node's. *)
Context (w : World) (rand : nat → Z → option bytes) (keygen : nat → option KeyPair) (env_pass : string) (fuelC : nat).
Context (W : World) (cfg : NodeConfig) (kpN : KeyPair) (order : nat → Server → list Transaction * list Address) (fuel : nat) (clientIP : string).
Context (Hord : ∀ k s, reap_orders (sv_pool s) (order k s).1 (order k s).2).

Definition node_answers (url : string) (n : Node) : Prop :=
  runs_node W (node_engine cfg kpN) (block_time cfg) (cp_FinalityDepth Mainnet) fuel (is_postorage cfg) clientIP w url (nd_srv n).
Definition node_serves (n : Node) (t : Transaction) (s' : Server) : Prop := ∃ i,
  serve W (node_engine cfg kpN) (block_time cfg) (cp_FinalityDepth Mainnet) fuel (is_postorage cfg) clientIP (RTx (Some t)) (P2p.set_clock i (nd_srv n)) =
    OK s' (StatusOK, Some (tx_Hash t)).

(** A batch of one transaction only, and with it, is that transaction. *)
Lemma reaped_alone n k t : pool_wf (pool_of n) → words n → (∀ u, pooled u n → u = t) → t ∈ reaped order n k → reaped order n k = [t].
Proof.
  intros Hw Hu Hone Ht. destruct (Reap_contiguous (ledger_of n) _ _ _ 1000 (Hord k (P2p.set_clock k (nd_srv n))) Hu eq_refl) as (_ & _ & Hn & _).
  destruct (reaped_pooled order Hord n k Hw Hu) as (Hlen & Hin & _). fold (reaped order n k) in Hn.
  assert (Forall (λ u, u = t) (reaped order n k)) as Hall by (apply Forall_forall; intros u Hu'; by apply Hone, Hin).
  destruct (Hn (tx_From t)) as [m Hm].
  rewrite filter_all in Hm by (eapply Forall_impl; [exact Hall|]; by intros u ->).
  destruct (reaped order n k) as [|x [|y r]]; [by apply elem_of_nil in Ht|by apply Forall_cons in Hall as [-> _]|].
  exfalso. apply Forall_cons in Hall as [-> Hall]. apply Forall_cons in Hall as [-> _].
  destruct (Z.le_gt_cases m 0) as [Hm0|Hm0]; [by rewrite (seqZ_nil _ m) in Hm|].
  rewrite seqZ_cons in Hm by done. destruct (Z.le_gt_cases (Z.pred m) 0) as [Hm1|Hm1]; [by rewrite (seqZ_nil _ (Z.pred m)) in Hm|].
  rewrite seqZ_cons in Hm by done. cbn [fmap list_fmap] in Hm. injection Hm as E1 E2 _. rewrite E1 in E2. revert E2.
  generalize (ac_Nonce (Get (ledger_of n) (tx_From t))). intros z. unfold u64, W64. intros E2.
  Z.to_euclidean_division_equations. lia.
Qed.

(** [C14] A payment settles.  [slctl send] ended well against a node that has room in its
    batch, and whose pool holds nothing of the sender.  Then it posted one transaction, of
    the wallet's key, with the receiver, amount and fee of the flags, and the node has it in
    its pool.  When the next tick of that node's block timer moves its tip, the new block
    holds the payment and its ledger has executed it; the pool has let go of it and no
    check admits it again.  If nothing else was pooled, the accounts after the block are
    those before it, with the amount and the fee taken from the sender, whose nonce is
    one higher, the amount given to the receiver, and the subsidy and the fee to the
    producer. *)
Theorem payment_settles (n : Node) (url : string) (args : list string) (c c' : Cli)
  (Hnode : node_answers url n) (Hh : is_u64 (Chain_Height (chain_of n))) (Hrpc : flagVal args "rpc" = url) (Hne : url ≠ "")
  (Hb : bloom_ok (chain_of n)) (Hw : pool_wf (pool_of n)) (Hu : words n) (Hroom : Len (pool_of n) < 999)
  (Hone : ∀ kp u, wallet_of env_pass args (cl_machine c) kp → pooled u n → tx_From u ≠ KeyPair_Address kp)
  (E : command w rand keygen env_pass fuelC "send" args c = OK c' tt) :
  ∃ kp t s', wallet_of env_pass args (cl_machine c) kp ∧ posted c' = posted c ++ [(url, t)] ∧ node_serves n t s' ∧
    tx_From t = KeyPair_Address kp ∧ tx_To t = flagVal args "to" ∧
    Sscanf_d (flagVal args "amount") = Some (tx_Amount t) ∧ number args "fee" 0 = Some (tx_Fee t) ∧
    ∀ n1 n2, nd_srv n1 = s' → maybeProduce W cfg kpN order fuel n1 = OK n2 tt → ch_head (chain_of n2) ≠ ch_head (chain_of n) →
      ∃ blk, ch_head (chain_of n2) = b_Header blk ∧ ApplyBlock blk (ledger_of n) = OK (ch_state (chain_of n2)) tt ∧ t ∈ payload blk ∧
        p_byID (pool_of n2) !! tx_Hash t = None ∧ CheckTx (ch_state (chain_of n2)) t = Err ErrBadNonce ∧
        (p_byID (pool_of n) = ∅ → payload blk = [t] ∧
         let income := u64 (NextReward (ledger_of n) (u64 (hd_Height (ch_head (chain_of n)) + 1)) + total_fees [t]) in
         ∀ a, Get (ch_state (chain_of n2)) a = with_income (KeyPair_Address kpN) income (transferred t (Get (ledger_of n))) a).
Proof.
  change "send" with (command_name CSend) in E. rewrite command_runs in E.
  destruct (deliver_send w env_pass fuelC W (node_engine cfg kpN) (block_time cfg) (cp_FinalityDepth Mainnet) fuel (is_postorage cfg) clientIP
    url (nd_srv n) args c c' Hnode Hh Hrpc Hne E) as (kp & t0 & Hwal & (_ & Hpost & Hnon & _ & i & s' & Hs & Hch & Hpool) & (Hkind & _) & Hto & Ham & Hfee).
  exists kp, (signTx t0 kp), s'. split_and!; [done|done|by exists i|done|done|done|exact Hfee|]. set (t := signTx t0 kp) in *.
  intros n1 n2 E1 Ep Hmoved. subst s'.
  assert (IsCoinbase t = false) as Hcb by (apply bool_decide_eq_false; apply address_nonempty).
  assert (pool_of n1 = MkPool (<[tx_Hash t:=t]> (p_byID (pool_of n))) (p_limit (pool_of n1))) as Hpl by (unfold pool_of; rewrite <- Hpool; by destruct (sv_pool (nd_srv n1))).
  assert (chain_of n1 = chain_of n) as Ec by exact Hch.
  assert (ledger_of n1 = ledger_of n) as El by (unfold ledger_of, P2p.ledger; by rewrite Hch).
  assert (pool_wf (pool_of n1)) as Hw1.
  { rewrite Hpl. intros id u. simpl. intros [[<- <-]|[_ Hl]]%lookup_insert_Some; [done|by apply Hw]. }
  assert (words n1) as Hu1 by (unfold words; by rewrite El).
  assert (∀ u, pooled u n1 → u = t ∨ pooled u n) as Hpld.
  { intros u. unfold pooled. rewrite Hpl. simpl. intros [[_ ->]|[_ Hl]]%lookup_insert_Some; [by left|by right]. }
  assert (next_up t n1) as Hnx.
  { split; [unfold pooled; rewrite Hpl; apply lookup_insert_eq|]. split; [rewrite El; exact Hnon|].
    intros u [->|Hin]%Hpld Hf; [done|]. by destruct (Hone kp u Hwal Hin). }
  assert (Len (pool_of n1) < 1000) as Hl1 by (rewrite Hpl; pose proof (Len_insert (MkPool (p_byID (pool_of n)) (p_limit (pool_of n1))) (tx_Hash t) t); simpl in *; unfold Len in *; simpl in *; lia).
  destruct (tick_block W cfg kpN order fuel Hord n1 n2) as [[Hh2 _]|(k & blk & Et & Ey & Hlen & Ehh & Ehv & Eh & Ea & _ & Hp2)];
    [by rewrite Ec|done|done|done|by rewrite Hh2, Ec in Hmoved|].
  rewrite El in Ea. rewrite Ec in Et, Ehh. pose proof (next_reaped order Hord n1 k t Hw1 Hu1 Hl1 Hnx) as Hin.
  exists blk. split; [exact Eh|]. split; [exact Ea|]. split; [by rewrite Ey|]. split.
  { rewrite Hp2, Remove_lookup, decide_True; [done|by apply list_elem_of_fmap_2]. }
  split; [apply (applied_refused _ _ _ t Ea Hu Hlen); by rewrite Ey|]. intros Hempty.
  assert (reaped order n1 k = [t]) as Er.
  { apply reaped_alone; try done. intros u [->|Hin']%Hpld; [done|]. unfold pooled in Hin'. by rewrite Hempty in Hin'. }
  split; [by rewrite Ey|]. pose proof (block_of_one blk (ledger_of n) (ch_state (chain_of n2)) t (Node.self kpN)) as B. cbv zeta in B |- *. rewrite Ehh in B.
  apply B; [|exact Hcb| |exact Ehv|exact Ea]; [left; by rewrite Hkind|]. rewrite Et, Er. reflexivity.
Qed.
End payment.

(** ** A concrete payment *)

(** Bob's node on the main network, whose ledger gives [demo_key] ten coins. *)
Definition rich_node : Node :=
  MkNode (server_of (set_ledger (set_Validators {[ bob := MkValidator 0 true 0 false 0 0 ]} rich_ledger) chain1)) None None.
Abbreviation serve_bob := (@serve demo_platform plain_code quiet (node_engine postorage_cfg bob_key) (block_time postorage_cfg)
  (cp_FinalityDepth Mainnet) 0 (is_postorage postorage_cfg) "1.2.3.4").
Definition bob_net : nat → string → ∀ r, option (reply r) := λ _ url r,
  if bool_decide (url = "http://n") then answered (serve_bob r (nd_srv rich_node)) else None.
Definition pay_args : list string := ["--wallet"; "w.json"; "--to"; alice; "--amount"; "3"; "--fee"; "1"; "--rpc"; "http://n"].
Abbreviation pay_command := (@command demo_platform demo_codec (world_of bob_net noon) demo_rand demo_keygen "" 0 "send" pay_args cli0).
Definition pay_tx : Transaction := signTx (literal alice 3 1 0 KindTransfer 0 []) demo_key.

Lemma rich_answers : @node_answers demo_platform plain_code (world_of bob_net noon) quiet postorage_cfg bob_key 0 "1.2.3.4" "http://n" rich_node.
Proof. intros n r. exists 0%nat. reflexivity. Qed.

Lemma rich_words : words rich_node.
Proof.
  intros a. unfold ledger_of, P2p.ledger, Get, acct_of. simpl. destruct (decide (KeyPair_Address demo_key = a)) as [<-|].
  - rewrite lookup_singleton_eq. split; reflexivity || discriminate.
  - rewrite lookup_singleton_ne by done. split; reflexivity || discriminate.
Qed.

(** Whenever the payment arrives, the next tick makes block 5. *)
Lemma rich_produces i : match serve_bob (RTx (Some pay_tx)) (P2p.set_clock i (nd_srv rich_node)) with
  | OK s' _ => match @maybeProduce demo_platform plain_code quiet postorage_cfg bob_key visit_order 0 (MkNode s' None None) with
               | OK n2 _ => hd_Height (ch_head (chain_of n2)) =? 5 | _ => false end
  | _ => false end = true.
Proof. vm_compute. reflexivity. Qed.

Lemma payment_settles_witness : ∃ c' n2, pay_command = OK c' tt ∧ posted c' = [("http://n", pay_tx)] ∧
  hd_Height (ch_head (chain_of n2)) = 5 ∧
  ac_Balance (Get (ch_state (chain_of n2)) alice) = 3 ∧
  ac_Balance (Get (ch_state (chain_of n2)) (KeyPair_Address demo_key)) = 10 * Coin - 4 ∧
  ac_Balance (Get (ch_state (chain_of n2)) bob) = 50 * Coin + 1.
Proof.
  assert (match pay_command with OK c' _ => bool_decide (posted c' = [("http://n", pay_tx)]) | _ => false end = true) as Hok by (vm_compute; reflexivity).
  destruct pay_command as [c' []| |] eqn:E; [|discriminate Hok..]. apply bool_decide_eq_true in Hok.
  destruct (@payment_settles demo_platform plain_code demo_codec (world_of bob_net noon) demo_rand demo_keygen "" 0 quiet postorage_cfg bob_key
    visit_order 0 "1.2.3.4" visit_order_ok rich_node "http://n" pay_args cli0 c') as (kp & t & s' & _ & Hp & [i Hs] & _ & _ & _ & _ & Hn).
  - exact rich_answers.
  - split; [discriminate|reflexivity].
  - reflexivity.
  - discriminate.
  - by apply no_bloom.
  - intros id t. done.
  - exact rich_words.
  - reflexivity.
  - intros kp u _ Hu. discriminate Hu.
  - exact E.
  - rewrite Hok in Hp. injection Hp as Ht. subst t. pose proof (rich_produces i) as Hr. rewrite Hs in Hr.
    destruct (@maybeProduce demo_platform plain_code quiet postorage_cfg bob_key visit_order 0 (MkNode s' None None)) as [n2 []| |] eqn:E2; [|discriminate Hr..].
    apply Z.eqb_eq in Hr.
    destruct (Hn (MkNode s' None None) n2 eq_refl E2) as (blk & _ & _ & _ & _ & _ & Ha); [intros Eq; rewrite Eq in Hr; discriminate Hr|].
    destruct (Ha eq_refl) as [_ Hacc]. cbv zeta in Hacc. exists c', n2. split; [reflexivity|]. split; [exact Hok|]. split; [exact Hr|].
    rewrite !Hacc. split; [vm_compute; reflexivity|]. split; vm_compute; reflexivity.
Defined.
