(* ===== verification/ContractTools.v ===== *)
(** * The contract tools, end to end

    From an SHL source file to the ledger and back: [slctl compile] writes the code,
    [slctl deploy] sends it, the ledger stores it at the address that was printed, and
    [slctl call] builds the call data the compiled dispatcher reads. *)

From S2P Require Import Prelude Sha256 Crypto Base64 AesGcm Wallet Economy Merkle Netparams Types Pow Vm VmProps Shl ShlParse ShlSem ShlGen ShlCorrect State StateInv StateStore Demo Mempool Strconv Consensus Erasure Chain ChainProps Peers P2p NetDemo P2pProps Node NodeProps Slctl SlctlProps.

(** ** Code as text *)

(** The text [compile] writes is the code [deploy] reads. *)
Lemma deploy_reads code : hex_decode (TrimSpace (trim_prefix (bytes_of "0x") (hex_encode code))) = Some code.
Proof.
  unfold trim_prefix. rewrite bool_decide_false; [by rewrite TrimSpace_hex_encode, hex_decode_encode|].
  intros E. pose proof (hex_encode_digits code) as Hd. rewrite <- (take_drop (length (bytes_of "0x")) (hex_encode code)), E, forallb_app in Hd.
  discriminate Hd.
Qed.

Section compile.
Context `{Platform} `{WalletCodec} (w : World).
Context (rand : nat → Z → option bytes) (keygen : nat → option KeyPair) (env_pass : string) (fuel : nat).

Lemma compile_run args c c' : flagVal args "out" ≠ "" → command w rand keygen env_pass fuel "compile" args c = OK c' tt →
  ∃ src code, mc_files (cl_machine c) !! flagVal args "in" = Some src ∧ Compile src = Ok code ∧
    mc_files (cl_machine c') = <[flagVal args "out" := hex_encode code]> (mc_files (cl_machine c)).
Proof.
  intros Hne E. change (command w rand keygen env_pass fuel "compile" args) with (compileSHL args) in E. unfold compileSHL in E.
  apply bind_OK_inv in E as (src & c1 & [-> Hf]%read_file_OK & E). rewrite bind_lift in E.
  destruct (Compile src) as [code| |] eqn:Ec; [|done..]. cbv zeta in E. rewrite bool_decide_false in E by done. cbn [negb] in E.
  apply bind_OK_inv in E as ([] & c2 & Ew & E). apply print_OK in E as ->. apply OK_inj in Ew as [<- _].
  exists src, code. done.
Qed.
End compile.

(** ** On the ledger *)

Lemma deploy_effect `{Platform} t x x' : applyDeploy t x = OK x' tt →
  ac_Code (acc x' (ContractAddress (tx_From t) (tx_Nonce t))) = tx_Data t ∧
  ∀ b, b ≠ ContractAddress (tx_From t) (tx_Nonce t) → acc x' b = acc x b.
Proof.
  set (a := ContractAddress (tx_From t) (tx_Nonce t)). unfold applyDeploy. fold a. cbv zeta.
  rewrite (bind_ok (snap a) _ x (snapped a x) tt) by (unfold snap, snapped, modify; by destruct (x_saved x !! a)).
  rewrite (bind_ok _ _ _ _ _ (acct_run a _)), (bind_ok _ _ _ _ _ (write_present _ _ _ _ (has_touch a _))).
  rewrite (write_present a _ (set_Code (tx_Data t) (acc (snapped a x) a))) by (unfold has, put; simpl; apply lookup_insert_eq).
  intros [<- _]%OK_inj. split; [by rewrite acc_put, decide_True|].
  intros b Hb. by rewrite !acc_put, !decide_False, acc_touch, snapped_acc by done.
Qed.

Lemma ParseUint_word s n : ParseUint s = Some n → is_u64 n.
Proof.
  unfold ParseUint. assert (∀ l acc, is_u64 acc → parse_digits l acc = Some n → is_u64 n) as Hg.
  { induction l as [|b l IH]; intros acc Ha; cbn [parse_digits]; [by intros [= <-]|]. destruct (_ && _) eqn:E; [|done].
    destruct (Z.ltb_spec (acc * 10 + (bz b - 48)) W64); [|done]. apply IH. apply andb_prop in E as [?%Z.leb_le _].
    unfold is_u64 in *. lia. }
  destruct (bytes_of s) as [|b l]; [done|]. by apply Hg.
Qed.

(** ** The words of a call by name *)

Lemma Selector_word fn : is_u64 (Selector fn).
Proof.
  unfold Selector. pose proof (be_val_bound (take 8 (sha256 (bytes_of fn)))) as Hb.
  unfold zlen in Hb. rewrite length_take, length_sha256 in Hb. exact Hb.
Qed.

Lemma arg_words_u64 parts ws : arg_words parts = Some ws → Forall is_u64 ws.
Proof.
  unfold arg_words. intros E%mapM_Some. induction E as [|p v l k Hp _ IH]; constructor; [|done].
  unfold Sscanf_d in Hp. by apply ParseUint_word in Hp.
Qed.

Lemma call_words fn ws (Hws : Forall is_u64 ws) i v : zlen ws < 1000000 → (Selector fn :: ws) !! i = Some v →
  word (be8w (Selector fn) ++ (ws ≫= be8w)) (Z.of_nat i) = Ok v.
Proof.
  intros Hl Hi. assert (is_u64 v) as Hv.
  { destruct i; [injection Hi as <-; apply Selector_word|]. eapply Forall_lookup_1; [exact Hws|exact Hi]. }
  assert (zlen (be8w (Selector fn) ++ (ws ≫= be8w)) = 8 * zlen (Selector fn :: ws)) as Hlen.
  { unfold zlen. change (be8w (Selector fn) ++ (ws ≫= be8w)) with ((Selector fn :: ws) ≫= be8w).
    generalize (Selector fn :: ws). induction l as [|x l IH]; [done|].
    change ((x :: l) ≫= be8w) with (be8w x ++ (l ≫= be8w)). rewrite length_app. unfold be8w at 1. rewrite length_be_bytes. cbn [length]. lia. }
  apply lookup_lt_Some in Hi as Hlt. unfold zlen in *. cbn [length] in *.
  rewrite word_spec by (unfold is_u64, W64, zlen; lia). cbv zeta. rewrite Z.mod_small by lia.
  rewrite (proj2 (Z.eqb_neq _ _)) by lia. unfold zlen. rewrite Hlen, (proj2 (Z.leb_le _ _)) by lia.
  replace (Z.to_nat (8 * Z.of_nat i)) with (8 * i)%nat by lia. f_equal. by apply named_call_words.
Qed.

(** ** The theorem *)

Section toolchain.
Context `{Platform} `{ReedSolomon} `{WalletCodec} (w : World).
Context (rand : nat → Z → option bytes) (keygen : nat → option KeyPair) (env_pass : string) (fuel : nat).
Context (W : World) (engine : State → Engine) (blockTime finalityDepth : Z) (nfuel : nat) (reorg : bool) (clientIP : string).
Abbreviation node_at := (runs_node W engine blockTime finalityDepth nfuel reorg clientIP w).
Abbreviation slctl := (command w rand keygen env_pass fuel).

(** [C16] From source to execution.  [compile] wrote a code file, [deploy] sent it through a node
    and ended well.  Then the ledger that executes the deployment holds the compiled code
    at the address that was printed, and touches no other account; and whatever [call]
    with a function name and arguments sends later, the contract reads the selector of that
    name and these arguments from it, in order, and the machine runs on it exactly as the
    source text says, whatever its storage, gas and caller. *)
Theorem toolchain (args_c args_d args_x : list string) (s s' : Server) (c c1 c2 c3 c4 c5 : Cli) (ws : list Z)
  (Hn : node_at (flagVal args_d "rpc") s) (Hn' : node_at (flagVal args_x "rpc") s')
  (Hh : is_u64 (Chain_Height (sv_chain s))) (Hh' : is_u64 (Chain_Height (sv_chain s')))
  (Hd : flagVal args_d "rpc" ≠ "") (Hx : flagVal args_x "rpc" ≠ "")
  (Hout : flagVal args_c "out" ≠ "") (Hsame : flagVal args_d "code" = flagVal args_c "out")
  (Ec : slctl "compile" args_c c = OK c1 tt)
  (Hkept : mc_files (cl_machine c2) !! flagVal args_c "out" = mc_files (cl_machine c1) !! flagVal args_c "out")
  (Ed : slctl "deploy" args_d c2 = OK c3 tt)
  (Hcall : flagVal args_x "data" = "" ∧ flagVal args_x "fn" ≠ "" ∧ flagVal args_x "args" ≠ "" ∧
    arg_words (split_on comma (bytes_of (flagVal args_x "args"))) = Some ws ∧ zlen ws < 1000000)
  (Ex : slctl "call" args_x c4 = OK c5 tt) :
  ∃ src code prog t t', mc_files (cl_machine c) !! flagVal args_c "in" = Some src ∧ Compile src = Ok code ∧ Parse src = Ok prog ∧
    posted c3 = posted c2 ++ [(flagVal args_d "rpc", t)] ∧ posted c5 = posted c4 ++ [(flagVal args_x "rpc", t')] ∧
    let addr := ContractAddress (tx_From t) (tx_Nonce t) in
    last (cl_out c3) = Some (Text (str_cat ["contract address: "; addr])) ∧
    (∀ hd i x x', applyKind hd i t x = OK x' tt → ac_Code (acc x' addr) = code ∧ ∀ b, b ≠ addr → acc x' b = acc x b) ∧
    tx_Kind t' = KindCall ∧ tx_To t' = flagVal args_x "to" ∧
    (∀ i v, (Selector (flagVal args_x "fn") :: ws) !! i = Some v → word (tx_Data t') (Z.of_nat i) = Ok v) ∧
    (zlen code < 9223372036854775808 →
     ∀ (H : Type) (storage : gmap Z Z) (bstore : option (gmap Z bytes)) (gas : Z) (ctx : Context H) (h : H),
       ExecuteB code (tx_Data t') storage bstore gas ctx h = Interpret (tx_Data t') gas ctx prog storage bstore h).
Proof.
  destruct Hcall as (Hdata & Hfn & Ha & Hws & Hlen).
  apply compile_run in Ec as (src & code & Hsrc & Hcode & Hfiles); [|done].
  change (slctl "deploy") with (slctl (command_name CDeploy)) in Ed. change (slctl "call") with (slctl (command_name CCall)) in Ex.
  rewrite command_runs in Ed, Ex.
  destruct (command_delivers w env_pass fuel W engine blockTime finalityDepth nfuel reorg clientIP CDeploy _ s _ _ _ Hn Hh eq_refl Hd Ed)
    as (kp & t & _ & (_ & Hp & _) & (Hk & _) & _ & _ & (raw & Hraw & Hhex) & Hlast).
  destruct (command_delivers w env_pass fuel W engine blockTime finalityDepth nfuel reorg clientIP CCall _ s' _ _ _ Hn' Hh' eq_refl Hx Ex)
    as (kp' & t' & _ & (_ & Hp' & _) & (Hk' & _) & _ & Hto & _ & Hcd).
  rewrite Hsame, Hkept, Hfiles, lookup_insert_eq in Hraw. injection Hraw as <-. rewrite deploy_reads in Hhex. injection Hhex as Hdat.
  assert (∃ prog, Parse src = Ok prog) as [prog Hprog] by (unfold Compile in Hcode; destruct (Parse src) as [prog| |]; [by exists prog|done..]).
  exists src, code, prog, (signTx t kp), (signTx t' kp').
  split; [done|]. split; [done|]. split; [done|]. split; [done|]. split; [done|]. cbv zeta. split; [exact Hlast|].
  split; [|split; [exact Hk'|split; [exact Hto|split]]].
  - intros hd i x x' E. unfold applyKind in E. rewrite Hk in E. cbn [Z.eqb Pos.eqb KindDeploy] in E. pose proof (deploy_effect _ _ _ E) as [E1 E2].
    split; [rewrite E1; symmetry; exact Hdat|exact E2].
  - intros i v Hi. unfold calldata in Hcd. cbv zeta in Hcd. rewrite (bool_decide_true _ Hdata) in Hcd. cbn [negb] in Hcd.
    rewrite (bool_decide_false _ Ha), (bool_decide_false _ Hfn), Hws in Hcd. cbn [mbind option_bind] in Hcd.
    assert (tx_Data (signTx t' kp') = be8w (Selector (flagVal args_x "fn")) ++ (ws ≫= be8w)) as -> by congruence. apply call_words; [by eapply arg_words_u64|done|done].
  - intros Hsmall H' storage bstore gas ctx h. destruct (compiled_runs src code Hcode Hsmall) as (prog' & Hprog' & _ & Hrun).
    rewrite Hprog in Hprog'. injection Hprog' as <-. apply Hrun.
Qed.
End toolchain.

(** ** A concrete run *)

(** [slctl compile], [deploy] and [call] of a counter, against the node at [http://n]. *)
Definition tool_machine : Machine :=
  MkMachine (<["c.shl" := counter_src]> (mc_files wallet_machine)) (mc_random wallet_machine).
Definition tool_cli : Cli := MkCli tool_machine 0 [] [].
Definition compile_args : list string := ["--in"; "c.shl"; "--out"; "c.hex"].
Definition deploy_args : list string := ["--wallet"; "w.json"; "--code"; "c.hex"; "--rpc"; "http://n"].
Definition call_args : list string :=
  ["--wallet"; "w.json"; "--to"; "contract"; "--fn"; "add"; "--args"; " 7 "; "--rpc"; "http://n"].
Definition slctl_demo : string → list string → Slctl.MC unit := @command demo_platform demo_codec cli_world demo_rand demo_keygen "" 0.
Definition three_runs : option (Cli * Cli * Cli) :=
  match slctl_demo "compile" compile_args tool_cli with
  | OK c1 _ =>
      match slctl_demo "deploy" deploy_args c1 with
      | OK c2 _ => match slctl_demo "call" call_args c2 with OK c3 _ => Some (c1, c2, c3) | _ => None end
      | _ => None
      end
  | _ => None
  end.

Lemma toolchain_witness : ∃ c1 c2 c3 t t',
  slctl_demo "compile" compile_args tool_cli = OK c1 tt ∧ slctl_demo "deploy" deploy_args c1 = OK c2 tt ∧
  slctl_demo "call" call_args c2 = OK c3 tt ∧ posted c3 = [("http://n", t); ("http://n", t')] ∧
  last (cl_out c2) = Some (Text (str_cat ["contract address: "; ContractAddress (tx_From t) (tx_Nonce t)])) ∧
  word (tx_Data t') 0 = Ok (Selector "add") ∧ word (tx_Data t') 1 = Ok 7.
Proof.
  assert (match three_runs with Some (c1, _, _) => bool_decide (posted c1 = []) | None => false end = true) as Hok by (vm_compute; reflexivity).
  unfold three_runs in Hok. destruct (slctl_demo "compile" compile_args tool_cli) as [c1 []| |] eqn:E1; [|discriminate Hok..].
  destruct (slctl_demo "deploy" deploy_args c1) as [c2 []| |] eqn:E2; [|discriminate Hok..].
  destruct (slctl_demo "call" call_args c2) as [c3 []| |] eqn:E3; [|discriminate Hok..]. apply bool_decide_eq_true in Hok.
  destruct (@toolchain demo_platform plain_code demo_codec cli_world demo_rand demo_keygen "" 0 quiet bob_engine 5 16 9 true "1.2.3.4"
    compile_args deploy_args call_args rich_server rich_server tool_cli c1 c1 c2 c2 c3 [7])
    as (src & code & prog & t & t' & _ & _ & _ & Hp & Hp' & Hl & _ & _ & _ & Hw & _).
  - exact rich_runs.
  - exact rich_runs.
  - split; [discriminate|reflexivity].
  - split; [discriminate|reflexivity].
  - discriminate.
  - discriminate.
  - discriminate.
  - reflexivity.
  - exact E1.
  - reflexivity.
  - exact E2.
  - split; [reflexivity|]. split; [discriminate|]. split; [discriminate|]. split; [vm_compute; reflexivity|reflexivity].
  - exact E3.
  - exists c1, c2, c3, t, t'. split; [reflexivity|]. split; [exact E2|]. split; [exact E3|]. split; [|split; [exact Hl|split]].
    + rewrite Hp', Hp, Hok. reflexivity.
    + exact (Hw 0%nat (Selector "add") eq_refl).
    + exact (Hw 1%nat 7 eq_refl).
Defined.
