(* ===== verification/Daemon.v ===== *)
(** * The daemon ([cmd/slnode/main.go], [New] of [internal/node/node.go])

    The process around a node: what is on the machine's disk, how a start reads it and
    what a stop leaves.  The flags are arguments, [log.Fatalf] is an error of the program. *)

From S2P Require Import Prelude Sha256 Crypto Base64 AesGcm Wallet Economy Merkle Netparams Types Bloom Vm State StateFrame Demo Mempool Erasure Chain ChainProps Peers P2p NetDemo Node NodeProps NodeRestart.

Local Abbreviation M := Prelude.M.

(** The files under the data directory, and the key file. *)
Record Disk := MkDisk { dk_machine : Machine; dk_store : Store; dk_state : option State; dk_filter : option Filter }.

Definition with_machine {A} (m : M Machine A) : M Disk A := λ d,
  let put x := MkDisk x (dk_store d) (dk_state d) (dk_filter d) in
  match m (dk_machine d) with OK x a => OK (put x) a | ERR x e => ERR (put x) e | PANIC x => PANIC (put x) end.

(** What a node has written. *)
Definition left_by (n : Node) (d : Disk) : Disk :=
  MkDisk (dk_machine d) (ch_store (sv_chain (nd_srv n))) (nd_saved n) (nd_filter n).

Definition in_node {A} (m : M Node A) (n : Node) : M Disk A := λ d,
  match m n with
  | OK n' a => OK (left_by n' d) a | ERR n' e => ERR (left_by n' d) e | PANIC n' => PANIC (left_by n' d)
  end.

Section daemon.
Context `{Platform} `{ReedSolomon} `{WalletCodec}.
(** The randomness, the environment, the home directory, the order of maps, the bound on walks. *)
Context (rand : nat → Z → option bytes) (keygen : nat → option KeyPair) (env_pass : string) (home : option string).
Context (order : nat → Server → list Transaction * list Address) (fuel : nat).

(** [node.New]: the identity, then the files of the data directory. *)
Definition New_node (c : NodeConfig) : M Disk (KeyPair * Node) :=
  id ← with_machine (LoadOrCreateWalletAuto rand keygen (nc_NodeKey c) env_pass);
  d ← get;
  mret (id, Node.New c id (dk_store d) (dk_state d) (dk_filter d)).

(** [main]: [file] is the configuration file, parsed, and [es] what happens until the
    interrupt. *)
Definition slnode (w : World) (showVer : bool) (file : option (option NodeConfig)) (es : list event) : M Disk unit :=
  if showVer then mret tt else
  c ← lift (LoadConfigOrMainnet home file);
  r ← New_node c;
  in_node (Run w c r.1 order fuel es) r.2.

Context (laws : codec_laws) (Hgen : ∀ n k, keygen n = Some k → key_pair k).

Lemma with_machine_OK {A} (m : M Machine A) d d' a : with_machine m d = OK d' a →
  ∃ x, m (dk_machine d) = OK x a ∧ d' = MkDisk x (dk_store d) (dk_state d) (dk_filter d).
Proof. unfold with_machine. destruct (m (dk_machine d)) as [x b| |]; [|done..]. intros [<- <-]%OK_inj. by exists x. Qed.

End daemon.

(** ** A concrete daemon *)

(** The network of [solo_cfg], whose key is made by the first start. *)
Definition demo_disk : Disk := MkDisk (MkMachine ∅ 0) store0 None small_filter.
Definition demo_daemon (es : list event) : M Disk unit :=
  @slnode demo_platform plain_code demo_codec demo_rand demo_keygen "" None pool_order 5 later false (Some (Some solo_cfg)) es.

